(* ===== verification/_CoqProject ===== *)
-Q . S2P
Prelude.v
GoStd.v
GoMath.v
ServeMux.v
Logging.v
Config.v
Metrics.v
Query.v
Telemetry.v
Expect.v
Probes.v
Egress.v
Ingress.v
Signals.v
System.v
Program.v
Refinement.v
Safety.v
Bee.v
BeeServers.v
