(* ===== verification/Prelude.v ===== *)
(** * Bunny: a verification development

    Bunny ([src/src/bunny]) is a sidecar for Kubernetes.  It probes other
    programs (egress), answers health checks with the value of PromQL queries
    over its own metrics (ingress), exports metrics and traces (telemetry),
    reloads its configuration when the file changes (config), and holds back
    the termination signal while a watched process runs (signals).  Bee
    ([src/src/bee/main.go]) is the small program the probes are tried on.

    ** The parts and how they interact

    [main] starts one goroutine per package.  config sends every
    configuration to the other four over channels of capacity one; egress and
    ingress wait for telemetry to announce that its providers are set up
    before they use a configuration; signals forwards the signal of the
    operating system to the other four, which return, and [main] waits for
    all of them.  egress makes probes of the configuration and starts them at
    every tick, each in a goroutine of its own; a probe counts and times its
    run through metrics.  ingress serves the health endpoints, whose queries
    go through telemetry's query engine.

    ** Files

    - [Prelude]: panics, the monad [go S A] of Go functions that change a
      state and may panic, loops and [defer], the logic [runs] of functions
      that return and keep an invariant, tactics, generic lemmas.
    - [GoStd]: 64-bit integers with wrap-around, [float64], byte strings,
      durations with [time.ParseDuration], slices over a heap of arrays.
    - [GoMath]: [math.Sin] and its constants, bit by bit in [float64].
    - [ServeMux]: [http.ServeMux] as of Go 1.22 (patterns with wildcards,
      conflicts, the routing tree, redirections) and [http.Server], for any
      type of handlers.
    - [Logging]: [logging/logging.go] and the default logger of [main].
    - [Config]: the structs of [config/*.go] and the goroutine [GoConfig].
    - [Metrics]: [telemetry/metrics.go] and the table of [common/common.go].
    - [Query]: [InstantQuery], [RangeQuery], [handleQueryResult] of
      [telemetry/telemetry.go].
    - [Telemetry]: [configureTelemetry] and [GoTelemetry] of the same file.
    - [Expect]: [egress/expect.go] over a model of [bufio].
    - [Probes]: [egress/probe.go] and the four [egress/probe-*.go].
    - [Egress]: [egress/egress.go].
    - [Ingress]: [ingress/health-endpoint.go] and [ingress/ingress.go].
    - [Signals]: [signals/signals.go].
    - [System]: [main.go] and the channel operations of all goroutines, with
      a configuration reduced to its number.
    - [Program]: the same goroutines with the states and handlers of their
      packages, the configurations in the channels, the runs of probes and the
      requests, as one executable step function [exec_prog].
    - [Refinement]: [Program] refines [System], and what follows for every run
      that has not panicked.
    - [Safety]: sane configurations and a sane environment never make
      [Program] panic.
    - [Bee]: the conversation, the handlers and the time waster of
      [bee/main.go].
    - [BeeServers]: its servers and [main], and bunny's probes against them.

    ** How the code is read

    A package's variables are a record ([Config.State], [EgressState],
    [IngressState], ...), a pointer or interface that can be nil is an
    [option], and a Go function is a function of the state with the outcome
    [Returned] or [Panicked].  A goroutine's loop is a function of one wake-up
    ([GoConfig_step], [GoEgress_step], [GoIngress_step], [GoTelemetry_step],
    [GoSignals_step]), its run a fold over the wake-ups.  Sends are appended to
    a list in the state, and so are the calls on instruments, spans and
    contexts ([calls] of [Telem]), so that theorems speak about what is called
    and in which order.  The clock is an argument: each reading of it is one
    parameter.  In [Bee], where the code sleeps, it is part of the state: it
    moves by an arbitrary amount at each reading, a sleep lasts at least what
    was asked for, and what was not asked for is added up.  The deadline of a
    context is a time that is handed to the call made under it.  A function
    that waits in its middle for a channel ([updateConfig], the update of
    [GoIngress]) is the composition of what comes before and after the wait
    ([updateConfig_receive] and [updateConfig_continue], [GoIngress_receive]
    and [GoIngress_continue]); [Program] runs the two in different steps.
    Log output is left out, except in [Logging].

    Third-party code is a parameter: YAML decoding and SHA-256 in [Config],
    the meter and the registry (class [MetricLibs]; which metrics the registry
    accepts beside which others is documented, and [RegistryLaws] says it:
    valid names and labels, and one set of label names for each name), the
    PromQL engine ([Engine], which is given the database, may return an error
    and may panic), exporters and database ([TelemetryEnv]), the regular
    expressions (class [Regexp]; the package belongs to Go, its matching is
    kept abstract), the letters beyond ASCII in the names of wildcards (class
    [UnicodeTables]), connections (classes [Conn] and [ConnLaws]), the health
    client of gRPC, the list of processes, the SDK's [Shutdown], and in
    [BeeServers] the health service of gRPC ([HealthLib], [HealthLaws]), the
    instrumentation of HTTP handlers ([HTTPInstrumentation] and its laws) and
    the clients that reach bee ([Network]; [reaches] says what they document
    for an exchange that is over before its deadline).  What all of them answer
    to the run of a probe is a [RunEnv].  Every class has an instance at the end
    of the file that uses it, on which the theorems with hypotheses are
    evaluated.

    ** What is shown

    - Health endpoints: a query's value is judged healthy exactly as the README
      says, but for strings with a space and matrices with histograms, for
      which theorems show the difference ([Query]); a request to a configured
      endpoint is answered 200 or 503 accordingly, at most one server listens,
      none after a signal, and when starting the server panics is
      characterised ([Ingress]).
    - Probes: each [act] counts one attempt, counts a success and sets the
      span's status by the outcome, and releases what it took; a send step puts
      exactly its text on the wire and a receive step judges exactly one
      message, whatever the buffering, so that what one conversation sends
      another receives ([Probes], [Expect]).
    - Metrics: successes plus running operations never exceed attempts, under
      every interleaving; a response time is observed once ([Metrics]).
    - Configuration: who is sent what at the first load and at a reload
      ([Config]); what an update installs in egress, when it completes and
      when it crashes ([Egress]); what telemetry makes visible and in which
      order ([Telemetry]); the expression that is watched and the moment a signal is
      forwarded ([Signals]).
    - The channels: in every schedule egress and ingress stay behind
      telemetry, [main] returns last, a shutdown without a configuration on
      its way ends within eleven steps; one with a configuration on its way
      may never end ([System]).
    - The whole program: each package states a contract of its turns (the
      lemmas named [_contract] of [Config], [Telemetry], [Signals], [Egress],
      [Ingress]), and against these contracts every run that does not panic is
      followed by a run of [System].  So what the packages have set up is that
      of the current configuration whenever the program is at rest, which
      decides which probes run and what a health request is answered; the
      probes and the server are never those of a newer configuration than
      telemetry's providers; and a program that has ended has shut everything
      down ([Refinement]).
    - With sane configurations and libraries no schedule panics and every
      request is answered ([Safety]).
    - Bee: the recursive time waster returns, not early and late by no more
      than the delays of its sleeps, with its spans ended; the health endpoint
      spends at most a second besides the delays and fails in one second of a
      hundred; and the HTTP, gRPC and TCP probes of the sample configuration
      pass against the running bee when their exchanges are over in time
      ([Bee], [BeeServers]).
    - Behaviour that differs from the documentation or crashes the program is
      stated by theorems beside the others, for example
      [invalid_endpoint_answers_200], [shutdown_can_hang],
      [exec_overlap_env], [updateConfig_no_action_panics],
      [bee_tcp_listen_error_panics].

    ** Bounds and fuel

    - The send loop of [Expect] and of [Bee] runs on fuel: the length of the
      text.  A turn of the loop without an error writes everything that is
      left, so that the fuel is never used up ([SendStep_succeeds]).
    - [bufio.Reader]'s reads run on fuel given by the reads a connection can
      still answer; [ReceiveStep_judges_one_message] shows it is enough.
    - [time.ParseDuration]'s loop runs on the length of the text, which each
      turn shortens ([parse_components_fuel]).
    - [bufio.Writer]'s loop runs three turns at most: it fills the buffer,
      writes what does not fit directly, and keeps the rest ([Expect]).
    - [timeWaster] makes each name longer than its caller's and stops at a
      name that is too long, which bounds its depth by twelve
      ([timeWaster_stops_on_time]); [checkHealth] calls it with that fuel.
    - The client of [BeeServers] follows redirections in at most ten requests,
      which is the limit of Go's client.
    - A turn of a goroutine between two channel operations, the run of a probe
      and a request are one step of [Program] each; how the parts of several
      runs interleave is followed by [Metrics] (the counters) and [Probes] (the
      environment slice).
    - The wait of [GoSignals] is a function of the snapshots seen so far; it
      has no bound in the code and none here.

    ** What is not modelled

    - The text of log messages and the program counters in log records;
      [logConfigBeingUsed] only logs.
    - The reduction of large arguments in [math.Sin], which the arguments of
      bee never need; it is a parameter.
    - Patterns of [http.ServeMux] with a method or a host, which the programs
      cannot make: all of theirs start with a slash.
    - The answers of the two handlers of promhttp, which are only names, and
      the default registry of the client library behind the first of them.
    - What [Shutdown] of the server waits for, and its error.
    - The setting of socket options by the kernel: a [Dialer] carries them.
    - The tracing provider of bee, apart from its tracer, and what bee does
      when it gets a signal, which is to return.
    - Memory reclaimed by the collector (the settings are
      [memory_settings]) and data races on package variables between the HTTP
      handlers and the loop of ingress. *)

From stdpp Require Export prelude gmap strings pretty.
From Stdlib Require Export ZArith Lia.

(** ** Panics and the effect of a Go function

    A Go function that can change the program's state and can panic is a
    function [S → outcome A * S].  The state reached when a panic starts is
    kept, because deferred calls still run on it. *)

Inductive panic :=
| NilDereference
| IndexOutOfRange
| NonPositiveTicker
| InvalidPattern (pattern : string)
| PatternConflict (pattern : string)
| MustRegisterFailed (name : string)
| NegativeWaitGroup
| PanicCall (msg : string).

Inductive outcome (A : Type) :=
| Returned (a : A)
| Panicked (p : panic).
Arguments Returned {A} _.
Arguments Panicked {A} _.

#[global] Instance panic_eq_dec : EqDecision panic.
Proof. solve_decision. Defined.

#[global] Instance outcome_eq_dec A `{EqDecision A} : EqDecision (outcome A).
Proof. solve_decision. Defined.

Definition go (S A : Type) : Type := S → outcome A * S.

#[global] Instance go_ret S : MRet (go S) := λ A a s, (Returned a, s).

#[global] Instance go_bind S : MBind (go S) := λ A B k m s,
  match m s with
  | (Returned a, s') => k a s'
  | (Panicked p, s') => (Panicked p, s')
  end.

Definition throw {S A} (p : panic) : go S A := λ s, (Panicked p, s).
Definition get {S} : go S S := λ s, (Returned s, s).
Definition gets {S A} (f : S → A) : go S A := λ s, (Returned (f s), s).
Definition modify {S} (f : S → S) : go S unit := λ s, (Returned tt, f s).
(** A call that changes nothing of the state. *)
Definition of_outcome {S A} (o : outcome A) : go S A := λ s, (o, s).

(** [*p] for a pointer read as an option. *)
Definition deref {S A} (p : option A) : go S A :=
  match p with Some a => mret a | None => throw NilDereference end.

(** [defer f(); body]: [f] runs on the state the body ends in, also when the
    body panics. *)
Definition deferred {S A} (f : S → S) (body : go S A) : go S A := λ s,
  match body s with (r, s') => (r, f s') end.

(** [for _, x := range l { body(x) }] for a body without early exit. *)
Fixpoint range_loop {S A} (body : A → go S unit) (l : list A) : go S unit :=
  match l with
  | [] => mret tt
  | x :: l' => body x ;; range_loop body l'
  end.

(** A step on one half of a pair of states. *)
Definition on_fst {S T A} (m : go S A) : go (S * T) A := λ st,
  match m st.1 with (r, s') => (r, (s', st.2)) end.
Definition on_snd {S T A} (m : go T A) : go (S * T) A := λ st,
  match m st.2 with (r, t') => (r, (st.1, t')) end.

(** A fallible function returns a sum; the first error ends the sequence. *)
#[global] Instance sum_bind E : MBind (sum E) := λ A B k m,
  match m with inl e => inl e | inr a => k a end.

(** The program has panicked. *)
Definition is_panic {A} (o : outcome A) : bool :=
  match o with Panicked _ => true | Returned _ => false end.

(** ** Automation *)

Create HintDb bunny.
Create Rewrite HintDb bunny_rw.

(** Unfold the monad on a goal (or everywhere) and compute. *)
Ltac go_unfold :=
  unfold mbind, mret, go_bind, go_ret, throw, get, gets, modify, deref,
    deferred, on_fst, on_snd in *; simpl in *.

(** ** Lemmas on the monad *)

Lemma range_loop_app {S A} (body : A → go S unit) l1 l2 s :
  range_loop body (l1 ++ l2) s =
  match range_loop body l1 s with
  | (Returned _, s') => range_loop body l2 s'
  | (Panicked p, s') => (Panicked p, s')
  end.
Proof.
  revert s; induction l1 as [|x l1 IH]; intros s; simpl; [done|].
  unfold mbind, go_bind. destruct (body x s) as [[[]|p] s']; [apply IH|done].
Qed.

(** A loop whose body never panics and acts on the state as [f] is a fold. *)
Lemma range_loop_foldl {S A} (body : A → go S unit) (f : S → A → S) l s :
  (∀ x s, body x s = (Returned tt, f s x)) →
  range_loop body l s = (Returned tt, foldl f s l).
Proof.
  intros Hb; revert s; induction l as [|x l IH]; intros s; simpl; [done|].
  unfold mbind, go_bind. by rewrite Hb, IH.
Qed.

(** An invariant of the body is an invariant of the loop. *)
Lemma range_loop_inv {S A} (P : S → Prop) (body : A → go S unit) l s :
  (∀ x s, x ∈ l → P s → P (body x s).2) → P s → P (range_loop body l s).2.
Proof.
  revert s; induction l as [|x l IH]; intros s Hb HP; simpl; [done|].
  unfold mbind, go_bind.
  pose proof (Hb x s ltac:(left) HP) as Hx.
  destruct (body x s) as [[[]|p] s'] eqn:E; [|done].
  apply IH; [|done]. intros y s2 Hy. apply Hb. by right.
Qed.

(** *** Functions that return

    [runs I m Q]: from a state with the invariant [I] the function [m] returns,
    without a panic, a value with [Q], and keeps the invariant. *)
Definition runs {S A} (I : S → Prop) (m : go S A) (Q : A → Prop) : Prop :=
  ∀ s, I s → ∃ a s', m s = (Returned a, s') ∧ I s' ∧ Q a.

Section runs.
Context {S : Type} (I : S → Prop).

Lemma runs_ret {A} (a : A) (Q : A → Prop) : Q a → runs I (mret a) Q.
Proof. intros HQ s Hs. by exists a, s. Qed.

Lemma runs_bind {A B} (m : go S A) (k : A → go S B) P Q :
  runs I m P → (∀ a, P a → runs I (k a) Q) → runs I (m ≫= k) Q.
Proof.
  intros Hm Hk s Hs. unfold mbind, go_bind. destruct (Hm s Hs) as (a & s' & -> & Hs' & HP).
  by apply Hk.
Qed.

Lemma runs_weaken {A} (m : go S A) (P Q : A → Prop) :
  runs I m P → (∀ a, P a → Q a) → runs I m Q.
Proof. intros Hm HPQ s Hs. destruct (Hm s Hs) as (a & s' & ? & ? & ?). exists a, s'. auto. Qed.

Lemma runs_modify (f : S → S) Q : (∀ s, I s → I (f s)) → Q tt → runs I (modify f) Q.
Proof. intros Hf HQ s Hs. exists tt, (f s). auto. Qed.

Lemma runs_deref {A} (p : option A) a (Q : A → Prop) : p = Some a → Q a → runs I (deref p) Q.
Proof. intros -> HQ. by apply runs_ret. Qed.

Lemma runs_deferred {A} (f : S → S) (m : go S A) Q :
  (∀ s, I s → I (f s)) → runs I m Q → runs I (deferred f m) Q.
Proof.
  intros Hf Hm s Hs. unfold deferred. destruct (Hm s Hs) as (a & s' & -> & Hs' & HQ).
  exists a, (f s'). auto.
Qed.

Lemma runs_on_snd {T A} (J : T → Prop) (m : go T A) Q :
  runs J m Q → runs (λ st : S * T, J st.2) (on_snd m) Q.
Proof.
  intros Hm [s t] Ht. unfold on_snd. cbn in *. destruct (Hm t Ht) as (a & t' & -> & Ht' & HQ).
  by exists a, (s, t').
Qed.

Lemma runs_on_fst {T A} (J : T → Prop) (m : go S A) Q :
  runs (λ _, True) m Q → runs (λ st : S * T, J st.2) (on_fst m) Q.
Proof.
  intros Hm [s t] Ht. unfold on_fst. cbn in *. destruct (Hm s Logic.I) as (a & s' & -> & _ & HQ).
  by exists a, (s', t).
Qed.
End runs.

#[export] Hint Resolve runs_ret : bunny.

(** ** Generic lemmas on maps and lists *)

(** Filling a map in list order: the last binding of a key wins. *)
Definition map_of_bindings {K V} `{Countable K} (l : list (K * V)) : gmap K V :=
  foldl (λ m kv, <[kv.1 := kv.2]> m) ∅ l.

Lemma foldl_insert_reverse {K V} `{Countable K} (l : list (K * V)) (m : gmap K V) :
  foldl (λ m kv, <[kv.1 := kv.2]> m) m l = list_to_map (reverse l) ∪ m.
Proof.
  revert m; induction l as [|[k v] l IH]; intros m; simpl.
  - by rewrite (left_id_L ∅ (∪)).
  - rewrite IH, reverse_cons, list_to_map_app. simpl.
    rewrite <-(assoc_L (∪)). f_equal.
    by rewrite insert_empty, <-insert_union_singleton_l.
Qed.

Lemma map_of_bindings_reverse {K V} `{Countable K} (l : list (K * V)) :
  map_of_bindings l = list_to_map (reverse l).
Proof. unfold map_of_bindings. by rewrite foldl_insert_reverse, (right_id_L ∅ (∪)). Qed.

Lemma map_of_bindings_app_eq {K V} `{Countable K} (l1 l2 : list (K * V)) k v :
  k ∉ l2.*1 → map_of_bindings (l1 ++ (k, v) :: l2) !! k = Some v.
Proof.
  intros Hk. rewrite map_of_bindings_reverse, reverse_app, reverse_cons.
  rewrite <-(assoc_L (++)), list_to_map_app, lookup_union_r.
  - simpl. by rewrite lookup_insert_eq.
  - apply not_elem_of_list_to_map_1. rewrite fmap_reverse. by rewrite elem_of_reverse.
Qed.

Lemma map_of_bindings_None {K V} `{Countable K} (l : list (K * V)) k :
  map_of_bindings l !! k = None ↔ k ∉ l.*1.
Proof.
  rewrite map_of_bindings_reverse, <-not_elem_of_list_to_map, fmap_reverse.
  by rewrite elem_of_reverse.
Qed.

