(* ===== verification/GoStd.v ===== *)
(** * The parts of the Go language and standard library the program uses

    64-bit integers and their wrap-around, [float64] through the
    standard library's IEEE-754 model, byte strings ([strings], [path],
    conversions between bytes and strings), [time.Duration] with
    [time.ParseDuration], and slices with their shared backing arrays. *)

From S2P Require Import Prelude.
From Stdlib Require Import SpecFloat Ascii String.

Local Open Scope Z_scope.

(** ** Errors *)

Inductive error :=
| errorString (msg : string)
| InvalidDuration (orig : string)
| MissingUnit (orig : string)
| UnknownUnit (unit orig : string)
| DeadlineExceeded
| ErrNotExist
| EOF
| ErrShortWrite
| ErrNoProgress
| ErrServerClosed
| ExternalError (what : string).

#[global] Instance error_eq_dec : EqDecision error.
Proof. solve_decision. Defined.

(** ** [int], [int64] and [time.Duration]: two's complement at 64 bits *)

Definition int64_min : Z := - 2 ^ 63.
Definition int64_max : Z := 2 ^ 63 - 1.
Definition is_int64 (z : Z) : Prop := int64_min ≤ z ≤ int64_max.
Definition wrap64 (z : Z) : Z := (z + 2 ^ 63) mod 2 ^ 64 - 2 ^ 63.
Definition uwrap64 (z : Z) : Z := z mod 2 ^ 64.

(** ** [float64] *)

Definition float64 : Type := spec_float.
Definition float64_of_Z (z : Z) : float64 := binary_normalize 53 1024 z 0 false.
Definition fmul (x y : float64) : float64 := SFmul 53 1024 x y.
Definition fdiv (x y : float64) : float64 := SFdiv 53 1024 x y.
Definition feqb (x y : float64) : bool := SFeqb x y.
Definition float64_one : float64 := float64_of_Z 1.

(** [uint64(x)] for a non-negative finite [x]: truncation. *)
Definition Z_of_float64 (x : float64) : Z :=
  match x with
  | S754_finite s m e =>
      let a := if 0 <=? e then Z.pos m * 2 ^ e else Z.pos m / 2 ^ (- e) in
      if s then - a else a
  | _ => 0
  end.

(** ** Times and durations, in nanoseconds

    A [time.Time] is an instant on an unbounded line; [Add] is exact on it.
    [Sub] saturates at the [Duration] bounds, as the library documents. *)

Definition Nanosecond : Z := 1.
Definition Microsecond : Z := 1000.
Definition Millisecond : Z := 1000000.
Definition Second : Z := 1000000000.
Definition Minute : Z := 60 * Second.
Definition Hour : Z := 3600 * Second.

(** [time.Duration(n) * time.Millisecond] *)
Definition duration_ms (n : Z) : Z := wrap64 (n * Millisecond).
(** [d.Milliseconds()] *)
Definition Milliseconds (d : Z) : Z := Z.quot d Millisecond.
Definition time_Add (t d : Z) : Z := t + d.
Definition time_Sub (t u : Z) : Z := Z.max int64_min (Z.min int64_max (t - u)).
Definition time_Before (t u : Z) : bool := t <? u.

(** ** Byte strings *)

Abbreviation bytes := (list ascii).
Abbreviation to_bytes := list_ascii_of_string.
Abbreviation of_bytes := string_of_list_ascii.

Definition byte_is (n : Z) (c : ascii) : bool := Z.of_N (N_of_ascii c) =? n.
Definition byte_in (lo hi : Z) (c : ascii) : bool :=
  let n := Z.of_N (N_of_ascii c) in (lo <=? n) && (n <=? hi).
Definition is_digit (c : ascii) : bool := byte_in 48 57 c.
Definition digit_val (c : ascii) : Z := Z.of_N (N_of_ascii c) - 48.

(** [strings.ToLower] and [strings.ToUpper] on the ASCII letters.  The
    program only compares the results with ASCII words or uses them on ASCII
    literals, and no other character maps to a letter of those words. *)
Definition lower_byte (c : ascii) : ascii :=
  if byte_in 65 90 c then ascii_of_N (N_of_ascii c + 32) else c.
Definition upper_byte (c : ascii) : ascii :=
  if byte_in 97 122 c then ascii_of_N (N_of_ascii c - 32) else c.
Fixpoint string_map (f : ascii → ascii) (s : string) : string :=
  match s with
  | EmptyString => EmptyString
  | String c s' => String (f c) (string_map f s')
  end.
Definition ToLower (s : string) : string := string_map lower_byte s.
Definition ToUpper (s : string) : string := string_map upper_byte s.

(** [strings.Index(s, sub)]: -1 when [sub] does not occur. *)
Definition strings_Index (s sub : string) : Z :=
  match String.index 0 sub s with Some n => Z.of_nat n | None => -1 end.

(** [strings.Split(s, sep)] for a separator of one byte. *)
Fixpoint split_bytes (sep : ascii) (cur : bytes) (s : bytes) : list bytes :=
  match s with
  | [] => [reverse cur]
  | c :: s' =>
      if Ascii.eqb c sep then reverse cur :: split_bytes sep [] s'
      else split_bytes sep (c :: cur) s'
  end.
Definition strings_Split (s : string) (sep : ascii) : list string :=
  of_bytes <$> split_bytes sep [] (to_bytes s).

(** [strings.TrimSuffix] *)
Fixpoint is_suffix_of (suf s : bytes) : bool :=
  if decide (suf = s) then true
  else match s with [] => false | _ :: s' => is_suffix_of suf s' end.
Definition TrimSuffix (s suf : bytes) : bytes :=
  if is_suffix_of suf s then take (List.length s - List.length suf) s else s.

(** [string(b)] for a byte [b]: the UTF-8 encoding of the code point [b]. *)
Definition string_of_byte (b : ascii) : bytes :=
  let n := N_of_ascii b in
  if (n <? 128)%N then [b]
  else [ascii_of_N (192 + n / 64); ascii_of_N (128 + n mod 64)].

(** [utf8.ValidString] *)
Fixpoint ValidString (s : bytes) : bool :=
  match s with
  | [] => true
  | c :: s1 =>
      if byte_in 0 127 c then ValidString s1
      else match s1 with
      | [] => false
      | c1 :: s2 =>
          if byte_in 194 223 c then byte_in 128 191 c1 && ValidString s2
          else match s2 with
          | [] => false
          | c2 :: s3 =>
              let lo := if byte_is 224 c then 160 else if byte_is 240 c then 144 else 128 in
              let hi := if byte_is 237 c then 159 else if byte_is 244 c then 143 else 191 in
              if byte_in 224 239 c then byte_in lo hi c1 && byte_in 128 191 c2 && ValidString s3
              else match s3 with
              | [] => false
              | c3 :: s4 =>
                  byte_in 240 244 c && byte_in lo hi c1 && byte_in 128 191 c2 && byte_in 128 191 c3
                  && ValidString s4
              end
          end
      end
  end.

(** [fmt.Sprintf("%d", n)] and [fmt.Sprintf("%v", n)] on an [int]. *)
Definition Sprint_int (n : Z) : string := pretty n.

(** ** [path.Clean] and [path.Dir] *)

Definition slash : ascii := "/"%char.

(** The stack of kept elements, innermost first. *)
Definition clean_step (rooted : bool) (out : list string) (elem : string)
  : list string :=
  if decide (elem = ""%string) then out
  else if decide (elem = "."%string) then out
  else if decide (elem = ".."%string) then
    match out with
    | top :: rest => if decide (top = ".."%string) then elem :: out else rest
    | [] => if rooted then [] else [elem]
    end
  else elem :: out.

Definition path_Clean (p : string) : string :=
  if decide (p = ""%string) then "."%string else
  let rooted := String.prefix "/" p in
  let out := foldl (clean_step rooted) [] (strings_Split p slash) in
  let body := String.concat "/" (reverse out) in
  if rooted then ("/" +:+ body)%string
  else if decide (body = ""%string) then "."%string else body.

(** The bytes up to and including the last slash. *)
Fixpoint dir_part (s : bytes) : bytes :=
  match s with
  | [] => []
  | c :: s' =>
      match dir_part s' with
      | [] => if Ascii.eqb c slash then [c] else []
      | d => c :: d
      end
  end.
Definition path_Dir (p : string) : string := path_Clean (of_bytes (dir_part (to_bytes p))).

(** ** [time.ParseDuration] *)

(** The digits at the front, or [None] on overflow. *)
Fixpoint leadingInt (x : Z) (s : bytes) : option (Z * bytes) :=
  match s with
  | [] => Some (x, [])
  | c :: s' =>
      if is_digit c then
        if x >? 2 ^ 63 / 10 then None
        else
          let x' := x * 10 + digit_val c in
          if x' >? 2 ^ 63 then None else leadingInt x' s'
      else Some (x, s)
  end.

Fixpoint leadingFraction (x : Z) (scale : float64) (overflow : bool) (s : bytes)
  : Z * float64 * bytes :=
  match s with
  | [] => (x, scale, [])
  | c :: s' =>
      if is_digit c then
        if overflow then leadingFraction x scale true s'
        else if x >? (2 ^ 63 - 1) / 10 then leadingFraction x scale true s'
        else
          let y := x * 10 + digit_val c in
          if y >? 2 ^ 63 then leadingFraction x scale true s'
          else leadingFraction y (fmul scale (float64_of_Z 10)) false s'
      else (x, scale, s)
  end.

Definition is_unit_byte (c : ascii) : bool := negb (byte_is 46 c || is_digit c).

Fixpoint span_unit (s : bytes) : bytes * bytes :=
  match s with
  | c :: s' =>
      if is_unit_byte c then let '(u, r) := span_unit s' in (c :: u, r) else ([], s)
  | [] => ([], [])
  end.

(** The byte strings of the micro sign (U+00B5) and of the Greek letter mu
    (U+03BC), followed by "s". *)
Definition micro_s : string := of_bytes [ascii_of_N 194; ascii_of_N 181; "s"%char].
Definition mu_s : string := of_bytes [ascii_of_N 206; ascii_of_N 188; "s"%char].

Definition unitMap (u : string) : option Z :=
  if decide (u = "ns"%string) then Some Nanosecond
  else if decide (u = "us"%string) then Some Microsecond
  else if decide (u = micro_s) then Some Microsecond
  else if decide (u = mu_s) then Some Microsecond
  else if decide (u = "ms"%string) then Some Millisecond
  else if decide (u = "s"%string) then Some Second
  else if decide (u = "m"%string) then Some Minute
  else if decide (u = "h"%string) then Some Hour
  else None.

(** One turn of the loop: a number and its unit are consumed and its value,
    in nanoseconds, is returned. *)
Definition parse_component (orig : string) (s : bytes) : error + Z * bytes :=
  match s with
  | [] => inl (InvalidDuration orig)
  | c :: _ =>
      if negb (byte_is 46 c || is_digit c) then inl (InvalidDuration orig)
      else match leadingInt 0 s with
      | None => inl (InvalidDuration orig)
      | Some (v, s1) =>
          let pre := negb (List.length s =? List.length s1)%nat in
          let '(f, scale, s2, post) :=
            match s1 with
            | d :: s1' =>
                if byte_is 46 d then
                  let '(f, scale, s2) := leadingFraction 0 float64_one false s1' in
                  (f, scale, s2, negb (List.length s1' =? List.length s2)%nat)
                else (0, float64_one, s1, false)
            | [] => (0, float64_one, s1, false)
            end in
          if negb pre && negb post then inl (InvalidDuration orig)
          else
            let '(u, rest) := span_unit s2 in
            match u with
            | [] => inl (MissingUnit orig)
            | _ =>
                match unitMap (of_bytes u) with
                | None => inl (UnknownUnit (of_bytes u) orig)
                | Some unit =>
                    if v >? 2 ^ 63 / unit then inl (InvalidDuration orig)
                    else
                      let v1 := v * unit in
                      let v2 :=
                        if f >? 0 then
                          v1 + Z_of_float64 (fmul (float64_of_Z f)
                                 (fdiv (float64_of_Z unit) scale))
                        else v1 in
                      if (f >? 0) && (v2 >? 2 ^ 63) then inl (InvalidDuration orig)
                      else inr (v2, rest)
                end
            end
      end
  end.

(** The loop; every turn consumes at least one byte, so the length of the
    text is enough fuel. *)
Fixpoint parse_components (fuel : nat) (orig : string) (d : Z) (s : bytes)
  : error + Z :=
  match s, fuel with
  | [], _ => inr d
  | _, O => inl (InvalidDuration orig)
  | _, S fuel' =>
      match parse_component orig s with
      | inl e => inl e
      | inr (v, rest) =>
          let d' := uwrap64 (d + v) in
          if d' >? 2 ^ 63 then inl (InvalidDuration orig)
          else parse_components fuel' orig d' rest
      end
  end.

Definition ParseDuration (text : string) : error + Z :=
  let s0 := to_bytes text in
  let '(neg, s) :=
    match s0 with
    | c :: s' =>
        if byte_is 45 c then (true, s') else if byte_is 43 c then (false, s')
        else (false, s0)
    | [] => (false, s0)
    end in
  if decide (s = to_bytes "0") then inr 0
  else match s with
  | [] => inl (InvalidDuration text)
  | _ =>
      match parse_components (List.length s) text 0 s with
      | inl e => inl e
      | inr d =>
          if neg then inr (wrap64 (- wrap64 d))
          else if d >? 2 ^ 63 - 1 then inl (InvalidDuration text)
          else inr d
      end
  end.

(** ** Slices

    A slice is a window on a backing array of the heap; [append] writes in
    place while there is capacity left, so two slices of one array share the
    slot after their common prefix.  [grow c] is the capacity the runtime
    chooses when an array of capacity [c] is full. *)

Record slice := Slice { sl_ptr : nat; sl_len : nat; sl_cap : nat }.

Abbreviation heap A := (gmap nat (list A)).

Definition slice_elems {A} (h : heap A) (s : slice) : list A :=
  take (sl_len s) (default [] (h !! sl_ptr s)).

Definition slice_append {A} (grow : nat → nat) (zero : A) (s : slice) (x : A)
    (h : heap A) : slice * heap A :=
  if (sl_len s <? sl_cap s)%nat then
    (Slice (sl_ptr s) (S (sl_len s)) (sl_cap s),
     alter (λ a, <[sl_len s := x]> a) (sl_ptr s) h)
  else
    let cap := Nat.max (grow (sl_cap s)) (S (sl_len s)) in
    let p := fresh (dom h : gset nat) in
    (Slice p (S (sl_len s)) cap,
     <[p := slice_elems h s ++ x :: replicate (cap - S (sl_len s)) zero]> h).

(** The growth of Go 1.22 below 256 elements: double, starting from one. *)
Definition grow_double (c : nat) : nat := match c with O => 1 | _ => 2 * c end.

(** [[]T{}] *)
Definition slice_empty {A} (h : heap A) : slice * heap A :=
  let p := fresh (dom h : gset nat) in (Slice p 0 0, <[p := []]> h).

(** ** Regular expressions

    The program compiles expressions, asks for their source, and tests whether
    a text has a match ([MatchString], and [Find] against nil).  The matcher
    itself is a parameter. *)

Class Regexp := {
  regexp : Type;
  regexp_Compile : string → error + regexp;
  regexp_String : regexp → string;
  MatchString : regexp → bytes → bool }.

(** A small matcher with the common syntax for literals, [.] and [*]. *)
Inductive atom := AnyByte | Literal (c : ascii).
Definition atom_matches (a : atom) (c : ascii) : bool :=
  match a with AnyByte => true | Literal d => Ascii.eqb c d end.

Fixpoint simple_parse (s : bytes) : option (list (atom * bool)) :=
  match s with
  | [] => Some []
  | c :: s' =>
      if Ascii.eqb c "*"%char then None
      else
        let a := if Ascii.eqb c "."%char then AnyByte else Literal c in
        match s' with
        | d :: s'' =>
            if Ascii.eqb d "*"%char then cons (a, true) <$> simple_parse s''
            else cons (a, false) <$> simple_parse s'
        | [] => Some [(a, false)]
        end
  end.

Fixpoint match_here (ts : list (atom * bool)) (s : bytes) : bool :=
  match ts with
  | [] => true
  | (a, false) :: ts' =>
      match s with c :: s' => atom_matches a c && match_here ts' s' | [] => false end
  | (a, true) :: ts' =>
      (fix star s := match_here ts' s ||
         match s with c :: s' => atom_matches a c && star s' | [] => false end) s
  end.

Fixpoint match_anywhere (ts : list (atom * bool)) (s : bytes) : bool :=
  match_here ts s || match s with _ :: s' => match_anywhere ts s' | [] => false end.

Definition simple_regexp : Regexp := {|
  regexp := string * list (atom * bool);
  regexp_Compile src :=
    match simple_parse (to_bytes src) with
    | Some ts => inr (src, ts)
    | None => inl (errorString "missing argument to repetition operator")
    end;
  regexp_String r := r.1;
  MatchString r s := match_anywhere r.2 s |}.

(** A slice points at a live array of its capacity. *)
Definition slice_ok {A} (h : heap A) (s : slice) : Prop :=
  ∃ a, h !! sl_ptr s = Some a ∧ List.length a = sl_cap s ∧ (sl_len s ≤ sl_cap s)%nat.

(** ** Lemmas: machine integers and durations *)

Lemma wrap64_range z : is_int64 (wrap64 z).
Proof.
  unfold is_int64, int64_min, int64_max, wrap64.
  pose proof (Z.mod_pos_bound (z + 2 ^ 63) (2 ^ 64)). lia.
Qed.

Lemma wrap64_id z : is_int64 z → wrap64 z = z.
Proof.
  unfold is_int64, int64_min, int64_max, wrap64. intros ?.
  rewrite Z.mod_small; lia.
Qed.

(** The largest number of milliseconds a [Duration] holds. *)
Definition max_ms : Z := 9223372036854.

Lemma duration_ms_id n : - max_ms ≤ n ≤ max_ms → duration_ms n = n * Millisecond.
Proof.
  intros ?. apply wrap64_id.
  unfold is_int64, int64_min, int64_max, Millisecond, max_ms in *. lia.
Qed.

(** Beyond that the product wraps to a negative duration. *)
Lemma duration_ms_overflow n : max_ms < n < 2 * max_ms → duration_ms n < 0.
Proof.
  intros Hn. unfold duration_ms, wrap64, max_ms, Millisecond in *.
  rewrite (Z.mod_eq _ (2 ^ 64)) by lia.
  assert ((n * 1000000 + 2 ^ 63) / 2 ^ 64 = 1) as ->; [|lia].
  symmetry. apply (Z.div_unique_pos _ _ _ (n * 1000000 + 2 ^ 63 - 2 ^ 64)); lia.
Qed.

Lemma duration_ms_pos n : 0 < n ≤ max_ms → 0 < duration_ms n.
Proof.
  intros ?. rewrite duration_ms_id; unfold Millisecond, max_ms in *; lia.
Qed.

Lemma Milliseconds_duration_ms n :
  - max_ms ≤ n ≤ max_ms → Milliseconds (duration_ms n) = n.
Proof.
  intros ?. rewrite duration_ms_id by done.
  unfold Milliseconds, Millisecond. by rewrite Z.quot_mul.
Qed.

Lemma time_Sub_range t u : is_int64 (time_Sub t u).
Proof. unfold is_int64, time_Sub, int64_min, int64_max. lia. Qed.

#[export] Hint Resolve wrap64_range time_Sub_range : bunny.

(** ** Lemmas: [ParseDuration] *)

Lemma parse_components_range fuel orig d s r :
  0 ≤ d ≤ 2 ^ 63 → parse_components fuel orig d s = inr r → 0 ≤ r ≤ 2 ^ 63.
Proof.
  revert d s; induction fuel as [|fuel IH]; intros d [|c s] Hd;
    cbn [parse_components]; [by intros [= <-]|done|by intros [= <-]|].
  destruct (parse_component orig (c :: s)) as [e|[v rest]]; [done|].
  pose proof (Z.mod_pos_bound (d + v) (2 ^ 64)) as Hm.
  destruct (Z.gtb_spec (uwrap64 (d + v)) (2 ^ 63)); [done|].
  apply IH. unfold uwrap64 in *. lia.
Qed.

Lemma ParseDuration_range text d : ParseDuration text = inr d → is_int64 d.
Proof.
  unfold ParseDuration. repeat case_match; intros; simplify_eq.
  all: auto with bunny.
  all: try (unfold is_int64, int64_min, int64_max; lia).
  all: match goal with H : parse_components _ _ _ _ = inr _ |- _ =>
         apply parse_components_range in H; [|lia] end.
  all: match goal with H : (_ >? _) = false |- _ =>
         rewrite Z.gtb_ltb in H; apply Z.ltb_ge in H end.
  all: unfold is_int64, int64_min, int64_max; lia.
Qed.

Lemma leadingInt_length x s v r :
  leadingInt x s = Some (v, r) → (List.length r ≤ List.length s)%nat.
Proof.
  revert x; induction s as [|c s IH]; intros x; simpl; [by intros [= <- <-]|].
  repeat case_match; intros; simplify_eq/=; [|lia].
  etrans; [by eapply IH|lia].
Qed.

Lemma leadingFraction_length x scale o s v sc r :
  leadingFraction x scale o s = (v, sc, r) → (List.length r ≤ List.length s)%nat.
Proof.
  revert x scale o; induction s as [|c s IH]; intros x scale o; simpl; [by intros [= <- <- <-]|].
  repeat case_match; intros; simplify_eq/=; try lia; etrans; try (by eapply IH); lia.
Qed.

Lemma span_unit_length s u r :
  span_unit s = (u, r) → List.length s = (List.length u + List.length r)%nat.
Proof.
  revert u r; induction s as [|c s IH]; intros u r; simpl; [by intros [= <- <-]|].
  repeat case_match; intros; simplify_eq/=; [|done]. f_equal. by apply IH.
Qed.

Lemma parse_component_progress orig s v rest :
  parse_component orig s = inr (v, rest) → (List.length rest < List.length s)%nat.
Proof.
  unfold parse_component. destruct s as [|c s]; [done|].
  destruct (negb _); [done|].
  destruct (leadingInt 0 (c :: s)) as [[w s1]|] eqn:E1; [|done].
  apply leadingInt_length in E1.
  assert (∃ f sc s2 post, (List.length s2 ≤ List.length s1)%nat ∧
    match s1 with
    | d :: s1' =>
        if byte_is 46 d then
          let '(f, scale, s2) := leadingFraction 0 float64_one false s1' in
          (f, scale, s2, negb (List.length s1' =? List.length s2)%nat)
        else (0, float64_one, s1, false)
    | [] => (0, float64_one, s1, false)
    end = (f, sc, s2, post)) as (f & sc & s2 & post & Hle & ->).
  { destruct s1 as [|d s1']; [by eauto 10|]. destruct (byte_is 46 d); [|by eauto 10].
    destruct (leadingFraction _ _ _ _) as [[f sc] s2] eqn:E2.
    apply leadingFraction_length in E2. do 4 eexists. split; [|done]. simpl; lia. }
  destruct (_ && _); [done|].
  destruct (span_unit s2) as [u r] eqn:E3. apply span_unit_length in E3.
  destruct u as [|b u]; [done|]. simpl in E3.
  destruct (unitMap _); [|done]. repeat case_match; intros; simplify_eq; lia.
Qed.

(** The fuel of [ParseDuration] is enough: more changes nothing. *)
Lemma parse_components_fuel fuel1 fuel2 orig d s :
  (List.length s ≤ fuel1)%nat → (List.length s ≤ fuel2)%nat →
  parse_components fuel1 orig d s = parse_components fuel2 orig d s.
Proof.
  revert fuel2 d s; induction fuel1 as [|fuel1 IH]; intros fuel2 d [|c s] H1 H2;
    simpl in H1; [by destruct fuel2|lia|by destruct fuel2|].
  destruct fuel2 as [|fuel2]; [simpl in H2; lia|]. cbn [parse_components].
  destruct (parse_component orig (c :: s)) as [e|[v rest]] eqn:E; [done|].
  apply parse_component_progress in E. simpl in *.
  destruct (_ >? _); [done|]. apply IH; lia.
Qed.

(** ** Lemmas: [ParseDuration] reads back a printed number and its unit *)

Lemma to_bytes_app s1 s2 : to_bytes (s1 +:+ s2) = to_bytes s1 ++ to_bytes s2.
Proof. induction s1 as [|c s1 IH]; simpl; [done|]. by rewrite IH. Qed.

Lemma pretty_N_char_digit (n : N) :
  (n < 10)%N → is_digit (pretty_N_char n) = true ∧ digit_val (pretty_N_char n) = Z.of_N n.
Proof.
  intros Hn.
  assert (n = 0 ∨ n = 1 ∨ n = 2 ∨ n = 3 ∨ n = 4 ∨ n = 5 ∨ n = 6 ∨ n = 7
        ∨ n = 8 ∨ n = 9)%N as H by lia.
  repeat (destruct H as [->|H]; [by vm_compute|]). by subst.
Qed.

Lemma leadingInt_pretty_go (n : N) s :
  Z.of_N n ≤ 2 ^ 63 →
  leadingInt 0 (to_bytes (pretty_N_go n s)) = leadingInt (Z.of_N n) (to_bytes s).
Proof.
  revert s; induction (N.lt_wf_0 n) as [n _ IH]; intros s Hn.
  destruct (decide (n = 0)%N) as [->|Hnz]; [done|].
  rewrite pretty_N_go_step by lia.
  pose proof (N.div_lt n 10 ltac:(lia) eq_refl) as Hlt.
  pose proof (N.div_mod n 10 ltac:(done)) as Hdm.
  pose proof (N.mod_lt n 10 ltac:(done)) as Hm.
  rewrite IH by lia. simpl.
  destruct (pretty_N_char_digit (n mod 10) Hm) as [-> ->].
  destruct (Z.gtb_spec (Z.of_N (n / 10)) (2 ^ 63 / 10)) as [Hg|_].
  { exfalso. revert Hg. rewrite N2Z.inj_div. apply Z.le_ngt.
    apply Z.div_le_mono; [done|]. exact Hn. }
  replace (Z.of_N (n / 10) * 10 + Z.of_N (n mod 10)) with (Z.of_N n) by lia.
  destruct (Z.gtb_spec (Z.of_N n) (2 ^ 63)); [lia|done].
Qed.

Lemma Sprint_int_pos p : Sprint_int (Z.pos p) = pretty_N_go (N.pos p) "".
Proof. done. Qed.

Lemma leadingInt_Sprint n rest :
  0 ≤ n ≤ 2 ^ 63 → match rest with c :: _ => is_digit c = false | [] => True end →
  leadingInt 0 (to_bytes (Sprint_int n) ++ rest) = Some (n, rest).
Proof.
  intros Hn Hrest.
  assert (leadingInt n rest = Some (n, rest)) as Hr.
  { destruct rest as [|c rest]; simpl; [done|]. by rewrite Hrest. }
  destruct (decide (n = 0)) as [->|Hnz]; [done|].
  destruct n as [|p|p]; [done| |lia]. rewrite Sprint_int_pos.
  assert (∀ m s t, to_bytes (pretty_N_go m s) ++ t = to_bytes (pretty_N_go m (s +:+ of_bytes t))) as Happ.
  { intros m; induction (N.lt_wf_0 m) as [m _ IH]; intros s t.
    destruct (decide (m = 0)%N) as [->|].
    - rewrite !pretty_N_go_0, to_bytes_app. by rewrite list_ascii_of_string_of_list_ascii.
    - rewrite !(pretty_N_go_step m) by lia. rewrite IH by (apply N.div_lt; lia). done. }
  rewrite Happ, leadingInt_pretty_go by lia.
  change (Z.of_N (N.pos p)) with (Z.pos p).
  by rewrite to_bytes_app, list_ascii_of_string_of_list_ascii.
Qed.

Lemma Sprint_int_head n :
  0 ≤ n → ∃ c l, to_bytes (Sprint_int n) = c :: l ∧ is_digit c = true.
Proof.
  intros Hn. destruct (decide (n = 0)) as [->|Hnz]; [by eexists _, _|].
  destruct n as [|p|p]; [done| |lia]. rewrite Sprint_int_pos.
  assert (∀ m s, (0 < m)%N → ∃ c l, to_bytes (pretty_N_go m s) = c :: l ∧ is_digit c = true) as H.
  { intros m; induction (N.lt_wf_0 m) as [m _ IH]; intros s Hm.
    rewrite pretty_N_go_step by done.
    destruct (decide (m / 10 = 0)%N) as [->|].
    - rewrite pretty_N_go_0. eexists _, _. split; [done|].
      apply pretty_N_char_digit, N.mod_lt. done.
    - apply IH; [by apply N.div_lt|]. by apply N.neq_0_lt_0. }
  by apply H.
Qed.

Lemma span_unit_all u : forallb is_unit_byte u = true → span_unit u = (u, []).
Proof.
  induction u as [|c u IH]; simpl; [done|].
  intros [-> Hu]%andb_true_iff. by rewrite (IH Hu).
Qed.

(** One printed component: [n] followed by a unit of the table. *)
Lemma parse_component_Sprint orig n u unit :
  unitMap u = Some unit → forallb is_unit_byte (to_bytes u) = true →
  0 < unit → 0 ≤ n → n * unit ≤ 2 ^ 63 →
  parse_component orig (to_bytes (Sprint_int n) ++ to_bytes u) = inr (n * unit, []).
Proof.
  intros Hu Hb Hpos Hn Hle.
  destruct (Sprint_int_head n Hn) as (c & l & E & Hc).
  destruct (to_bytes u) as [|d u'] eqn:Eu.
  { assert (u = ""%string) as -> by (by destruct u). by vm_compute in Hu. }
  assert (is_unit_byte d = true ∧ forallb is_unit_byte u' = true) as [Hd Hu']
    by (apply andb_true_iff; exact Hb).
  assert (is_digit d = false ∧ byte_is 46 d = false) as [Hd1 Hd2].
  { unfold is_unit_byte in Hd. destruct (byte_is 46 d), (is_digit d); done. }
  unfold parse_component. rewrite E. cbn [app].
  rewrite Hc, orb_true_r. cbn [negb].
  change (c :: l ++ d :: u') with ((c :: l) ++ d :: u'). rewrite <-E.
  rewrite leadingInt_Sprint by (simpl; auto; nia).
  rewrite Hd2, length_app. replace (_ =? _)%nat with false; cycle 1.
  { symmetry. apply Nat.eqb_neq. rewrite E. simpl. lia. }
  cbn [negb andb]. rewrite span_unit_all by (simpl; by rewrite Hd).
  rewrite <-Eu, string_of_list_ascii_of_string, Hu.
  destruct (Z.gtb_spec n (2 ^ 63 / unit)) as [Hg|_].
  { pose proof (Z.div_le_lower_bound (2 ^ 63) unit n Hpos). lia. }
  done.
Qed.

(** [ParseDuration] is a left inverse of printing a whole number of units. *)
Lemma ParseDuration_Sprint (neg : bool) n u unit :
  unitMap u = Some unit → forallb is_unit_byte (to_bytes u) = true →
  0 < unit → 0 ≤ n → n * unit ≤ int64_max →
  ParseDuration ((if neg then "-" else "") +:+ Sprint_int n +:+ u)
  = inr (if neg then - (n * unit) else n * unit).
Proof.
  intros Hu Hb Hpos Hn Hle. unfold int64_max in Hle.
  assert (0 ≤ n * unit) by nia.
  set (s := to_bytes (Sprint_int n) ++ to_bytes u).
  destruct (Sprint_int_head n Hn) as (c & l & E & Hc).
  assert (byte_is 45 c = false ∧ byte_is 43 c = false) as [Hc1 Hc2].
  { unfold is_digit, byte_in in Hc. unfold byte_is.
    apply andb_true_iff in Hc as [H1%Z.leb_le H2%Z.leb_le].
    split; apply Z.eqb_neq; lia. }
  assert (s ≠ to_bytes "0") as Hs0.
  { subst s. rewrite E. simpl. intros [= -> Hnil].
    apply app_eq_nil in Hnil as [_ Hnil].
    assert (u = ""%string) as -> by (by destruct u). by vm_compute in Hu. }
  assert (∀ text, parse_components (List.length s) text 0 s = inr (n * unit)) as Hp.
  { intros text. subst s. destruct (to_bytes (Sprint_int n) ++ to_bytes u) as [|b r] eqn:Es.
    { rewrite E in Es. done. }
    cbn [List.length parse_components]. rewrite <-Es.
    rewrite (parse_component_Sprint text n u unit) by (auto; lia).
    unfold uwrap64. rewrite Z.add_0_l, Z.mod_small by lia.
    destruct (Z.gtb_spec (n * unit) (2 ^ 63)); [lia|].
    by destruct (List.length r). }
  unfold ParseDuration. rewrite !to_bytes_app.
  destruct neg; cbn [to_bytes app].
  - change (byte_is 45 "-") with true. fold s. cbn [app]. rewrite decide_False by done.
    rewrite Hp. destruct s as [|? ?] eqn:Es; [subst s; by rewrite E in Es|].
    rewrite (wrap64_id (n * unit)) by (unfold is_int64, int64_min, int64_max; lia).
    rewrite wrap64_id by (unfold is_int64, int64_min, int64_max; lia). done.
  - fold s. replace s with (c :: l ++ to_bytes u) by (subst s; by rewrite E).
    rewrite Hc1, Hc2. replace (c :: l ++ to_bytes u) with s by (subst s; by rewrite E).
    rewrite decide_False by done. rewrite Hp.
    destruct s as [|? ?] eqn:Es; [subst s; by rewrite E in Es|].
    destruct (Z.gtb_spec (n * unit) (2 ^ 63 - 1)); [lia|done].
Qed.

(** ** Lemmas: strings *)

Lemma is_suffix_of_app suf s : is_suffix_of suf (s ++ suf) = true.
Proof.
  induction s as [|c s IH]; simpl.
  - destruct suf; cbn [is_suffix_of]; by case_decide.
  - by case_decide.
Qed.

Lemma TrimSuffix_app s suf : TrimSuffix (s ++ suf) suf = s.
Proof.
  unfold TrimSuffix. rewrite is_suffix_of_app, length_app.
  replace (_ - _)%nat with (List.length s) by lia. apply take_app_length.
Qed.

Lemma string_of_byte_ascii b : (N_of_ascii b < 128)%N → string_of_byte b = [b].
Proof. intros H. unfold string_of_byte. by rewrite (proj2 (N.ltb_lt _ _) H). Qed.

Lemma split_bytes_cons sep cur s : ∃ x l, split_bytes sep cur s = x :: l.
Proof. revert cur; induction s as [|c s IH]; intros cur; simpl; [eauto|]. case_match; eauto. Qed.

(** A text without the separator is not split. *)
Lemma split_bytes_one sep cur s : sep ∉ s → split_bytes sep cur s = [reverse cur ++ s].
Proof.
  revert cur; induction s as [|c s IH]; intros cur; cbn; [by rewrite app_nil_r|].
  rewrite elem_of_cons. intros Hs. destruct (Ascii.eqb_spec c sep) as [->|_]; [tauto|].
  rewrite IH by tauto. by rewrite reverse_cons, <-app_assoc.
Qed.

(** ** Lemmas: slices *)

Section slices.
Context {A : Type} (grow : nat → nat) (zero : A).
Implicit Types (h : heap A) (s : slice).

Lemma slice_append_spec h s x s' h' :
  slice_ok h s → slice_append grow zero s x h = (s', h') →
  slice_ok h' s' ∧ slice_elems h' s' = slice_elems h s ++ [x].
Proof.
  intros (a & Ha & Hlen & Hle). unfold slice_append, slice_ok, slice_elems.
  rewrite Ha. simpl.
  destruct (Nat.ltb_spec (sl_len s) (sl_cap s)) as [Hlt|Hge]; intros [= <- <-]; simpl.
  - rewrite lookup_alter, decide_True, Ha by done. simpl. split.
    + eexists. split; [done|]. rewrite length_insert. lia.
    + rewrite (take_S_r _ _ x) by (apply list_lookup_insert_eq; lia).
      by rewrite take_insert_ge.
  - rewrite lookup_insert_eq. split.
    + eexists. split; [done|].
      rewrite length_app, length_take. simpl. rewrite length_replicate. lia.
    + simpl. rewrite (cons_middle x), (assoc_L (++)). apply take_app_length'.
      rewrite length_app, length_take. simpl. lia.
Qed.

(** Appending leaves alone every slice that ends at or before the slot
    written, in particular the slice appended to. *)
Lemma slice_append_frame h s x s' h' s2 :
  slice_ok h s2 → slice_append grow zero s x h = (s', h') →
  (sl_ptr s2 = sl_ptr s → sl_len s2 ≤ sl_len s)%nat →
  slice_ok h' s2 ∧ slice_elems h' s2 = slice_elems h s2.
Proof.
  intros (a & Ha & Hlen & Hle) Happ Hal. revert Happ. unfold slice_append, slice_ok, slice_elems.
  destruct (Nat.ltb_spec (sl_len s) (sl_cap s)) as [Hlt|Hge]; intros [= <- <-]; simpl.
  - destruct (decide (sl_ptr s = sl_ptr s2)) as [Heq|Hne].
    + rewrite Heq, lookup_alter, decide_True, Ha by done. simpl. split.
      * eexists. split; [done|]. by rewrite length_insert.
      * rewrite take_insert_ge; [done|]. rewrite <-Heq in Hal. auto.
    + rewrite lookup_alter_ne by done. by eauto.
  - assert (fresh (dom h : gset nat) ≠ sl_ptr s2) as Hne.
    { intros Heq. apply (is_fresh (dom h : gset nat)). rewrite Heq.
      apply elem_of_dom. by eexists. }
    rewrite lookup_insert_ne by done. by eauto.
Qed.

(** Appending to a slice outside [h0] leaves [h0] as it is. *)
Lemma slice_append_above h0 h s x s' h' :
  h0 ⊆ h → h0 !! sl_ptr s = None → slice_append grow zero s x h = (s', h') →
  h0 ⊆ h' ∧ h0 !! sl_ptr s' = None.
Proof.
  intros Hsub Hp. unfold slice_append.
  destruct (Nat.ltb_spec (sl_len s) (sl_cap s)) as [Hlt|Hge]; intros [= <- <-]; cbn.
  - split; [|done]. apply map_subseteq_spec. intros q a Hq.
    rewrite lookup_alter_ne by congruence. by eapply lookup_weaken.
  - assert (h !! fresh (dom h : gset nat) = None) as Hf by apply not_elem_of_dom, is_fresh.
    split; [by apply insert_subseteq_r; [eapply lookup_weaken_None|]|by eapply lookup_weaken_None].
Qed.

(** The slices of a heap are those of any larger one. *)
Lemma slice_ok_mono h h' s : h ⊆ h' → slice_ok h s → slice_ok h' s ∧ slice_elems h' s = slice_elems h s.
Proof.
  intros Hsub (a & Ha & ?). pose proof (lookup_weaken _ _ _ _ Ha Hsub) as Ha'.
  split; [by exists a|]. unfold slice_elems. by rewrite Ha, Ha'.
Qed.

(** A full slice is copied, so the result shares nothing with it. *)
Lemma slice_append_full h s x s' h' :
  slice_ok h s → sl_len s = sl_cap s → slice_append grow zero s x h = (s', h') →
  h !! sl_ptr s' = None.
Proof.
  intros _ Hfull. unfold slice_append. rewrite Hfull, Nat.ltb_irrefl.
  intros [= <- <-]. simpl. apply not_elem_of_dom, is_fresh.
Qed.

End slices.
