(* ===== verification/GoMath.v ===== *)
(** * [math.Sin] and the float64 operations it takes

    The portable implementation of Go's standard library (a reduction to an
    octant and the Cephes polynomials), with every operation rounded to
    float64 on its own, as on amd64.  The reduction of arguments of 2^29 and
    more is an argument. *)

From S2P Require Import Prelude GoStd.
From Stdlib Require Import SpecFloat.

Local Open Scope Z_scope.

(** ** float64 *)

Definition fadd (x y : float64) : float64 := SFadd 53 1024 x y.
Definition fsub (x y : float64) : float64 := SFsub 53 1024 x y.
Definition fopp (x : float64) : float64 := SFopp x.
Definition fltb (x y : float64) : bool := SFltb x y.
Definition fleb (x y : float64) : bool := SFleb x y.
Definition float64_zero : float64 := float64_of_Z 0.

(** The number with the given bits: sign, 11 bits of exponent, 52 of mantissa;
    for normal numbers. *)
Definition float64_of_bits (b : Z) : float64 :=
  let s := Z.testbit b 63 in
  let e := Z.land (Z.shiftr b 52) 2047 in
  let m := Z.land b (2 ^ 52 - 1) in
  S754_finite s (Z.to_pos (2 ^ 52 + m)) (e - 1075).

(** ** [math.Sin] *)

Definition Pi : float64 := float64_of_bits 0x400921fb54442d18.
(** The constant expression [4 / Pi]. *)
Definition four_over_Pi : float64 := float64_of_bits 0x3ff45f306dc9c883.
(** Pi/4 in three parts. *)
Definition PI4A : float64 := float64_of_bits 0x3fe921fb40000000.
Definition PI4B : float64 := float64_of_bits 0x3e64442d00000000.
Definition PI4C : float64 := float64_of_bits 0x3ce8469898cc5170.

Definition sin_coefficients : list float64 :=
  float64_of_bits <$> [0x3de5d8fd1fd19ccd; 0xbe5ae5e5a9291f5d; 0x3ec71de3567d48a1;
                       0xbf2a01a019bfdf03; 0x3f8111111110f7d0; 0xbfc5555555555548].
Definition cos_coefficients : list float64 :=
  float64_of_bits <$> [0xbda8fa49a0861a9b; 0x3e21ee9d7b4e3f05; 0xbe927e4f7eac4bc6;
                       0x3efa01a019c844f5; 0xbf56c16c16c14f91; 0x3fa555555555554b].

(** The polynomial by Horner's rule, from the highest coefficient. *)
Definition horner (cs : list float64) (zz : float64) : float64 :=
  match cs with
  | [] => float64_zero
  | c :: cs' => foldl (λ acc d, fadd (fmul acc zz) d) c cs'
  end.

Definition reduceThreshold : float64 := float64_of_Z (2 ^ 29).

(** The octant [j] (even) and the rest [z] of a non-negative argument. *)
Definition reduce (x : float64) : Z * float64 :=
  let j := Z_of_float64 (fmul x four_over_Pi) in
  let j := if Z.odd j then j + 1 else j in
  let y := float64_of_Z j in
  (Z.land j 7, fsub (fsub (fsub x (fmul y PI4A)) (fmul y PI4B)) (fmul y PI4C)).

Definition sin_octant (j : Z) (z : float64) : float64 :=
  let zz := fmul z z in
  if (j =? 1) || (j =? 2) then
    fadd (fsub float64_one (fmul (float64_of_bits 0x3fe0000000000000) zz))
         (fmul (fmul zz zz) (horner cos_coefficients zz))
  else fadd z (fmul (fmul z zz) (horner sin_coefficients zz)).

Section sin.
(** The octant and the rest of an argument of [reduceThreshold] or more. *)
Context (trigReduce : float64 → Z * float64).

Definition Sin (x : float64) : float64 :=
  match x with
  | S754_nan | S754_zero _ => x
  | S754_infinity _ => S754_nan
  | S754_finite sign m e =>
      let ax := S754_finite false m e in
      let '(j, z) := if fleb reduceThreshold ax then trigReduce ax else reduce ax in
      let '(sign, j) := if 3 <? j then (negb sign, j - 4) else (sign, j) in
      let y := sin_octant j z in
      if sign : bool then fopp y else y
  end.
End sin.
