(* ===== verification/ServeMux.v ===== *)
(** * [http.ServeMux] and what a handler writes

    The router of [net/http] as of Go 1.22: parsing a pattern, the conflicts
    between patterns, the routing tree and the redirections.  The programs only
    make patterns that start with a slash, so that a pattern has neither a
    method nor a host. *)

From S2P Require Import Prelude GoStd.
From Stdlib Require Import Ascii String.

Local Open Scope Z_scope.

(** ** Responses *)

(** What a handler wrote; the server sends status 200 when none was written. *)
Record Response := mkResponse { written_status : option Z; body : string }.
Definition status (r : Response) : Z := default 200 (written_status r).

Definition line (s : string) : string := s +:+ String (ascii_of_N 10) "".

(** ** Paths *)

Definition ends_with_slash (s : string) : bool :=
  match last (to_bytes s) with Some c => Ascii.eqb c slash | None => false end.

(** [cleanPath]: the cleaned path, with its trailing slash kept. *)
Definition cleanPath (p : string) : string :=
  if decide (p = "") then "/" else
  let p := if String.prefix "/" p then p else "/" +:+ p in
  let np := path_Clean p in
  if ends_with_slash p && negb (bool_decide (np = "/")) then np +:+ "/" else np.

(** [url.PathUnescape]: [None] for an escape that is not valid. *)
Definition hex_val (c : ascii) : option Z :=
  let n := Z.of_N (N_of_ascii c) in
  if is_digit c then Some (n - 48)
  else if byte_in 97 102 c then Some (n - 87)
  else if byte_in 65 70 c then Some (n - 55)
  else None.
Fixpoint PathUnescape (s : bytes) : option bytes :=
  match s with
  | [] => Some []
  | c :: s' =>
      if Ascii.eqb c "%" then
        match s' with
        | a :: b :: s'' =>
            match hex_val a, hex_val b, PathUnescape s'' with
            | Some x, Some y, Some r => Some (ascii_of_N (Z.to_N (16 * x + y)) :: r)
            | _, _, _ => None
            end
        | _ => None
        end
      else cons c <$> PathUnescape s'
  end.
(** [pathUnescape]: a text that cannot be unescaped is kept. *)
Definition pathUnescape (s : string) : string := of_bytes (default (to_bytes s) (PathUnescape (to_bytes s))).

(** The texts between the slashes of a path, after the first slash. *)
Definition path_pieces (path : string) : list string :=
  of_bytes <$> split_bytes slash [] (tail (to_bytes path)).

(** ** Patterns *)

(** A literal, a wildcard for one segment, or one for the rest of the path;
    the literal ["/"] stands for the end of a path with a trailing slash. *)
Record segment := mkSegment { seg_s : string; seg_wild : bool; seg_multi : bool }.

Definition literal (s : string) : segment := mkSegment s false false.
Definition trailing : segment := mkSegment "" true true.

(** The package [unicode]'s verdict on names with letters or digits beyond
    ASCII. *)
Class UnicodeTables := unicode_identifier : string → bool.

(** No letters beyond ASCII, for the witnesses. *)
Definition ascii_tables : UnicodeTables := λ _, false.

Section patterns.
Context `{UnicodeTables}.

Definition is_letter (c : ascii) : bool := byte_in 65 90 c || byte_in 97 122 c || byte_is 95 c.

Definition isValidWildcardName (name : string) : bool :=
  if forallb (byte_in 0 127) (to_bytes name) then
    match to_bytes name with
    | [] => false
    | c :: rest => is_letter c && forallb (λ c, is_letter c || is_digit c) rest
    end
  else unicode_identifier name.

(** A segment with a brace; [is_last] when nothing follows it, [seenNames] are
    the names of the wildcards before it. *)
Definition parse_wildcard (seg : bytes) (is_last : bool) (seenNames : list string)
  : option (segment * list string) :=
  if negb (bool_decide (head seg = Some "{"%char) && bool_decide (last seg = Some "}"%char)) then None
  else
    let name := take (List.length seg - 2) (tail seg) in
    if decide (name = ["$"%char]) then
      if is_last then Some (literal "/", seenNames) else None
    else
      let multi := is_suffix_of (to_bytes "...") name in
      let name := of_bytes (TrimSuffix name (to_bytes "...")) in
      if multi && negb is_last then None
      else if negb (isValidWildcardName name) then None
      else if decide (name ∈ seenNames) then None
      else Some (mkSegment name true multi, name :: seenNames).

Fixpoint parse_segments (pieces : list string) (seenNames : list string) : option (list segment) :=
  match pieces with
  | [] => Some []
  | seg :: rest =>
      let is_last := match rest with [] => true | _ => false end in
      if is_last && bool_decide (seg = "") then Some [trailing]
      else if bool_decide ("{"%char ∈ to_bytes seg) then
        match parse_wildcard (to_bytes seg) is_last seenNames with
        | Some (s, names) => cons s <$> parse_segments rest names
        | None => None
        end
      else cons (literal (pathUnescape seg)) <$> parse_segments rest seenNames
  end.

(** [parsePattern] of a pattern that starts with a slash.  What comes before a
    space or a tab would be a method, and no method has a slash. *)
Definition parsePattern (pattern : string) : option (list segment) :=
  if existsb (λ c, byte_is 32 c || byte_is 9 c) (to_bytes pattern) then None
  else parse_segments (path_pieces pattern) [].

End patterns.

(** *** How two patterns relate *)

Inductive relationship := equivalent | moreGeneral | moreSpecific | disjoint | overlaps.

#[global] Instance relationship_eq_dec : EqDecision relationship.
Proof. solve_decision. Defined.

Definition inverseRelationship (r : relationship) : relationship :=
  match r with moreSpecific => moreGeneral | moreGeneral => moreSpecific | _ => r end.

Definition combineRelationships (r1 r2 : relationship) : relationship :=
  match r1 with
  | equivalent => r2
  | disjoint => disjoint
  | overlaps => if decide (r2 = disjoint) then disjoint else overlaps
  | moreGeneral | moreSpecific =>
      if decide (r2 = equivalent) then r1
      else if decide (r2 = inverseRelationship r1) then overlaps
      else r2
  end.

Definition compareSegments (s1 s2 : segment) : relationship :=
  if seg_multi s1 && seg_multi s2 then equivalent
  else if seg_multi s1 then moreGeneral
  else if seg_multi s2 then moreSpecific
  else if seg_wild s1 && seg_wild s2 then equivalent
  else if seg_wild s1 then if decide (seg_s s2 = "/") then disjoint else moreGeneral
  else if seg_wild s2 then if decide (seg_s s1 = "/") then disjoint else moreSpecific
  else if decide (seg_s s1 = seg_s s2) then equivalent
  else disjoint.

(** [lastSegment().multi] *)
Definition ends_multi (segs : list segment) : bool :=
  match last segs with Some s => seg_multi s | None => false end.

(** The loop over corresponding segments, and what is left at its end. *)
Fixpoint compare_loop (multi1 multi2 : bool) (rel : relationship) (segs1 segs2 : list segment)
  : relationship :=
  match segs1, segs2 with
  | s1 :: segs1', s2 :: segs2' =>
      let rel := combineRelationships rel (compareSegments s1 s2) in
      if decide (rel = disjoint) then disjoint else compare_loop multi1 multi2 rel segs1' segs2'
  | [], [] => rel
  | [], _ => if multi1 then combineRelationships rel moreGeneral else disjoint
  | _, [] => if multi2 then combineRelationships rel moreSpecific else disjoint
  end.

Definition comparePaths (p1 p2 : list segment) : relationship :=
  if negb (List.length p1 =? List.length p2)%nat && negb (ends_multi p1) && negb (ends_multi p2)
  then disjoint
  else compare_loop (ends_multi p1) (ends_multi p2) equivalent p1 p2.

Definition conflictsWith (p1 p2 : list segment) : bool :=
  match comparePaths p1 p2 with equivalent | overlaps => true | _ => false end.

(** ** The router, for any type of handlers *)

(** The child of a node of the routing tree a segment leads to. *)
Definition seg_key (s : segment) : string := if seg_wild s then "" else seg_s s.

Section mux.
Context {Handler : Type}.

Record route := mkRoute {
  route_pattern : string;
  route_segments : list segment;
  route_handler : Handler }.

(** The registered patterns, in the order of registration. *)
Definition ServeMux : Type := list route.

(** Two patterns without a wildcard for the rest would share a leaf of the tree,
    which [routingNode.set] does not allow. *)
Definition same_leaf (p1 p2 : list segment) : bool :=
  negb (ends_multi p1) && negb (ends_multi p2) && bool_decide (seg_key <$> p1 = seg_key <$> p2).

(** [mux.Handle] *)
Definition mux_Handle `{UnicodeTables} (pattern : string) (h : Handler) (mux : ServeMux)
  : outcome ServeMux :=
  match parsePattern pattern with
  | None => Panicked (InvalidPattern pattern)
  | Some segs =>
      if existsb (λ r, conflictsWith segs (route_segments r) || same_leaf segs (route_segments r)) mux
      then Panicked (PatternConflict pattern)
      else Returned (mux ++ [mkRoute pattern segs h])
  end.

(** The patterns in the order of registration. *)
Fixpoint mux_handle_all `{UnicodeTables} (routes : list (string * Handler)) (mux : ServeMux)
  : outcome ServeMux :=
  match routes with
  | [] => Returned mux
  | (pattern, h) :: rest =>
      match mux_Handle pattern h mux with
      | Panicked p => Panicked p
      | Returned mux' => mux_handle_all rest mux'
      end
  end.

(** *** Matching *)

(** A node of the routing tree: the routes below it, each with the segments
    that are left of its pattern. *)
Definition routingNode : Type := list (list segment * route).

Definition findChild (key : string) (n : routingNode) : routingNode :=
  omap (λ e, match e.1 with
             | s :: segs => if negb (seg_multi s) && bool_decide (seg_key s = key)
                            then Some (segs, e.2) else None
             | [] => None
             end) n.
Definition node_leaf (n : routingNode) : option route :=
  snd <$> head (filter (λ e, e.1 = []) n).
Definition multiChild (n : routingNode) : option route :=
  last (omap (λ e, match e.1 with
                   | s :: _ => if seg_multi s then Some e.2 else None
                   | [] => None
                   end) n).

(** The segments [firstSegment] takes off a path one by one. *)
Fixpoint request_segments (pieces : list string) : list string :=
  match pieces with
  | [] => []
  | seg :: rest =>
      match rest with
      | [] => [if decide (seg = "") then "/" else pathUnescape seg]
      | _ => pathUnescape seg :: request_segments rest
      end
  end.

(** [matchPath]: a literal comes first, then a wildcard for one segment, then
    one for the rest. *)
Fixpoint matchPath (n : routingNode) (segs : list string) : option route :=
  match segs with
  | [] => node_leaf n
  | seg :: rest =>
      match matchPath (findChild seg n) rest with
      | Some r => Some r
      | None =>
          match (if decide (seg = "/") then None else matchPath (findChild "" n) rest) with
          | Some r => Some r
          | None => multiChild n
          end
      end
  end.

Definition mux_match (mux : ServeMux) (path : string) : option route :=
  matchPath ((λ r, (route_segments r, r)) <$> mux) (request_segments (path_pieces path)).

Definition exactMatch (n : option route) (path : string) : bool :=
  match n with
  | None => false
  | Some r =>
      if negb (ends_multi (route_segments r)) then true
      else if negb (bool_decide (path = "")) && negb (ends_with_slash path) then false
      else bool_decide (List.length (route_segments r) =
                        List.length (filter (λ c, c = slash) (to_bytes path)))
  end.

Inductive routing := Routed (pattern : string) (h : Handler) | Redirected (path : string) | NotFound.

(** [findHandler] for a request with an escaped path: when there is no exact
    match but one for the path with a slash added, the client is sent there; a
    path that was not clean is sent to the clean one; else the match decides. *)
Definition mux_route (mux : ServeMux) (path : string) : routing :=
  let clean := cleanPath path in
  let n := mux_match mux clean in
  if negb (exactMatch n clean) && negb (ends_with_slash clean)
     && exactMatch (mux_match mux (clean +:+ "/")) (clean +:+ "/")
  then Redirected (cleanPath (pathUnescape path) +:+ "/")
  else if decide (clean ≠ path) then Redirected clean
  else match n with
       | Some r => Routed (route_pattern r) (route_handler r)
       | None => NotFound
       end.

(** An HTTP server. *)
Record http_Server := mkServer {
  Addr : string;
  ReadTimeout : Z;
  ReadHeaderTimeout : Z;
  WriteTimeout : Z;
  IdleTimeout : Z;
  server_MaxHeaderBytes : Z;
  server_Handler : ServeMux }.

End mux.

Arguments route : clear implicits.
Arguments ServeMux : clear implicits.
Arguments routing : clear implicits.
Arguments http_Server : clear implicits.

(** ** Lemmas: patterns *)
(** A pattern without any of the characters that have a meaning in patterns or
    in escaped paths: space, tab, opening brace, percent. *)
Definition plain_byte (c : ascii) : bool :=
  negb (byte_is 32 c || byte_is 9 c || byte_is 123 c || byte_is 37 c).
Definition plain_path (path : string) : Prop :=
  (∃ rest, path = String slash rest) ∧ forallb plain_byte (to_bytes path) = true.

#[global] Instance plain_path_dec path : Decision (plain_path path).
Proof.
  refine (cast_if_and (decide (head (to_bytes path) = Some slash))
    (decide (forallb plain_byte (to_bytes path) = true))); abstract (
    unfold plain_path; destruct path as [|c s]; cbn in *; naive_solver).
Defined.

(** What such a pattern is parsed to. *)
Fixpoint plain_segments (pieces : list string) : list segment :=
  match pieces with
  | [] => []
  | seg :: rest =>
      match rest with
      | [] => [if decide (seg = "") then trailing else literal seg]
      | _ => literal seg :: plain_segments rest
      end
  end.

Lemma plain_byte_spec c : plain_byte c = true →
  byte_is 32 c = false ∧ byte_is 9 c = false ∧ c ≠ "{"%char ∧ Ascii.eqb c "%" = false.
Proof.
  unfold plain_byte. rewrite negb_true_iff, !orb_false_iff. intros [[[H1 H2] H3] H4].
  split_and!; [done..|by intros ->|]. by destruct (Ascii.eqb_spec c "%") as [->|].
Qed.

Lemma PathUnescape_plain s : forallb plain_byte s = true → PathUnescape s = Some s.
Proof.
  induction s as [|c s IH]; [done|]. intros [Hc Hs]%andb_true_iff.
  apply plain_byte_spec in Hc as (_ & _ & _ & Hc). cbn [PathUnescape]. by rewrite Hc, IH.
Qed.

Lemma pathUnescape_plain s : forallb plain_byte (to_bytes s) = true → pathUnescape s = s.
Proof.
  intros Hs. unfold pathUnescape. rewrite PathUnescape_plain by done.
  apply string_of_list_ascii_of_string.
Qed.

(** The pieces of a split have no separator, and give the text back. *)
Lemma split_bytes_pieces sep cur s x :
  sep ∉ cur → x ∈ split_bytes sep cur s → sep ∉ x.
Proof.
  revert cur; induction s as [|c s IH]; intros cur Hcur; cbn.
  { intros ->%list_elem_of_singleton. by rewrite elem_of_reverse. }
  destruct (Ascii.eqb_spec c sep) as [->|Hne].
  - intros [->|Hx]%elem_of_cons; [by rewrite elem_of_reverse|]. apply (IH []); [|done].
    apply not_elem_of_nil.
  - apply IH. rewrite elem_of_cons. naive_solver.
Qed.

Lemma split_bytes_forallb (f : ascii → bool) sep cur s x :
  forallb f cur = true → forallb f s = true → x ∈ split_bytes sep cur s → forallb f x = true.
Proof.
  rewrite !forallb_forall. intros Hcur Hs Hx y Hy.
  revert cur Hcur Hx. induction s as [|c s IH]; intros cur Hcur; cbn.
  { intros ->%list_elem_of_singleton. apply Hcur. rewrite <-!list_elem_of_In in *.
    by rewrite elem_of_reverse in Hy. }
  assert (∀ z, In z s → f z = true) as Hs' by (intros z Hz; apply Hs; by right).
  destruct (Ascii.eqb_spec c sep) as [->|Hne].
  - intros [->|Hx]%elem_of_cons; [|by apply (IH Hs' [])]. apply Hcur.
    rewrite <-!list_elem_of_In in *. by rewrite elem_of_reverse in Hy.
  - apply (IH Hs'). intros z [<-|Hz]; [apply Hs; by left|by apply Hcur].
Qed.

Fixpoint join_bytes (sep : ascii) (l : list bytes) : bytes :=
  match l with
  | [] => []
  | x :: rest => match rest with [] => x | _ => x ++ sep :: join_bytes sep rest end
  end.

Lemma join_split sep cur s : join_bytes sep (split_bytes sep cur s) = reverse cur ++ s.
Proof.
  revert cur; induction s as [|c s IH]; intros cur; cbn; [by rewrite app_nil_r|].
  destruct (Ascii.eqb_spec c sep) as [->|Hne].
  - specialize (IH []). cbn. destruct (split_bytes_cons sep [] s) as (x & l & E).
    rewrite E in *. by rewrite IH.
  - rewrite IH, reverse_cons, <-app_assoc. done.
Qed.

Lemma path_pieces_inj p q :
  (∃ p', p = String slash p') → (∃ q', q = String slash q') → path_pieces p = path_pieces q → p = q.
Proof.
  intros [p' ->] [q' ->] Heq. unfold path_pieces in Heq. cbn [to_bytes tail] in Heq.
  apply (f_equal (fmap to_bytes)) in Heq. rewrite <-!list_fmap_compose in Heq.
  rewrite !(list_fmap_ext (to_bytes ∘ of_bytes) id) in Heq
    by (intros; apply list_ascii_of_string_of_list_ascii).
  rewrite !list_fmap_id in Heq. apply (f_equal (join_bytes slash)) in Heq.
  rewrite !join_split in Heq. cbn in Heq. f_equal.
  by rewrite <-(string_of_list_ascii_of_string p'), Heq, string_of_list_ascii_of_string.
Qed.

(** The pieces of a plain path: no slash, and nothing to parse or unescape. *)
Definition plain_piece (x : string) : Prop :=
  (slash ∉ to_bytes x) ∧ forallb plain_byte (to_bytes x) = true.

Lemma plain_path_pieces path : plain_path path → Forall plain_piece (path_pieces path).
Proof.
  intros [[rest ->] Hp]. cbn in Hp. apply Forall_fmap, Forall_forall. intros x Hx. cbn.
  unfold plain_piece. cbn. rewrite list_ascii_of_string_of_list_ascii. split.
  - by apply (split_bytes_pieces _ [] _ _ (not_elem_of_nil _) Hx).
  - by apply (split_bytes_forallb _ _ [] _ _ eq_refl Hp Hx).
Qed.

Lemma path_pieces_cons path : ∃ x l, path_pieces path = x :: l.
Proof.
  unfold path_pieces. destruct (split_bytes_cons slash [] (tail (to_bytes path))) as (x & l & ->).
  by eexists _, _.
Qed.

Lemma plain_segments_cons x y l :
  plain_segments (x :: y :: l) = literal x :: plain_segments (y :: l).
Proof. done. Qed.

Lemma parse_segments_plain `{UnicodeTables} pieces names :
  Forall plain_piece pieces → parse_segments pieces names = Some (plain_segments pieces).
Proof.
  induction 1 as [|x pieces [_ Hx] _ IH]; [done|]. cbn [parse_segments].
  rewrite (bool_decide_eq_false_2 ("{"%char ∈ to_bytes x)).
  2: { intros Hin%list_elem_of_In. rewrite forallb_forall in Hx.
       by destruct (plain_byte_spec _ (Hx _ Hin)) as (_ & _ & ? & _). }
  rewrite IH, (pathUnescape_plain x Hx). destruct pieces as [|y l]; [|done]. cbn.
  case_bool_decide; case_decide; done.
Qed.

Lemma parsePattern_plain `{UnicodeTables} path :
  plain_path path → parsePattern path = Some (plain_segments (path_pieces path)).
Proof.
  intros Hp. unfold parsePattern. rewrite parse_segments_plain by (by apply plain_path_pieces).
  destruct (existsb _ _) eqn:E; [|done]. exfalso.
  apply existsb_exists in E as (c & Hc & Hb). destruct Hp as [_ Hp]. rewrite forallb_forall in Hp.
  destruct (plain_byte_spec _ (Hp _ Hc)) as (H1 & H2 & _). by rewrite H1, H2 in Hb.
Qed.

(** A blank makes a pattern invalid. *)
Lemma parsePattern_blank `{UnicodeTables} path :
  (" "%char) ∈ to_bytes path → parsePattern path = None.
Proof.
  intros Hc. unfold parsePattern. rewrite (proj2 (existsb_exists _ _)); [done|].
  exists " "%char. split; [by apply list_elem_of_In|done].
Qed.

(** *** Plain patterns conflict only with themselves *)

Lemma plain_segments_multi pieces s :
  s ∈ plain_segments pieces → s = trailing ∨ ∃ x, s = literal x ∧ x ∈ pieces.
Proof.
  induction pieces as [|x pieces IH]; [intros []%not_elem_of_nil|].
  destruct pieces as [|y l].
  - cbn. intros ->%list_elem_of_singleton. case_decide; [by left|right]. exists x. split; [done|left].
  - rewrite plain_segments_cons. intros [->|Hs]%elem_of_cons.
    + right. exists x. split; [done|left].
    + destruct (IH Hs) as [?|(z & ? & ?)]; [by left|right]. exists z. split; [done|by right].
Qed.

Lemma plain_segments_inj ps qs : plain_segments ps = plain_segments qs → ps = qs.
Proof.
  assert (∀ x y l, [if decide (x = "") then trailing else literal x] ≠ literal y :: plain_segments l ∨ l = []) as Hd.
  { intros x y l. destruct l as [|z [|z' l]]; [by right|left..]; by case_decide. }
  revert qs; induction ps as [|x ps IH]; intros [|y qs]; try done.
  { by destruct qs; cbn; [case_decide|]. } { by destruct ps; cbn; [case_decide|]. }
  destruct ps as [|x' ps], qs as [|y' qs].
  - cbn. repeat case_decide; naive_solver.
  - rewrite plain_segments_cons. intros E. destruct (Hd x y (y' :: qs)) as [[]|]; done.
  - rewrite plain_segments_cons. intros E. destruct (Hd y x (x' :: ps)) as [[]|]; done.
  - rewrite !plain_segments_cons. intros [= -> E]. f_equal. by apply IH.
Qed.

(** The comparison of the segments, once they are equal so far. *)
Lemma compare_loop_plain m1 m2 ps qs :
  match compare_loop m1 m2 equivalent (plain_segments ps) (plain_segments qs) with
  | equivalent => ps = qs | overlaps => False | _ => True
  end.
Proof.
  revert qs; induction ps as [|x ps IH]; intros [|y qs].
  - done.
  - destruct qs, m1; cbn; repeat case_decide; done.
  - destruct ps, m2; cbn; repeat case_decide; done.
  - destruct ps as [|x' ps], qs as [|y' qs].
    + cbn. repeat (case_decide; cbn); try done; naive_solver.
    + rewrite plain_segments_cons. cbn [plain_segments].
      destruct (decide (x = "")) as [->|Hx]; cbn [compare_loop].
      * cbn. destruct qs, m1; cbn; repeat case_decide; done.
      * unfold compareSegments. cbn. destruct (decide (x = y)); cbn; [|done].
        destruct qs, m1; cbn; repeat case_decide; done.
    + rewrite plain_segments_cons. cbn [plain_segments].
      destruct (decide (y = "")) as [->|Hy]; cbn [compare_loop].
      * cbn. destruct ps, m2; cbn; repeat case_decide; done.
      * unfold compareSegments. cbn. destruct (decide (x = y)); cbn; [|done].
        destruct ps, m2; cbn; repeat case_decide; done.
    + rewrite !plain_segments_cons. cbn [compare_loop].
      unfold compareSegments; cbn. destruct (decide (x = y)) as [->|]; cbn; [|done].
      specialize (IH (y' :: qs)). destruct (compare_loop _ _ _ _ _); naive_solver.
Qed.

Lemma compareSegments_refl s : compareSegments s s = equivalent.
Proof.
  unfold compareSegments. destruct (seg_multi s), (seg_wild s); cbn; try done.
  by rewrite decide_True.
Qed.

Lemma compare_loop_refl m1 m2 segs : compare_loop m1 m2 equivalent segs segs = equivalent.
Proof. induction segs as [|s segs IH]; [done|]. cbn [compare_loop]. by rewrite compareSegments_refl. Qed.

Lemma conflicts_plain ps qs :
  conflictsWith (plain_segments ps) (plain_segments qs) = true ↔ ps = qs.
Proof.
  unfold conflictsWith, comparePaths. split.
  - destruct (_ && _); [done|]. pose proof (compare_loop_plain
      (ends_multi (plain_segments ps)) (ends_multi (plain_segments qs)) ps qs).
    destruct (compare_loop _ _ _ _ _); naive_solver.
  - intros ->. rewrite Nat.eqb_refl. cbn. by rewrite compare_loop_refl.
Qed.

Lemma same_leaf_plain ps qs : same_leaf (plain_segments ps) (plain_segments qs) = true → ps = qs.
Proof.
  unfold same_leaf. rewrite !andb_true_iff. intros [[H1 H2] Hk%bool_decide_eq_true].
  assert (∀ l, ends_multi (plain_segments l) = false → seg_key <$> plain_segments l = l) as Hkeys.
  { clear. induction l as [|x l IH]; [done|]. destruct l as [|y l].
    - unfold ends_multi. cbn. case_decide; done.
    - rewrite plain_segments_cons. intros He. cbn [fmap list_fmap seg_key literal seg_wild seg_s].
      change (seg_key <$> literal x :: plain_segments (y :: l))
        with (x :: (seg_key <$> plain_segments (y :: l))). f_equal. apply IH.
      revert He. unfold ends_multi. rewrite last_cons. destruct (last (plain_segments (y :: l))) eqn:E; [done|].
      apply last_None in E. by destruct l as [|z l]; cbn in E. }
  rewrite <-(Hkeys ps), <-(Hkeys qs); [done|by apply negb_true_iff..].
Qed.

(** The pattern of a path without a trailing slash has no wildcard. *)
Lemma split_bytes_last sep cur s :
  last (split_bytes sep cur s) = Some [] → s = [] ∧ cur = [] ∨ last s = Some sep.
Proof.
  revert cur; induction s as [|c s IH]; intros cur; cbn.
  { intros [= E]. left. split; [done|]. by rewrite <-(reverse_involutive cur), E. }
  assert (∀ l, last (reverse cur :: split_bytes sep [] s) = Some l → last (split_bytes sep [] s) = Some l) as Hl.
  { intros l. rewrite last_cons. destruct (split_bytes_cons sep [] s) as (x & l' & ->).
    by destruct (last (x :: l')) eqn:E; [|apply last_None in E]. }
  rewrite last_cons. destruct (Ascii.eqb_spec c sep) as [->|Hne].
  - intros Hs%Hl. right. destruct (IH [] Hs) as [[-> _]| ->]; done.
  - intros Hs. right. destruct (IH _ Hs) as [[_ [=]]| ->]. done.
Qed.

Lemma plain_segments_ends path :
  plain_path path → ends_with_slash path = false →
  ends_multi (plain_segments (path_pieces path)) = false.
Proof.
  intros [[rest ->] _] He. destruct (ends_multi _) eqn:E; [exfalso|done].
  assert (∀ ps, ends_multi (plain_segments ps) = true → last ps = Some "") as Hl.
  { clear. induction ps as [|x ps IH]; [done|]. destruct ps as [|y ps].
    - unfold ends_multi. cbn. by case_decide; subst.
    - rewrite plain_segments_cons. intros He. change (last (x :: y :: ps)) with (last (y :: ps)). apply IH.
      revert He. unfold ends_multi. rewrite last_cons.
      by destruct (last (plain_segments (y :: ps))) eqn:E; [|apply last_None in E; destruct ps]. }
  apply Hl in E. unfold path_pieces in E. cbn [to_bytes tail] in E. rewrite fmap_last in E.
  apply fmap_Some in E as (x & Ex & E). assert (x = []) as -> by (by destruct x).
  unfold ends_with_slash in He. cbn [to_bytes] in He. rewrite last_cons in He.
  by destruct (split_bytes_last _ _ _ Ex) as [[E' _]|E']; rewrite E' in He.
Qed.

(** ** Lemmas: registering and routing *)

Lemma NoDup_fst_eq {A B} (l : list (A * B)) a b1 b2 :
  NoDup l.*1 → (a, b1) ∈ l → (a, b2) ∈ l → b1 = b2.
Proof.
  induction l as [|[x y] l IH]; cbn; [intros _ []%not_elem_of_nil|].
  intros [Hx Hnd]%NoDup_cons [E1|E1]%elem_of_cons [E2|E2]%elem_of_cons; simplify_eq; auto.
  - destruct Hx. apply list_elem_of_fmap. by exists (x, b2).
  - destruct Hx. apply list_elem_of_fmap. by exists (x, b1).
Qed.

Section routing_lemmas.
Context {Handler : Type}.
Implicit Types (mux : ServeMux Handler) (routes known : list (string * Handler)).

(** The mux with plain patterns. *)
Definition registered (routes : list (string * Handler)) : ServeMux Handler :=
  (λ r, mkRoute r.1 (plain_segments (path_pieces r.1)) r.2) <$> routes.

Lemma mux_Handle_plain `{UnicodeTables} p h known :
  plain_path p → Forall plain_path known.*1 →
  mux_Handle p h (registered known) =
  if decide (p ∈ known.*1) then Panicked (PatternConflict p) else Returned (registered (known ++ [(p, h)])).
Proof.
  intros Hp Hk. unfold mux_Handle. rewrite parsePattern_plain by done.
  assert (existsb (λ r, conflictsWith (plain_segments (path_pieces p)) (route_segments r)
            || same_leaf (plain_segments (path_pieces p)) (route_segments r)) (registered known)
          = bool_decide (p ∈ known.*1)) as ->.
  { apply eq_true_iff_eq. rewrite existsb_exists, bool_decide_eq_true. split.
    - intros (r & Hr & Hc). apply list_elem_of_In, list_elem_of_fmap in Hr as ([q hq] & -> & Hq).
      assert (q ∈ known.*1) as Hqk by (apply list_elem_of_fmap; by exists (q, hq)).
      enough (p = q) as -> by done. rewrite Forall_forall in Hk. destruct (Hk _ Hqk) as [Hq' _].
      apply path_pieces_inj; [apply Hp|done|]. cbn in Hc.
      apply orb_true_iff in Hc as [?%conflicts_plain|?%same_leaf_plain]; done.
    - intros ([q hq] & E & Hq)%list_elem_of_fmap. cbn in E. subst q.
      exists (mkRoute p (plain_segments (path_pieces p)) hq). split.
      + apply list_elem_of_In, list_elem_of_fmap. by exists (p, hq).
      + apply orb_true_iff. left. by apply conflicts_plain. }
  case_bool_decide; case_decide; try done. unfold registered. by rewrite fmap_app.
Qed.

(** Plain patterns can be registered when no two are the same. *)
Lemma mux_handle_all_plain `{UnicodeTables} routes known :
  Forall plain_path (known ++ routes).*1 → NoDup known.*1 →
  match mux_handle_all routes (registered known) with
  | Returned mux => mux = registered (known ++ routes) ∧ NoDup (known ++ routes).*1
  | Panicked p => (∃ pattern, p = PatternConflict pattern ∧ pattern ∈ routes.*1) ∧
                  ¬ NoDup (known ++ routes).*1
  end.
Proof.
  revert known; induction routes as [|[p h] routes IH]; intros known Hp Hnd; cbn [mux_handle_all].
  { by rewrite app_nil_r. }
  rewrite fmap_app in Hp. apply Forall_app in Hp as [Hk Hr].
  pose proof (Forall_cons_1 _ _ _ Hr) as [Hph Hrs]. rewrite mux_Handle_plain by done.
  case_decide as Hin.
  - split; [exists p; split; [done|by left]|]. rewrite fmap_app. cbn.
    intros (_ & Hdis & _)%NoDup_app. apply (Hdis p Hin). by left.
  - assert (NoDup (known ++ [(p, h)]).*1) as Hnd'.
    { rewrite fmap_app. cbn. apply NoDup_app. split; [done|].
      split; [|apply NoDup_singleton]. by intros x Hx ->%list_elem_of_singleton. }
    specialize (IH (known ++ [(p, h)])). rewrite <-app_assoc in IH. cbn [app] in IH.
    specialize (IH ltac:(rewrite fmap_app; by apply Forall_app) Hnd').
    destruct (mux_handle_all _ _); [done|].
    destruct IH as ((x & -> & Hx) & ?). split; [|done]. exists x. split; [done|by right].
Qed.

(** A pattern that is not valid is never registered. *)
Lemma mux_handle_all_invalid `{UnicodeTables} routes mux p :
  p ∈ routes.*1 → parsePattern p = None → is_panic (mux_handle_all routes mux) = true.
Proof.
  intros Hp Hn. revert mux; induction routes as [|[q h] routes IH]; intros mux; cbn in *.
  { by apply not_elem_of_nil in Hp. }
  apply elem_of_cons in Hp as [->|Hp].
  - unfold mux_Handle. by rewrite Hn.
  - destruct (mux_Handle q h mux); [by apply IH|done].
Qed.

(** *** Matching *)

(** The entries of a node for plain patterns. *)
Definition plain_entry (e : list segment * route Handler) : Prop :=
  ∃ ps, e.1 = plain_segments ps ∧ Forall plain_piece ps.

(** One entry for each list of segments. *)
Definition one_each (n : routingNode (Handler := Handler)) : Prop :=
  ∀ segs r1 r2, (segs, r1) ∈ n → (segs, r2) ∈ n → r1 = r2.

Lemma findChild_elem (n : routingNode (Handler := Handler)) k segs r :
  (segs, r) ∈ findChild k n ↔ ∃ s, (s :: segs, r) ∈ n ∧ seg_multi s = false ∧ seg_key s = k.
Proof.
  unfold findChild. rewrite list_elem_of_omap. split.
  - intros ([[|s segs'] r'] & Hin & E); cbn in E; [done|].
    destruct (seg_multi s) eqn:Em; cbn in E; [done|]. case_bool_decide; [|done].
    simplify_eq. by exists s.
  - intros (s & Hin & Hm & Hk). exists (s :: segs, r). split; [done|]. cbn.
    by rewrite Hm, bool_decide_eq_true_2.
Qed.

Lemma plain_entry_cons s segs r :
  plain_entry (s :: segs, r) → (s = trailing ∧ segs = []) ∨
  ∃ x, s = literal x ∧ plain_piece x ∧ plain_entry (segs, r).
Proof.
  intros ([|x [|y ps]] & E & Hps); cbn in E; [done| |].
  - case_decide; simplify_eq; [by left|right]. exists x. split; [done|].
    split; [by apply Forall_inv in Hps|]. by exists [].
  - change (s :: segs = literal x :: plain_segments (y :: ps)) in E. simplify_eq. right. exists x. split; [done|].
    apply Forall_cons in Hps as [? ?]. split; [done|]. by exists (y :: ps).
Qed.

Lemma findChild_plain n k :
  Forall plain_entry n → one_each n →
  Forall plain_entry (findChild k n) ∧ one_each (findChild k n).
Proof.
  intros Hn Hone. rewrite Forall_forall in Hn. split.
  - apply Forall_forall. intros [segs r] (s & Hin & Hm & _)%findChild_elem.
    destruct (plain_entry_cons _ _ _ (Hn _ Hin)) as [[-> _]|(x & _ & _ & ?)]; done.
  - intros segs r1 r2 (s1 & H1 & M1 & K1)%findChild_elem (s2 & H2 & M2 & K2)%findChild_elem.
    destruct (plain_entry_cons _ _ _ (Hn _ H1)) as [[-> _]|(x1 & -> & _)]; [done|].
    destruct (plain_entry_cons _ _ _ (Hn _ H2)) as [[-> _]|(x2 & -> & _)]; [done|].
    cbn in K1, K2. subst. by eapply Hone.
Qed.

Lemma node_leaf_plain n r : one_each n → ([], r) ∈ n → node_leaf n = Some r.
Proof.
  intros Hone Hin. unfold node_leaf.
  assert (([], r) ∈ filter (λ e, e.1 = []) n) as Hf by (by apply list_elem_of_filter).
  destruct (filter (λ e, e.1 = []) n) as [|[segs r'] l] eqn:E; [by apply not_elem_of_nil in Hf|].
  assert ((segs, r') ∈ filter (λ e, e.1 = []) n) as Hin' by (rewrite E; by left).
  apply list_elem_of_filter in Hin' as [Hs Hin']. cbn in Hs. subst segs. cbn. f_equal. by eapply Hone.
Qed.

Lemma multiChild_plain n r :
  Forall plain_entry n → one_each n → ([trailing], r) ∈ n → multiChild n = Some r.
Proof.
  intros Hn Hone Hin. unfold multiChild.
  match goal with |- last ?m = _ => set (l := m) end.
  assert (∀ r', r' ∈ l → r' = r) as Hl.
  { intros r' ([[|s segs] r''] & Hin' & E)%list_elem_of_omap; cbn in E; [done|].
    rewrite Forall_forall in Hn. destruct (plain_entry_cons _ _ _ (Hn _ Hin')) as [[-> ->]|(x & -> & _)];
      [|done]. cbn in E. simplify_eq. by eapply Hone. }
  destruct (last l) as [r'|] eqn:E; [by rewrite (Hl r' (last_Some_elem_of _ _ E))|].
  apply last_None in E. exfalso. apply (not_elem_of_nil r). rewrite <-E. apply list_elem_of_omap.
  by exists ([trailing], r).
Qed.

(** A plain path leads to its own pattern. *)
Lemma matchPath_plain ps n r :
  Forall plain_piece ps → Forall plain_entry n → one_each n →
  (plain_segments ps, r) ∈ n → matchPath n (request_segments ps) = Some r.
Proof.
  intros Hps. revert n. induction Hps as [|x ps [Hsl Hpl] Hps IH]; intros n Hn Hone Hin.
  { by apply node_leaf_plain. }
  assert (∀ segs, (literal x :: segs, r) ∈ n → (segs, r) ∈ findChild x n) as Hchild.
  { intros segs Hs. apply findChild_elem. by exists (literal x). }
  destruct (findChild_plain n x Hn Hone) as [Hcn Hcone]. destruct ps as [|y ps].
  - cbn [request_segments plain_segments] in *. destruct (decide (x = "")) as [->|Hx]; cbn [matchPath].
    + assert (findChild "/" n = []) as ->.
      { destruct (findChild "/" n) as [|[segs r'] l] eqn:E; [done|exfalso].
        assert ((segs, r') ∈ findChild "/" n) as (s & Hs & _ & Hk)%findChild_elem by (rewrite E; by left).
        rewrite Forall_forall in Hn. destruct (plain_entry_cons _ _ _ (Hn _ Hs)) as [[-> _]|(z & -> & [Hz _] & _)];
          [done|]. cbn in Hk. subst z. apply Hz. left. }
      cbn. rewrite decide_True by done. by apply multiChild_plain.
    + rewrite (pathUnescape_plain x Hpl), (node_leaf_plain _ r); [done..|]. by apply Hchild.
  - rewrite plain_segments_cons in Hin.
    change (request_segments (x :: y :: ps)) with (pathUnescape x :: request_segments (y :: ps)).
    cbn [matchPath].
    rewrite (pathUnescape_plain x Hpl). rewrite (IH _ Hcn Hcone); [done|]. by apply Hchild.
Qed.

(** A request for a registered plain path that is clean reaches its handler. *)
Lemma mux_route_exact routes path h :
  Forall plain_path routes.*1 → NoDup routes.*1 → (path, h) ∈ routes → cleanPath path = path →
  mux_route (registered routes) path = Routed path h.
Proof.
  intros Hp Hnd Hin Hclean. rewrite Forall_forall in Hp.
  assert (∀ q hq, (q, hq) ∈ routes → plain_path q) as Hq.
  { intros q hq Hq. apply Hp, list_elem_of_fmap. by exists (q, hq). }
  set (r := mkRoute path (plain_segments (path_pieces path)) h).
  assert (mux_match (registered routes) path = Some r) as Hm.
  { unfold mux_match. apply matchPath_plain.
    - apply plain_path_pieces. by eapply Hq.
    - apply Forall_forall. intros e (r' & -> & Hr')%list_elem_of_fmap.
      apply list_elem_of_fmap in Hr' as ([q hq] & -> & Hqin). exists (path_pieces q).
      split; [done|]. apply plain_path_pieces. by eapply Hq.
    - intros segs r1 r2 (r1' & E1 & H1)%list_elem_of_fmap (r2' & E2 & H2)%list_elem_of_fmap.
      apply list_elem_of_fmap in H1 as ([q1 h1] & -> & H1). apply list_elem_of_fmap in H2 as ([q2 h2] & -> & H2).
      simplify_eq/=. assert (q1 = q2) as ->.
      { apply path_pieces_inj; [apply (Hq _ _ H1)|apply (Hq _ _ H2)|].
        by apply plain_segments_inj. }
      by rewrite (NoDup_fst_eq _ _ _ _ Hnd H1 H2).
    - apply list_elem_of_fmap. exists r. split; [done|]. apply list_elem_of_fmap. by exists (path, h). }
  unfold mux_route. rewrite Hclean, Hm.
  assert (exactMatch (Some r) path = true ∨ ends_with_slash path = true) as [->| ->].
  { destruct (ends_with_slash path) eqn:E; [by right|left]. unfold exactMatch.
    assert (ends_multi (route_segments r) = false) as ->; [|done].
    cbn [route_segments r]. apply (plain_segments_ends path); [apply (Hq _ _ Hin)|done]. }
  - cbn. rewrite decide_False by naive_solver. done.
  - rewrite andb_false_r. cbn. rewrite decide_False by naive_solver. done.
Qed.

(** *** Any patterns *)

(** What a successful registration leaves: a route for every pattern, no two of
    which conflict. *)
Definition clash (r1 r2 : route Handler) : bool :=
  conflictsWith (route_segments r2) (route_segments r1) || same_leaf (route_segments r2) (route_segments r1).
Definition separate mux : Prop :=
  ∀ (i j : nat) r1 r2, (i < j)%nat → (mux : list _) !! i = Some r1 → (mux : list _) !! j = Some r2 →
    clash r1 r2 = false.
Definition route_of `{UnicodeTables} (p : string * Handler) (r : route Handler) : Prop :=
  p = (route_pattern r, route_handler r) ∧ parsePattern p.1 = Some (route_segments r).

Lemma mux_handle_all_Returned `{UnicodeTables} routes mux mux' :
  mux_handle_all routes mux = Returned mux' → separate mux →
  separate mux' ∧ ∃ new, mux' = mux ++ new ∧ Forall2 route_of routes new.
Proof.
  revert mux; induction routes as [|[p h] routes IH]; intros mux; cbn.
  { intros [= <-] Hs. split; [done|]. exists []. by rewrite app_nil_r. }
  unfold mux_Handle. destruct (parsePattern p) as [segs|] eqn:Hp; [|done].
  destruct (existsb _ mux) eqn:E; [done|]. intros Hall Hs.
  destruct (IH _ Hall) as (Hs' & new & -> & Hnew).
  - intros i j r1 r2 Hij Hi [Hj|[Hge Hj]]%lookup_app_Some.
    + rewrite lookup_app_l in Hi by (apply lookup_lt_Some in Hj; lia). by eapply Hs.
    + apply list_lookup_singleton_Some in Hj as [Hj <-]. rewrite lookup_app_l in Hi by lia.
      destruct (clash r1 _) eqn:Ec; [|done]. rewrite <-E. symmetry. apply existsb_exists.
      exists r1. split; [|exact Ec]. by eapply list_elem_of_In, list_elem_of_lookup_2.
  - split; [done|]. exists (mkRoute p segs h :: new). split; [by rewrite <-app_assoc|]. by constructor.
Qed.

(** Registering in two parts. *)
Lemma mux_handle_all_app `{UnicodeTables} routes1 routes2 mux :
  mux_handle_all (routes1 ++ routes2) mux =
  match mux_handle_all routes1 mux with
  | Returned mux' => mux_handle_all routes2 mux'
  | Panicked p => Panicked p
  end.
Proof.
  revert mux; induction routes1 as [|[p h] routes1 IH]; intros mux; [done|]. cbn.
  by destruct (mux_Handle p h mux).
Qed.

(** The mux holds the patterns and handlers in the order of registration. *)
Lemma mux_handle_all_patterns `{UnicodeTables} routes mux :
  mux_handle_all routes [] = Returned mux →
  (λ r, (route_pattern r, route_handler r)) <$> mux = routes.
Proof.
  intros [_ (new & -> & Hnew)]%mux_handle_all_Returned; [|by intros i j r1 r2 _ Hi]. cbn.
  induction Hnew as [|p r routes new [-> _] _ IH]; [done|]. cbn. by rewrite IH.
Qed.

Lemma conflictsWith_refl segs : conflictsWith segs segs = true.
Proof. unfold conflictsWith, comparePaths. rewrite Nat.eqb_refl. cbn. by rewrite compare_loop_refl. Qed.

(** Routes that clash in either order are one. *)
Lemma separate_eq mux (i j : nat) r1 r2 :
  separate mux → (mux : list _) !! i = Some r1 → (mux : list _) !! j = Some r2 →
  clash r1 r2 = true → clash r2 r1 = true → i = j.
Proof.
  intros Hs Hi Hj H1 H2. destruct (Nat.lt_trichotomy i j) as [Hlt|[->|Hlt]]; [|done|].
  - pose proof (Hs _ _ _ _ Hlt Hi Hj). congruence.
  - pose proof (Hs _ _ _ _ Hlt Hj Hi). congruence.
Qed.

(** A pattern is registered at most once. *)
Lemma mux_handle_all_NoDup `{UnicodeTables} routes mux :
  mux_handle_all routes [] = Returned mux → NoDup routes.*1.
Proof.
  intros [Hs (new & -> & Hnew)]%mux_handle_all_Returned; [|by intros i j r1 r2 _ Hi]. cbn in Hs.
  apply NoDup_alt. intros i j p Hi Hj. rewrite list_lookup_fmap in Hi, Hj.
  apply fmap_Some in Hi as (a & Hi & ->). apply fmap_Some in Hj as (b & Hj & Hab).
  destruct (Forall2_lookup_l _ _ _ _ _ Hnew Hi) as (ra & Hra & _ & Ha).
  destruct (Forall2_lookup_l _ _ _ _ _ Hnew Hj) as (rb & Hrb & _ & Hb).
  rewrite Hab, Hb in Ha. injection Ha as Heq.
  apply (separate_eq _ _ _ _ _ Hs Hra Hrb); unfold clash; by rewrite Heq, conflictsWith_refl.
Qed.

(** A leaf of the tree has one route. *)
Definition one_leaf (n : routingNode (Handler := Handler)) : Prop :=
  ∀ e1 e2, e1 ∈ n → e2 ∈ n →
    Forall (λ s, seg_multi s = false) e1.1 → Forall (λ s, seg_multi s = false) e2.1 →
    seg_key <$> e1.1 = seg_key <$> e2.1 → e1.2 = e2.2.

Lemma findChild_one_leaf n k : one_leaf n → one_leaf (findChild k n).
Proof.
  intros Hn [segs1 r1] [segs2 r2] (s1 & H1 & M1 & K1)%findChild_elem (s2 & H2 & M2 & K2)%findChild_elem.
  cbn. intros F1 F2 Hk. apply (Hn _ _ H1 H2); cbn; [by constructor..|]. by rewrite K1, K2, Hk.
Qed.

(** A path leads to the pattern with the same keys before any other. *)
Lemma matchPath_leaf keys n segs r :
  one_leaf n → (segs, r) ∈ n → Forall (λ s, seg_multi s = false) segs → seg_key <$> segs = keys →
  matchPath n keys = Some r.
Proof.
  revert n segs; induction keys as [|k keys IH]; intros n segs Hn Hin Hm Hk.
  - apply fmap_nil_inv in Hk as ->. cbn. unfold node_leaf.
    destruct (filter (λ e, e.1 = []) n) as [|[segs r'] l] eqn:E.
    { exfalso. apply (not_elem_of_nil ([] : list segment, r)). rewrite <-E. by apply list_elem_of_filter. }
    assert ((segs, r') ∈ filter (λ e, e.1 = []) n) as Hin' by (rewrite E; by left).
    apply list_elem_of_filter in Hin' as [Hs Hin']. cbn in Hs. subst segs. cbn. f_equal.
    by apply (Hn _ _ Hin' Hin).
  - destruct segs as [|s segs]; [done|]. cbn in Hk. injection Hk as Hs Hk.
    apply Forall_cons in Hm as [Hms Hm]. cbn [matchPath].
    rewrite (IH (findChild k n) segs); [done|by apply findChild_one_leaf| |done..].
    apply findChild_elem. by exists s.
Qed.

(** The keys of the pattern of a path without a trailing slash are the segments
    of the path. *)
Lemma plain_segments_keys ps :
  Forall plain_piece ps → ends_multi (plain_segments ps) = false →
  Forall (λ s, seg_multi s = false) (plain_segments ps) ∧
  seg_key <$> plain_segments ps = request_segments ps.
Proof.
  induction 1 as [|x ps [_ Hx] Hps IH]; [done|]. destruct ps as [|y ps].
  - unfold ends_multi. cbn. case_decide; [done|]. intros _. rewrite (pathUnescape_plain x Hx).
    split; [|done]. by repeat constructor.
  - rewrite plain_segments_cons. intros He.
    assert (ends_multi (plain_segments (y :: ps)) = false) as He'.
    { revert He. unfold ends_multi. rewrite last_cons.
      by destruct (last (plain_segments (y :: ps))) eqn:E; [|apply last_None in E; destruct ps]. }
    destruct (IH He') as [Hm Hk]. split; [by constructor|].
    change (x :: (seg_key <$> plain_segments (y :: ps)) = pathUnescape x :: request_segments (y :: ps)).
    by rewrite Hk, (pathUnescape_plain x Hx).
Qed.

(** A path that only its own pattern can answer to: it is clean, nothing in it
    has a meaning in patterns or has to be unescaped and, when it ends with a
    slash, so that longer patterns answer to it too, the other patterns are
    as simple. *)
Definition unambiguous (patterns : list string) (path : string) : Prop :=
  cleanPath path = path ∧ plain_path path ∧
  (ends_with_slash path = true → Forall plain_path patterns).

Lemma mux_route_reaches `{UnicodeTables} routes mux path h :
  mux_handle_all routes [] = Returned mux → (path, h) ∈ routes → unambiguous routes.*1 path →
  mux_route mux path = Routed path h.
Proof.
  intros Hall Hin (Hclean & Hp & Hsl). pose proof (mux_handle_all_NoDup _ _ Hall) as Hnd.
  destruct (ends_with_slash path) eqn:Ee.
  { pose proof (mux_handle_all_plain routes [] (Hsl eq_refl) (NoDup_nil_2)) as Hm.
    change (registered []) with ([] : ServeMux Handler) in Hm. rewrite Hall in Hm.
    destruct Hm as [-> _]. by apply mux_route_exact; [apply Hsl|..]. }
  apply mux_handle_all_Returned in Hall as [Hs (new & -> & Hnew)]; [|by intros i j r1 r2 _ Hi]. cbn in Hs.
  apply list_elem_of_lookup in Hin as [i Hi].
  destruct (Forall2_lookup_l _ _ _ _ _ Hnew Hi) as (r & Hr & [= -> ->] & Hseg).
  rewrite parsePattern_plain in Hseg by done. injection Hseg as Hseg.
  pose proof (plain_segments_ends _ Hp Ee) as Hm.
  destruct (plain_segments_keys _ (plain_path_pieces _ Hp) Hm) as [Hmulti Hkeys]. rewrite Hseg in *.
  assert (mux_match new (route_pattern r) = Some r) as Hmatch.
  { apply (matchPath_leaf _ _ (route_segments r)); [|by apply list_elem_of_fmap; exists r; split;
      [|by eapply list_elem_of_lookup_2]|done|done].
    intros e1 e2 (r1 & -> & H1)%list_elem_of_fmap (r2 & -> & H2)%list_elem_of_fmap. cbn.
    intros M1 M2 Hk. assert (∀ segs, Forall (λ s, seg_multi s = false) segs → ends_multi segs = false) as He.
    { intros segs Hsegs. unfold ends_multi. destruct (last segs) eqn:E; [|done].
      rewrite Forall_forall in Hsegs. by apply Hsegs, last_Some_elem_of. }
    apply list_elem_of_lookup in H1 as [a Ha]. apply list_elem_of_lookup in H2 as [b Hb].
    assert (a = b) as ->; [|by simplify_eq]. apply (separate_eq _ _ _ _ _ Hs Ha Hb).
    all: unfold clash, same_leaf; by rewrite !He, Hk, bool_decide_eq_true_2, orb_true_r. }
  change ([] ++ new) with new. unfold mux_route. rewrite Hclean, Hmatch. unfold exactMatch. rewrite Hm. cbn.
  by rewrite decide_False by naive_solver.
Qed.

End routing_lemmas.
