(* ===== verification/Logging.v ===== *)
(** * logging/logging.go: loggers and the adapters for other libraries

    The choice of level and handler from the environment, the adapter that
    turns the key-value lists of go-kit's logger into [log/slog] records, and
    the encoder and writer handed to the OpenTelemetry exporters.  A handler
    is modelled by the records given to it. *)

From S2P Require Import Prelude GoStd.
From Stdlib Require Import Ascii String.

Local Open Scope Z_scope.

(** ** [log/slog] *)

Definition LevelDebug : Z := -4.
Definition LevelInfo : Z := 0.
Definition LevelWarn : Z := 4.
Definition LevelError : Z := 8.

Inductive log_handler := TextHandler | JSONHandler.

Record Logger := mkLogger { log_Level : Z; log_Handler : log_handler }.

(** [logger.Enabled]: the handlers' own [Handle] does not look at the level. *)
Definition Enabled (l : Logger) (level : Z) : bool := log_Level l <=? level.

Record log_record := mkLogRecord {
  record_Level : Z; record_Message : string; record_Attrs : list (string * string) }.

(** The spellings of the levels; anything else is the information level. *)
Definition level_of (s : string) : Z :=
  if decide (s = "INFO" ∨ s = "info") then LevelInfo
  else if decide (s = "DEBUG" ∨ s = "debug") then LevelDebug
  else if decide (s = "WARN" ∨ s = "warn") then LevelWarn
  else if decide (s = "ERROR" ∨ s = "error") then LevelError
  else LevelInfo.

Definition ConfigureLogger (packageName : string) (Getenv : string → string) : Logger :=
  let logLevelEnvVar := Getenv (ToUpper packageName +:+ "_LOG_LEVEL") in
  let level := if decide (logLevelEnvVar ≠ "") then level_of logLevelEnvVar else LevelInfo in
  let logHandlerEnvVar := Getenv "LOG_HANDLER" in
  let handler :=
    if decide (logHandlerEnvVar ∈ ["TEXT"; "text"; "CONSOLE"; "console"])
    then TextHandler else JSONHandler in
  mkLogger level handler.

(** ** The go-kit adapter *)

(** An [interface{}] by what [fmt.Sprint] prints for it. *)
Inductive any := AnyString (s : string) | AnyOther (printed : string).
Definition Sprint (v : any) : string :=
  match v with AnyString s => s | AnyOther p => p end.

#[global] Instance any_eq_dec : EqDecision any.
Proof. solve_decision. Defined.

(** The loop over the keys and values: a last key without a value gets one. *)
Fixpoint keyvals_map (keyvals : list any) (m : gmap string any) : gmap string any :=
  match keyvals with
  | [] => m
  | [k] => <[Sprint k := AnyString "MISSING"]> m
  | k :: v :: rest => keyvals_map rest (<[Sprint k := v]> m)
  end.

(** One turn of the first range over the map: [level], [msg] and what is left
    of the map. *)
Definition take_special (acc : string * string * gmap string any) (kv : string * any)
  : string * string * gmap string any :=
  let '(level, msg, m) := acc in
  let '(k, v) := kv in
  if decide (k = "level") then (Sprint v, msg, delete k m)
  else if decide (k = "msg") then (level, Sprint v, delete k m)
  else if decide (k = "caller") then (level, msg, delete k m)
  else (level, msg, m).

(** The adapter embeds a copy of the default logger of the process, which
    [main] has set to its own. *)
Record slogAdapterLogger := mkSlogAdapterLogger { adapter_Logger : Logger }.

Definition NewSlogAdapterLogger (slog_Default : Logger) : slogAdapterLogger :=
  mkSlogAdapterLogger slog_Default.

(** [main]'s logger, given to [slog.SetDefault]. *)
Definition main_logger (Getenv : string → string) : Logger := ConfigureLogger "main" Getenv.

(** Go visits a map in an order of its own for each range: [order1] and
    [order2] list the elements as they are visited. *)
Definition slogAdapterLogger_Log (l : slogAdapterLogger) (keyvals : list any)
    (order1 order2 : gmap string any → list (string * any)) : option log_record :=
  if negb (Enabled (adapter_Logger l) LevelInfo) then None
  else
    let m := keyvals_map keyvals ∅ in
    let '(level, msg, m') := foldl take_special ("info", "", m) (order1 m) in
    let flat := (λ kv, (kv.1, Sprint kv.2)) <$> order2 m' in
    Some (mkLogRecord (level_of level) msg flat).

(** ** The adapters for the exporters *)

(** The record and the handler of the logger it is given to, and the error of
    that handler. *)
Section otel.
Context (Handle_err : log_handler → log_record → option error).

Record OtelEncoder := mkOtelEncoder { encoder_Logger : Logger }.
Definition NewOtelEncoder (l : Logger) : OtelEncoder := mkOtelEncoder l.

Definition OtelEncoder_Encode (e : OtelEncoder) (value : string)
  : option error * list (log_handler * log_record) :=
  let h := log_Handler (encoder_Logger e) in
  let r := mkLogRecord LevelInfo "stdoutmetric" [("value", value)] in
  (Handle_err h r, [(h, r)]).

Record OtelWriter := mkOtelWriter { writer_Logger : Logger }.
Definition NewOtelWriter (l : Logger) : OtelWriter := mkOtelWriter l.

(** [json_err] is the error of decoding the bytes into a map. *)
Definition OtelWriter_Write (e : OtelWriter) (json_err : bytes → option error) (p : bytes)
  : (Z * option error) * list (log_handler * log_record) :=
  match json_err p with
  | Some err => ((Z.of_nat (List.length p), Some err), [])
  | None =>
      let h := log_Handler (writer_Logger e) in
      let r := mkLogRecord LevelInfo (of_bytes p) [] in
      ((Z.of_nat (List.length p), Handle_err h r), [(h, r)])
  end.
End otel.

(** ** Lemmas *)

(** An order visits every element of the map once. *)
Definition visits (order : gmap string any → list (string * any)) : Prop :=
  ∀ m, order m ≡ₚ map_to_list m.

Definition special (k : string) : Prop := k = "level" ∨ k = "msg" ∨ k = "caller".

#[global] Instance special_dec k : Decision (special k).
Proof. unfold special. apply _. Defined.

(** What the first range computes, whatever the order. *)
Lemma take_special_spec kvs level msg m :
  NoDup kvs.*1 →
  foldl take_special (level, msg, m) kvs =
  (default level (Sprint <$> (list_to_map kvs : gmap string any) !! "level"),
   default msg (Sprint <$> (list_to_map kvs : gmap string any) !! "msg"),
   filter (λ kv, ¬ (special kv.1 ∧ kv.1 ∈ kvs.*1)) m).
Proof.
  revert level msg m; induction kvs as [|[k v] kvs IH]; intros level msg m Hnd; csimpl in *.
  { f_equal. symmetry. apply map_filter_id. intros k x _ [_ []%elem_of_nil]. }
  apply NoDup_cons in Hnd as [Hk Hnd].
  assert (∀ key, key = k → (list_to_map kvs : gmap string any) !! key = None) as Hnone.
  { intros key ->. by apply not_elem_of_list_to_map_1. }
  assert (special k → filter (λ kv, ¬ (special kv.1 ∧ kv.1 ∈ kvs.*1)) (delete k m) =
    filter (λ kv, ¬ (special kv.1 ∧ kv.1 ∈ k :: kvs.*1)) m) as Hdel.
  { intros Hsp. apply map_eq. intros i. apply option_eq. intros x.
    rewrite !map_lookup_filter_Some, lookup_delete_Some. csimpl. rewrite elem_of_cons.
    destruct (decide (i = k)) as [->|Hne]; naive_solver. }
  unfold special in Hdel at 1. repeat case_decide; subst; rewrite IH by done.
  - rewrite lookup_insert_eq, (lookup_insert_ne _ "level" "msg") by done.
    rewrite (Hnone "level") by done. by rewrite <-Hdel by auto.
  - rewrite lookup_insert_eq, (lookup_insert_ne _ "msg" "level") by done.
    rewrite (Hnone "msg") by done. by rewrite <-Hdel by auto.
  - rewrite !lookup_insert_ne by done. by rewrite <-Hdel by auto.
  - rewrite !lookup_insert_ne by done. f_equal.
    apply map_filter_ext. intros i x _. csimpl. rewrite elem_of_cons. unfold special. naive_solver.
Qed.

(** The map without the three keys, and what they say. *)
Definition log_level (m : gmap string any) : string := default "info" (Sprint <$> m !! "level").
Definition log_message (m : gmap string any) : string := default "" (Sprint <$> m !! "msg").
Definition log_rest (m : gmap string any) : gmap string any :=
  filter (λ kv, ¬ special kv.1) m.

Lemma Log_spec l keyvals order1 order2 :
  visits order1 →
  slogAdapterLogger_Log l keyvals order1 order2 =
  if Enabled (adapter_Logger l) LevelInfo then
    let m := keyvals_map keyvals ∅ in
    Some (mkLogRecord (level_of (log_level m)) (log_message m)
            ((λ kv, (kv.1, Sprint kv.2)) <$> order2 (log_rest m)))
  else None.
Proof.
  unfold visits. intros Hv. unfold slogAdapterLogger_Log. destruct (Enabled (adapter_Logger l) LevelInfo); [|done]. cbn.
  set (m := keyvals_map keyvals ∅).
  assert (NoDup (order1 m).*1) as Hnd by (rewrite Hv; apply NoDup_fst_map_to_list).
  rewrite take_special_spec by done.
  assert (list_to_map (order1 m) = m) as ->.
  { rewrite (list_to_map_proper _ (map_to_list m)) by done. apply list_to_map_to_list. }
  do 3 f_equal. unfold log_rest. f_equal. apply map_filter_ext. intros i x Hi. cbn.
  split; [|tauto]. intros Hn Hs. apply Hn. split; [done|]. rewrite Hv.
  apply list_elem_of_fmap. exists (i, x). split; [done|]. by apply elem_of_map_to_list.
Qed.

Lemma keyvals_map_snoc keyvals m k v :
  Nat.Even (List.length keyvals) →
  keyvals_map (keyvals ++ [k; v]) m = <[Sprint k := v]> (keyvals_map keyvals m).
Proof.
  intros [n Hn]. revert keyvals m Hn. induction n as [|n IH]; intros keyvals m Hn.
  { by destruct keyvals. }
  destruct keyvals as [|a [|b rest]]; cbn in Hn; [lia..|]. cbn. apply IH. lia.
Qed.

(** ** Theorems *)

(** C35: the adapter for go-kit's logger does not depend on the order in which
    Go visits its map: for any two pairs of orders the level and the message
    are the same and the attributes are the same up to their order, one for
    every other key, with the last value given for it. *)
Theorem Log_order_independent l keyvals o1 o2 o1' o2' r r' :
  visits o1 → visits o2 → visits o1' → visits o2' →
  slogAdapterLogger_Log l keyvals o1 o2 = Some r →
  slogAdapterLogger_Log l keyvals o1' o2' = Some r' →
  record_Level r = record_Level r' ∧ record_Message r = record_Message r' ∧
  record_Attrs r ≡ₚ record_Attrs r' ∧
  ∀ k s, (k, s) ∈ record_Attrs r ↔
    ¬ special k ∧ ∃ v, keyvals_map keyvals ∅ !! k = Some v ∧ s = Sprint v.
Proof.
  intros H1 H2 H1' H2'. rewrite !Log_spec by done. destruct (Enabled (adapter_Logger l) LevelInfo); [|done].
  unfold visits in *. intros [= <-] [= <-]. cbn [record_Level record_Message record_Attrs]. split_and!; try done.
  - by rewrite H2, H2'.
  - intros k s. rewrite H2, list_elem_of_fmap. split.
    + intros ([k' v] & [= -> ->] & Hin). apply elem_of_map_to_list in Hin.
      apply map_lookup_filter_Some in Hin as [Hm Hs]. eauto.
    + intros (Hs & v & Hm & ->). exists (k, v). split; [done|].
      apply elem_of_map_to_list, map_lookup_filter_Some. done.
Qed.

Lemma level_of_info v :
  v ∉ ["WARN"; "warn"; "ERROR"; "error"] → (level_of v <=? LevelInfo) = true.
Proof.
  intros Hv. unfold level_of. repeat case_decide; try done; destruct Hv; set_solver.
Qed.

(** the records of the libraries do not follow their level.  The adapter asks
    whether the default logger, which is [main]'s, logs information, and hands
    every record to the handler if it does: with MAIN_LOG_LEVEL at warning or
    error the libraries' errors are dropped, and with any other value, or none,
    all records are written, those of the debug level too. *)
Theorem Log_level_ignored Getenv keyvals o1 o2 :
  visits o1 →
  let adapter := NewSlogAdapterLogger (main_logger Getenv) in
  if decide (Getenv "MAIN_LOG_LEVEL" ∈ ["WARN"; "warn"; "ERROR"; "error"])
  then slogAdapterLogger_Log adapter keyvals o1 o2 = None
  else ∃ r, slogAdapterLogger_Log adapter keyvals o1 o2 = Some r ∧
       record_Level r = level_of (log_level (keyvals_map keyvals ∅)).
Proof.
  intros Hv adapter. rewrite Log_spec by done. subst adapter. unfold Enabled.
  cbn [NewSlogAdapterLogger adapter_Logger main_logger ConfigureLogger log_Level].
  change (ToUpper "main" +:+ "_LOG_LEVEL") with "MAIN_LOG_LEVEL".
  destruct (decide (Getenv "MAIN_LOG_LEVEL" ∈ _)) as [Hw|Hw].
  - rewrite decide_True by (intros E; rewrite E in Hw; set_solver).
    repeat (apply elem_of_cons in Hw as [->|Hw]; [reflexivity|]). by apply elem_of_nil in Hw.
  - case_decide; [rewrite level_of_info by done|]; cbn; by eexists.
Qed.

(** the adapter keeps the last value of a key, and gives a key without a
    value the word MISSING. *)
Theorem keyvals_last_wins keyvals k v m :
  Nat.Even (List.length keyvals) →
  keyvals_map (keyvals ++ [k; v]) m !! Sprint k = Some v ∧
  keyvals_map (keyvals ++ [k]) m !! Sprint k = Some (AnyString "MISSING") ∧
  ∀ k', k' ≠ Sprint k → keyvals_map (keyvals ++ [k; v]) m !! k' = keyvals_map keyvals m !! k'.
Proof.
  intros He. rewrite keyvals_map_snoc by done. split_and!.
  - apply lookup_insert_eq.
  - destruct He as [n Hn]. revert keyvals m Hn. induction n as [|n IH]; intros keyvals m Hn.
    { destruct keyvals; [|done]. apply lookup_insert_eq. }
    destruct keyvals as [|a [|b rest]]; cbn in Hn; [lia..|]. cbn. apply IH. lia.
  - intros k' Hk'. by apply lookup_insert_ne.
Qed.

(** ** Witnesses *)

Definition map_order (m : gmap string any) : list (string * any) := map_to_list m.
Definition reverse_order (m : gmap string any) : list (string * any) := reverse (map_to_list m).

Lemma map_order_visits : visits map_order.
Proof. by intros m. Qed.
Lemma reverse_order_visits : visits reverse_order.
Proof. intros m. unfold reverse_order. by rewrite reverse_Permutation. Qed.

Definition toy_keyvals : list any :=
  [AnyString "level"; AnyOther "warn"; AnyString "msg"; AnyString "compaction failed";
   AnyString "caller"; AnyString "db.go:1"; AnyString "block"; AnyOther "7"].

Lemma Log_order_independent_witness :
  let l := NewSlogAdapterLogger (mkLogger LevelInfo JSONHandler) in
  ∃ r r', slogAdapterLogger_Log l toy_keyvals map_order map_order = Some r ∧
    slogAdapterLogger_Log l toy_keyvals reverse_order reverse_order = Some r' ∧
    record_Level r = record_Level r' ∧ record_Level r = LevelWarn.
Proof.
  intros l. eexists _, _. split; [reflexivity|]. split; [reflexivity|]. split; [|reflexivity].
  apply (Log_order_independent l toy_keyvals map_order map_order reverse_order reverse_order
    _ _ map_order_visits map_order_visits reverse_order_visits reverse_order_visits
    eq_refl eq_refl).
Defined.

Lemma Log_level_ignored_witness :
  slogAdapterLogger_Log (NewSlogAdapterLogger (main_logger (λ _, "warn")))
    [AnyString "level"; AnyOther "error"] map_order map_order = None.
Proof. exact (Log_level_ignored (λ _, "warn") _ map_order map_order map_order_visits). Defined.

Lemma keyvals_last_wins_witness :
  keyvals_map ([AnyString "a"; AnyString "1"] ++ [AnyString "a"; AnyString "2"]) ∅ !! "a"
  = Some (AnyString "2").
Proof.
  apply (keyvals_last_wins [AnyString "a"; AnyString "1"] (AnyString "a") (AnyString "2") ∅).
  by exists 1%nat.
Defined.
