(* ===== verification/Config.v ===== *)
(** * The config package: the configuration data and the goroutine that loads it

    The structs of [config-egress.go], [config-ingress.go],
    [config-telemetry.go] and [config.go] as records (a Go pointer field is
    an [option], an [int] is a 64-bit [Z]), the default configuration, and
    [GoConfig]: the first load, the reload on a file event, the broadcast to
    the registered channels and the end on a signal.

    [yaml.Unmarshal] (gopkg.in/yaml.v3) and the SHA-256 digest are
    parameters; the results of [os.ReadFile] and the watcher's events are
    inputs of the steps. *)

From S2P Require Import Prelude GoStd.
From Stdlib Require Import String.

Local Open Scope Z_scope.

(** ** config.go: data shared by the packages *)

Record ExtraLabelsConfig := mkExtraLabelsConfig {
  label_Name : string; label_Value : string }.

Record MetricsConfig := mkMetricsConfig {
  metric_Enabled : bool;
  metric_Name : string;
  metric_ExtraLabels : list ExtraLabelsConfig }.

Record SignalsConfig := mkSignalsConfig {
  WatchedProcessCommandLineRegEx : option string }.

(** ** config-egress.go *)

Record EgressProbeMetricsConfig := mkEgressProbeMetricsConfig {
  probe_Attempts : MetricsConfig;
  probe_ResponseTime : MetricsConfig;
  probe_Successes : MetricsConfig }.

Record EnvConfig := mkEnvConfig { env_Name : string; env_Value : string }.

Record ExecActionConfig := mkExecActionConfig {
  exec_Command : list string; exec_Env : list EnvConfig }.

Record GRPCActionConfig := mkGRPCActionConfig {
  grpc_Port : Z; grpc_Service : option string }.

Record HTTPHeadersConfig := mkHTTPHeadersConfig {
  header_Name : string; header_Value : list string }.

Record HTTPGetActionConfig := mkHTTPGetActionConfig {
  httpget_Host : option string;
  httpget_HTTPHeaders : list HTTPHeadersConfig;
  httpget_Port : Z;
  httpget_Path : string;
  httpget_Scheme : option string }.

Record SendStepConfig := mkSendStepConfig {
  send_Text : string; send_Delimiter : string }.

Record ReceiveStepConfig := mkReceiveStepConfig {
  receive_RegEx : string; receive_Delimiter : string }.

Record ExpectConfig := mkExpectConfig {
  expect_Send : option SendStepConfig;
  expect_Receive : option ReceiveStepConfig }.

Record TCPSocketActionConfig := mkTCPSocketActionConfig {
  tcp_Port : Z;
  tcp_Host : option string;
  tcp_Expect : option (list ExpectConfig) }.

Record EgressProbeConfig := mkEgressProbeConfig {
  probe_Name : string;
  probe_Metrics : EgressProbeMetricsConfig;
  probe_Exec : option ExecActionConfig;
  probe_GRPC : option GRPCActionConfig;
  probe_HTTPGet : option HTTPGetActionConfig;
  probe_TCPSocket : option TCPSocketActionConfig }.

Record EgressConfig := mkEgressConfig {
  egress_Probes : list EgressProbeConfig;
  InitialDelayMilliseconds : Z;
  PeriodMilliseconds : Z;
  TimeoutMilliseconds : Z }.

(** ** config-ingress.go *)

Record InstantQueryConfig := mkInstantQueryConfig {
  iq_Timeout : string; iq_RelativeInstantTime : string; iq_Query : string }.

Record RangeQueryConfig := mkRangeQueryConfig {
  rq_Timeout : string;
  rq_RelativeStartTime : string;
  rq_RelativeEndTime : string;
  rq_Interval : string;
  rq_Query : string }.

Record IngressHealthEndpointMetricsConfig := mkIngressHealthEndpointMetricsConfig {
  health_Attempts : MetricsConfig;
  health_ResponseTime : MetricsConfig;
  health_Successes : MetricsConfig }.

Record HealthConfig := mkHealthConfig {
  health_Path : string;
  health_InstantQuery : option InstantQueryConfig;
  health_RangeQuery : option RangeQueryConfig;
  health_Metrics : option IngressHealthEndpointMetricsConfig }.

Record HTTPServerConfig := mkHTTPServerConfig {
  server_Port : Z;
  ReadTimeoutMilliseconds : Z;
  ReadHeaderTimeoutMilliseconds : Z;
  WriteTimeoutMilliseconds : Z;
  IdleTimeoutMilliseconds : Z;
  MaxHeaderBytes : Z;
  OpenTelemetryMetricsPath : string;
  PrometheusMetricsPath : string;
  Health : list HealthConfig }.

Record IngressConfig := mkIngressConfig { HTTPServer : HTTPServerConfig }.

(** ** config-telemetry.go *)

Record OpenTelemetryConfig := mkOpenTelemetryConfig { Exporters : list string }.

Record TSDBOptionsConfig := mkTSDBOptionsConfig {
  RetentionDurationMilliseconds : Z;
  MinBlockDurationMilliseconds : Z;
  MaxBlockDurationMilliseconds : Z }.

Record EngineOptionsConfig := mkEngineOptionsConfig {
  engine_MaxSamples : Z;
  engine_TimeoutMilliseconds : Z;
  engine_LookbackDeltaMilliseconds : Z;
  engine_NoStepSubqueryIntervalMilliseconds : Z }.

Record PromQLOptionsConfig := mkPromQLOptionsConfig {
  MaxConcurrentQueries : Z; EngineOptions : EngineOptionsConfig }.

Record PrometheusConfig := mkPrometheusConfig {
  TSDBPath : string; TSDBOptions : TSDBOptionsConfig; PromQL : PromQLOptionsConfig }.

Record TelemetryConfig := mkTelemetryConfig {
  OpenTelemetry : OpenTelemetryConfig; Prometheus : PrometheusConfig }.

(** ** config.go: the whole configuration *)

Record BunnyConfig := mkBunnyConfig {
  cfg_Egress : EgressConfig;
  cfg_Ingress : IngressConfig;
  cfg_Signals : SignalsConfig;
  cfg_Telemetry : TelemetryConfig }.

(** [ConfigStage] and its only value. *)
Definition ConfigStage : Type := Z.
Definition ConfigStageTelemetryCompleted : ConfigStage := 1.

Definition defaultConfigFilePath : string := "/config/bunny.yaml".

(** The zero values of the sections [generateDefaultConfig] leaves out. *)
Definition zeroEgressConfig : EgressConfig := mkEgressConfig [] 0 0 0.
Definition zeroSignalsConfig : SignalsConfig := mkSignalsConfig None.
Definition zeroTelemetryConfig : TelemetryConfig :=
  mkTelemetryConfig (mkOpenTelemetryConfig [])
    (mkPrometheusConfig "" (mkTSDBOptionsConfig 0 0 0)
       (mkPromQLOptionsConfig 0 (mkEngineOptionsConfig 0 0 0 0))).

Definition generateDefaultConfig : BunnyConfig :=
  mkBunnyConfig zeroEgressConfig
    (mkIngressConfig (mkHTTPServerConfig 1312 5000 5000 10000 2000 10000
       "otel-metrics" "prom-metrics" []))
    zeroSignalsConfig zeroTelemetryConfig.

(** ** The goroutine *)

(** What [os.ReadFile] returns. *)
Inductive file_read :=
| FileData (data : string)
| FileError (partial : string) (e : error).

(** The bytes [os.ReadFile] returns: on an error, those read so far. *)
Definition read_data (rd : file_read) : string :=
  match rd with FileData d => d | FileError d _ => d end.

(** fsnotify's operation bits. *)
Definition fsCreate : Z := 1.
Definition fsWrite : Z := 2.
Definition fsRemove : Z := 4.
Definition event_Has (op bit : Z) : bool := negb (Z.land op bit =? 0).

(** What wakes the [select] of [GoConfig].  A file event comes with the
    results of the two reads of the config file that handling it makes. *)
Inductive config_wakeup :=
| WatcherEvent (ok : bool) (op : Z) (hashed loaded : file_read)
| WatcherError (ok : bool)
| ConfigSignal (ok : bool).

Section config.
Context {Chan : Type}.
Variable yaml_Unmarshal :
  string → option BunnyConfig → option BunnyConfig * option error.
Variable sha256_hex : string → string.

(** The package's variables and [GoConfig]'s local hash.  [sent] lists the
    sends on the update channels, in order. *)
Record State := mkState {
  configDirPath : string;
  configFilePath : string;
  bunnyConfig : option BunnyConfig;
  configUpdateChannels : list Chan;
  configFileHash : string;
  sent : list (Chan * BunnyConfig) }.

Definition init_state : State :=
  mkState (path_Dir defaultConfigFilePath) defaultConfigFilePath None [] "" [].

Definition set_paths (dir file : string) (s : State) : State :=
  mkState dir file (bunnyConfig s) (configUpdateChannels s) (configFileHash s) (sent s).
Definition set_config (c : option BunnyConfig) (s : State) : State :=
  mkState (configDirPath s) (configFilePath s) c (configUpdateChannels s)
    (configFileHash s) (sent s).
Definition set_hash (h : string) (s : State) : State :=
  mkState (configDirPath s) (configFilePath s) (bunnyConfig s)
    (configUpdateChannels s) h (sent s).
Definition add_sent (ch : Chan) (c : BunnyConfig) (s : State) : State :=
  mkState (configDirPath s) (configFilePath s) (bunnyConfig s)
    (configUpdateChannels s) (configFileHash s) (sent s ++ [(ch, c)]).

Definition AddChannelListener (ch : Chan) (s : State) : State :=
  mkState (configDirPath s) (configFilePath s) (bunnyConfig s)
    (configUpdateChannels s ++ [ch]) (configFileHash s) (sent s).

Definition readBunnyConfigFile (rd : file_read) : go State unit :=
  modify (set_config (Some generateDefaultConfig)) ;;
  match rd with
  | FileError _ _ => mret tt
  | FileData data =>
      c ← gets bunnyConfig;
      modify (set_config (yaml_Unmarshal data c).1)
  end.

(** [configUpdateChannel <- *bunnyConfig] *)
Definition send_config (ch : Chan) : go State unit :=
  p ← gets bunnyConfig;
  c ← deref p;
  modify (add_sent ch c).

(** The loop that sends [*bunnyConfig] on every channel. *)
Definition broadcast : go State unit :=
  chans ← gets configUpdateChannels;
  range_loop send_config chans.

(** [GoConfig] up to its loop. *)
Definition GoConfig_start (env_path : string) (rd : file_read)
    (watcher_created : bool) : go State unit :=
  (if decide (env_path = "") then mret tt
   else modify (set_paths (path_Dir env_path) env_path)) ;;
  readBunnyConfigFile rd ;;
  broadcast ;;
  modify (set_hash "") ;;
  if watcher_created then mret tt else throw NilDereference.

(** One turn of [GoConfig]'s loop; [true] when the goroutine returns. *)
Definition GoConfig_step (w : config_wakeup) : go State bool :=
  match w with
  | WatcherEvent false _ _ _ => mret false
  | WatcherEvent true op hashed loaded =>
      h ← gets configFileHash;
      let newConfigFileHash := sha256_hex (read_data hashed) in
      if decide (newConfigFileHash = h) then mret false
      else
        readBunnyConfigFile loaded ;;
        modify (set_hash newConfigFileHash) ;;
        broadcast ;;
        mret false
  | WatcherError _ => mret false
  | ConfigSignal _ => mret true
  end.

(** ** Lemmas *)

Lemma send_config_spec ch s c :
  bunnyConfig s = Some c → send_config ch s = (Returned tt, add_sent ch c s).
Proof. intros Hc. unfold send_config. go_unfold. by rewrite Hc. Qed.

Lemma send_config_loop chans s c :
  bunnyConfig s = Some c →
  range_loop send_config chans s = (Returned tt,
    mkState (configDirPath s) (configFilePath s) (bunnyConfig s)
      (configUpdateChannels s) (configFileHash s)
      (sent s ++ ((., c) <$> chans))).
Proof.
  revert s; induction chans as [|ch chans IH]; intros s Hc; simpl.
  - rewrite app_nil_r. by destruct s.
  - unfold mbind, go_bind. rewrite (send_config_spec _ _ c), IH by done. simpl.
    by rewrite <-(assoc_L (++)).
Qed.

Lemma broadcast_spec s c :
  bunnyConfig s = Some c →
  broadcast s = (Returned tt,
    mkState (configDirPath s) (configFilePath s) (bunnyConfig s)
      (configUpdateChannels s) (configFileHash s)
      (sent s ++ ((., c) <$> configUpdateChannels s))).
Proof. apply send_config_loop. Qed.

Lemma broadcast_nil s ch chans :
  bunnyConfig s = None → configUpdateChannels s = ch :: chans →
  broadcast s = (Panicked NilDereference, s).
Proof.
  intros Hc Hch. unfold broadcast, send_config. go_unfold. rewrite Hch. simpl.
  go_unfold. by rewrite Hc.
Qed.

(** The configuration a load leaves in [bunnyConfig]. *)
Definition loaded_config (rd : file_read) : option BunnyConfig :=
  match rd with
  | FileError _ _ => Some generateDefaultConfig
  | FileData d => (yaml_Unmarshal d (Some generateDefaultConfig)).1
  end.

(** Every registered channel once, in registration order, with [c]. *)
Definition to_all (c : BunnyConfig) (s : State) : list (Chan * BunnyConfig) :=
  (., c) <$> configUpdateChannels s.

(** The goroutine on a sequence of wake-ups, until it returns. *)
Fixpoint GoConfig_run (ws : list config_wakeup) : go State bool :=
  match ws with
  | [] => mret false
  | w :: ws' => finished ← GoConfig_step w; if finished : bool then mret true else GoConfig_run ws'
  end.

Lemma readBunnyConfigFile_spec rd s :
  readBunnyConfigFile rd s = (Returned tt, set_config (loaded_config rd) s).
Proof. by destruct rd. Qed.

(** C23: the first load.  Whatever the config file yields, [GoConfig] sends
    the configuration it ends up with to every registered channel exactly
    once, in the order of registration; the environment variable replaces
    the path when it is not empty; an unreadable file means the default
    configuration. *)
Theorem GoConfig_start_broadcasts env rd s c :
  loaded_config rd = Some c →
  ∃ s', GoConfig_start env rd true s = (Returned tt, s') ∧
    sent s' = sent s ++ to_all c s ∧
    bunnyConfig s' = Some c ∧ configFileHash s' = "" ∧
    configFilePath s' = (if decide (env = "") then configFilePath s else env) ∧
    (∀ d e, rd = FileError d e → c = generateDefaultConfig).
Proof.
  intros Hc. unfold GoConfig_start, to_all. unfold mbind, go_bind.
  destruct (decide (env = "")) as [Henv|Henv]; simpl.
  all: rewrite readBunnyConfigFile_spec; erewrite broadcast_spec by (simpl; exact Hc).
  all: eexists; split; [done|]; simpl; split_and!; try done.
  all: intros d e ->; by simplify_eq/=.
Qed.

Lemma GoConfig_step_reload op hashed loaded s c :
  sha256_hex (read_data hashed) ≠ configFileHash s → loaded_config loaded = Some c →
  GoConfig_step (WatcherEvent true op hashed loaded) s =
  (Returned false, mkState (configDirPath s) (configFilePath s) (Some c)
     (configUpdateChannels s) (sha256_hex (read_data hashed)) (sent s ++ to_all c s)).
Proof.
  intros Hne Hc. unfold GoConfig_step. unfold mbind, go_bind. simpl.
  rewrite decide_False by done. rewrite readBunnyConfigFile_spec. simpl.
  erewrite broadcast_spec by (simpl; exact Hc). simpl. by rewrite Hc.
Qed.

Lemma GoConfig_step_same op hashed loaded s :
  sha256_hex (read_data hashed) = configFileHash s →
  GoConfig_step (WatcherEvent true op hashed loaded) s = (Returned false, s).
Proof. intros He. unfold GoConfig_step. go_unfold. by rewrite decide_True. Qed.

(** What a load leaves when the document is null: the first send panics. *)
Lemma broadcast_after_load c s :
  configUpdateChannels s ≠ [] →
  broadcast (set_config c s) =
  match c with
  | Some bc => (Returned tt, mkState (configDirPath s) (configFilePath s) (Some bc)
      (configUpdateChannels s) (configFileHash s) (sent s ++ to_all bc s))
  | None => (Panicked NilDereference, set_config None s)
  end.
Proof.
  intros Hch. destruct c as [bc|]; [by erewrite broadcast_spec|].
  destruct (configUpdateChannels s) as [|ch chans] eqn:E; [done|].
  by eapply broadcast_nil.
Qed.

(** What a turn of [GoConfig] and its beginning promise to the receivers: all
    of them are sent the configuration [c] that is current afterwards, or none
    is sent anything. *)
Definition sends_current (c : BunnyConfig) (s s' : State) : Prop :=
  configUpdateChannels s' = configUpdateChannels s ∧
  bunnyConfig s' = Some c ∧ sent s' = sent s ++ to_all c s.

Lemma GoConfig_start_contract env rd w s :
  configUpdateChannels s ≠ [] →
  let r := GoConfig_start env rd w s in
  match loaded_config rd with
  | Some c => sends_current c s r.2 ∧ r.1 = (if w then Returned tt else Panicked NilDereference)
  | None => is_panic r.1 = true ∧ sent r.2 = sent s
  end.
Proof.
  intros Hch. unfold GoConfig_start, mbind, go_bind.
  destruct (decide (env = "")); cbn -[broadcast loaded_config]; rewrite readBunnyConfigFile_spec;
    rewrite broadcast_after_load by done; destruct (loaded_config rd) as [c|]; try done.
  all: by destruct w.
Qed.

Lemma GoConfig_step_contract w s :
  configUpdateChannels s ≠ [] →
  let r := GoConfig_step w s in
  match w with
  | ConfigSignal _ => r = (Returned true, s)
  | WatcherEvent true _ hashed loaded =>
      r = (Returned false, s) ∨
      match loaded_config loaded with
      | Some c => r.1 = Returned false ∧ sends_current c s r.2
      | None => is_panic r.1 = true ∧ sent r.2 = sent s
      end
  | _ => r = (Returned false, s)
  end.
Proof.
  intros Hch r. subst r. destruct w as [[] op hashed loaded|ok|ok]; [|done..].
  destruct (decide (sha256_hex (read_data hashed) = configFileHash s)) as [He|Hne].
  { left. unfold GoConfig_step. go_unfold. by rewrite decide_True. }
  right. unfold GoConfig_step, mbind, go_bind. cbn -[broadcast loaded_config].
  rewrite decide_False by done. rewrite readBunnyConfigFile_spec. cbn -[broadcast loaded_config].
  change (set_hash _ (set_config ?c s)) with (set_config c (set_hash (sha256_hex (read_data hashed)) s)).
  rewrite broadcast_after_load by done. by destruct (loaded_config loaded).
Qed.

(** C22: a reload happens exactly when the digest of the file changed.  On a
    file event after which the file can be read, nothing is sent and nothing
    changes when the digest of its bytes is the one remembered; otherwise the
    digest is remembered and the configuration loaded by the second read is
    sent to every channel once, in order. *)
Theorem GoConfig_reloads_iff_changed op data data2 s c :
  loaded_config (FileData data2) = Some c →
  ∃ s', GoConfig_step (WatcherEvent true op (FileData data) (FileData data2)) s = (Returned false, s') ∧
    configFileHash s' = sha256_hex data ∧
    sent s' = sent s ++
      (if decide (sha256_hex data = configFileHash s) then [] else to_all c s) ∧
    (sha256_hex data = configFileHash s → s' = s) ∧
    (sha256_hex data ≠ configFileHash s → bunnyConfig s' = Some c).
Proof.
  intros Hc. case_decide as He.
  - exists s. rewrite GoConfig_step_same, app_nil_r by done. done.
  - eexists. rewrite (GoConfig_step_reload _ _ _ _ c) by done. done.
Qed.

(** the loop settles.  Once the digest of the file's content is
    remembered, any number of further events and watcher errors that find the
    same content leave the whole state as it is and send nothing. *)
Theorem GoConfig_settles d ws s :
  configFileHash s = sha256_hex d →
  Forall (λ w, match w with
               | WatcherEvent true _ hashed _ => hashed = FileData d
               | ConfigSignal _ => False
               | _ => True
               end) ws →
  GoConfig_run ws s = (Returned false, s).
Proof.
  intros Hh Hws; induction Hws as [|w ws Hw Hws IH]; [done|].
  cbn [GoConfig_run]. unfold mbind, go_bind.
  destruct w as [[] op hashed loaded|ok|ok]; [subst hashed|done..].
  by rewrite GoConfig_step_same.
Qed.

(** removing the config file reverts the program to the default
    configuration.  The comment in [GoConfig] says that the existing
    configuration is kept when the file is deleted, but the event's operation
    is only logged: the failed read has the digest of no bytes, which differs
    from the remembered one, and the default configuration is broadcast. *)
Theorem GoConfig_remove_reverts e s :
  sha256_hex "" ≠ configFileHash s →
  GoConfig_step (WatcherEvent true fsRemove (FileError "" e) (FileError "" e)) s =
  (Returned false, mkState (configDirPath s) (configFilePath s)
     (Some generateDefaultConfig) (configUpdateChannels s) (sha256_hex "")
     (sent s ++ to_all generateDefaultConfig s)).
Proof. intros Hne. by rewrite (GoConfig_step_reload _ _ _ _ generateDefaultConfig). Qed.

(** a YAML document that leaves the pointer nil (a null document)
    crashes the program when the first listener is notified. *)
Theorem GoConfig_null_document_panics env data w s ch chans :
  (yaml_Unmarshal data (Some generateDefaultConfig)).1 = None →
  configUpdateChannels s = ch :: chans →
  (GoConfig_start env (FileData data) w s).1 = Panicked NilDereference.
Proof.
  intros Hn Hch. unfold GoConfig_start. unfold mbind, go_bind.
  destruct (decide (env = "")) as [Henv|Henv]; cbn -[readBunnyConfigFile broadcast].
  all: rewrite readBunnyConfigFile_spec; by erewrite broadcast_nil by (simpl; eauto).
Qed.

End config.

(** ** Witnesses *)

(** A stand-in decoder: the empty document changes nothing, a null document
    clears the pointer, anything else sets the egress period. *)
Definition toy_Unmarshal (d : string) (c : option BunnyConfig)
  : option BunnyConfig * option error :=
  if decide (d = "null") then (None, None)
  else if decide (d = "") then (c, None)
  else (Some (mkBunnyConfig (mkEgressConfig [] 0 1000 500) (cfg_Ingress generateDefaultConfig)
                zeroSignalsConfig zeroTelemetryConfig), None).

(** A stand-in digest. *)
Definition toy_hash (d : string) : string := "h" +:+ d.

Definition two_listeners : State (Chan := nat) :=
  AddChannelListener 2%nat (AddChannelListener 1%nat init_state).

Lemma GoConfig_start_broadcasts_witness :
  ∃ s', GoConfig_start toy_Unmarshal "" (FileError "" ErrNotExist) true two_listeners
        = (Returned tt, s') ∧
    sent s' = [(1%nat, generateDefaultConfig); (2%nat, generateDefaultConfig)].
Proof.
  destruct (GoConfig_start_broadcasts toy_Unmarshal "" (FileError "" ErrNotExist)
    two_listeners generateDefaultConfig eq_refl) as (s' & H & Hs & _).
  exists s'. split; [exact H|]. rewrite Hs. reflexivity.
Defined.

Lemma GoConfig_reloads_iff_changed_witness :
  ∃ s', GoConfig_step toy_Unmarshal toy_hash
          (WatcherEvent true fsWrite (FileData "a") (FileData "a")) two_listeners
        = (Returned false, s') ∧ List.length (sent s') = 2%nat.
Proof.
  destruct (GoConfig_reloads_iff_changed toy_Unmarshal toy_hash fsWrite "a" "a" two_listeners
    _ eq_refl) as (s' & H & _ & Hs & _).
  exists s'. split; [exact H|]. rewrite Hs. reflexivity.
Defined.

Lemma GoConfig_settles_witness :
  let s := set_hash (toy_hash "a") two_listeners in
  GoConfig_run toy_Unmarshal toy_hash
    [WatcherEvent true fsWrite (FileData "a") (FileData "b"); WatcherError true;
     WatcherEvent true fsRemove (FileData "a") (FileData "a")] s = (Returned false, s).
Proof.
  apply (GoConfig_settles toy_Unmarshal toy_hash "a"); [reflexivity|].
  repeat constructor.
Defined.

Lemma GoConfig_remove_reverts_witness :
  let s := set_hash (toy_hash "a") two_listeners in
  bunnyConfig (GoConfig_step toy_Unmarshal toy_hash
    (WatcherEvent true fsRemove (FileError "" ErrNotExist) (FileError "" ErrNotExist)) s).2
  = Some generateDefaultConfig.
Proof.
  intros s.
  rewrite (GoConfig_remove_reverts toy_Unmarshal toy_hash ErrNotExist s); [reflexivity|].
  vm_compute. discriminate.
Defined.

Lemma GoConfig_null_document_panics_witness :
  (GoConfig_start toy_Unmarshal "" (FileData "null") true two_listeners).1
  = Panicked NilDereference.
Proof.
  apply (GoConfig_null_document_panics toy_Unmarshal "" "null" true two_listeners 1%nat [2%nat]);
    reflexivity.
Defined.
