(* ===== verification/Metrics.v ===== *)
(** * telemetry/metrics.go, common.go: measuring probes and health queries

    The metric objects, the shared table of response times, and the
    functions that count attempts and successes and time a measured
    operation.  The OpenTelemetry meter and the Prometheus registry are
    third-party code: what the program asks of them is the class
    [MetricLibs], and every call on an instrument or a span is appended to a
    list of calls, so that theorems speak about the calls made.  What the
    registry documents about the metrics it accepts is [RegistryLaws]. *)

From S2P Require Import Prelude GoStd Config.
From Stdlib Require Import Ascii String.

Local Open Scope Z_scope.

(** ** Collectors and the libraries *)

Inductive collector_kind := CounterKind | GaugeKind.

(** A Prometheus collector: the object made by one call of [NewCounter] or
    [NewGauge] ([col_id] tells the objects apart) and its descriptor. *)
Record collector := mkCollector {
  col_id : nat;
  col_kind : collector_kind;
  col_name : string;
  col_labels : gmap string string }.

#[global] Instance collector_kind_eq_dec : EqDecision collector_kind.
Proof. solve_decision. Defined.
#[global] Instance collector_eq_dec : EqDecision collector.
Proof. solve_decision. Defined.

Class MetricLibs := {
  registry : Type;
  NewRegistry : registry;
  Unregister : collector → registry → registry;
  Register : collector → registry → error + registry;
  (** [promhttp.HandlerFor] with the registry in its options: it registers a
      counter of errors there, and panics when that fails *)
  HandlerFor : registry → error + registry;
  (** the error of [meter.Int64Counter(name)] and of
      [meter.Int64ObservableGauge(name, ...)] *)
  Int64Counter_err : string → option error;
  Int64ObservableGauge_err : string → option error;
  (** whether the meter keeps the callback it was given *)
  callback_kept : string → bool }.

(** ** Calls on instruments, spans and contexts *)

Inductive span_code := CodeOk | CodeError.

Inductive call :=
| OtelAdd (instrument : string) (n : Z) (attrs : list (string * string))
| PromInc (c : collector)
| PromSet (c : collector) (v : float64)
| OtelObserve (ms : Z) (attrs : list (string * string))
| SpanStart (name : string)
| SpanSetAttribute (key value : string)
| SpanAddEvent (text : string)
| SpanSetStatus (code : span_code) (msg : string)
| SpanEnd
| ContextCancel
| ConnClose
| QueryClose
| SetTextMapPropagator (propagators : list string).

(** ** Metrics and the telemetry state *)

Record CounterMetric := mkCounterMetric {
  OtelCounter : string;
  counter_OtelExtraAttributes : list (string * string);
  PromCounter : collector }.

Record ResponseTimeMetric := mkResponseTimeMetric {
  OtelGauge : string;
  gauge_OtelExtraAttributes : list (string * string);
  OtelMetricName : string;
  PromGauge : collector }.

Section metrics.
Context `{MetricLibs}.

(** [common.ResponseTimes] (a map of pointers, so a key can be bound to nil),
    [PromRegistry], the callbacks registered for observable gauges, and the
    calls made so far. *)
Record Telem := mkTelem {
  ResponseTimes : gmap string (option Z);
  PromRegistry : option registry;
  callbacks : list (string * list (string * string));
  calls : list call;
  next_id : nat }.

Definition init_telem : Telem := mkTelem ∅ None [] [] 0.

Definition record_call (c : call) (t : Telem) : Telem :=
  mkTelem (ResponseTimes t) (PromRegistry t) (callbacks t) (calls t ++ [c]) (next_id t).
Definition set_response_time (name : string) (d : option Z) (t : Telem) : Telem :=
  mkTelem (<[name := d]> (ResponseTimes t)) (PromRegistry t) (callbacks t) (calls t) (next_id t).
Definition set_registry (r : option registry) (t : Telem) : Telem :=
  mkTelem (ResponseTimes t) r (callbacks t) (calls t) (next_id t).
Definition add_callback (name : string) (attrs : list (string * string)) (t : Telem) : Telem :=
  mkTelem (ResponseTimes t) (PromRegistry t) (callbacks t ++ [(name, attrs)]) (calls t) (next_id t).
Definition bump_id (t : Telem) : Telem :=
  mkTelem (ResponseTimes t) (PromRegistry t) (callbacks t) (calls t) (S (next_id t)).

Definition emit (c : call) : go Telem unit := modify (record_call c).

(** ** Operations *)

(** [now] is what [time.Now()] returns. *)
Definition PreMeasurable (attemptsMetric : option CounterMetric)
    (responseTimeMetric : option ResponseTimeMetric) (now : Z) : go Telem (option Z) :=
  match attemptsMetric with
  | Some m =>
      emit (OtelAdd (OtelCounter m) 1 (counter_OtelExtraAttributes m)) ;;
      emit (PromInc (PromCounter m))
  | None => mret tt
  end ;;
  match responseTimeMetric with
  | Some _ => mret (Some now)
  | None => mret None
  end.

Definition PostMeasurable (successesMetric : option CounterMetric)
    (responseTimeMetric : option ResponseTimeMetric) (timerStart : option Z)
    (success : bool) (now : Z) : go Telem unit :=
  if negb success then mret tt
  else
    match responseTimeMetric with
    | Some m =>
        start ← deref timerStart;
        let responseTime := time_Sub now start in
        modify (set_response_time (OtelMetricName m) (Some responseTime)) ;;
        emit (PromSet (PromGauge m) (float64_of_Z (Milliseconds responseTime)))
    | None => mret tt
    end ;;
    match successesMetric with
    | Some m =>
        emit (OtelAdd (OtelCounter m) 1 (counter_OtelExtraAttributes m)) ;;
        emit (PromInc (PromCounter m))
    | None => mret tt
    end.

(** [NewAttributes]: the key-values handed to [attribute.NewSet]. *)
Definition NewAttributes (extraLabels : list ExtraLabelsConfig) : list (string * string) :=
  (λ l, (label_Name l, label_Value l)) <$> extraLabels.

(** [NewLabels]: a Go map filled in list order. *)
Definition NewLabels (extraLabels : list ExtraLabelsConfig) : gmap string string :=
  foldl (λ m l, <[label_Name l := label_Value l]> m) ∅ extraLabels.

(** [NewCounter] or [NewGauge], then [Unregister] and [MustRegister]. *)
Definition new_collector (kind : collector_kind) (name : string)
    (labels : gmap string string) : go Telem collector :=
  id ← gets next_id;
  modify bump_id ;;
  let c := mkCollector id kind name labels in
  p ← gets PromRegistry;
  r ← deref p;
  modify (set_registry (Some (Unregister c r))) ;;
  match Register c (Unregister c r) with
  | inl _ => throw (MustRegisterFailed name)
  | inr r' => modify (set_registry (Some r')) ;; mret c
  end.

(** [meter] is the pointer to the meter, with the meter's scope name. *)
Definition NewCounterMetric (metricsConfig : MetricsConfig) (meter : option string)
  : go Telem (option CounterMetric) :=
  if negb (metric_Enabled metricsConfig) then mret None
  else
    let metricName := metric_Name metricsConfig in
    _ ← deref meter;
    match Int64Counter_err ("otel_" +:+ metricName) with
    | Some _ => mret None
    | None =>
        c ← new_collector CounterKind ("prom_" +:+ metricName)
              (NewLabels (metric_ExtraLabels metricsConfig));
        mret (Some (mkCounterMetric ("otel_" +:+ metricName)
                      (NewAttributes (metric_ExtraLabels metricsConfig)) c))
    end.

Definition NewResponseTimeMetric (metricsConfig : MetricsConfig) (meter : option string)
  : go Telem (option ResponseTimeMetric) :=
  if negb (metric_Enabled metricsConfig) then mret None
  else
    let metricName := metric_Name metricsConfig in
    let extraAttributes := NewAttributes (metric_ExtraLabels metricsConfig) in
    _ ← deref meter;
    (if callback_kept ("otel_" +:+ metricName)
     then modify (add_callback metricName extraAttributes) else mret tt) ;;
    (** an error of the meter is only logged *)
    let '_ := Int64ObservableGauge_err ("otel_" +:+ metricName) in
    c ← new_collector GaugeKind ("prom_" +:+ metricName)
          (NewLabels (metric_ExtraLabels metricsConfig));
    mret (Some (mkResponseTimeMetric ("otel_" +:+ metricName) extraAttributes metricName c)).

(** The callback of the observable gauge, run by the meter's reader. *)
Definition gauge_callback (metricName : string) (extraAttributes : list (string * string))
  : go Telem (option error) :=
  if decide (metricName = "") then mret (Some (errorString "unset metric name"))
  else
    times ← gets ResponseTimes;
    match times !! metricName with
    | Some (Some responseTime) =>
        emit (OtelObserve (Milliseconds responseTime) extraAttributes) ;;
        modify (set_response_time metricName None) ;;
        mret None
    | _ => mret None
    end.

End metrics.

(** ** Counting calls *)

(** The total added to an OpenTelemetry instrument. *)
Fixpoint otel_total (i : string) (cs : list call) : Z :=
  match cs with
  | [] => 0
  | OtelAdd j n _ :: cs' => (if decide (i = j) then n else 0) + otel_total i cs'
  | _ :: cs' => otel_total i cs'
  end.

(** The value of a Prometheus counter. *)
Fixpoint prom_total (c : collector) (cs : list call) : Z :=
  match cs with
  | [] => 0
  | PromInc d :: cs' => (if decide (c = d) then 1 else 0) + prom_total c cs'
  | _ :: cs' => prom_total c cs'
  end.

(** The values observed on the gauges. *)
Fixpoint observed (cs : list call) : list Z :=
  match cs with
  | [] => []
  | OtelObserve ms _ :: cs' => ms :: observed cs'
  | _ :: cs' => observed cs'
  end.

(** ** Measured operations running concurrently *)

(** The metrics of one measured operation: a probe or a health endpoint. *)
Record measure := mkMeasure {
  m_attempts : option CounterMetric;
  m_response : option ResponseTimeMetric;
  m_successes : option CounterMetric }.

(** The operations in flight, each with the timer [PreMeasurable] returned. *)
Abbreviation pool := (list (measure * option Z)).

Section accounting.
Context `{MetricLibs}.

(** An operation of [ops] starts, one in flight ends in success or failure,
    or a reader collects a gauge; in any order. *)
Inductive measured_step (ops : measure → Prop) : pool * Telem → pool * Telem → Prop :=
| measured_begin m now p t timer t' :
    ops m →
    PreMeasurable (m_attempts m) (m_response m) now t = (Returned timer, t') →
    measured_step ops (p, t) (p ++ [(m, timer)], t')
| measured_end m timer p1 p2 ok now t r t' :
    PostMeasurable (m_successes m) (m_response m) timer ok now t = (r, t') →
    measured_step ops (p1 ++ (m, timer) :: p2, t) (p1 ++ p2, t')
| measured_collect name attrs p t r t' :
    gauge_callback name attrs t = (r, t') →
    measured_step ops (p, t) (p, t').

End accounting.

(** ** Lemmas *)

Lemma otel_total_app i cs1 cs2 : otel_total i (cs1 ++ cs2) = otel_total i cs1 + otel_total i cs2.
Proof. induction cs1 as [|[] cs1 IH]; simpl; rewrite ?IH; lia. Qed.

Lemma prom_total_app c cs1 cs2 : prom_total c (cs1 ++ cs2) = prom_total c cs1 + prom_total c cs2.
Proof. induction cs1 as [|[] cs1 IH]; simpl; rewrite ?IH; lia. Qed.

Lemma observed_app cs1 cs2 : observed (cs1 ++ cs2) = observed cs1 ++ observed cs2.
Proof. induction cs1 as [|[] cs1 IH]; simpl; rewrite ?IH; done. Qed.

#[export] Hint Rewrite otel_total_app prom_total_app observed_app : bunny_rw.

Section accounting_lemmas.
Context `{MetricLibs}.

(** Does an operation count on instrument [i]? *)
Definition counts_on (i : string) (m : option CounterMetric) : Z :=
  match m with Some m => if decide (i = OtelCounter m) then 1 else 0 | None => 0 end.

Lemma PreMeasurable_effect am rm now t :
  ∃ t', PreMeasurable am rm now t = (Returned ((λ _, now) <$> rm), t') ∧
    ResponseTimes t' = ResponseTimes t ∧
    calls t' = calls t ++
      match am with
      | Some m => [OtelAdd (OtelCounter m) 1 (counter_OtelExtraAttributes m);
                   PromInc (PromCounter m)]
      | None => []
      end.
Proof.
  destruct am as [m|], rm as [g|]; eexists; (split; [reflexivity|]); simpl;
    by rewrite ?app_nil_r, <-?(assoc_L (++)).
Qed.

Lemma PostMeasurable_failure sm rm timer now t :
  PostMeasurable sm rm timer false now t = (Returned tt, t).
Proof. done. Qed.

Lemma PostMeasurable_success sm rm timer now t :
  (is_Some rm → is_Some timer) →
  ∃ t', PostMeasurable sm rm timer true now t = (Returned tt, t') ∧
    ResponseTimes t' =
      match rm, timer with
      | Some g, Some start =>
          <[OtelMetricName g := Some (time_Sub now start)]> (ResponseTimes t)
      | _, _ => ResponseTimes t
      end ∧
    calls t' = calls t ++
      match rm, timer with
      | Some g, Some start =>
          [PromSet (PromGauge g) (float64_of_Z (Milliseconds (time_Sub now start)))]
      | _, _ => []
      end ++
      match sm with
      | Some m => [OtelAdd (OtelCounter m) 1 (counter_OtelExtraAttributes m);
                   PromInc (PromCounter m)]
      | None => []
      end.
Proof.
  intros Ht. assert (is_Some rm → timer = None → False) by (intros [? ?]%Ht; congruence).
  destruct rm as [g|], timer as [start|], sm as [m|]; try (exfalso; naive_solver);
    eexists; (split; [reflexivity|]); simpl; by rewrite ?app_nil_r, <-?(assoc_L (++)).
Qed.

Lemma PostMeasurable_nil_timer sm g now t :
  PostMeasurable sm (Some g) None true now t = (Panicked NilDereference, t).
Proof. done. Qed.

Lemma gauge_callback_calls name attrs t :
  ∃ extra, calls (gauge_callback name attrs t).2 = calls t ++ extra ∧
    Forall (λ c, ∃ ms, c = OtelObserve ms attrs) extra.
Proof.
  unfold gauge_callback. case_decide; [by exists []; rewrite app_nil_r|].
  go_unfold. destruct (ResponseTimes t !! name) as [[d|]|]; simpl.
  - eexists [_]. split; [done|]. repeat constructor. by eexists.
  - exists []. by rewrite app_nil_r.
  - exists []. by rewrite app_nil_r.
Qed.

Lemma otel_total_observe i attrs extra :
  Forall (λ c, ∃ ms, c = OtelObserve ms attrs) extra → otel_total i extra = 0.
Proof. induction 1 as [|c extra [ms ->] _ IH]; simpl; done. Qed.

(** In a reachable state every operation in flight that has a response-time
    metric carries a timer. *)
Definition timers_set (p : pool) : Prop :=
  Forall (λ mt, is_Some (m_response mt.1) → is_Some mt.2) p.

Lemma timers_set_step ops s s' : measured_step ops s s' → timers_set s.1 → timers_set s'.1.
Proof.
  unfold timers_set. destruct 1 as [m now p t timer t' _ Hpre| |]; simpl; intros Hp.
  - apply Forall_app; split; [done|]. constructor; [|done]. simpl. intros [g Hg].
    destruct (PreMeasurable_effect (m_attempts m) (m_response m) now t) as (? & Heq & _).
    rewrite Hpre, Hg in Heq. simplify_eq/=. by eexists.
  - apply Forall_app in Hp as [? Hp]. apply Forall_cons in Hp as [_ ?].
    by apply Forall_app.
  - done.
Qed.

Lemma timers_set_reachable ops s s' :
  rtc (measured_step ops) s s' → timers_set s.1 → timers_set s'.1.
Proof. induction 1; eauto using timers_set_step. Qed.

(** The operations in flight that will count a success on [i]. *)
Fixpoint pending (i : string) (p : pool) : Z :=
  match p with
  | [] => 0
  | (m, _) :: p' => counts_on i (m_successes m) + pending i p'
  end.

Lemma pending_app i p1 p2 : pending i (p1 ++ p2) = pending i p1 + pending i p2.
Proof. induction p1 as [|[m tm] p1 IH]; simpl; rewrite ?IH; lia. Qed.

Lemma otel_total_counter i (m : option CounterMetric) :
  otel_total i (match m with
    | Some m => [OtelAdd (OtelCounter m) 1 (counter_OtelExtraAttributes m);
                 PromInc (PromCounter m)]
    | None => [] end) = counts_on i m.
Proof. destruct m as [m|]; simpl; [|done]. case_decide; lia. Qed.

Lemma PreMeasurable_total i am rm now t r t' :
  PreMeasurable am rm now t = (r, t') →
  otel_total i (calls t') = otel_total i (calls t) + counts_on i am.
Proof.
  intros Hpre. destruct (PreMeasurable_effect am rm now t) as (? & Heq & _ & Hc).
  rewrite Hpre in Heq. simplify_eq. rewrite Hc. autorewrite with bunny_rw.
  by rewrite otel_total_counter.
Qed.

Lemma PostMeasurable_total i sm rm timer ok now t r t' :
  (is_Some rm → is_Some timer) → PostMeasurable sm rm timer ok now t = (r, t') →
  otel_total i (calls t') =
  otel_total i (calls t) + (if ok then counts_on i sm else 0) ∧ r = Returned tt.
Proof.
  intros Ht Hpost. destruct ok; cycle 1.
  { rewrite PostMeasurable_failure in Hpost. simplify_eq. by rewrite Z.add_0_r. }
  destruct (PostMeasurable_success sm rm timer now t Ht) as (? & Heq & _ & Hc).
  rewrite Hpost in Heq. simplify_eq. rewrite Hc. autorewrite with bunny_rw.
  rewrite otel_total_counter.
  destruct rm, timer; simpl; split; done || lia.
Qed.

Lemma counts_on_nonneg i m : 0 ≤ counts_on i m.
Proof. destruct m; simpl; [case_decide|]; lia. Qed.

(** The instruments an operation counts on are coherent for [a] and [s]:
    whoever counts successes on [s] counts its attempts on [a], and nobody
    counts attempts on [s]. *)
Definition coherent (a s : string) (m : measure) : Prop :=
  counts_on s (m_successes m) ≤ counts_on a (m_attempts m) ∧
  counts_on s (m_attempts m) = 0.

Lemma measured_step_balance ops a s st st' :
  (∀ m, ops m → coherent a s m) → timers_set st.1 → measured_step ops st st' →
  otel_total s (calls st'.2) - otel_total s (calls st.2) + (pending s st'.1 - pending s st.1)
  ≤ otel_total a (calls st'.2) - otel_total a (calls st.2).
Proof.
  intros Hops Hts. destruct 1 as [m now p t timer t' Hm Hpre
    |m timer p1 p2 ok now t r t' Hpost|name attrs p t r t' Hcb]; simpl in *.
  - destruct (Hops m Hm) as [Hle H0].
    rewrite !(PreMeasurable_total _ _ _ _ _ _ _ Hpre), !pending_app. simpl. lia.
  - assert (is_Some (m_response m) → is_Some timer) as Ht.
    { apply Forall_app in Hts as [_ Hts]. by apply Forall_cons in Hts as [? _]. }
    destruct (PostMeasurable_total s _ _ _ _ _ _ _ _ Ht Hpost) as [-> _].
    destruct (PostMeasurable_total a _ _ _ _ _ _ _ _ Ht Hpost) as [-> _].
    rewrite !pending_app. simpl.
    pose proof (counts_on_nonneg s (m_successes m)).
    pose proof (counts_on_nonneg a (m_successes m)). destruct ok; lia.
  - destruct (gauge_callback_calls name attrs t) as (extra & Hx & Hobs).
    rewrite Hcb in Hx. simpl in Hx. rewrite Hx. autorewrite with bunny_rw.
    rewrite !(otel_total_observe _ _ _ Hobs). lia.
Qed.

(** C6: successes never outnumber attempts.  However measured operations
    start, end and are collected, interleaved in any way, the successes
    counted on an instrument plus the operations still in flight are at most
    the attempts counted on the matching instrument. *)
Theorem successes_never_exceed_attempts ops a s t0 p t :
  (∀ m, ops m → coherent a s m) →
  rtc (measured_step ops) ([], t0) (p, t) →
  otel_total s (calls t) - otel_total s (calls t0) + pending s p
  ≤ otel_total a (calls t) - otel_total a (calls t0).
Proof.
  intros Hops Hrtc.
  cut (∀ st st', rtc (measured_step ops) st st' → timers_set st.1 →
    otel_total s (calls st'.2) - otel_total s (calls st.2) + (pending s st'.1 - pending s st.1)
    ≤ otel_total a (calls st'.2) - otel_total a (calls st.2)).
  { intros Hall. pose proof (Hall _ _ Hrtc ltac:(constructor)) as Hle. simpl in Hle. lia. }
  clear p t Hrtc. induction 1 as [st|st1 st2 st3 Hstep Hrtc IH]; intros Hts; [lia|].
  pose proof (measured_step_balance ops a s _ _ Hops Hts Hstep).
  pose proof (IH (timers_set_step _ _ _ Hstep Hts)). lia.
Qed.

(** ending a measured operation never dereferences a nil timer.  In any
    interleaving, [PostMeasurable] called with the timer of an operation in
    flight returns normally. *)
Theorem PostMeasurable_never_panics ops t0 p t m timer ok now :
  rtc (measured_step ops) ([], t0) (p, t) → (m, timer) ∈ p →
  (PostMeasurable (m_successes m) (m_response m) timer ok now t).1 = Returned tt.
Proof.
  intros Hrtc Hin.
  assert (timers_set p) as Hts by (eapply (timers_set_reachable _ _ _ Hrtc); constructor).
  unfold timers_set in Hts. rewrite Forall_forall in Hts. pose proof (Hts _ Hin) as Ht.
  destruct (PostMeasurable _ _ _ _ _ _) as [r t'] eqn:E.
  by apply (PostMeasurable_total "" _ _ _ _ _ _ _ _ Ht) in E as [_ ->].
Qed.

(** C34: a response time reaches the meter once.  After a successful operation
    the next collection observes exactly the elapsed milliseconds, with the
    metric's attributes, and empties the table's entry; a collection right
    after it observes nothing. *)
Theorem response_time_observed_once sm g start now attrs t :
  OtelMetricName g ≠ "" →
  ∃ t1 t2, PostMeasurable sm (Some g) (Some start) true now t = (Returned tt, t1) ∧
    gauge_callback (OtelMetricName g) attrs t1 = (Returned None, t2) ∧
    calls t2 = calls t1 ++ [OtelObserve (Milliseconds (time_Sub now start)) attrs] ∧
    gauge_callback (OtelMetricName g) attrs t2 = (Returned None, t2) ∧
    ∀ name, name ≠ OtelMetricName g → ResponseTimes t2 !! name = ResponseTimes t !! name.
Proof.
  intros Hname.
  destruct (PostMeasurable_success sm (Some g) (Some start) now t ltac:(done))
    as (t1 & Hp & Hrt & _). simpl in Hrt.
  exists t1, (set_response_time (OtelMetricName g) None
    (record_call (OtelObserve (Milliseconds (time_Sub now start)) attrs) t1)).
  unfold gauge_callback. rewrite decide_False by done. go_unfold.
  rewrite Hrt, !lookup_insert_eq. simpl. split_and!; try done.
  intros name Hne. by rewrite !lookup_insert_ne.
Qed.

(** the labels of a metric.  [NewLabels] binds every label to the value of
    its last occurrence and nothing else, while [NewAttributes] keeps every
    label, in order. *)
Theorem NewLabels_last_wins l1 l l2 :
  label_Name l ∉ (label_Name <$> l2) →
  NewLabels (l1 ++ l :: l2) !! label_Name l = Some (label_Value l) ∧
  (∀ k, NewLabels (l1 ++ l :: l2) !! k = None ↔ k ∉ (label_Name <$> (l1 ++ l :: l2))) ∧
  List.length (NewAttributes (l1 ++ l :: l2)) = List.length (l1 ++ l :: l2).
Proof.
  intros Hl.
  assert (∀ ls, NewLabels ls = map_of_bindings (NewAttributes ls)) as HN.
  { intros ls. unfold NewLabels, map_of_bindings, NewAttributes.
    generalize (∅ : gmap string string). induction ls as [|x ls IH]; intros m; simpl; [done|].
    apply IH. }
  assert (∀ ls, (NewAttributes ls).*1 = label_Name <$> ls) as Hfst.
  { intros ls. unfold NewAttributes. by rewrite <-list_fmap_compose. }
  split_and!.
  - rewrite HN. unfold NewAttributes. rewrite fmap_app, fmap_cons.
    apply map_of_bindings_app_eq. fold (NewAttributes l2). by rewrite Hfst.
  - intros k. by rewrite HN, map_of_bindings_None, Hfst.
  - unfold NewAttributes. by rewrite length_fmap.
Qed.

End accounting_lemmas.

(** ** The calls of a measured operation *)

Section measured_calls.
Context `{MetricLibs}.

Definition attempt_calls (m : measure) : list call :=
  match m_attempts m with
  | Some c => [OtelAdd (OtelCounter c) 1 (counter_OtelExtraAttributes c); PromInc (PromCounter c)]
  | None => []
  end.

Definition success_calls (m : measure) (start now : Z) : list call :=
  match m_response m with
  | Some g => [PromSet (PromGauge g) (float64_of_Z (Milliseconds (time_Sub now start)))]
  | None => []
  end ++
  match m_successes m with
  | Some c => [OtelAdd (OtelCounter c) 1 (counter_OtelExtraAttributes c); PromInc (PromCounter c)]
  | None => []
  end.

Definition add_calls (cs : list call) (t : Telem) : Telem :=
  mkTelem (ResponseTimes t) (PromRegistry t) (callbacks t) (calls t ++ cs) (next_id t).

Lemma record_call_add c t : record_call c t = add_calls [c] t.
Proof. done. Qed.

Lemma add_calls_add cs1 cs2 t : add_calls cs2 (add_calls cs1 t) = add_calls (cs1 ++ cs2) t.
Proof. unfold add_calls. simpl. by rewrite <-app_assoc. Qed.

Lemma add_calls_nil t : add_calls [] t = t.
Proof. unfold add_calls. rewrite app_nil_r. by destruct t. Qed.

Lemma PreMeasurable_run m now t :
  PreMeasurable (m_attempts m) (m_response m) now t =
  (Returned ((λ _, now) <$> m_response m), add_calls (attempt_calls m) t).
Proof.
  unfold PreMeasurable, attempt_calls.
  destruct (m_attempts m), (m_response m); unfold emit; go_unfold;
    unfold record_call, add_calls; simpl; rewrite ?app_nil_r, <-?app_assoc; by destruct t.
Qed.

(** The state after a measured success: the table and the calls. *)
Definition after_success (m : measure) (start now : Z) (t : Telem) : Telem :=
  add_calls (success_calls m start now)
    (match m_response m with
     | Some g => set_response_time (OtelMetricName g) (Some (time_Sub now start)) t
     | None => t
     end).

Lemma PostMeasurable_run m start ok now t :
  PostMeasurable (m_successes m) (m_response m) ((λ _, start) <$> m_response m) ok now t =
  (Returned tt, if ok then after_success m start now t else t).
Proof.
  unfold PostMeasurable, after_success, success_calls. destruct ok; [|done]. simpl.
  destruct (m_successes m), (m_response m); unfold emit; go_unfold;
    unfold record_call, add_calls; simpl; rewrite ?app_nil_r, <-?app_assoc; by destruct t.
Qed.

Lemma calls_after_success m start now t :
  calls (after_success m start now t) = calls t ++ success_calls m start now.
Proof. unfold after_success. by destruct (m_response m). Qed.

Lemma calls_after_if (ok : bool) m start now t :
  calls (if ok then after_success m start now t else t) =
  calls t ++ (if ok then success_calls m start now else []).
Proof. destruct ok; [apply calls_after_success|by rewrite app_nil_r]. Qed.

End measured_calls.

(** Creating a metric calls no instrument. *)
Section creation_calls.
Context `{MetricLibs}.

Lemma new_collector_calls kind name labels t :
  calls (new_collector kind name labels t).2 = calls t.
Proof.
  unfold new_collector. go_unfold. destruct (PromRegistry t) as [r|]; [|done]. simpl.
  by destruct (Register _ _).
Qed.

Lemma NewCounterMetric_calls cfg meter t : calls (NewCounterMetric cfg meter t).2 = calls t.
Proof.
  unfold NewCounterMetric. destruct (metric_Enabled cfg); [|done]. unfold mbind, go_bind.
  destruct meter as [mt|]; [|done]. simpl. destruct (Int64Counter_err _); [done|].
  pose proof (new_collector_calls CounterKind ("prom_" +:+ metric_Name cfg)
    (NewLabels (metric_ExtraLabels cfg)) t) as Hc.
  by destruct (new_collector _ _ _ t) as [[c|p] t'].
Qed.

Lemma NewResponseTimeMetric_calls cfg meter t :
  calls (NewResponseTimeMetric cfg meter t).2 = calls t.
Proof.
  unfold NewResponseTimeMetric. destruct (metric_Enabled cfg); [|done]. unfold mbind, go_bind.
  destruct meter as [mt|]; [|done]. simpl.
  set (t1 := if callback_kept ("otel_" +:+ metric_Name cfg) then
    add_callback (metric_Name cfg) (NewAttributes (metric_ExtraLabels cfg)) t else t).
  pose proof (new_collector_calls GaugeKind ("prom_" +:+ metric_Name cfg)
    (NewLabels (metric_ExtraLabels cfg)) t1) as Hc.
  subst t1. destruct (callback_kept _); simpl;
    by destruct (new_collector _ _ _ _) as [[c|p] t'].
Qed.

End creation_calls.

(** Calls and measurements leave the registry alone. *)
Definition registry_is `{MetricLibs} (reg : option registry) (t : Telem) : Prop :=
  PromRegistry t = reg.

Section registry_kept.
Context `{MetricLibs} (reg : option registry).

Lemma emit_runs c : runs (registry_is reg) (emit c) (λ _, True).
Proof. by apply runs_modify. Qed.

Lemma PreMeasurable_runs m now :
  runs (registry_is reg) (PreMeasurable (m_attempts m) (m_response m) now)
    (λ start, start = (λ _, now) <$> m_response m).
Proof. intros t Ht. rewrite PreMeasurable_run. by eexists _, _. Qed.

Lemma PostMeasurable_runs m start ok now :
  runs (registry_is reg) (PostMeasurable (m_successes m) (m_response m) ((λ _, start) <$> m_response m) ok now)
    (λ _, True).
Proof.
  intros t Ht. rewrite PostMeasurable_run. eexists _, _. split; [done|]. split; [|done].
  destruct ok; [|done]. unfold after_success. by destruct (m_response m).
Qed.
End registry_kept.

#[export] Hint Resolve emit_runs PreMeasurable_runs PostMeasurable_runs : bunny.

(** ** What the registry accepts *)

(** A descriptor, as the Prometheus library has it. *)
Record Desc := mkDesc {
  fqName : string;
  help : string;
  constLabels : gmap string string;
  variableLabels : list string }.

#[global] Instance Desc_eq_dec : EqDecision Desc.
Proof. solve_decision. Defined.

(** The descriptors of the program's collectors and of the error counter of
    [promhttp.HandlerFor]. *)
Definition col_desc (c : collector) : Desc := mkDesc (col_name c) "" (col_labels c) [].
Definition promhttp_desc : Desc :=
  mkDesc "promhttp_metric_handler_errors_total"
    "Total number of internal errors encountered by the promhttp metric handler." ∅ ["cause"].

(** The names and texts of the Prometheus data model: a metric name is
    [[a-zA-Z_:][a-zA-Z0-9_:]*], a label name [[a-zA-Z_][a-zA-Z0-9_]*] without two
    leading underscores, a label value any UTF-8 text. *)
Definition name_start (c : ascii) : bool := byte_in 65 90 c || byte_in 97 122 c || byte_is 95 c.
Definition valid_metric_name (name : string) : bool :=
  match to_bytes name with
  | [] => false
  | c :: rest => (name_start c || byte_is 58 c)
                 && forallb (λ c, name_start c || byte_is 58 c || is_digit c) rest
  end.
Definition valid_label_name (name : string) : bool :=
  match to_bytes name with
  | [] => false
  | c :: rest => name_start c && forallb (λ c, name_start c || is_digit c) rest
  end && negb (String.prefix "__" name).
Definition valid_labels (labels : gmap string string) : Prop :=
  map_Forall (λ name value, valid_label_name name = true ∧ ValidString (to_bytes value) = true) labels.

(** Descriptors that share a name must share the help text and the label names,
    and they are equal when they share the values of the constant labels. *)
Definition same_dims (d1 d2 : Desc) : Prop :=
  help d1 = help d2 ∧ dom (constLabels d1) = dom (constLabels d2) ∧ variableLabels d1 = variableLabels d2.
Definition equal_desc (d1 d2 : Desc) : Prop := fqName d1 = fqName d2 ∧ constLabels d1 = constLabels d2.

(** What the library documents of a registry, which knows the descriptors of the
    collectors that are registered and of those that ever were: [Register] fails
    for an invalid descriptor, for one that is inconsistent with a descriptor
    that ever was registered, and for one that is registered; [Unregister] takes
    out the collector with the same descriptors, and the registry still knows
    them; the counter of [HandlerFor] is registered once. *)
Class RegistryLaws `{MetricLibs} := {
  registered_descs : registry → list (list Desc);
  known_descs : registry → list Desc;
  Register_accepts c r :
    valid_metric_name (col_name c) = true → valid_labels (col_labels c) →
    (∀ d, d ∈ known_descs r → fqName d = col_name c → same_dims d (col_desc c)) →
    (∀ ds d, ds ∈ registered_descs r → d ∈ ds → ¬ equal_desc d (col_desc c)) →
    ∃ r', Register c r = inr r' ∧
      (∀ ds, ds ∈ registered_descs r' → ds = [col_desc c] ∨ ds ∈ registered_descs r) ∧
      (∀ d, d ∈ known_descs r' → d = col_desc c ∨ d ∈ known_descs r);
  Unregister_removes c r :
    (∀ ds, ds ∈ registered_descs (Unregister c r) → ds ∈ registered_descs r ∧ ds ≠ [col_desc c]) ∧
    (∀ d, d ∈ known_descs (Unregister c r) → d ∈ known_descs r);
  HandlerFor_accepts r :
    (∀ d, d ∈ known_descs r → fqName d = fqName promhttp_desc → same_dims d promhttp_desc) →
    (∀ ds d, ds ∈ registered_descs r → d ∈ ds → fqName d = fqName promhttp_desc →
       ds = [promhttp_desc]) →
    ∃ r', HandlerFor r = inr r' ∧
      (∀ ds, ds ∈ registered_descs r' → ds = [promhttp_desc] ∨ ds ∈ registered_descs r) ∧
      (∀ d, d ∈ known_descs r' → d = promhttp_desc ∨ d ∈ known_descs r) }.

(** The label names each metric name is used with. *)
Definition metric_schema : Type := string → option (gset string).

(** A metric with valid names that has the label names of the schema. *)
Definition metric_fits (schema : metric_schema) (cfg : MetricsConfig) : Prop :=
  metric_Enabled cfg = true →
  valid_metric_name ("prom_" +:+ metric_Name cfg) = true ∧
  valid_labels (NewLabels (metric_ExtraLabels cfg)) ∧
  schema (metric_Name cfg) = Some (dom (NewLabels (metric_ExtraLabels cfg))).

Section acceptance.
Context `{RegistryLaws} (schema : metric_schema).

Definition desc_fits (d : Desc) : Prop :=
  (∀ name dims, fqName d = "prom_" +:+ name → schema name = Some dims →
     help d = "" ∧ dom (constLabels d) = dims ∧ variableLabels d = []) ∧
  (fqName d = fqName promhttp_desc → d = promhttp_desc).

(** The registry knows the names of the schema with their labels only, each
    descriptor in a collector of its own. *)
Record registry_fits (r : registry) : Prop := mkRegistryFits {
  fits_known d : d ∈ known_descs r → desc_fits d;
  fits_registered ds d :
    ds ∈ registered_descs r → d ∈ ds →
    (∃ name, fqName d = "prom_" +:+ name ∧ is_Some (schema name)) ∨ fqName d = fqName promhttp_desc →
    ds = [d] ∧ desc_fits d }.

Definition has_registry (t : Telem) : Prop := ∃ r, PromRegistry t = Some r ∧ registry_fits r.

Lemma prom_name_inj n1 n2 : "prom_" +:+ n1 = "prom_" +:+ n2 → n1 = n2.
Proof. intros [= E]. exact E. Qed.

Lemma registry_fits_Register c r name :
  registry_fits r → col_name c = "prom_" +:+ name →
  valid_metric_name (col_name c) = true → valid_labels (col_labels c) →
  schema name = Some (dom (col_labels c)) →
  ∃ r', Register c (Unregister c r) = inr r' ∧ registry_fits r'.
Proof.
  intros [Hk Hr] Hn Hvn Hvl Hs. destruct (Unregister_removes c r) as [Hur Huk].
  assert (desc_fits (col_desc c)) as Hfit.
  { split; cbn; rewrite Hn; [|done]. by intros n dims <-%prom_name_inj ?; simplify_eq. }
  destruct (Register_accepts c (Unregister c r) Hvn Hvl) as (r' & -> & Hreg & Hknown).
  - intros d Hd Hdn. destruct (Hk d (Huk d Hd)) as [Hd' _]. apply (Hd' name); [congruence|done].
  - intros ds d Hds Hd [Hdn Hdl]. cbn in Hdn, Hdl. destruct (Hur ds Hds) as [Hds' Hne].
    destruct (Hr ds d Hds' Hd) as [-> Hd']; [left; exists name; split; [congruence|by eexists]|].
    apply Hne. f_equal. destruct (proj1 Hd' name _ ltac:(congruence) Hs) as (Hh & _ & Hv).
    destruct d. unfold col_desc. cbn in *. by subst.
  - exists r'. split; [done|]. split.
    + intros d [->|Hd]%Hknown; [done|]. by apply Hk, Huk.
    + intros ds d [->|Hds]%Hreg Hd Hdn; [by apply list_elem_of_singleton in Hd as ->|].
      apply (Hr ds d); [by apply Hur|done..].
Qed.

Lemma registry_fits_HandlerFor r :
  registry_fits r → ∃ r', HandlerFor r = inr r' ∧ registry_fits r'.
Proof.
  intros [Hk Hr]. assert (desc_fits promhttp_desc) as Hfit by done.
  destruct (HandlerFor_accepts r) as (r' & -> & Hreg & Hknown).
  - intros d Hd Hdn. by rewrite (proj2 (Hk d Hd) Hdn).
  - intros ds d Hds Hd Hdn. destruct (Hr ds d Hds Hd (or_intror Hdn)) as [-> Hd'].
    by rewrite (proj2 Hd' Hdn).
  - exists r'. split; [done|]. split.
    + intros d [->|Hd]%Hknown; [done|by apply Hk].
    + intros ds d [->|Hds]%Hreg Hd Hdn; [by apply list_elem_of_singleton in Hd as ->|by apply Hr].
Qed.

Lemma new_collector_accepted kind cfg t :
  metric_Enabled cfg = true → metric_fits schema cfg → has_registry t →
  ∃ c t', new_collector kind ("prom_" +:+ metric_Name cfg) (NewLabels (metric_ExtraLabels cfg)) t
            = (Returned c, t') ∧ has_registry t'.
Proof.
  intros He Hf (r & Hr & Hfits). destruct (Hf He) as (Hn & Hl & Hs).
  unfold new_collector. go_unfold. rewrite Hr. cbn.
  destruct (registry_fits_Register (mkCollector (next_id t) kind ("prom_" +:+ metric_Name cfg)
    (NewLabels (metric_ExtraLabels cfg))) r (metric_Name cfg)) as (r' & -> & Hr'); [done..|].
  cbn. eexists _, _. split; [done|]. by exists r'.
Qed.

Lemma NewCounterMetric_accepted cfg mt t :
  metric_fits schema cfg → has_registry t →
  ∃ m t', NewCounterMetric cfg (Some mt) t = (Returned m, t') ∧ has_registry t'.
Proof.
  intros Hf Hr. unfold NewCounterMetric. destruct (metric_Enabled cfg) eqn:He; [|by eexists _, _].
  unfold mbind, go_bind. cbn. destruct (Int64Counter_err _); [by eexists _, _|].
  edestruct new_collector_accepted as (c & t' & -> & Hr'); [exact He|exact Hf|exact Hr|]. by eexists _, _.
Qed.

Lemma NewResponseTimeMetric_accepted cfg mt t :
  metric_fits schema cfg → has_registry t →
  ∃ m t', NewResponseTimeMetric cfg (Some mt) t = (Returned m, t') ∧ has_registry t'.
Proof.
  intros Hf Hr. unfold NewResponseTimeMetric. destruct (metric_Enabled cfg) eqn:He; [|by eexists _, _].
  unfold mbind, go_bind. cbn.
  destruct (callback_kept _); cbn;
    (edestruct new_collector_accepted as (c & t' & -> & Hr'); [exact He|exact Hf|exact Hr|]);
    by eexists _, _.
Qed.

(** The three metrics of a probe or of a health endpoint. *)
Definition metrics_fit (attempts responseTime successes : MetricsConfig) : Prop :=
  metric_fits schema attempts ∧ metric_fits schema responseTime ∧ metric_fits schema successes.

End acceptance.

(** ** Witnesses *)

(** A registry as the descriptors registered and those known, with the checks of
    the library. *)
Definition toy_check (d : Desc) (r : list (list Desc) * list Desc) : bool :=
  bool_decide (Forall (λ d', fqName d' = fqName d → same_dims d' d) r.2) &&
  bool_decide (Forall (Forall (λ d', ¬ equal_desc d' d)) r.1).
Definition toy_libs : MetricLibs := {|
  registry := list (list Desc) * list Desc;
  NewRegistry := ([], []);
  Unregister c r := (filter (λ ds, ds ≠ [col_desc c]) r.1, r.2);
  Register c r :=
    if valid_metric_name (col_name c) && bool_decide (valid_labels (col_labels c))
       && toy_check (col_desc c) r
    then inr ([col_desc c] :: r.1, col_desc c :: r.2)
    else inl (errorString "cannot be registered");
  HandlerFor r :=
    if decide ([promhttp_desc] ∈ r.1) then inr r
    else if toy_check promhttp_desc r then inr ([promhttp_desc] :: r.1, promhttp_desc :: r.2)
    else inl (errorString "cannot be registered");
  Int64Counter_err name := None;
  Int64ObservableGauge_err name := None;
  callback_kept name := true |}.

Lemma toy_check_true d r :
  (∀ d', d' ∈ r.2 → fqName d' = fqName d → same_dims d' d) →
  (∀ ds d', ds ∈ r.1 → d' ∈ ds → ¬ equal_desc d' d) → toy_check d r = true.
Proof.
  intros H1 H2. unfold toy_check. apply andb_true_iff. split; apply bool_decide_eq_true.
  - by apply Forall_forall.
  - apply Forall_forall. intros ds Hds. apply Forall_forall. intros d' Hd'. by apply (H2 ds).
Qed.

#[global] Instance toy_registry_laws : @RegistryLaws toy_libs.
Proof.
  refine (@Build_RegistryLaws toy_libs (λ r : list (list Desc) * list Desc, r.1)
    (λ r : list (list Desc) * list Desc, r.2) _ _ _).
  - intros c r Hn Hl Hk Hr. cbn. rewrite Hn, bool_decide_eq_true_2, toy_check_true by done. cbn.
    eexists. split; [reflexivity|]. split; intros x; cbn; apply elem_of_cons.
  - intros c r. cbn. split; [|done]. intros ds [? ?]%list_elem_of_filter. done.
  - intros r Hk Hr. cbn. destruct (decide ([promhttp_desc] ∈ r.1)) as [Hin|Hin].
    + exists r. split; [done|]. split; by right.
    + rewrite toy_check_true; [|done|].
      * eexists. split; [reflexivity|]. split; intros x; cbn; apply elem_of_cons.
      * intros ds d Hds Hd [Hn _]. apply Hin. by rewrite <-(Hr ds d Hds Hd Hn).
Defined.

(** A registry that knows nothing fits any schema. *)
Lemma toy_registry_fits schema : @registry_fits toy_libs _ schema ([], []).
Proof. split; intros *; by intros ?%not_elem_of_nil. Qed.

Definition toy_telem : @Telem toy_libs := @mkTelem toy_libs ∅ (Some ([], [])) [] [] 0.

Definition metric_a : CounterMetric :=
  mkCounterMetric "otel_a" [] (mkCollector 0 CounterKind "prom_a" ∅).
Definition metric_s : CounterMetric :=
  mkCounterMetric "otel_s" [] (mkCollector 1 CounterKind "prom_s" ∅).
Definition metric_r : ResponseTimeMetric :=
  mkResponseTimeMetric "otel_r" [] "r" (mkCollector 2 GaugeKind "prom_r" ∅).
Definition measure_ars : measure := mkMeasure (Some metric_a) (Some metric_r) (Some metric_s).

(** Two runs of one probe overlap; the first succeeds, the second is running. *)
Definition overlap_begin1 : Telem :=
  (@PreMeasurable toy_libs (Some metric_a) (Some metric_r) 10 toy_telem).2.
Definition overlap_begin2 : Telem :=
  (@PreMeasurable toy_libs (Some metric_a) (Some metric_r) 20 overlap_begin1).2.
Definition overlap_end1 : Telem :=
  (@PostMeasurable toy_libs (Some metric_s) (Some metric_r) (Some 10) true 5000010
     overlap_begin2).2.

Lemma overlap_run :
  rtc (@measured_step toy_libs (eq measure_ars)) ([], toy_telem)
    ([(measure_ars, Some 20)], overlap_end1).
Proof.
  eapply rtc_l; [by eapply (@measured_begin toy_libs _ measure_ars 10)|].
  eapply rtc_l; [by eapply (@measured_begin toy_libs _ measure_ars 20)|].
  eapply rtc_l; [|apply rtc_refl]. simpl.
  by eapply (@measured_end toy_libs _ measure_ars (Some 10) [] _ true 5000010).
Qed.

Lemma successes_never_exceed_attempts_witness :
  otel_total "otel_s" (calls overlap_end1) = 1 ∧
  otel_total "otel_s" (calls overlap_end1) - otel_total "otel_s" (calls toy_telem)
    + pending "otel_s" [(measure_ars, Some 20)]
  ≤ otel_total "otel_a" (calls overlap_end1) - otel_total "otel_a" (calls toy_telem).
Proof.
  split; [reflexivity|].
  apply (@successes_never_exceed_attempts toy_libs (eq measure_ars) "otel_a" "otel_s").
  - intros m <-. split; vm_compute; [discriminate|reflexivity].
  - exact overlap_run.
Defined.

Lemma PostMeasurable_never_panics_witness :
  (@PostMeasurable toy_libs (Some metric_s) (Some metric_r) (Some 20) true 30 overlap_end1).1
  = Returned tt.
Proof.
  apply (@PostMeasurable_never_panics toy_libs (eq measure_ars) toy_telem
    [(measure_ars, Some 20)] overlap_end1 measure_ars (Some 20) true 30).
  - exact overlap_run.
  - left.
Defined.

Lemma response_time_observed_once_witness :
  ∃ t1 t2, @PostMeasurable toy_libs None (Some metric_r) (Some 0) true 5000000 toy_telem
             = (Returned tt, t1) ∧
    gauge_callback "r" [] t1 = (Returned None, t2) ∧ observed (calls t2) = [5].
Proof.
  destruct (@response_time_observed_once toy_libs None metric_r 0 5000000 [] toy_telem)
    as (t1 & t2 & H1 & H2 & H3 & _); [discriminate|].
  exists t1, t2. split; [exact H1|]. split; [exact H2|].
  injection H1 as <-. rewrite H3. reflexivity.
Defined.

Lemma NewLabels_last_wins_witness :
  NewLabels [mkExtraLabelsConfig "k" "1"; mkExtraLabelsConfig "k" "2";
             mkExtraLabelsConfig "z" "3"] !! "k" = Some "2".
Proof.
  apply (NewLabels_last_wins [mkExtraLabelsConfig "k" "1"] (mkExtraLabelsConfig "k" "2")
    [mkExtraLabelsConfig "z" "3"]).
  simpl. rewrite list_elem_of_singleton. discriminate.
Defined.
