(* ===== verification/Query.v ===== *)
(** * telemetry.go: running a PromQL query and judging its result

    [InstantQuery], [RangeQuery] and [handleQueryResult].  The PromQL engine
    is third-party code: an [Engine] is the pair of query constructors, which
    are given the database (nil when it could not be opened), and the execution
    of a query; each may panic.  A [Result] holds what the library's accessors
    return. *)

From S2P Require Import Prelude GoStd Config Metrics.
From Stdlib Require Import Ascii String SpecFloat.

Local Open Scope Z_scope.

(** ** The engine's interface *)

Inductive ValueType :=
| ValueTypeNone | ValueTypeVector | ValueTypeScalar | ValueTypeMatrix | ValueTypeString.

Record Sample := mkSample { sample_F : float64; sample_H : option string }.
Record Series := mkSeries { series_Floats : list float64; series_Histograms : list string }.

(** [result.Err], [result.Warnings], the dynamic type of [result.Value] ([None]
    for a nil interface) and the results of [Scalar()], [Vector()], [Matrix()]
    and [String()]. *)
Record Result := mkResult {
  res_Err : option error;
  res_Warnings : list string;
  res_Type : option ValueType;
  res_Scalar : error + float64;
  res_Vector : error + list Sample;
  res_Matrix : error + list Series;
  res_String : string }.

(** The engine over a database, which may be nil; executing a query may panic,
    as it does on a nil database. *)
Record Engine {DB : Type} := mkEngine {
  query : Type;
  NewInstantQuery : option DB → Z → string → Z → error + query;
  NewRangeQuery : option DB → Z → string → Z → Z → Z → error + query;
  query_Exec : query → Z → outcome Result }.
Arguments Engine : clear implicits.

(** ** Judging a result *)

(** The loop over the samples of a vector. *)
Fixpoint check_samples (samples : list Sample) : bool * option error :=
  match samples with
  | [] => (true, None)
  | sample :: rest =>
      match sample_H sample with
      | None =>
          if negb (feqb (sample_F sample) float64_one) then (false, None)
          else check_samples rest
      | Some _ => (false, Some (errorString "histograms in vectors unsupported"))
      end
  end.

(** The inner loop over the points of one series; [false] stops it. *)
Fixpoint check_points (points : list float64) : bool :=
  match points with
  | [] => true
  | fpoint :: rest => if negb (feqb fpoint float64_one) then false else check_points rest
  end.

(** The loop over the series of a matrix. *)
Fixpoint check_series (series : list Series) : bool :=
  match series with
  | [] => true
  | s :: rest => if check_points (series_Floats s) then check_series rest else false
  end.

(** The word before the first space decides for a string. *)
Definition check_string (value : string) : bool * option error :=
  let word := default "" (head (strings_Split value " "%char)) in
  if decide (word = "1" ∨ word = "1.0") then (true, None)
  else if decide (word = "0" ∨ word = "0.0") then (false, None)
  else (false, Some (errorString "query result returned value that is neither 1 nor 0")).

Definition handleQueryResult (result : Result) : outcome (bool * option error) :=
  match res_Err result with
  | Some e => Returned (false, Some e)
  | None =>
      match res_Type result with
      | None => Panicked NilDereference
      | Some ValueTypeScalar =>
          match res_Scalar result with
          | inl _ => Returned (false, Some (errorString "error while converting to scalar"))
          | inr v => Returned (if feqb v float64_one then (true, None) else (false, None))
          end
      | Some ValueTypeVector =>
          match res_Vector result with
          | inl _ => Returned (false, Some (errorString "error while converting to vector"))
          | inr samples => Returned (check_samples samples)
          end
      | Some ValueTypeMatrix =>
          match res_Matrix result with
          | inl _ => Returned (false, Some (errorString "error while converting to matrix"))
          | inr series => Returned (check_series series, None)
          end
      | Some ValueTypeString => Returned (check_string (res_String result))
      | Some ValueTypeNone => Returned (false, Some (errorString "unknown type for result"))
      end
  end.

(** ** Running a query *)

Section query.
Context `{MetricLibs} {DB : Type}.

(** [engine] is [promQueryEngine], [db] is [promDB]; [now] is what [time.Now()]
    returns. *)
Definition InstantQuery (engine : option (Engine DB)) (db : option DB) (timeout : Z) (queryString : string)
    (instantTime now : Z) : go Telem (bool * option error) :=
  let deadline := time_Add now timeout in
  e ← deref engine;
  match NewInstantQuery e db deadline queryString instantTime with
  | inl err => emit ContextCancel ;; mret (false, Some err)
  | inr q =>
      result ← of_outcome (query_Exec e q deadline);
      deferred (record_call QueryClose)
        (r ← of_outcome (handleQueryResult result);
         emit ContextCancel ;;
         mret r)
  end.

Definition RangeQuery (engine : option (Engine DB)) (db : option DB) (timeout : Z) (queryString : string)
    (startTime endTime interval now : Z) : go Telem (bool * option error) :=
  let deadline := time_Add now timeout in
  e ← deref engine;
  match NewRangeQuery e db deadline queryString startTime endTime interval with
  | inl err => emit ContextCancel ;; mret (false, Some err)
  | inr q =>
      result ← of_outcome (query_Exec e q deadline);
      deferred (record_call QueryClose)
        (r ← of_outcome (handleQueryResult result);
         emit ContextCancel ;;
         mret r)
  end.

End query.

(** ** The meaning of a result *)

(** The values that count as healthy, by type: for scalars, vectors and
    matrices the README's (all values are 1.0); for a string, its first word
    is "1" or "1.0". *)
Definition healthy_value (result : Result) : Prop :=
  match res_Type result with
  | Some ValueTypeScalar => res_Scalar result = inr float64_one
  | Some ValueTypeVector =>
      ∃ samples, res_Vector result = inr samples ∧
        Forall (λ s, sample_H s = None ∧ sample_F s = float64_one) samples
  | Some ValueTypeMatrix =>
      ∃ series, res_Matrix result = inr series ∧
        Forall (λ s, Forall (λ v, v = float64_one) (series_Floats s)) series
  | Some ValueTypeString =>
      ∃ rest, strings_Split (res_String result) " "%char = "1" :: rest ∨
              strings_Split (res_String result) " "%char = "1.0" :: rest
  | _ => False
  end.

(** ** Lemmas *)

Lemma SFeqb_finite v m e :
  SFeqb v (S754_finite false m e) = true → v = S754_finite false m e.
Proof.
  unfold SFeqb, SFcompare. destruct v as [s|s| |s m' e']; [done|by destruct s|done|].
  destruct s; [done|].
  destruct (Z.compare e' e) eqn:He; [|done..]. apply Z.compare_eq in He as ->.
  destruct (Pos.compare_cont Eq m' m) eqn:Hm; [|done..].
  by apply Pos.compare_eq in Hm as ->.
Qed.

Lemma float64_one_finite : float64_one = S754_finite false 4503599627370496 (-52).
Proof. by vm_compute. Qed.

Lemma feqb_one v : feqb v float64_one = true ↔ v = float64_one.
Proof.
  split; [|intros ->; by vm_compute].
  rewrite float64_one_finite. apply SFeqb_finite.
Qed.

#[local] Opaque feqb float64_one.

Lemma check_samples_true samples :
  check_samples samples = (true, None) ↔
  Forall (λ s, sample_H s = None ∧ sample_F s = float64_one) samples.
Proof.
  induction samples as [|s samples IH]; simpl; [by split|].
  rewrite Forall_cons, <-IH. destruct (sample_H s) as [h|]; [naive_solver|].
  destruct (feqb (sample_F s) float64_one) eqn:E; simpl.
  - apply feqb_one in E. naive_solver.
  - split; [done|]. intros [[_ Hs%feqb_one] _]. congruence.
Qed.

Lemma check_samples_error samples b e :
  check_samples samples = (b, Some e) → b = false.
Proof. induction samples as [|s samples IH]; simpl; [done|]. repeat case_match; naive_solver. Qed.

Lemma check_points_true points :
  check_points points = true ↔ Forall (λ v, v = float64_one) points.
Proof.
  induction points as [|v points IH]; simpl; [by split|].
  rewrite Forall_cons, <-IH. destruct (feqb v float64_one) eqn:E; simpl.
  - apply feqb_one in E. naive_solver.
  - split; [done|]. intros [Hv%feqb_one _]. congruence.
Qed.

Lemma check_series_true series :
  check_series series = true ↔
  Forall (λ s, Forall (λ v, v = float64_one) (series_Floats s)) series.
Proof.
  induction series as [|s series IH]; simpl; [by split|].
  rewrite Forall_cons, <-IH, <-check_points_true.
  destruct (check_points _); naive_solver.
Qed.

Lemma strings_Split_cons s sep : ∃ x l, strings_Split s sep = x :: l.
Proof.
  unfold strings_Split. destruct (split_bytes_cons sep [] (to_bytes s)) as (x & l & ->).
  simpl. by eexists _, _.
Qed.

Lemma check_string_true s :
  check_string s = (true, None) ↔
  ∃ rest, strings_Split s " "%char = "1" :: rest ∨ strings_Split s " "%char = "1.0" :: rest.
Proof.
  unfold check_string. destruct (strings_Split_cons s " "%char) as (x & l & ->). simpl.
  split.
  - case_decide as Hx; [|by case_decide]. intros _. exists l. naive_solver.
  - intros [rest Hr]. rewrite decide_True; naive_solver.
Qed.

Lemma handleQueryResult_true result :
  handleQueryResult result = Returned (true, None) ↔
  res_Err result = None ∧ healthy_value result.
Proof.
  unfold handleQueryResult, healthy_value.
  destruct (res_Err result) as [e|]; [naive_solver|].
  destruct (res_Type result) as [[]|]; [naive_solver| | | | |naive_solver].
  - destruct (res_Vector result) as [e|samples]; [naive_solver|].
    split; [intros [= H%check_samples_true]; eauto|].
    intros (_ & ? & [= <-] & ->%check_samples_true). done.
  - destruct (res_Scalar result) as [e|v]; [naive_solver|].
    destruct (feqb v float64_one) eqn:E.
    + apply feqb_one in E as ->. done.
    + split; [done|]. intros [_ [= ->]]. by vm_compute in E.
  - destruct (res_Matrix result) as [e|series]; [naive_solver|].
    split; [intros [= H%check_series_true]; eauto|].
    intros (_ & ? & [= <-] & ->%check_series_true). done.
  - split; [intros [= H%check_string_true]; eauto|].
    intros [_ ->%check_string_true]. done.
Qed.

(** A result has a value or an error; then judging it does not panic. *)
Lemma handleQueryResult_total result :
  (res_Err result = None → is_Some (res_Type result)) →
  ∃ r, handleQueryResult result = Returned r.
Proof.
  intros Hv. unfold handleQueryResult. destruct (res_Err result); [by eexists|].
  destruct (Hv eq_refl) as [ty ->]. destruct ty; repeat case_match; by eexists.
Qed.

(** *** Queries that return *)

(** What the engine documents: a query on a database gives a result, and a
    result without an error has a value. *)
Definition executes {DB} (e : Engine DB) (q : query e) (deadline : Z) : Prop :=
  ∃ res, query_Exec e q deadline = Returned res ∧ (res_Err res = None → is_Some (res_Type res)).
Definition engine_sane {DB} (e : Engine DB) : Prop :=
  ∀ d deadline qs q,
    (∀ t0, NewInstantQuery e (Some d) deadline qs t0 = inr q → executes e q deadline) ∧
    (∀ t0 t1 i, NewRangeQuery e (Some d) deadline qs t0 t1 i = inr q → executes e q deadline).

Section query_runs.
Context `{MetricLibs} {DB : Type} (reg : option registry).

Lemma query_body_runs (e : Engine DB) q deadline :
  executes e q deadline →
  runs (registry_is reg) (result ← of_outcome (query_Exec e q deadline);
    deferred (record_call QueryClose)
      (r ← of_outcome (handleQueryResult result); emit ContextCancel ;; mret r)) (λ _, True).
Proof.
  intros (res & Hres & Hs).
  apply (runs_bind _ _ _ (λ x, x = res)); [intros t Ht; rewrite Hres; by exists res, t|].
  intros x ->. apply runs_deferred; [done|]. apply (runs_bind _ _ _ (λ _, True)).
  - intros t Ht. destruct (handleQueryResult_total res Hs) as [r ->]. by exists r, t.
  - intros r _. apply (runs_bind _ _ _ (λ _, True)); [apply emit_runs|]. intros _ _. by apply runs_ret.
Qed.

Lemma InstantQuery_runs (e : Engine DB) d timeout queryString instantTime now :
  engine_sane e →
  runs (registry_is reg) (InstantQuery (Some e) (Some d) timeout queryString instantTime now) (λ _, True).
Proof.
  intros Hs. unfold InstantQuery. apply (runs_bind _ _ _ (λ x, x = e)); [by apply (runs_deref _ _ e)|].
  intros x ->. destruct (NewInstantQuery _ _ _ _ _) eqn:E; [|by eapply query_body_runs, (proj1 (Hs d _ _ _))].
  eapply runs_bind; [apply emit_runs|]. intros _ _. by apply runs_ret.
Qed.

Lemma RangeQuery_runs (e : Engine DB) d timeout queryString startTime endTime interval now :
  engine_sane e →
  runs (registry_is reg) (RangeQuery (Some e) (Some d) timeout queryString startTime endTime interval now)
    (λ _, True).
Proof.
  intros Hs. unfold RangeQuery. apply (runs_bind _ _ _ (λ x, x = e)); [by apply (runs_deref _ _ e)|].
  intros x ->. destruct (NewRangeQuery _ _ _ _ _ _ _) eqn:E; [|by eapply query_body_runs, (proj2 (Hs d _ _ _))].
  eapply runs_bind; [apply emit_runs|]. intros _ _. by apply runs_ret.
Qed.
End query_runs.

(** ** Theorems *)

(** What the README asks of a result: the scalar is 1.0, all values of the vector
    or of the matrix are 1.0, the string is equal to "1" or "1.0".  A histogram is
    a value that is not 1.0. *)
Definition documented_healthy (result : Result) : Prop :=
  match res_Type result with
  | Some ValueTypeScalar => res_Scalar result = inr float64_one
  | Some ValueTypeVector =>
      ∃ samples, res_Vector result = inr samples ∧
        Forall (λ s, sample_H s = None ∧ sample_F s = float64_one) samples
  | Some ValueTypeMatrix =>
      ∃ series, res_Matrix result = inr series ∧
        Forall (λ s, series_Histograms s = [] ∧ Forall (λ v, v = float64_one) (series_Floats s)) series
  | Some ValueTypeString => res_String result = "1" ∨ res_String result = "1.0"
  | _ => False
  end.

(** The results on which the code and the README agree: a string without a
    space, a matrix without histograms, any scalar and vector. *)
Definition documented_case (result : Result) : Prop :=
  match res_Type result with
  | Some ValueTypeMatrix =>
      ∀ series, res_Matrix result = inr series → Forall (λ s, series_Histograms s = []) series
  | Some ValueTypeString => (" "%char) ∉ to_bytes (res_String result)
  | _ => True
  end.

Lemma healthy_value_documented result :
  documented_case result → healthy_value result ↔ documented_healthy result.
Proof.
  unfold documented_case, healthy_value, documented_healthy.
  destruct (res_Type result) as [[]|]; try done.
  - intros Hc. split; intros (series & Hs & Hall); exists series; (split; [done|]).
    + specialize (Hc _ Hs). by apply Forall_and.
    + by apply Forall_and in Hall as [_ Hall].
  - intros Hc. unfold strings_Split. rewrite (split_bytes_one " "%char [] _ Hc). cbn.
    rewrite string_of_list_ascii_of_string. split.
    + intros [rest [[= ->]|[= ->]]]; auto.
    + intros [->| ->]; exists []; auto.
Qed.

(** C11: a health query is judged as the README says.  For every result but a
    string with a space in it and a matrix with histograms, [handleQueryResult]
    answers "true" without an error exactly when the query raised no error and
    its value is what the README asks for: the scalar, or every value of the
    vector or matrix, is 1.0, or the string is equal to "1" or "1.0"; NaN,
    infinities and every other number are not. *)
Theorem handleQueryResult_healthy_iff result :
  documented_case result →
  handleQueryResult result = Returned (true, None) ↔
  res_Err result = None ∧ documented_healthy result.
Proof. intros Hc. rewrite handleQueryResult_true, healthy_value_documented by done. done. Qed.

(** an error is never reported as healthy.  When [handleQueryResult]
    returns an error the boolean beside it is false. *)
Theorem handleQueryResult_error_unhealthy result b e :
  handleQueryResult result = Returned (b, Some e) → b = false.
Proof.
  unfold handleQueryResult, check_string. repeat case_match; intros; simplify_eq; try done.
  by eapply check_samples_error.
Qed.

Section query_theorems.
Context `{MetricLibs} {DB : Type}.

(** queries release what they take.  When a query function returns, its
    deadline context was cancelled exactly once, and the query was closed
    exactly once if it was created and not otherwise. *)
Theorem queries_release_resources (engine : option (Engine DB)) db timeout qs t0 t1 interval now t r t' :
  RangeQuery engine db timeout qs t0 t1 interval now t = (Returned r, t') ∨
  InstantQuery engine db timeout qs t0 now t = (Returned r, t') →
  calls t' = calls t ++ [ContextCancel] ∧ (∃ e, r = (false, Some e)) ∨
  calls t' = calls t ++ [ContextCancel; QueryClose].
Proof.
  unfold RangeQuery, InstantQuery, of_outcome. go_unfold. destruct engine as [e|]; [|naive_solver].
  intros [Hq|Hq]; simpl in Hq.
  - destruct (NewRangeQuery e _ _ _ _ _ _) as [err|q]; simpl in Hq.
    + simplify_eq/=. left. by eauto.
    + destruct (query_Exec e q _) as [res|]; [|done]. simpl in Hq.
      destruct (handleQueryResult _) eqn:E; simplify_eq/=. right. by rewrite <-(assoc_L (++)).
  - destruct (NewInstantQuery e _ _ _ _) as [err|q]; simpl in Hq.
    + simplify_eq/=. left. by eauto.
    + destruct (query_Exec e q _) as [res|]; [|done]. simpl in Hq.
      destruct (handleQueryResult _) eqn:E; simplify_eq/=. right. by rewrite <-(assoc_L (++)).
Qed.

End query_theorems.

(** a string result is judged by its first word only.  The README asks for
    equality with "1" or "1.0", but any text after a space is ignored. *)
Theorem string_suffix_ignored w text result :
  w = "1" ∨ w = "1.0" →
  res_Err result = None → res_Type result = Some ValueTypeString →
  res_String result = w +:+ " " +:+ text →
  handleQueryResult result = Returned (true, None).
Proof.
  intros Hw He Ht Hs. unfold handleQueryResult. rewrite He, Ht. f_equal.
  apply check_string_true. rewrite Hs.
  exists (of_bytes <$> split_bytes " "%char [] (to_bytes text)). destruct Hw as [->| ->]; auto.
Qed.

(** histograms in a matrix are not looked at.  A range query whose series
    hold no float points, only histograms, is healthy, while the same
    histograms in a vector are an error. *)
Theorem matrix_histograms_ignored result series :
  res_Err result = None → res_Type result = Some ValueTypeMatrix →
  res_Matrix result = inr series → Forall (λ s, series_Floats s = []) series →
  handleQueryResult result = Returned (true, None).
Proof.
  intros He Ht Hm Hall. unfold handleQueryResult. rewrite He, Ht, Hm.
  rewrite (proj2 (check_series_true series)); [done|].
  eapply Forall_impl; [exact Hall|]. intros s ->. constructor.
Qed.

(** ** Witnesses *)

#[local] Transparent feqb float64_one.

Definition result_of (ty : ValueType) (v : string) (m : list Series) : Result :=
  mkResult None [] (Some ty) (inl (errorString "")) (inl (errorString "")) (inr m) v.

Lemma handleQueryResult_error_unhealthy_witness :
  let e := errorString "query result returned value that is neither 1 nor 0" in
  ∃ b, handleQueryResult (result_of ValueTypeString "2" []) = Returned (b, Some e) ∧ b = false.
Proof.
  eexists. split; [reflexivity|].
  apply (handleQueryResult_error_unhealthy (result_of ValueTypeString "2" []) _
    (errorString "query result returned value that is neither 1 nor 0")).
  reflexivity.
Defined.

(** An engine whose queries on a database answer the scalar 1, and which
    panics without one. *)
Definition scalar_engine : Engine unit :=
  mkEngine unit bool (λ db _ _ _, inr (bool_decide (is_Some db)))
    (λ db _ _ _ _ _, inr (bool_decide (is_Some db)))
    (λ (q : bool) _,
      if q then Returned (mkResult None [] (Some ValueTypeScalar) (inr float64_one)
                            (inl (errorString "")) (inl (errorString "")) "")
      else Panicked NilDereference).

Lemma handleQueryResult_healthy_iff_witness :
  handleQueryResult (result_of ValueTypeString "1.0" []) = Returned (true, None).
Proof.
  apply handleQueryResult_healthy_iff; [|split; [reflexivity|by right]].
  refine (bool_decide_unpack _ _). vm_compute. exact I.
Defined.

Lemma queries_release_resources_witness :
  let q := @InstantQuery toy_libs unit (Some scalar_engine) (Some tt) 5 "1" 0 0 toy_telem in
  calls q.2 = [ContextCancel] ∧ (∃ e : error, (true, None) = (false, Some e)) ∨
  calls q.2 = [ContextCancel; QueryClose].
Proof.
  apply (@queries_release_resources toy_libs unit (Some scalar_engine) (Some tt) 5 "1" 0 0 0 0 toy_telem
    (true, None)).
  right. reflexivity.
Defined.

Lemma string_suffix_ignored_witness :
  handleQueryResult (result_of ValueTypeString "1 of 7 replicas up" [])
  = Returned (true, None).
Proof.
  apply (string_suffix_ignored "1" "of 7 replicas up"); [by left|reflexivity..].
Defined.

Lemma matrix_histograms_ignored_witness :
  handleQueryResult (result_of ValueTypeMatrix "" [mkSeries [] ["h"]]) = Returned (true, None).
Proof.
  apply (matrix_histograms_ignored _ [mkSeries [] ["h"]]); [reflexivity..|].
  repeat constructor.
Defined.
