(* ===== verification/Telemetry.v ===== *)
(** * telemetry.go: configuring telemetry

    [configureTelemetry] and the goroutine [GoTelemetry].  The Prometheus
    database and engine, the exporters and the OpenTelemetry SDK are
    third-party code: what they answer is the record [TelemetryEnv], and the
    options the program hands to them are values of the model. *)

From S2P Require Import Prelude GoStd Config Metrics Query.
From Stdlib Require Import String.

Local Open Scope Z_scope.

(** ** What is handed to the libraries *)

(** How a reader collects: on a fixed period, on the SDK's default period, or
    when it is scraped. *)
Inductive reader_kind := PeriodicEvery (d : Z) | PeriodicDefault | Pulled.

Inductive metric_option :=
| WithReader (exporter : string) (kind : reader_kind)
| WithMetricResource (service : string).

Inductive trace_option :=
| WithBatcher (exporter : string)
| WithTraceResource (service : string).

#[global] Instance reader_kind_eq_dec : EqDecision reader_kind.
Proof. solve_decision. Defined.
#[global] Instance metric_option_eq_dec : EqDecision metric_option.
Proof. solve_decision. Defined.
#[global] Instance trace_option_eq_dec : EqDecision trace_option.
Proof. solve_decision. Defined.

Record MeterProvider := mkMeterProvider { mp_options : list metric_option }.
Record TracerProvider := mkTracerProvider { tp_options : list trace_option }.

(** The fields [configureTelemetry] sets in [tsdb.Options]. *)
Record DBOptions := mkDBOptions {
  RetentionDuration : Z; MinBlockDuration : Z; MaxBlockDuration : Z }.

(** The fields it sets in [promql.EngineOpts]. *)
Record EngineOpts := mkEngineOpts {
  opts_MaxSamples : Z;
  opts_Timeout : Z;
  opts_LookbackDelta : Z;
  EnableAtModifier : bool;
  EnableNegativeOffset : bool;
  EnablePerStepStats : bool }.

Section telemetry.
Context `{MetricLibs} {Chan DB : Type}.

Record TelemetryEnv := mkTelemetryEnv {
  (** [os.MkdirTemp("/tmp", "bunny-tsdb-")] *)
  MkdirTemp : error + string;
  (** registering the Go and process collectors *)
  register_base : registry → error + registry;
  (** the database, or the error it could not be opened with; the functions of
      Prometheus may panic, and register metrics of their own *)
  tsdb_Open : string → DBOptions → registry → outcome ((error + DB) * registry);
  QueryTracker : Type;
  NewActiveQueryTracker : string → Z → outcome QueryTracker;
  NewEngine : EngineOpts → QueryTracker → registry → outcome (Engine DB * registry);
  (** the error of creating the named exporter *)
  exporter_err : string → option error }.

(** What the goroutine makes visible to the others: the global providers and the
    sends on the stage channels. *)
Inductive telemetry_event :=
| SetMeterProvider (mp : MeterProvider)
| SetTracerProvider (tp : TracerProvider)
| StageSent (ch : Chan) (stage : ConfigStage).

(** The package's variables; [events] in the order in which they happen, and
    [shutdowns] the providers shut down ([None] is nil). *)
Record State := mkState {
  telemetryConfig : option TelemetryConfig;
  meterProvider : option MeterProvider;
  traceProvider : option TracerProvider;
  promDB : option DB;
  promQueryEngine : option (Engine DB);
  configStageChannels : list Chan;
  events : list telemetry_event;
  shutdowns : list (option MeterProvider * option TracerProvider) }.

(** The sends on the stage channels. *)
Definition stages_sent (s : State) : list (Chan * ConfigStage) :=
  omap (λ e, match e with StageSent ch stage => Some (ch, stage) | _ => None end) (events s).

Definition init_state : State := mkState None None None None None [] [] [].

Definition set_telemetryConfig (c : TelemetryConfig) (s : State) : State :=
  mkState (Some c) (meterProvider s) (traceProvider s) (promDB s) (promQueryEngine s)
    (configStageChannels s) (events s) (shutdowns s).
Definition set_prometheus (db : option DB) (e : Engine DB) (s : State) : State :=
  mkState (telemetryConfig s) (meterProvider s) (traceProvider s) db (Some e)
    (configStageChannels s) (events s) (shutdowns s).
Definition set_providers (mp : MeterProvider) (tp : TracerProvider) (s : State) : State :=
  mkState (telemetryConfig s) (Some mp) (Some tp) (promDB s) (promQueryEngine s)
    (configStageChannels s) (events s) (shutdowns s).
(** [otel.SetMeterProvider], [otel.SetTracerProvider] and sends. *)
Definition add_event (e : telemetry_event) (s : State) : State :=
  mkState (telemetryConfig s) (meterProvider s) (traceProvider s) (promDB s)
    (promQueryEngine s) (configStageChannels s) (events s ++ [e]) (shutdowns s).
Definition send_stage (ch : Chan) : State → State :=
  add_event (StageSent ch ConfigStageTelemetryCompleted).
Definition record_shutdown (s : State) : State :=
  mkState (telemetryConfig s) (meterProvider s) (traceProvider s) (promDB s)
    (promQueryEngine s) (configStageChannels s) (events s)
    (shutdowns s ++ [(meterProvider s, traceProvider s)]).

Definition AddChannelListener (ch : Chan) (s : State) : State :=
  mkState (telemetryConfig s) (meterProvider s) (traceProvider s) (promDB s)
    (promQueryEngine s) (configStageChannels s ++ [ch]) (events s) (shutdowns s).

(** One turn of the loop over the exporter names: the switch. *)
Definition add_exporter (env : TelemetryEnv)
    (acc : list metric_option * list trace_option) (exporterName : string)
  : list metric_option * list trace_option :=
  let '(metricOptions, traceProviderOptions) := acc in
  let metric kind :=
    match exporter_err env exporterName with
    | Some _ => acc
    | None => (metricOptions ++ [WithReader exporterName kind], traceProviderOptions)
    end in
  let trace :=
    match exporter_err env exporterName with
    | Some _ => acc
    | None => (metricOptions, traceProviderOptions ++ [WithBatcher exporterName])
    end in
  if decide (exporterName = "stdoutmetric") then metric (PeriodicEvery (1 * Second))
  else if decide (exporterName = "prometheus") then metric Pulled
  else if decide (exporterName = "otlpmetrichttp") then metric PeriodicDefault
  else if decide (exporterName = "otlpmetricgrpc") then metric PeriodicDefault
  else if decide (exporterName = "stdouttrace") then trace
  else if decide (exporterName = "otlptracehttp") then trace
  else if decide (exporterName = "otlptracegrpc") then trace
  else acc.

Definition provider_options (env : TelemetryEnv) (names : list string)
  : list metric_option * list trace_option :=
  let '(metricOptions, traceProviderOptions) := foldl (add_exporter env) ([], []) names in
  (metricOptions ++ [WithMetricResource "bunny"],
   traceProviderOptions ++ [WithTraceResource "bunny"]).

Definition tsdb_options (c : TSDBOptionsConfig) : DBOptions :=
  mkDBOptions (RetentionDurationMilliseconds c) (MinBlockDurationMilliseconds c)
    (MaxBlockDurationMilliseconds c).

Definition engine_opts (c : EngineOptionsConfig) : EngineOpts :=
  mkEngineOpts (engine_MaxSamples c) (duration_ms (engine_TimeoutMilliseconds c))
    (duration_ms (engine_LookbackDeltaMilliseconds c)) true true true.

(** The engine's [NoStepSubqueryIntervalFn]; it ignores its argument and reads
    the configuration at the time of the call. *)
Definition NoStepSubqueryIntervalFn (c : TelemetryConfig) (rangeMillis : Z) : Z :=
  Milliseconds (duration_ms
    (engine_NoStepSubqueryIntervalMilliseconds (EngineOptions (PromQL (Prometheus c))))).

Definition configureTelemetry (env : TelemetryEnv) : go (State * Telem) unit :=
  p ← on_fst (gets telemetryConfig);
  cfg ← deref p;
  let prometheus := Prometheus cfg in
  dir ← (if decide (TSDBPath prometheus = "") then
           match MkdirTemp env with
           | inl err => throw (PanicCall "couldn't create a temp dir for the tsdb")
           | inr d => mret d
           end
         else mret (TSDBPath prometheus));
  on_snd (modify (set_registry (Some NewRegistry))) ;;
  r ← match register_base env NewRegistry with
      | inl _ => throw (MustRegisterFailed "collectors")
      | inr r => mret r
      end;
  on_snd (modify (set_registry (Some r))) ;;
  opened ← of_outcome (tsdb_Open env dir (tsdb_options (TSDBOptions prometheus)) r);
  on_snd (modify (set_registry (Some opened.2))) ;;
  tracker ← of_outcome (NewActiveQueryTracker env dir (MaxConcurrentQueries (PromQL prometheus)));
  engine ← of_outcome (NewEngine env (engine_opts (EngineOptions (PromQL prometheus))) tracker opened.2);
  on_snd (modify (set_registry (Some engine.2))) ;;
  on_fst (modify (set_prometheus (match opened.1 with inr d => Some d | inl _ => None end) engine.1)) ;;
  let '(metricOptions, traceProviderOptions) :=
    provider_options env (Exporters (OpenTelemetry cfg)) in
  on_snd (emit (SetTextMapPropagator ["tracecontext"; "baggage"])) ;;
  let mp := mkMeterProvider metricOptions in
  let tp := mkTracerProvider traceProviderOptions in
  on_fst (modify (set_providers mp tp)) ;;
  on_fst (modify (add_event (SetMeterProvider mp))) ;;
  on_fst (modify (add_event (SetTracerProvider tp))) ;;
  chans ← on_fst (gets configStageChannels);
  range_loop (λ ch, on_fst (modify (send_stage ch))) chans.

(** What wakes the [select] of [GoTelemetry]; [Shutdown] is the SDK's shutting
    down of the meter provider and then of the trace provider, which may be nil
    and whose errors are not looked at. *)
Inductive telemetry_wakeup :=
| TelemetryUpdate (ok : bool) (c : BunnyConfig) (env : TelemetryEnv)
| TelemetrySignal (ok : bool)
    (Shutdown : option MeterProvider → option TracerProvider → outcome unit).

(** One turn of the loop of [GoTelemetry]; [true] when it returns. *)
Definition GoTelemetry_step (w : telemetry_wakeup) : go (State * Telem) bool :=
  match w with
  | TelemetryUpdate false _ _ => mret false
  | TelemetryUpdate true c env =>
      on_fst (modify (set_telemetryConfig (cfg_Telemetry c))) ;;
      configureTelemetry env ;;
      mret false
  | TelemetrySignal _ Shutdown =>
      mp ← on_fst (gets meterProvider);
      tp ← on_fst (gets traceProvider);
      (λ st, (Shutdown mp tp, st)) ;;
      on_fst (modify record_shutdown) ;;
      mret true
  end.

End telemetry.

(** ** Lemmas *)

(** The exporters of metrics, with the reader each gets, and of traces. *)
Definition metric_exporter (name : string) : option reader_kind :=
  if decide (name = "stdoutmetric") then Some (PeriodicEvery (1 * Second))
  else if decide (name = "prometheus") then Some Pulled
  else if decide (name = "otlpmetrichttp") then Some PeriodicDefault
  else if decide (name = "otlpmetricgrpc") then Some PeriodicDefault
  else None.
Definition trace_exporter (name : string) : bool :=
  bool_decide (name ∈ ["stdouttrace"; "otlptracehttp"; "otlptracegrpc"]).

Section telemetry_theorems.
Context `{MetricLibs} {Chan DB : Type}.
Implicit Types env : TelemetryEnv (DB := DB).

(** The readers a list of exporter names asks for. *)
Definition wanted_reader env (name : string) : option metric_option :=
  match exporter_err env name with
  | Some _ => None
  | None => WithReader name <$> metric_exporter name
  end.
Definition wanted_batcher env (name : string) : option trace_option :=
  match exporter_err env name with
  | Some _ => None
  | None => if trace_exporter name then Some (WithBatcher name) else None
  end.

Lemma add_exporter_spec env acc name :
  add_exporter env acc name =
  (acc.1 ++ option_list (wanted_reader env name), acc.2 ++ option_list (wanted_batcher env name)).
Proof.
  destruct acc as [ms ts].
  unfold add_exporter, wanted_reader, wanted_batcher, metric_exporter, trace_exporter.
  destruct (exporter_err env name) as [e|]; simpl.
  { rewrite !app_nil_r. by repeat case_decide. }
  destruct (decide (name ∈ ["stdouttrace"; "otlptracehttp"; "otlptracegrpc"])) as [Hin|Hin].
  - rewrite bool_decide_eq_true_2 by done. rewrite !elem_of_cons in Hin.
    destruct Hin as [->|[->|[->|[]%elem_of_nil]]]; simpl; by rewrite app_nil_r.
  - rewrite bool_decide_eq_false_2 by done. rewrite !elem_of_cons in Hin. simpl.
    repeat case_decide; subst; simpl; rewrite ?app_nil_r; try done; exfalso; tauto.
Qed.

Lemma foldl_add_exporter env names acc :
  foldl (add_exporter env) acc names =
  (acc.1 ++ omap (wanted_reader env) names, acc.2 ++ omap (wanted_batcher env) names).
Proof.
  revert acc; induction names as [|n names IH]; intros acc; simpl.
  - rewrite !app_nil_r. by destruct acc.
  - rewrite IH, add_exporter_spec. simpl. rewrite <-!(assoc_L (++)).
    destruct (wanted_reader env n), (wanted_batcher env n); done.
Qed.

Lemma send_stages_spec (chans : list Chan) (st : State (DB := DB) * Telem) :
  range_loop (λ ch, on_fst (modify (send_stage ch))) chans st =
  (Returned tt,
   (mkState (telemetryConfig st.1) (meterProvider st.1) (traceProvider st.1) (promDB st.1)
      (promQueryEngine st.1) (configStageChannels st.1)
      (events st.1 ++ ((λ ch, StageSent ch ConfigStageTelemetryCompleted) <$> chans)) (shutdowns st.1),
    st.2)).
Proof.
  revert st; induction chans as [|ch chans IH]; intros [s t]; simpl.
  - rewrite app_nil_r. by destruct s.
  - unfold mbind, go_bind. simpl. rewrite IH. simpl. by rewrite <-(assoc_L (++)).
Qed.

(** the exporters a configuration names.  The meter provider gets one
    reader for each named metric exporter that could be created and the tracer
    provider one batcher for each trace exporter, both in the order of the
    list and followed by the service name; an unknown name and a failed
    creation contribute nothing and do not stop the loop. *)
Theorem provider_options_spec env names :
  provider_options env names =
  (omap (wanted_reader env) names ++ [WithMetricResource "bunny"],
   omap (wanted_batcher env) names ++ [WithTraceResource "bunny"]).
Proof. unfold provider_options. by rewrite foldl_add_exporter. Qed.

(** Why an update can panic: no temporary directory, or a panic of Prometheus. *)
Definition prometheus_fails env (c : TelemetryConfig) : Prop :=
  (∃ e, MkdirTemp env = inl e ∧ TSDBPath (Prometheus c) = "") ∨
  (∃ e, register_base env NewRegistry = inl e) ∨
  (∃ r dir o e, register_base env NewRegistry = inr r ∧ tsdb_Open env dir o r = Panicked e) ∨
  (∃ dir n e, NewActiveQueryTracker env dir n = Panicked e) ∨
  (∃ r dir o opened eo tr e, register_base env NewRegistry = inr r ∧
     tsdb_Open env dir o r = Returned opened ∧ NewEngine env eo tr opened.2 = Panicked e).

(** The providers a configuration asks for. *)
Definition wanted_meter env (c : TelemetryConfig) : MeterProvider :=
  mkMeterProvider (omap (wanted_reader env) (Exporters (OpenTelemetry c)) ++ [WithMetricResource "bunny"]).
Definition wanted_tracer env (c : TelemetryConfig) : TracerProvider :=
  mkTracerProvider (omap (wanted_batcher env) (Exporters (OpenTelemetry c)) ++ [WithTraceResource "bunny"]).

(** The database and the engine a configuration gives, with their registry. *)
Definition prometheus_set_up env (s : State (Chan := Chan) (DB := DB)) (t : Telem) : Prop :=
  ∃ dir o r opened n tr eo engine,
    register_base env NewRegistry = inr r ∧ tsdb_Open env dir o r = Returned opened ∧
    NewActiveQueryTracker env dir n = Returned tr ∧ NewEngine env eo tr opened.2 = Returned engine ∧
    PromRegistry t = Some engine.2 ∧ promQueryEngine s = Some engine.1 ∧
    promDB s = match opened.1 with inr d => Some d | inl _ => None end.

(** What a turn of [GoTelemetry] promises to egress and ingress. *)
Lemma GoTelemetry_update_contract c env (s : State (Chan := Chan) (DB := DB)) t :
  let r := GoTelemetry_step (TelemetryUpdate true c env) (s, t) in
  let mp := wanted_meter env (cfg_Telemetry c) in
  let tp := wanted_tracer env (cfg_Telemetry c) in
  configStageChannels r.2.1 = configStageChannels s ∧ shutdowns r.2.1 = shutdowns s ∧
  telemetryConfig r.2.1 = Some (cfg_Telemetry c) ∧
  (r.1 = Returned false ∧ prometheus_set_up env r.2.1 r.2.2 ∧
   meterProvider r.2.1 = Some mp ∧ traceProvider r.2.1 = Some tp ∧
   events r.2.1 = events s ++ [SetMeterProvider mp; SetTracerProvider tp]
     ++ ((λ ch, StageSent ch ConfigStageTelemetryCompleted) <$> configStageChannels s) ∨
   is_panic r.1 = true ∧ events r.2.1 = events s ∧ prometheus_fails env (cfg_Telemetry c)).
Proof.
  unfold GoTelemetry_step, configureTelemetry, of_outcome, prometheus_fails.
  unfold mbind, go_bind, on_fst, on_snd. simpl.
  destruct (decide (TSDBPath _ = "")) as [Hp|Hp];
    [destruct (MkdirTemp env) as [e|d] eqn:Hd; [split_and!; [done..|right; split_and!; [done..|by eauto]]|]|]; simpl.
  all: destruct (register_base env NewRegistry) as [e|r] eqn:Hr;
    [split_and!; [done..|right; split_and!; [done..|by eauto]]|]; simpl.
  all: destruct (tsdb_Open env _ _ r) as [opened|e] eqn:Ho;
    [|split_and!; [done..|right; split_and!; [done..|by eauto 15]]]; simpl.
  all: destruct (NewActiveQueryTracker env _ _) as [tr|e] eqn:Ht;
    [|split_and!; [done..|right; split_and!; [done..|by eauto 15]]]; simpl.
  all: destruct (NewEngine env _ tr _) as [engine|e] eqn:En;
    [|split_and!; [done..|right; split_and!; [done..|by eauto 15]]]; simpl.
  all: unfold provider_options; rewrite foldl_add_exporter; simpl.
  all: rewrite send_stages_spec; simpl; split_and!; [done..|]; left; split_and!; try done.
  all: try by rewrite <-!app_assoc.
  all: by eexists _, _, _, _, _, _, _, _.
Qed.

(** Its sends are those to the listeners. *)
Lemma update_stages_sent (s s' : State (Chan := Chan) (DB := DB)) mp tp :
  events s' = events s ++ [SetMeterProvider mp; SetTracerProvider tp]
    ++ ((λ ch, StageSent ch ConfigStageTelemetryCompleted) <$> configStageChannels s) →
  stages_sent s' = stages_sent s ++ ((., ConfigStageTelemetryCompleted) <$> configStageChannels s).
Proof.
  intros E. unfold stages_sent. rewrite E, omap_app. f_equal. clear E. cbn [app omap list_omap].
  induction (configStageChannels s) as [|ch l IH]; [done|]. cbn. f_equal. exact IH.
Qed.

Lemma GoTelemetry_signal_contract ok Shutdown (s : State (Chan := Chan) (DB := DB)) t :
  GoTelemetry_step (TelemetrySignal ok Shutdown) (s, t) =
  match Shutdown (meterProvider s) (traceProvider s) with
  | Returned _ => (Returned true, (record_shutdown s, t))
  | Panicked e => (Panicked e, (s, t))
  end.
Proof.
  unfold GoTelemetry_step, mbind, go_bind, on_fst. cbn. by destruct (Shutdown _ _) as [[]|e].
Qed.

(** C33: telemetry announces its stage only when it is configured.  A
    configuration update either panics before anything is visible, because the
    directory or Prometheus failed, or it makes visible, in this order, the
    meter provider and the tracer provider the configuration asks for and the
    stage, once to every listener in order of registration; then the query
    engine is in place.  Failing to open the database leaves it nil and does not
    prevent the announcement. *)
Theorem configureTelemetry_announces_once c env (s : State (Chan := Chan) (DB := DB)) t :
  match GoTelemetry_step (TelemetryUpdate true c env) (s, t) with
  | (Returned finished, (s', t')) =>
      let mp := wanted_meter env (cfg_Telemetry c) in
      let tp := wanted_tracer env (cfg_Telemetry c) in
      finished = false ∧ prometheus_set_up env s' t' ∧
      meterProvider s' = Some mp ∧ traceProvider s' = Some tp ∧
      events s' = events s ++ [SetMeterProvider mp; SetTracerProvider tp]
        ++ ((λ ch, StageSent ch ConfigStageTelemetryCompleted) <$> configStageChannels s)
  | (Panicked _, (s', _)) => events s' = events s ∧ prometheus_fails env (cfg_Telemetry c)
  end.
Proof.
  pose proof (GoTelemetry_update_contract c env s t) as (_ & _ & _ & Hr).
  destruct (GoTelemetry_step _ _) as [[b|p] [s' t']]; cbn in Hr; [|naive_solver].
  destruct Hr as [(Hb & Hr)|[[=] _]]. by injection Hb as ->.
Qed.

(** the sub-query interval survives its detour through [Duration]: the
    engine sees the configured number of milliseconds, whatever range it asks
    for, as long as that number of milliseconds fits a duration. *)
Theorem NoStepSubqueryInterval_roundtrip c rangeMillis :
  let ms := engine_NoStepSubqueryIntervalMilliseconds (EngineOptions (PromQL (Prometheus c))) in
  - max_ms ≤ ms ≤ max_ms → NoStepSubqueryIntervalFn c rangeMillis = ms.
Proof. intros ms Hms. by apply Milliseconds_duration_ms. Qed.

End telemetry_theorems.

(** ** Witnesses *)

Lemma NoStepSubqueryInterval_roundtrip_witness :
  let c := mkTelemetryConfig (mkOpenTelemetryConfig [])
    (mkPrometheusConfig "/tsdb" (mkTSDBOptionsConfig 0 0 0)
       (mkPromQLOptionsConfig 1000 (mkEngineOptionsConfig 50000 60000 300000 30000))) in
  NoStepSubqueryIntervalFn c 7 = 30000.
Proof. apply NoStepSubqueryInterval_roundtrip. vm_compute. split; discriminate. Defined.
