(* ===== verification/Expect.v ===== *)
(** * egress/expect.go: the conversation of a TCP probe

    The steps of a conversation, their construction from the configuration,
    and their execution over a buffered connection.  The connection is an
    interface, [Conn]; [bufio.Reader] and [bufio.Writer] are modelled on top
    of it, with the writer's 4096-byte buffer. *)

From S2P Require Import Prelude GoStd Config Metrics.
From Stdlib Require Import Ascii String.

(** ** Connections *)

(** [conn_reads_left] bounds the reads that can still succeed when nothing
    more is written: the deadline set on the connection makes it finite. *)
Class Conn (C : Type) := {
  conn_Write : bytes → C → nat * option error * C;
  conn_Read : C → bytes * option error * C;
  conn_reads_left : C → nat }.

(** What [io.Writer] and [io.Reader] promise, with the bytes written so far
    and the bytes that will arrive before the deadline when nothing more is
    written. *)
Class ConnLaws (C : Type) `{Conn C} := {
  conn_written : C → bytes;
  conn_pending : C → bytes;
  conn_Write_spec p c n e c' :
    conn_Write p c = (n, e, c') →
    n ≤ List.length p ∧ conn_written c' = conn_written c ++ take n p ∧
    (e = None → n = List.length p);
  conn_Read_spec c bs e c' :
    conn_Read c = (bs, e, c') →
    conn_written c' = conn_written c ∧
    match e with
    | None => bs ≠ [] ∧ conn_pending c = bs ++ conn_pending c' ∧
              conn_reads_left c' < conn_reads_left c
    | Some _ => conn_pending c = bs ∧ conn_pending c' = []
    end }.

(** ** [bufio] *)

Definition bufferSize : nat := 4096.
Definition maxConsecutiveEmptyReads : nat := 100.
Arguments bufferSize : simpl never.
Arguments maxConsecutiveEmptyReads : simpl never.

Record bufio_Writer := mkWriter { w_buf : bytes; w_err : option error }.
Record bufio_Reader := mkReader { r_buf : bytes; r_err : option error }.

Section bufio.
Context {C : Type} `{Conn C}.

Definition writer_Flush (w : bufio_Writer) (c : C) : option error * bufio_Writer * C :=
  match w_err w with
  | Some e => (Some e, w, c)
  | None =>
      match w_buf w with
      | [] => (None, w, c)
      | buf =>
          let '(n, err, c') := conn_Write buf c in
          let err' :=
            match err with
            | None => if (n <? List.length buf)%nat then Some ErrShortWrite else None
            | Some e => Some e
            end in
          match err' with
          | Some e => (Some e, mkWriter (drop n buf) (Some e), c')
          | None => (None, mkWriter [] None, c')
          end
      end
  end.

(** The loop of [Write]: the bytes left, the count so far, and the writer. *)
Fixpoint write_loop (fuel : nat) (p : bytes) (nn : nat) (w : bufio_Writer) (c : C)
  : bytes * nat * bufio_Writer * C :=
  match fuel with
  | O => (p, nn, w, c)
  | S fuel' =>
      let avail := (bufferSize - List.length (w_buf w))%nat in
      match w_err w with
      | Some _ => (p, nn, w, c)
      | None =>
          if (avail <? List.length p)%nat then
            match w_buf w with
            | [] =>
                let '(n, err, c') := conn_Write p c in
                write_loop fuel' (drop n p) (nn + n) (mkWriter [] err) c'
            | buf =>
                let '(_, w', c') := writer_Flush (mkWriter (buf ++ take avail p) None) c in
                write_loop fuel' (drop avail p) (nn + avail) w' c'
            end
          else (p, nn, w, c)
      end
  end.

(** A writer that follows its contract leaves the loop after at most one
    flush and one direct write. *)
Definition writer_Write (p : bytes) (w : bufio_Writer) (c : C)
  : nat * option error * bufio_Writer * C :=
  let '(p', nn, w', c') := write_loop 3 p 0 w c in
  match w_err w' with
  | Some e => (nn, Some e, w', c')
  | None => (nn + List.length p', None, mkWriter (w_buf w' ++ p') None, c')
  end.

(** [fill]: read until some bytes or an error came. *)
Fixpoint reader_fill (tries : nat) (r : bufio_Reader) (c : C) : bufio_Reader * C :=
  match tries with
  | O => (mkReader (r_buf r) (Some ErrNoProgress), c)
  | S tries' =>
      let '(bs, err, c') := conn_Read c in
      let r' := mkReader (r_buf r ++ bs) err in
      match err with
      | Some _ => (r', c')
      | None => match bs with [] => reader_fill tries' r' c' | _ => (r', c') end
      end
  end.

(** Split after the first delimiter. *)
Fixpoint split_at_delim (delim : ascii) (s : bytes) : option (bytes * bytes) :=
  match s with
  | [] => None
  | c :: s' =>
      if Ascii.eqb c delim then Some ([c], s')
      else match split_at_delim delim s' with
           | Some (line, rest) => Some (c :: line, rest)
           | None => None
           end
  end.

(** [ReadString]; the size of the reader's buffer only bounds single reads,
    whose sizes are the connection's choice here. *)
Fixpoint read_string (fuel : nat) (delim : ascii) (r : bufio_Reader) (c : C)
  : bytes * option error * bufio_Reader * C :=
  match split_at_delim delim (r_buf r) with
  | Some (line, rest) => (line, None, mkReader rest (r_err r), c)
  | None =>
      match r_err r, fuel with
      | Some e, _ => (r_buf r, Some e, mkReader [] None, c)
      | None, O => (r_buf r, Some ErrNoProgress, mkReader [] None, c)
      | None, S fuel' =>
          let '(r', c') := reader_fill maxConsecutiveEmptyReads r c in
          read_string fuel' delim r' c'
      end
  end.

Definition ReadString (delim : ascii) (r : bufio_Reader) (c : C)
  : bytes * option error * bufio_Reader * C :=
  read_string (S (conn_reads_left c)) delim r c.

End bufio.

(** ** Steps *)

Section expect.
Context `{MetricLibs} `{Regexp} {C : Type} `{Conn C}.

Inductive ExpectStep :=
| SendStep (text : string) (delimiter : ascii)
| ReceiveStep (regex : regexp) (delimiter : ascii).

(** A nil interface is [None]; neither field set dereferences a nil pointer. *)
Definition newExpectStep (expectStepConfig : ExpectConfig) : outcome (option ExpectStep) :=
  match expect_Send expectStepConfig, expect_Receive expectStepConfig with
  | Some _, Some _ => Returned None
  | Some send, None =>
      match to_bytes (send_Delimiter send) with
      | [d] => Returned (Some (SendStep (send_Text send) d))
      | _ => Returned None
      end
  | None, None => Panicked NilDereference
  | None, Some receive =>
      match to_bytes (receive_Delimiter receive) with
      | [d] =>
          match regexp_Compile (receive_RegEx receive) with
          | inl _ => Returned None
          | inr regex => Returned (Some (ReceiveStep regex d))
          end
      | _ => Returned None
      end
  end.

(** The [bufio.ReadWriter] over the connection. *)
Record ReadWriter := mkReadWriter {
  rw_reader : bufio_Reader; rw_writer : bufio_Writer; rw_conn : C }.

(** The loop that hands the text to the writer until all bytes are taken. *)
Fixpoint send_loop (fuel : nat) (remainingText : bytes) (w : bufio_Writer) (c : C)
  : option (bool * option error) * bufio_Writer * C :=
  match remainingText, fuel with
  | [], _ => (None, w, c)
  | _, O => (None, w, c)
  | _, S fuel' =>
      let '(bytesWritten, err, w', c') := writer_Write remainingText w c in
      match bytesWritten with
      | O => (Some (false, err), w', c')
      | _ => send_loop fuel' (drop bytesWritten remainingText) w' c'
      end
  end.

Definition SendStep_do (text : string) (delimiter : ascii) (rw : ReadWriter)
  : bool * option error * ReadWriter :=
  let fullText := to_bytes text ++ string_of_byte delimiter in
  match send_loop (List.length fullText) fullText (rw_writer rw) (rw_conn rw) with
  | (Some (b, err), w, c) => (b, err, mkReadWriter (rw_reader rw) w c)
  | (None, w, c) =>
      let '(err, w', c') := writer_Flush w c in
      match err with
      | Some e => (false, Some e, mkReadWriter (rw_reader rw) w' c')
      | None => (true, None, mkReadWriter (rw_reader rw) w' c')
      end
  end.

Definition ReceiveStep_do (regex : regexp) (delimiter : ascii) (rw : ReadWriter)
  : bool * option error * ReadWriter :=
  let '(wordsSent, err, r, c) := ReadString delimiter (rw_reader rw) (rw_conn rw) in
  let rw' := mkReadWriter r (rw_writer rw) c in
  match err with
  | Some e => (false, Some e, rw')
  | None =>
      let trimmedWords := TrimSuffix wordsSent (string_of_byte delimiter) in
      (MatchString regex trimmedWords, None, rw')
  end.

(** A step notes its text on the span, then runs. *)
Definition step_do (step : ExpectStep) : go (ReadWriter * Telem) (bool * option error) :=
  match step with
  | SendStep text delimiter =>
      on_snd (emit (SpanAddEvent text)) ;;
      on_fst (λ rw, let '(b, e, rw') := SendStep_do text delimiter rw in (Returned (b, e), rw'))
  | ReceiveStep regex delimiter =>
      on_snd (emit (SpanAddEvent (regexp_String regex))) ;;
      on_fst (λ rw, let '(b, e, rw') := ReceiveStep_do regex delimiter rw in (Returned (b, e), rw'))
  end.

Fixpoint expect_loop (steps : list ExpectStep) : go (ReadWriter * Telem) bool :=
  match steps with
  | [] => mret true
  | step :: steps' =>
      r ← step_do step;
      match r with
      | (true, None) => expect_loop steps'
      | _ => mret false
      end
  end.

(** [expect]: fresh buffers on the connection, then the steps in order. *)
Definition expect (c : C) (steps : list ExpectStep) : go Telem (bool * C) := λ t,
  let rw := mkReadWriter (mkReader [] None) (mkWriter [] None) c in
  match expect_loop steps (rw, t) with
  | (Returned b, (rw', t')) => (Returned (b, rw_conn rw'), t')
  | (Panicked p, (_, t')) => (Panicked p, t')
  end.

End expect.

(** ** Lemmas: the buffered writer *)

Section bufio_lemmas.
Context {C : Type} `{ConnLaws C}.

#[local] Opaque bufferSize maxConsecutiveEmptyReads.

Lemma writer_Flush_spec w c e w' c' :
  w_err w = None → writer_Flush w c = (e, w', c') →
  match e with
  | None => w' = mkWriter [] None ∧ conn_written c' = conn_written c ++ w_buf w
  | Some e => w_err w' = Some e
  end.
Proof.
  intros Hw. unfold writer_Flush. rewrite Hw.
  destruct (w_buf w) as [|b buf] eqn:Hbuf.
  { intros [= <- <- <-]. rewrite app_nil_r. destruct w; simpl in *. by subst. }
  destruct (conn_Write (b :: buf) c) as [[n err] c1] eqn:Hc.
  apply conn_Write_spec in Hc as (Hn & Hwr & Hall).
  destruct err as [err|]; [by intros [= <- <- <-]|].
  specialize (Hall eq_refl). subst n. rewrite Nat.ltb_irrefl.
  intros [= <- <- <-]. rewrite Hwr, firstn_all. done.
Qed.

(** What the buffer and the connection hold together. *)
Definition outgoing (w : bufio_Writer) (c : C) : bytes := conn_written c ++ w_buf w.

Lemma write_loop_spec fuel p nn w c p' nn' w' c' :
  w_err w = None → List.length (w_buf w) ≤ bufferSize →
  write_loop fuel p nn w c = (p', nn', w', c') →
  w_err w' = None →
  outgoing w' c' ++ p' = outgoing w c ++ p ∧ nn' + List.length p' = nn + List.length p ∧
  List.length (w_buf w') ≤ bufferSize.
Proof.
  revert p nn w c; induction fuel as [|fuel IH]; intros p nn w c Hw Hlen; simpl.
  { by intros [= <- <- <- <-]. }
  rewrite Hw. destruct (Nat.ltb_spec (bufferSize - List.length (w_buf w)) (List.length p))
    as [Hlt|]; [|by intros [= <- <- <- <-]].
  destruct (w_buf w) as [|b buf] eqn:Hbuf.
  - destruct (conn_Write p c) as [[n err] c1] eqn:Hc.
    apply conn_Write_spec in Hc as (Hn & Hwr & Hall). intros Hloop Hw'.
    destruct err as [err|].
    { destruct fuel; simpl in Hloop; simplify_eq/=. }
    specialize (Hall eq_refl). subst n. apply IH in Hloop as (Ho & Hl & ?); [|done|simpl; lia|done].
    unfold outgoing in *. rewrite Ho, Hwr, Hbuf. simpl. rewrite firstn_all, drop_all.
    rewrite !app_nil_r. rewrite drop_all in Hl. simpl in Hl. split_and!; [done|lia|done].
  - destruct (writer_Flush _ c) as [[e w1] c1] eqn:Hf. intros Hloop Hw'.
    apply writer_Flush_spec in Hf; [|done]. destruct e as [e|].
    { destruct fuel; simpl in Hloop; rewrite ?Hf in Hloop; simplify_eq/=; congruence. }
    destruct Hf as [-> Hwr]. simpl in Hwr.
    apply IH in Hloop as (Ho & Hl & ?); [|done|simpl; lia|done].
    unfold outgoing in *. simpl in *. rewrite Ho, Hwr, Hbuf, app_nil_r.
    rewrite length_drop in Hl. split_and!; [|lia|done].
    rewrite <-!app_assoc. simpl. by rewrite <-app_assoc, take_drop.
Qed.

(** After three turns the loop has stopped by itself: what is left fits. *)
Lemma write_loop_fits p w c p' nn' w' c' :
  w_err w = None → List.length (w_buf w) ≤ bufferSize →
  write_loop 3 p 0 w c = (p', nn', w', c') → w_err w' = None →
  List.length (w_buf w') + List.length p' ≤ bufferSize.
Proof.
  intros Hw Hlen.
  assert (∀ fuel p nn w c, w_err w = None → w_buf w = [] →
    write_loop (S (S fuel)) p nn w c = (p', nn', w', c') → w_err w' = None →
    List.length (w_buf w') + List.length p' ≤ bufferSize) as Hempty.
  { clear p w c Hw Hlen. intros fuel p nn w c Hw Hbuf. cbn [write_loop].
    rewrite Hw, Hbuf. simpl List.length.
    destruct (Nat.ltb_spec (bufferSize - 0) (List.length p)) as [Hlt|Hge].
    - destruct (conn_Write p c) as [[n err] c1] eqn:Hc.
      apply conn_Write_spec in Hc as (Hn & _ & Hall).
      destruct err as [err|]; [by intros [= <- <- <- <-]|].
      rewrite (Hall eq_refl), drop_all. simpl. intros [= <- <- <- <-] _. simpl. lia.
    - intros [= <- <- <- <-] _. rewrite Hbuf. simpl. lia. }
  destruct (w_buf w) as [|b buf] eqn:Hbuf.
  { by apply Hempty. }
  change (write_loop 3) with (write_loop (C := C) (S (S (S 0)))). remember (S (S 0)) as fuel.
  cbn [write_loop]. rewrite Hw, Hbuf.
  destruct (Nat.ltb_spec (bufferSize - List.length (b :: buf)) (List.length p)) as [Hlt|Hge].
  - destruct (writer_Flush _ c) as [[e w1] c1] eqn:Hf. subst fuel.
    apply writer_Flush_spec in Hf; [|done]. destruct e as [e|].
    { simpl. rewrite Hf. intros [= <- <- <- <-]. congruence. }
    destruct Hf as [-> _]. by apply Hempty.
  - intros [= <- <- <- <-] _. rewrite Hbuf. lia.
Qed.

Lemma writer_Write_spec p w c n e w' c' :
  w_err w = None → List.length (w_buf w) ≤ bufferSize →
  writer_Write p w c = (n, e, w', c') →
  match e with
  | None => n = List.length p ∧ w_err w' = None ∧ List.length (w_buf w') ≤ bufferSize ∧
            outgoing w' c' = outgoing w c ++ p
  | Some e => w_err w' = Some e
  end.
Proof.
  intros Hw Hlen. unfold writer_Write.
  destruct (write_loop 3 p 0 w c) as [[[p1 nn] w1] c1] eqn:Hl.
  destruct (w_err w1) as [e1|] eqn:He; intros [= <- <- <- <-]; [done|].
  pose proof (write_loop_fits _ _ _ _ _ _ _ Hw Hlen Hl He).
  apply write_loop_spec in Hl as (Ho & Hn & _); [|done..].
  unfold outgoing in *. simpl. rewrite length_app.
  split_and!; [lia|done|lia|]. by rewrite <-Ho, (assoc_L (++)).
Qed.

(** A writer that failed once fails at once, with nothing taken. *)
Lemma writer_Write_failed p w c e :
  w_err w = Some e → writer_Write p w c = (0, Some e, w, c).
Proof. intros Hw. unfold writer_Write. cbn [write_loop]. by rewrite Hw, Hw. Qed.

Lemma writer_Flush_failed w c e : w_err w = Some e → writer_Flush w c = (Some e, w, c).
Proof. intros Hw. unfold writer_Flush. by rewrite Hw. Qed.

End bufio_lemmas.

(** ** Lemmas: the buffered reader *)

Lemma split_at_delim_app d a b :
  split_at_delim d (a ++ b) =
  match split_at_delim d a with
  | Some (line, rest) => Some (line, rest ++ b)
  | None =>
      match split_at_delim d b with
      | Some (line, rest) => Some (a ++ line, rest)
      | None => None
      end
  end.
Proof.
  induction a as [|x a IH]; simpl.
  { by destruct (split_at_delim d b) as [[]|]. }
  destruct (Ascii.eqb x d); [done|]. rewrite IH.
  destruct (split_at_delim d a) as [[]|]; [done|].
  by destruct (split_at_delim d b) as [[]|].
Qed.

Lemma split_at_delim_cat d s line rest :
  split_at_delim d s = Some (line, rest) → s = line ++ rest.
Proof.
  revert line; induction s as [|x s IH]; intros line; simpl; [done|].
  destruct (Ascii.eqb x d); [by intros [= <- <-]|].
  destruct (split_at_delim d s) as [[l r]|]; [|done]. intros [= <- <-]. simpl. by rewrite (IH l).
Qed.

Lemma split_at_delim_first d pre rest :
  d ∉ pre → split_at_delim d (pre ++ d :: rest) = Some (pre ++ [d], rest).
Proof.
  induction pre as [|x pre IH]; simpl; intros Hd.
  { by rewrite Ascii.eqb_refl. }
  destruct (Ascii.eqb_spec x d) as [->|]; [set_solver|]. by rewrite IH by set_solver.
Qed.

Lemma maxConsecutiveEmptyReads_S : maxConsecutiveEmptyReads = S 99.
Proof. done. Qed.

Section reader_lemmas.
Context {C : Type} `{ConnLaws C}.

#[local] Opaque bufferSize maxConsecutiveEmptyReads.

(** The bytes a reader will still deliver. *)
Definition incoming (r : bufio_Reader) (c : C) : bytes := r_buf r ++ conn_pending c.

(** A reader that has seen an error has seen everything. *)
Definition reader_ok (r : bufio_Reader) (c : C) : Prop :=
  is_Some (r_err r) → conn_pending c = [].

Lemma reader_fill_spec r c r' c' :
  r_err r = None → reader_fill maxConsecutiveEmptyReads r c = (r', c') →
  incoming r' c' = incoming r c ∧ reader_ok r' c' ∧ conn_written c' = conn_written c ∧
  (r_err r' = None → conn_reads_left c' < conn_reads_left c).
Proof.
  intros Hr. rewrite maxConsecutiveEmptyReads_S. cbn [reader_fill].
  destruct (conn_Read c) as [[bs err] c1] eqn:Hc. apply conn_Read_spec in Hc as [Hwr Hc].
  unfold incoming, reader_ok. destruct err as [e|].
  - destruct Hc as [-> Hp]. intros [= <- <-]. simpl. rewrite Hp, app_nil_r. by split_and!.
  - destruct Hc as (Hbs & -> & Hlt). destruct bs as [|b bs]; [done|].
    intros [= <- <-]. simpl. rewrite <-app_assoc. by split_and!.
Qed.

Lemma read_string_spec fuel d r c :
  reader_ok r c → (r_err r = None → conn_reads_left c < fuel) →
  ∃ out e r' c', read_string fuel d r c = (out, e, r', c') ∧
    conn_written c' = conn_written c ∧
    match split_at_delim d (incoming r c) with
    | Some (line, rest) =>
        out = line ∧ e = None ∧ incoming r' c' = rest ∧ reader_ok r' c'
    | None => out = incoming r c ∧ is_Some e
    end.
Proof.
  revert r c; induction fuel as [|fuel IH]; intros r c Hok Hfuel; cbn [read_string];
    unfold incoming at 1; rewrite split_at_delim_app;
    destruct (split_at_delim d (r_buf r)) as [[line rest]|] eqn:Hs.
  1, 3: eexists _, _, _, _; split; [done|]; by unfold incoming, reader_ok in *.
  all: destruct (r_err r) as [e|] eqn:He.
  1, 3: rewrite Hok by done; eexists _, _, _, _; split; [done|]; simpl;
    unfold incoming; rewrite Hok, app_nil_r by done; by eauto.
  { specialize (Hfuel eq_refl). lia. }
  destruct (reader_fill _ r c) as [r1 c1] eqn:Hf.
  apply reader_fill_spec in Hf as (Hin & Hok1 & Hwr & Hlt); [|done].
  destruct (IH r1 c1 Hok1) as (out & e & r' & c' & -> & Hwr' & Hres).
  { intros Hr1. specialize (Hlt Hr1). specialize (Hfuel eq_refl). lia. }
  eexists _, _, _, _. split; [done|]. split; [congruence|].
  rewrite Hin in Hres. unfold incoming at 1 in Hres. rewrite split_at_delim_app, Hs in Hres.
  by destruct (split_at_delim d (conn_pending c)) as [[]|].
Qed.

Lemma ReadString_spec d r c :
  reader_ok r c →
  ∃ out e r' c', ReadString d r c = (out, e, r', c') ∧
    conn_written c' = conn_written c ∧
    match split_at_delim d (incoming r c) with
    | Some (line, rest) =>
        out = line ∧ e = None ∧ incoming r' c' = rest ∧ reader_ok r' c'
    | None => out = incoming r c ∧ is_Some e
    end.
Proof. intros Hok. apply read_string_spec; [done|]. lia. Qed.

End reader_lemmas.

(** ** Theorems on the steps *)

Section step_theorems.
Context `{Regexp} {C : Type} `{ConnLaws C}.

#[local] Opaque bufferSize maxConsecutiveEmptyReads.

Lemma send_loop_spec fuel text w c res w' c' :
  List.length text ≤ fuel → w_err w = None → List.length (w_buf w) ≤ bufferSize →
  send_loop fuel text w c = (res, w', c') →
  match res with
  | None => w_err w' = None → outgoing w' c' = outgoing w c ++ text
  | Some (b, _) => b = false
  end.
Proof.
  intros Hfuel Hw Hlen. destruct text as [|x text]; simpl in Hfuel.
  { destruct fuel; simpl; intros [= <- <- <-] _; by rewrite app_nil_r. }
  destruct fuel as [|fuel]; [lia|]. cbn [send_loop].
  destruct (writer_Write (x :: text) w c) as [[[n e] w1] c1] eqn:Hwr.
  apply writer_Write_spec in Hwr; [|done..]. destruct e as [e|].
  - destruct n as [|n]; [by intros [= <- <- <-]|]. cbn [drop].
    destruct (drop n text) as [|y rest] eqn:Hd.
    { destruct fuel; simpl; intros [= <- <- <-]; congruence. }
    assert (List.length (drop n text) ≤ fuel) as Hf by (rewrite length_drop; lia).
    rewrite Hd in Hf. destruct fuel as [|fuel]; [simpl in Hf; lia|]. cbn [send_loop].
    rewrite (writer_Write_failed _ _ _ e) by done. by intros [= <- <- <-].
  - destruct Hwr as (-> & Hw1 & _ & Hout). cbn [List.length drop]. rewrite drop_all.
    destruct fuel; simpl; by intros [= <- <- <-] _.
Qed.

Lemma SendStep_do_true text d (rw rw' : ReadWriter (C := C)) e :
  rw_writer rw = mkWriter [] None →
  SendStep_do text d rw = (true, e, rw') →
  e = None ∧
  conn_written (rw_conn rw') =
    conn_written (rw_conn rw) ++ to_bytes text ++ string_of_byte d ∧
  rw_writer rw' = mkWriter [] None ∧ rw_reader rw' = rw_reader rw.
Proof.
  intros Hw. unfold SendStep_do.
  destruct (send_loop _ _ _ _) as [[res w1] c1] eqn:Hl.
  apply send_loop_spec in Hl; [|done|by rewrite Hw|rewrite Hw; simpl; lia].
  destruct res as [[b err]|]; [by intros [= -> _]|].
  destruct (writer_Flush w1 c1) as [[err w2] c2] eqn:Hf.
  destruct (w_err w1) as [e1|] eqn:He1.
  { rewrite (writer_Flush_failed _ _ e1) in Hf by done. by simplify_eq. }
  apply writer_Flush_spec in Hf; [|done]. destruct err as [err|]; [done|].
  destruct Hf as [-> Hwr]. intros [= <- <-]. simpl.
  specialize (Hl eq_refl). unfold outgoing in Hl. rewrite Hw in Hl. simpl in Hl.
  rewrite app_nil_r in Hl. by rewrite Hwr, Hl.
Qed.

(** The connection accepts whatever is written to it. *)
Definition writes_accepted : Prop := ∀ p (c : C), (conn_Write p c).1.2 = None.

Lemma writer_Flush_accepted w c :
  writes_accepted → w_err w = None → (writer_Flush w c).1.1 = None ∧ w_err (writer_Flush w c).1.2 = None.
Proof.
  intros Hacc Hw. unfold writer_Flush. rewrite Hw. destruct (w_buf w) as [|b buf]; [done|].
  specialize (Hacc (b :: buf) c). destruct (conn_Write _ _) as [[n err] c1] eqn:Hc.
  simpl in Hacc. subst err. apply conn_Write_spec in Hc as (_ & _ & ->); [|done].
  by rewrite Nat.ltb_irrefl.
Qed.

Lemma write_loop_accepted fuel p nn w c :
  writes_accepted → w_err w = None → w_err (write_loop fuel p nn w c).1.2 = None.
Proof.
  intros Hacc. revert p nn w c; induction fuel as [|fuel IH]; intros p nn w c Hw; simpl; [done|].
  rewrite Hw. destruct (_ <? _); [|done]. destruct (w_buf w) as [|b buf].
  - pose proof (Hacc p c) as Hp. destruct (conn_Write p c) as [[n err] c1]. simpl in Hp. subst err.
    by apply IH.
  - destruct (writer_Flush_accepted (mkWriter ((b :: buf) ++
      take (bufferSize - List.length (b :: buf)) p) None) c Hacc eq_refl) as [_ Hf].
    destruct (writer_Flush _ c) as [[e w1] c1]. by apply IH.
Qed.

(** a send step on a healthy connection succeeds.  When the connection
    accepts what is written to it, [SendStep.do] returns success, whatever the
    length of the text. *)
Theorem SendStep_succeeds text d (rw : ReadWriter (C := C)) :
  writes_accepted → rw_writer rw = mkWriter [] None →
  ∃ rw', SendStep_do text d rw = (true, None, rw').
Proof.
  intros Hacc Hw. unfold SendStep_do.
  set (full := to_bytes text ++ string_of_byte d).
  assert (∃ w1 c1, send_loop (List.length full) full (rw_writer rw) (rw_conn rw) = (None, w1, c1)
    ∧ w_err w1 = None) as (w1 & c1 & -> & Hw1).
  { rewrite Hw. destruct full as [|x rest]; [by eexists _, _|]. cbn [List.length send_loop].
    destruct (writer_Write (x :: rest) (mkWriter [] None) (rw_conn rw))
      as [[[n e] w1] c1] eqn:Hwr.
    assert (e = None) as ->.
    { revert Hwr. unfold writer_Write.
      pose proof (write_loop_accepted 3 (x :: rest) 0 (mkWriter [] None) (rw_conn rw) Hacc eq_refl).
      destruct (write_loop _ _ _ _ _) as [[[p' nn] w'] c']. simpl in *.
      destruct (w_err w'); [done|]. by intros [= _ <- _ _]. }
    apply writer_Write_spec in Hwr as (-> & Hw1 & _); [|done|simpl; lia].
    cbn [List.length drop]. rewrite drop_all.
    destruct (List.length rest); by eexists _, _. }
  destruct (writer_Flush_accepted w1 c1 Hacc Hw1) as [Hf _].
  destruct (writer_Flush w1 c1) as [[e w2] c2]. simpl in Hf. subst e. by eexists.
Qed.

(** C16: a send step that succeeds has sent its text.  When [SendStep.do]
    reports success there is no error, the connection received the step's text
    followed by the delimiter and nothing else, in spite of the buffering and
    of partial writes, and the writer's buffer is empty again. *)
Theorem SendStep_sends_exactly text d (rw rw' : ReadWriter (C := C)) e :
  rw_writer rw = mkWriter [] None →
  SendStep_do text d rw = (true, e, rw') →
  e = None ∧
  conn_written (rw_conn rw') =
    conn_written (rw_conn rw) ++ to_bytes text ++ string_of_byte d ∧
  rw_writer rw' = mkWriter [] None ∧ rw_reader rw' = rw_reader rw.
Proof. apply SendStep_do_true. Qed.

Lemma ReceiveStep_message regex d (rw : ReadWriter (C := C)) msg rest :
  reader_ok (rw_reader rw) (rw_conn rw) → (N_of_ascii d < 128)%N →
  incoming (rw_reader rw) (rw_conn rw) = msg ++ d :: rest → d ∉ msg →
  ∃ rw', ReceiveStep_do regex d rw = (MatchString regex msg, None, rw') ∧
    incoming (rw_reader rw') (rw_conn rw') = rest ∧ reader_ok (rw_reader rw') (rw_conn rw').
Proof.
  intros Hok Hd Hinc Hmsg. unfold ReceiveStep_do.
  destruct (ReadString_spec d (rw_reader rw) (rw_conn rw) Hok) as (out & e & r' & c' & -> & _ & Hres).
  rewrite Hinc, split_at_delim_first in Hres by done. destruct Hres as (-> & -> & Hin & Hok').
  eexists. rewrite string_of_byte_ascii, TrimSuffix_app by done. split; [done|]. done.
Qed.

(** C17: a receive step judges exactly one message.  For an ASCII delimiter,
    [ReceiveStep.do] matches the bytes before the first delimiter that
    arrives, however the connection cuts the stream into reads, leaves the
    bytes after it for the next step, and fails with an error when the
    delimiter does not arrive before the deadline; it writes nothing. *)
Theorem ReceiveStep_judges_one_message regex d (rw : ReadWriter (C := C)) :
  reader_ok (rw_reader rw) (rw_conn rw) → (N_of_ascii d < 128)%N →
  ∃ b e rw', ReceiveStep_do regex d rw = (b, e, rw') ∧
    rw_writer rw' = rw_writer rw ∧ conn_written (rw_conn rw') = conn_written (rw_conn rw) ∧
    (∀ msg rest, incoming (rw_reader rw) (rw_conn rw) = msg ++ d :: rest → d ∉ msg →
       b = MatchString regex msg ∧ e = None ∧
       incoming (rw_reader rw') (rw_conn rw') = rest ∧
       reader_ok (rw_reader rw') (rw_conn rw')) ∧
    (d ∉ incoming (rw_reader rw) (rw_conn rw) → b = false ∧ is_Some e).
Proof.
  intros Hok Hd. unfold ReceiveStep_do.
  destruct (ReadString_spec d (rw_reader rw) (rw_conn rw) Hok)
    as (out & e & r' & c' & -> & Hwr & Hres).
  destruct (split_at_delim d (incoming (rw_reader rw) (rw_conn rw))) as [[line rest0]|] eqn:Hs.
  - destruct Hres as (-> & -> & Hin & Hok'). eexists _, _, _. split; [done|]. simpl.
    split_and!; [done|done| |].
    + intros msg rest Hinc Hmsg. rewrite Hinc, split_at_delim_first in Hs by done.
      simplify_eq. rewrite string_of_byte_ascii, TrimSuffix_app by done. done.
    + intros Hnot. exfalso. apply Hnot. clear -Hs.
      revert line rest0 Hs. generalize (incoming (rw_reader rw) (rw_conn rw)) as s.
      induction s as [|x s IH]; intros line rest0; simpl; [done|].
      destruct (Ascii.eqb_spec x d) as [->|]; [left|].
      destruct (split_at_delim d s) as [[]|] eqn:E; [|done]. right. by eapply IH.
  - destruct Hres as [-> [err ->]]. eexists _, _, _. split; [done|]. simpl.
    split_and!; [done|done| |by eauto].
    intros msg rest Hinc Hmsg. by rewrite Hinc, split_at_delim_first in Hs.
Qed.

(** a delimiter outside ASCII is not what is sent.  [string(delimiter)]
    turns a byte of 128 or more into the two bytes of its UTF-8 encoding, so a
    successful send step ends its message with two bytes. *)
Theorem SendStep_non_ascii_delimiter text d (rw rw' : ReadWriter (C := C)) e :
  rw_writer rw = mkWriter [] None → (128 ≤ N_of_ascii d)%N →
  SendStep_do text d rw = (true, e, rw') →
  ∃ x y, conn_written (rw_conn rw') =
           conn_written (rw_conn rw) ++ to_bytes text ++ [x; y].
Proof.
  intros Hw Hd Hs. apply SendStep_do_true in Hs as (_ & -> & _); [|done].
  unfold string_of_byte. destruct (N.ltb_spec (N_of_ascii d) 128); [lia|]. by eexists _, _.
Qed.

End step_theorems.

(** *** From one conversation to another *)

(** The messages as they go over the wire. *)
Definition frames (d : ascii) (texts : list string) : bytes :=
  List.concat ((λ text, to_bytes text ++ [d]) <$> texts).

Section roundtrip.
Context `{MetricLibs} `{Regexp} {C : Type} `{ConnLaws C}.

Lemma send_steps_run d texts (rw : ReadWriter (C := C)) t :
  writes_accepted → (N_of_ascii d < 128)%N → rw_writer rw = mkWriter [] None →
  ∃ rw' t', expect_loop ((λ text, SendStep text d) <$> texts) (rw, t) = (Returned true, (rw', t')) ∧
    conn_written (rw_conn rw') = conn_written (rw_conn rw) ++ frames d texts.
Proof.
  intros Hacc Hd. revert rw t; induction texts as [|text texts IH]; intros rw t Hw; cbn.
  { eexists _, _. split; [done|]. by rewrite app_nil_r. }
  destruct (SendStep_succeeds text d rw Hacc Hw) as [rw1 Hs]. go_unfold. rewrite Hs.
  apply SendStep_do_true in Hs as (_ & Hwr & Hw1 & _); [|done].
  destruct (IH rw1 (record_call (SpanAddEvent text) t) Hw1) as (rw2 & t2 & Hl & Hwr2).
  exists rw2, t2. split; [exact Hl|]. rewrite Hwr2, Hwr, string_of_byte_ascii by done.
  by rewrite <-!app_assoc.
Qed.

Lemma receive_steps_run d regexes texts (rw : ReadWriter (C := C)) rest t :
  (N_of_ascii d < 128)%N → Forall (λ text, d ∉ to_bytes text) texts →
  List.length regexes = List.length texts →
  incoming (rw_reader rw) (rw_conn rw) = frames d texts ++ rest →
  reader_ok (rw_reader rw) (rw_conn rw) →
  ∃ st, expect_loop ((λ re, ReceiveStep re d) <$> regexes) (rw, t) =
    (Returned (forallb (λ rt, MatchString rt.1 (to_bytes rt.2)) (zip regexes texts)), st).
Proof.
  intros Hd Hf. revert regexes rw t.
  induction Hf as [|text texts Ht Hf IH]; intros [|re regexes] rw t Hl Hin Hok; try done.
  { by eexists. }
  cbn in Hin. rewrite <-!app_assoc in Hin.
  destruct (ReceiveStep_message re d rw (to_bytes text) (frames d texts ++ rest))
    as (rw1 & Hr & Hin1 & Hok1); [done..|].
  cbn. go_unfold. rewrite Hr. cbn. destruct (MatchString re (to_bytes text)); [|by eexists].
  apply IH; [by injection Hl|done..].
Qed.
End roundtrip.

(** C15: what a conversation sends, another receives.  A conversation of send
    steps with an ASCII delimiter succeeds on a connection that accepts its
    writes, and when the bytes it wrote reach another conversation, cut into
    reads in any way, the receive steps of that one judge exactly the texts
    that were sent, one by one and in order. *)
Theorem expect_roundtrip `{MetricLibs} `{Regexp} {C C' : Type} `{ConnLaws C} `{ConnLaws C'}
    d texts regexes (c : C) (c' : C') t t' :
  @writes_accepted C _ → conn_written c = [] → (N_of_ascii d < 128)%N →
  Forall (λ text, d ∉ to_bytes text) texts → List.length regexes = List.length texts →
  ∃ c1 t1, expect c ((λ text, SendStep text d) <$> texts) t = (Returned (true, c1), t1) ∧
    conn_written c1 = frames d texts ∧
    (conn_pending c' = conn_written c1 →
     ∃ c2 t2, expect c' ((λ re, ReceiveStep re d) <$> regexes) t' =
       (Returned (forallb (λ rt, MatchString rt.1 (to_bytes rt.2)) (zip regexes texts), c2), t2)).
Proof.
  intros Hacc Hc Hd Hf Hl. unfold expect.
  destruct (send_steps_run d texts (mkReadWriter (mkReader [] None) (mkWriter [] None) c) t)
    as (rw1 & t1 & -> & Hwr); [done..|].
  exists (rw_conn rw1), t1. split; [done|]. cbn in Hwr. rewrite Hc in Hwr. split; [done|]. intros Hp.
  destruct (receive_steps_run d regexes texts (mkReadWriter (mkReader [] None) (mkWriter [] None) c')
    [] t') as ([rw2 t2] & ->); [done..| | |by eexists _, _].
  - unfold incoming. cbn. by rewrite app_nil_r, Hp, Hwr.
  - by intros [? [=]].
Qed.

(** ** Witnesses *)

(** A connection that accepts all writes and delivers a fixed list of
    non-empty chunks, then times out. *)
Record script_conn := mkScript { sc_out : bytes; sc_in : list (ascii * bytes) }.

#[global] Instance script_Conn : Conn script_conn := {|
  conn_Write p c := (List.length p, None, mkScript (sc_out c ++ p) (sc_in c));
  conn_Read c :=
    match sc_in c with
    | [] => ([], Some DeadlineExceeded, c)
    | (x, bs) :: rest => (x :: bs, None, mkScript (sc_out c) rest)
    end;
  conn_reads_left c := List.length (sc_in c) |}.

#[global] Program Instance script_ConnLaws : ConnLaws script_conn := {|
  conn_written := sc_out;
  conn_pending c := List.concat ((λ ch, ch.1 :: ch.2) <$> sc_in c) |}.
Next Obligation. intros p c n e c' [= <- <- <-]. simpl. by rewrite firstn_all. Qed.
Next Obligation.
  intros [out [|[x bs] inp]] bs' e c' [= <- <- <-]; simpl; [done|].
  split_and!; try done. lia.
Qed.

Definition newline : ascii := ascii_of_N 10.

Definition script_rw (inp : list (ascii * bytes)) : ReadWriter (C := script_conn) :=
  mkReadWriter (mkReader [] None) (mkWriter [] None) (mkScript [] inp).

Lemma SendStep_sends_exactly_witness :
  let rw' := (SendStep_do "hello" newline (script_rw [])).2 in
  sc_out (rw_conn rw') = to_bytes "hello" ++ [newline].
Proof.
  destruct (SendStep_sends_exactly "hello" newline (script_rw [])
    (SendStep_do "hello" newline (script_rw [])).2 None) as (_ & H & _);
    [reflexivity|reflexivity|exact H].
Defined.

Lemma SendStep_succeeds_witness :
  ∃ rw', SendStep_do "hello" newline (script_rw []) = (true, None, rw').
Proof. apply SendStep_succeeds; [intros p c; reflexivity|reflexivity]. Defined.

(** The message arrives in two reads, with the start of the next one. *)
Lemma ReceiveStep_judges_one_message_witness :
  let rw := script_rw [("y"%char, to_bytes "ell");
                       ("o"%char, "w"%char :: newline :: to_bytes "ca")] in
  ∃ re b e rw', @regexp_Compile simple_regexp "yel.*w" = inr re ∧
    @ReceiveStep_do simple_regexp _ _ re newline rw = (b, e, rw') ∧
    b = true ∧ incoming (rw_reader rw') (rw_conn rw') = to_bytes "ca".
Proof.
  intros rw. eexists.
  destruct (@ReceiveStep_judges_one_message simple_regexp script_conn _ _
    ("yel.*w", [(Literal "y", false); (Literal "e", false); (Literal "l", false);
                (AnyByte, true); (Literal "w", false)]) newline rw)
    as (b & e & rw' & Hdo & _ & _ & Hmsg & _).
  - intros [? ?]. discriminate.
  - reflexivity.
  - exists b, e, rw'. split; [reflexivity|]. split; [exact Hdo|].
    destruct (Hmsg (to_bytes "yellow") (to_bytes "ca")) as (-> & _ & -> & _).
    + reflexivity.
    + vm_compute. intros Hin. repeat (apply elem_of_cons in Hin as [Hin|Hin]; [discriminate|]).
      by apply elem_of_nil in Hin.
    + split; reflexivity.
Defined.

Lemma SendStep_non_ascii_delimiter_witness :
  ∃ x y, sc_out (rw_conn (SendStep_do "hi" (ascii_of_N 233) (script_rw [])).2)
         = to_bytes "hi" ++ [x; y].
Proof.
  destruct (SendStep_non_ascii_delimiter "hi" (ascii_of_N 233) (script_rw [])
    (SendStep_do "hi" (ascii_of_N 233) (script_rw [])).2 None) as (x & y & H);
    [reflexivity|vm_compute; discriminate|reflexivity|].
  exists x, y. exact H.
Defined.

Definition wire_chunks : list (ascii * bytes) :=
  [("h"%char, to_bytes "ell"); ("o"%char, newline :: to_bytes "how"); (" "%char, to_bytes "are you" ++ [newline])].

Lemma expect_roundtrip_witness :
  ∃ re1 re2 c2 t2, @regexp_Compile simple_regexp "hel.*" = inr re1 ∧
    @regexp_Compile simple_regexp "how.*you" = inr re2 ∧
    @expect toy_libs simple_regexp _ _ (mkScript [] wire_chunks)
      [ReceiveStep re1 newline; ReceiveStep re2 newline] toy_telem = (Returned (true, c2), t2).
Proof.
  eexists _, _.
  destruct (@expect_roundtrip toy_libs simple_regexp script_conn script_conn _ _ _ _ newline
    ["hello"; "how are you"]
    [("hel.*", [(Literal "h", false); (Literal "e", false); (Literal "l", false); (AnyByte, true)]);
     ("how.*you", [(Literal "h", false); (Literal "o", false); (Literal "w", false); (AnyByte, true);
                   (Literal "y", false); (Literal "o", false); (Literal "u", false)])]
    (mkScript [] []) (mkScript [] wire_chunks) toy_telem toy_telem)
    as (c1 & t1 & _ & Hw & Hr).
  - intros p c. reflexivity.
  - reflexivity.
  - reflexivity.
  - repeat apply Forall_cons_2; [..|apply Forall_nil_2]; vm_compute; intros Hin;
      repeat (apply elem_of_cons in Hin as [Hin|Hin]; [discriminate|]); by apply elem_of_nil in Hin.
  - reflexivity.
  - destruct Hr as (c2 & t2 & Hr).
    + rewrite Hw. vm_compute. reflexivity.
    + exists c2, t2. split; [reflexivity|]. split; [reflexivity|]. exact Hr.
Defined.
