(* ===== verification/Probes.v ===== *)
(** * egress/probe*.go: the probe actions

    The four actions, their construction from the configuration, the choice
    [newProbe] makes between them, and the goroutine each [act] starts, as a
    function of what the network, the child process or the clock answer; a call
    under a context is given the time at which the context ends.

    Strings that slices share live in a heap, because [ExecAction.act]
    appends to a slice that all runs of the probe share. *)

From S2P Require Import Prelude GoStd Config Metrics Expect.
From Stdlib Require Import Ascii String.

Local Open Scope Z_scope.

(** ** Data *)

Record ExecAction := mkExecAction {
  exec_command : list string; exec_env : slice; exec_timeout : Z }.

Record GRPCAction := mkGRPCAction {
  grpcaction_port : Z; grpcaction_service : option string; grpcaction_timeout : Z }.

(** What a [net.Dialer] of the package sets: a bound on connecting (none when
    zero) and, through [Control], the linger option of every socket. *)
Record Linger := mkLinger { Onoff : Z; Linger_seconds : Z }.
Record Dialer := mkDialer { dialer_Timeout : Z; SO_LINGER : option Linger }.

Definition newDialer : Dialer := mkDialer 0 (Some (mkLinger 1 1)).
Definition set_dialer_Timeout (timeout : Z) (d : Dialer) : Dialer :=
  mkDialer timeout (SO_LINGER d).

(** The fields set in [http.Client] and its [http.Transport]. *)
Record http_Client := mkClient {
  client_Timeout : Z;
  InsecureSkipVerify : bool;
  DisableKeepAlives : bool;
  DisableCompression : bool;
  DialContext : Dialer }.

Record HTTPGetAction := mkHTTPGetAction {
  httpaction_headers : gmap string (list string);
  httpaction_url : string;
  httpaction_client : http_Client;
  httpaction_timeout : Z }.

(** [net.JoinHostPort]: a host with a colon goes in brackets. *)
Definition JoinHostPort (host port : string) : string :=
  if strings_Index host ":" >=? 0 then "[" +:+ host +:+ "]:" +:+ port
  else host +:+ ":" +:+ port.

(** [grpc_health_v1]'s status for a serving server. *)
Definition HealthCheckResponse_SERVING : Z := 1.
Definition StatusOK : Z := 200.

Section probes.
Context `{MetricLibs} `{Regexp} {C : Type} `{Conn C}.
(** The capacity the runtime gives a slice that has to grow. *)
Context (grow : nat → nat).

Record TCPSocketAction := mkTCPSocketAction {
  tcpaction_host : string;
  tcpaction_port : Z;
  tcpaction_expectSteps : list ExpectStep;
  tcpaction_timeout : Z }.

Inductive ProbeAction :=
| ActExec (a : ExecAction)
| ActGRPC (a : GRPCAction)
| ActHTTPGet (a : HTTPGetAction)
| ActTCPSocket (a : TCPSocketAction).

Record Probe := mkProbe {
  Name : string;
  AttemptsMetric : option CounterMetric;
  ResponseTimeMetric_ : option ResponseTimeMetric;
  SuccessesMetric : option CounterMetric;
  ProbeAction_ : option ProbeAction }.

Definition probe_measure (p : Probe) : measure :=
  mkMeasure (AttemptsMetric p) (ResponseTimeMetric_ p) (SuccessesMetric p).

(** ** Construction *)

Abbreviation strings_heap := (heap string).

Definition append_string (s : slice) (x : string) : go strings_heap slice := λ h,
  let '(s', h') := slice_append grow "" s x h in (Returned s', h').

Fixpoint append_env (envSlice : slice) (envs : list EnvConfig) : go strings_heap slice :=
  match envs with
  | [] => mret envSlice
  | envConfig :: envs' =>
      s ← append_string envSlice (env_Name envConfig +:+ "=" +:+ env_Value envConfig);
      append_env s envs'
  end.

Definition newExecAction (execActionConfig : option ExecActionConfig) (timeout : Z)
  : go strings_heap (option ExecAction) :=
  match execActionConfig with
  | None => mret None
  | Some c =>
      s0 ← (λ h, let '(s, h') := slice_empty h in (Returned s, h'));
      envSlice ← append_env s0 (exec_Env c);
      mret (Some (mkExecAction (exec_Command c) envSlice timeout))
  end.

Definition newGRPCAction (grpcActionConfig : option GRPCActionConfig) (timeout : Z)
  : option GRPCAction :=
  match grpcActionConfig with
  | None => None
  | Some c => Some (mkGRPCAction (grpc_Port c) (grpc_Service c) timeout)
  end.

(** A missing or empty host means the local host. *)
Definition host_or_localhost (host : option string) : string :=
  match host with
  | Some h => if decide (h = "") then "localhost" else h
  | None => "localhost"
  end.

Definition newHTTPGetAction (httpGetActionConfig : option HTTPGetActionConfig) (timeout : Z)
  : option HTTPGetAction :=
  match httpGetActionConfig with
  | None => None
  | Some c =>
      let host := host_or_localhost (httpget_Host c) in
      let build (scheme : string) :=
        let url := scheme +:+ "://" +:+ host +:+ ":" +:+ Sprint_int (httpget_Port c)
                     +:+ "/" +:+ httpget_Path c in
        let client := mkClient timeout true true true newDialer in
        let headers := foldl (λ m hc, <[header_Name hc := header_Value hc]> m) ∅
                         (httpget_HTTPHeaders c) in
        Some (mkHTTPGetAction headers url client timeout) in
      match httpget_Scheme c with
      | None => build "http"
      | Some s =>
          let scheme := ToLower s in
          if decide (scheme ≠ "http" ∧ scheme ≠ "https") then None else build scheme
      end
  end.

(** The loop over the configured steps: steps that are not valid are left out. *)
Fixpoint newExpectSteps (cfgs : list ExpectConfig) : outcome (list ExpectStep) :=
  match cfgs with
  | [] => Returned []
  | cfg :: cfgs' =>
      match newExpectStep cfg with
      | Panicked p => Panicked p
      | Returned step =>
          match newExpectSteps cfgs' with
          | Panicked p => Panicked p
          | Returned steps =>
              Returned (match step with Some s => s :: steps | None => steps end)
          end
      end
  end.

Definition newTCPSocketAction (tcpSocketActionConfig : option TCPSocketActionConfig)
    (timeout : Z) : outcome (option TCPSocketAction) :=
  match tcpSocketActionConfig with
  | None => Returned None
  | Some c =>
      let host := host_or_localhost (tcp_Host c) in
      match newExpectSteps (default [] (tcp_Expect c)) with
      | Panicked p => Panicked p
      | Returned steps => Returned (Some (mkTCPSocketAction host (tcp_Port c) steps timeout))
      end
  end.

(** The first action that is not nil, in the order of the code. *)
Definition choose_action (e : option ExecAction) (g : option GRPCAction)
    (h : option HTTPGetAction) (t : option TCPSocketAction) : option ProbeAction :=
  match e, g, h, t with
  | Some a, _, _, _ => Some (ActExec a)
  | None, Some a, _, _ => Some (ActGRPC a)
  | None, None, Some a, _ => Some (ActHTTPGet a)
  | None, None, None, Some a => Some (ActTCPSocket a)
  | None, None, None, None => None
  end.

Definition newProbe (meter : option string) (egressProbeConfig : EgressProbeConfig)
    (timeout : Z) : go (strings_heap * Telem) (option Probe) :=
  execAction ← on_fst (newExecAction (probe_Exec egressProbeConfig) timeout);
  let grpcAction := newGRPCAction (probe_GRPC egressProbeConfig) timeout in
  let httpGetAction := newHTTPGetAction (probe_HTTPGet egressProbeConfig) timeout in
  tcpSocketAction ← (λ s, (newTCPSocketAction (probe_TCPSocket egressProbeConfig) timeout, s));
  match choose_action execAction grpcAction httpGetAction tcpSocketAction with
  | None => mret None
  | Some probeAction =>
      let metrics := probe_Metrics egressProbeConfig in
      attempts ← on_snd (NewCounterMetric (probe_Attempts metrics) meter);
      responseTime ← on_snd (NewResponseTimeMetric (probe_ResponseTime metrics) meter);
      successes ← on_snd (NewCounterMetric (probe_Successes metrics) meter);
      mret (Some (mkProbe (probe_Name egressProbeConfig) attempts responseTime successes
                    (Some probeAction)))
  end.

(** ** The goroutines of [act] *)

(** The deferred cancel, the span with its attribute, and its deferred end. *)
Definition with_span {A} (tracer : option string) (spanName probeName : string)
    (body : go Telem A) : go Telem A :=
  deferred (record_call ContextCancel)
    (_ ← deref tracer;
     emit (SpanStart spanName) ;;
     emit (SpanSetAttribute "bunny-probe-name" probeName) ;;
     deferred (record_call SpanEnd) body).

(** [client_Do] is the answer of the HTTP client to a request whose context
    ends at the given time: an error, or a response with its status code. *)
Definition HTTPGetAction_act (tracer : option string) (action : HTTPGetAction)
    (probeName : string) (m : measure)
    (NewRequest_err : string → option error)
    (client_Do : Z → http_Client → string → gmap string (list string) → option error * option Z)
    (now0 now1 now2 : Z) : go Telem unit :=
  let timeoutTime := time_Add now0 (httpaction_timeout action) in
  with_span tracer "http-probe" probeName
    (match NewRequest_err (httpaction_url action) with
     | Some _ =>
         emit (SpanSetStatus CodeError "probe failed - could not build request for http probe")
     | None =>
         timerStart ← PreMeasurable (m_attempts m) (m_response m) now1;
         let '(err, response) :=
           client_Do timeoutTime (httpaction_client action) (httpaction_url action)
             (httpaction_headers action) in
         failed ← match err with
                  | Some _ => mret true
                  | None => code ← deref response; mret (negb (code =? StatusOK))
                  end;
         if failed : bool then
           PostMeasurable (m_successes m) (m_response m) timerStart false now2 ;;
           emit (SpanSetStatus CodeError
             (match response with
              | None => "probe failed - no response"
              | Some code => "probe failed - http response not ok: " +:+ Sprint_int code
              end))
         else
           PostMeasurable (m_successes m) (m_response m) timerStart true now2 ;;
           emit (SpanSetStatus CodeOk "probe succeeded")
     end).

(** [Dial] is the error of connecting to the target with a dialer, under a
    context that ends at the given time; [Check] the answer of the health
    service under that context: an error, or a response with its status. *)
Definition GRPCAction_act (tracer : option string) (action : GRPCAction)
    (probeName : string) (m : measure)
    (Dial : Z → Dialer → string → option error)
    (Check : Z → option string → option error * option Z)
    (now0 now1 now2 : Z) : go Telem unit :=
  let timeoutTime := time_Add now0 (grpcaction_timeout action) in
  with_span tracer "grpc-probe" probeName
    (timerStart ← PreMeasurable (m_attempts m) (m_response m) now1;
     let target := JoinHostPort "localhost" (Sprint_int (grpcaction_port action)) in
     match Dial timeoutTime newDialer target with
     | Some _ => PostMeasurable (m_successes m) (m_response m) timerStart false now2
     | None =>
         deferred (record_call ConnClose)
           (let '(err, response) := Check timeoutTime (grpcaction_service action) in
            let message :=
              match err, response with
              | Some _, _ => "probe failed - could not check grpc server"
              | None, None => "probe failed - response is nil"
              | None, Some status =>
                  if negb (status =? HealthCheckResponse_SERVING)
                  then "probe failed - rpc server is not serving" else ""
              end in
            if decide (message = "") then
              PostMeasurable (m_successes m) (m_response m) timerStart true now2 ;;
              emit (SpanSetStatus CodeOk "probe succeeded")
            else
              PostMeasurable (m_successes m) (m_response m) timerStart false now2 ;;
              emit (SpanSetStatus CodeError message))
     end).

(** [Dial] connects to a target with a dialer; [SetDeadline] bounds the
    reads and writes on the connection. *)
Definition TCPSocketAction_act (tracer : option string) (action : TCPSocketAction)
    (probeName : string) (m : measure)
    (Dial : Dialer → string → error + C) (SetDeadline : Z → C → C)
    (now0 now1 now2 now3 : Z) : go Telem unit :=
  let timeoutTime := time_Add now0 (tcpaction_timeout action) in
  with_span tracer "tcp-socket-probe" probeName
    (let host := if decide (tcpaction_host action = "") then "localhost"
                 else tcpaction_host action in
     timerStart ← PreMeasurable (m_attempts m) (m_response m) now1;
     let target := JoinHostPort host (Sprint_int (tcpaction_port action)) in
     let dialer := set_dialer_Timeout (time_Sub timeoutTime now2) newDialer in
     match Dial dialer target with
     | inl _ =>
         PostMeasurable (m_successes m) (m_response m) timerStart false now3 ;;
         emit (SpanSetStatus CodeError "probe failed - could not connect to tcp server")
     | inr tcpConnection =>
         deferred (record_call ConnClose)
           (r ← expect (SetDeadline timeoutTime tcpConnection) (tcpaction_expectSteps action);
            let expectSuccess := r.1 in
            PostMeasurable (m_successes m) (m_response m) timerStart expectSuccess now3 ;;
            if negb expectSuccess
            then emit (SpanSetStatus CodeError "probe failed - expect steps failed")
            else emit (SpanSetStatus CodeOk "probe succeeded"))
     end).

(** The environment of the child process is read when it is started, after
    [append] and [PreMeasurable] ran. *)
Definition exec_prepare (action : ExecAction) (traceID : string) : go strings_heap slice :=
  append_string (exec_env action) ("OTEL_CLI_FORCE_TRACE_ID=" +:+ traceID).

(** [Run] is the answer of [cmd.CombinedOutput] for a program, its arguments
    and its environment, under a context that ends at the given time. *)
Definition ExecAction_act (tracer : option string) (action : ExecAction)
    (probeName traceID : string) (m : measure)
    (Run : Z → string → list string → list string → option error)
    (now0 now1 now2 : Z) : go (strings_heap * Telem) unit := λ st,
  let timeoutTime := time_Add now0 (exec_timeout action) in
  let body : go (strings_heap * Telem) unit :=
    newEnvVars ← on_fst (exec_prepare action traceID);
    match exec_command action with
    | [] => throw IndexOutOfRange
    | program :: args =>
        timerStart ← on_snd (PreMeasurable (m_attempts m) (m_response m) now1);
        env ← on_fst (λ h, (Returned (slice_elems h newEnvVars), h));
        match Run timeoutTime program args env with
        | Some _ =>
            on_snd (PostMeasurable (m_successes m) (m_response m) timerStart false now2) ;;
            on_snd (emit (SpanSetStatus CodeError "probe failed - error while running command"))
        | None =>
            on_snd (PostMeasurable (m_successes m) (m_response m) timerStart true now2) ;;
            on_snd (emit (SpanSetStatus CodeOk "probe succeeded"))
        end
    end in
  deferred (λ st, (st.1, record_call ContextCancel st.2))
    (_ ← deref tracer;
     on_snd (emit (SpanStart "exec-probe")) ;;
     on_snd (emit (SpanSetAttribute "bunny-probe-name" probeName)) ;;
     deferred (λ st, (st.1, record_call SpanEnd st.2)) body) st.

(** What the network, the processes and the clock answer to one run. *)
Record RunEnv := mkRunEnv {
  env_NewRequest_err : string → option error;
  env_client_Do : Z → http_Client → string → gmap string (list string) → option error * option Z;
  env_grpc_Dial : Z → Dialer → string → option error;
  env_Check : Z → option string → option error * option Z;
  env_Dial : Dialer → string → error + C;
  env_SetDeadline : Z → C → C;
  env_traceID : string;
  env_Run : Z → string → list string → list string → option error;
  env_clock : nat → Z }.

(** The method [act] of the interface. *)
Definition ProbeAction_act (env : RunEnv) (tracer : option string) (action : ProbeAction)
    (probeName : string) (m : measure) : go (strings_heap * Telem) unit :=
  let now := env_clock env in
  match action with
  | ActExec a => ExecAction_act tracer a probeName (env_traceID env) m (env_Run env)
                   (now 0%nat) (now 1%nat) (now 2%nat)
  | ActGRPC a => on_snd (GRPCAction_act tracer a probeName m (env_grpc_Dial env) (env_Check env)
                   (now 0%nat) (now 1%nat) (now 2%nat))
  | ActHTTPGet a => on_snd (HTTPGetAction_act tracer a probeName m (env_NewRequest_err env)
                      (env_client_Do env) (now 0%nat) (now 1%nat) (now 2%nat))
  | ActTCPSocket a => on_snd (TCPSocketAction_act tracer a probeName m (env_Dial env)
                        (env_SetDeadline env) (now 0%nat) (now 1%nat) (now 2%nat) (now 3%nat))
  end.

End probes.

(** ** The calls a probe makes *)

Section traces.
Context `{MetricLibs} `{Regexp} {C : Type} `{Conn C}.

(** The calls of one run: the span opens, the attempt is counted, [events] are
    noted, a success is counted if there was one, the status is set, and what
    was opened is closed: connection, span, context. *)
Definition run_calls (span name : string) (m : measure) (events : list call) (ok : bool)
    (start now : Z) (status closing : list call) : list call :=
  [SpanStart span; SpanSetAttribute "bunny-probe-name" name] ++ attempt_calls m ++ events ++
  (if ok then success_calls m start now else []) ++ status ++ closing ++ [SpanEnd; ContextCancel].

Definition ok_status (ok : bool) (msg : string) : list call :=
  [SpanSetStatus (if ok then CodeOk else CodeError) (if ok then "probe succeeded" else msg)].

(** The messages of the failures. *)
Definition http_message (response : option Z) : string :=
  match response with
  | None => "probe failed - no response"
  | Some code => "probe failed - http response not ok: " +:+ Sprint_int code
  end.
Definition grpc_message (answer : option error * option Z) : string :=
  match answer with
  | (Some _, _) => "probe failed - could not check grpc server"
  | (None, None) => "probe failed - response is nil"
  | (None, Some _) => "probe failed - rpc server is not serving"
  end.

(** The event a step of a conversation notes. *)
Definition step_event (s : ExpectStep) : call :=
  match s with
  | SendStep text _ => SpanAddEvent text
  | ReceiveStep regex _ => SpanAddEvent (regexp_String regex)
  end.

(** A conversation never panics, and notes the steps it ran: all of them when
    it succeeds. *)
Lemma expect_loop_run steps (rw : ReadWriter (C := C)) t :
  ∃ b rw' n, expect_loop steps (rw, t) =
    (Returned b, (rw', add_calls (step_event <$> take n steps) t)) ∧
    (b = true → take n steps = steps).
Proof.
  revert rw t; induction steps as [|s steps IH]; intros rw t.
  { exists true, rw, 0%nat. simpl. by rewrite add_calls_nil. }
  cbn [expect_loop]. unfold mbind, go_bind.
  assert (∃ b e rw1, step_do s (rw, t) = (Returned (b, e), (rw1, add_calls [step_event s] t)))
    as (b & e & rw1 & ->).
  { destruct s as [text d|regex d]; unfold step_do; go_unfold.
    - destruct (SendStep_do text d rw) as [[b e] rw1]. by eauto.
    - destruct (ReceiveStep_do regex d rw) as [[b e] rw1]. by eauto. }
  destruct b, e as [e|].
  2: { destruct (IH rw1 (add_calls [step_event s] t)) as (b & rw2 & n & -> & Hall).
       exists b, rw2, (S n). rewrite add_calls_add. simpl. split; [done|].
       intros Hb. by rewrite Hall. }
  all: exists false, rw1, 1%nat; by split.
Qed.

Lemma expect_run (c : C) steps t :
  ∃ b c' n, expect c steps t =
    (Returned (b, c'), add_calls (step_event <$> take n steps) t) ∧
    (b = true → take n steps = steps).
Proof.
  unfold expect.
  destruct (expect_loop_run steps (mkReadWriter (mkReader [] None) (mkWriter [] None) c) t)
    as (b & rw' & n & -> & Hall).
  by exists b, (rw_conn rw'), n.
Qed.

(** [with_span] around a body that returns. *)
Lemma with_span_run (tr span name : string) (body : go Telem unit) t t' :
  body (add_calls [SpanStart span; SpanSetAttribute "bunny-probe-name" name] t) = (Returned tt, t') →
  with_span (Some tr) span name body t = (Returned tt, add_calls [SpanEnd; ContextCancel] t').
Proof.
  intros Hb. unfold with_span. go_unfold. unfold emit, modify. simpl.
  rewrite !record_call_add, add_calls_add. simpl. rewrite Hb. simpl.
  by rewrite !record_call_add, add_calls_add.
Qed.

End traces.

(** ** Theorems: what a run reports *)

Section act_theorems.
Context `{MetricLibs} `{Regexp} {C : Type} `{Conn C}.

#[local] Arguments PreMeasurable : simpl never.
#[local] Arguments PostMeasurable : simpl never.
#[local] Arguments fmap : simpl never.

Lemma HTTPGetAction_act_run tr action name m NewRequest_err client_Do now0 now1 now2 t err response :
  NewRequest_err (httpaction_url action) = None →
  client_Do (time_Add now0 (httpaction_timeout action)) (httpaction_client action)
    (httpaction_url action) (httpaction_headers action) = (err, response) →
  (err = None → is_Some response) →
  let ok := bool_decide (err = None ∧ response = Some StatusOK) in
  ∃ t', HTTPGetAction_act (Some tr) action name m NewRequest_err client_Do now0 now1 now2 t
        = (Returned tt, t') ∧
    calls t' = calls t ++ run_calls "http-probe" name m [] ok now1 now2
                            (ok_status ok (http_message response)) [].
Proof.
  intros Hreq Hdo Hresp ok.
  exists (add_calls [SpanEnd; ContextCancel] (add_calls (ok_status ok (http_message response))
    (if ok then after_success m now1 now2 (add_calls (attempt_calls m) (add_calls
       [SpanStart "http-probe"; SpanSetAttribute "bunny-probe-name" name] t))
     else add_calls (attempt_calls m) (add_calls
       [SpanStart "http-probe"; SpanSetAttribute "bunny-probe-name" name] t)))).
  split.
  - unfold HTTPGetAction_act. apply with_span_run. rewrite Hreq.
    unfold mbind, go_bind. rewrite PreMeasurable_run. cbv zeta. rewrite Hdo.
    subst ok. destruct err as [e|].
    { rewrite bool_decide_eq_false_2 by naive_solver. simpl. by rewrite ?PostMeasurable_run. }
    destruct (Hresp eq_refl) as [code ->]. destruct (decide (code = StatusOK)) as [->|Hne].
    + rewrite bool_decide_eq_true_2 by done. simpl. by rewrite ?PostMeasurable_run.
    + rewrite bool_decide_eq_false_2 by naive_solver. simpl.
      rewrite (proj2 (Z.eqb_neq _ _) Hne). simpl. by rewrite ?PostMeasurable_run.
  - simpl. rewrite calls_after_if. simpl. unfold run_calls. by rewrite <-!app_assoc.
Qed.

(** C25: an HTTP probe reports what happened.  When the request could be built,
    the run counts one attempt, sends the configured request under a context
    that ends at the configured timeout after its start, counts a success and
    sets the status OK exactly when the client returned a response with status
    200 and no error, sets an error status otherwise, and ends its span and
    cancels its context last. *)
Theorem HTTPGetAction_act_reports tr action name m NewRequest_err client_Do now0 now1 now2 t err response :
  NewRequest_err (httpaction_url action) = None →
  client_Do (time_Add now0 (httpaction_timeout action)) (httpaction_client action)
    (httpaction_url action) (httpaction_headers action) = (err, response) →
  (err = None → is_Some response) →
  let ok := bool_decide (err = None ∧ response = Some StatusOK) in
  ∃ msg t', HTTPGetAction_act (Some tr) action name m NewRequest_err client_Do now0 now1 now2 t
            = (Returned tt, t') ∧
    calls t' = calls t ++ run_calls "http-probe" name m [] ok now1 now2 (ok_status ok msg) [].
Proof.
  intros Hreq Hdo Hresp ok. exists (http_message response). by apply HTTPGetAction_act_run.
Qed.

Lemma GRPCAction_act_run tr action name m Dial Check now0 now1 now2 t :
  let deadline := time_Add now0 (grpcaction_timeout action) in
  let target := JoinHostPort "localhost" (Sprint_int (grpcaction_port action)) in
  let answer := Check deadline (grpcaction_service action) in
  let ok := bool_decide (answer = (None, Some HealthCheckResponse_SERVING)) in
  ∃ t', GRPCAction_act (Some tr) action name m Dial Check now0 now1 now2 t = (Returned tt, t') ∧
    calls t' = calls t ++
      match Dial deadline newDialer target with
      | Some _ => run_calls "grpc-probe" name m [] false now1 now2 [] []
      | None => run_calls "grpc-probe" name m [] ok now1 now2
                  (ok_status ok (grpc_message answer)) [ConnClose]
      end.
Proof.
  intros deadline target answer ok.
  set (t1 := add_calls (attempt_calls m) (add_calls
    [SpanStart "grpc-probe"; SpanSetAttribute "bunny-probe-name" name] t)).
  destruct (Dial deadline newDialer target) as [e|] eqn:Hdial.
  - exists (add_calls [SpanEnd; ContextCancel] t1). split.
    + unfold GRPCAction_act. apply with_span_run. unfold mbind, go_bind.
      rewrite PreMeasurable_run. fold deadline target. rewrite Hdial. apply PostMeasurable_run.
    + subst t1. simpl. unfold run_calls. by rewrite app_nil_l, <-!app_assoc.
  - exists (add_calls [SpanEnd; ContextCancel] (add_calls [ConnClose]
      (add_calls (ok_status ok (grpc_message answer)) (if ok then after_success m now1 now2 t1 else t1)))). split.
    + unfold GRPCAction_act. apply with_span_run. unfold mbind, go_bind.
      rewrite PreMeasurable_run. fold deadline target t1. rewrite Hdial. unfold deferred.
      subst ok answer. destruct (Check _) as [[e|] [status|]] eqn:Hc.
      1, 2, 4: rewrite bool_decide_eq_false_2 by done; simpl; by rewrite ?PostMeasurable_run.
      destruct (decide (status = HealthCheckResponse_SERVING)) as [->|Hne].
      * rewrite bool_decide_eq_true_2 by done. simpl. by rewrite ?PostMeasurable_run.
      * rewrite bool_decide_eq_false_2 by naive_solver. rewrite (proj2 (Z.eqb_neq _ _) Hne).
        simpl. by rewrite ?PostMeasurable_run.
    + subst t1. simpl. rewrite calls_after_if. simpl. unfold run_calls. by rewrite <-!app_assoc.
Qed.

(** C26: a gRPC probe reports what happened.  The run counts one attempt and
    connects and asks under a context that ends at the configured timeout after
    its start.  When the server cannot be reached it counts no success and
    leaves the status of its span unset; otherwise it counts a success and sets
    the status OK exactly when the health service answered SERVING without an
    error, closes the connection, ends the span and cancels the context. *)
Theorem GRPCAction_act_reports tr action name m Dial Check now0 now1 now2 t :
  let deadline := time_Add now0 (grpcaction_timeout action) in
  let target := JoinHostPort "localhost" (Sprint_int (grpcaction_port action)) in
  let ok := bool_decide (Check deadline (grpcaction_service action)
                         = (None, Some HealthCheckResponse_SERVING)) in
  ∃ msg t', GRPCAction_act (Some tr) action name m Dial Check now0 now1 now2 t = (Returned tt, t') ∧
    calls t' = calls t ++
      match Dial deadline newDialer target with
      | Some _ => run_calls "grpc-probe" name m [] false now1 now2 [] []
      | None => run_calls "grpc-probe" name m [] ok now1 now2 (ok_status ok msg) [ConnClose]
      end.
Proof. eexists. apply GRPCAction_act_run. Qed.

(** A run whose connection opens and whose conversation returns [b]. *)
Lemma TCPSocketAction_act_connected tr (action : TCPSocketAction) name m Dial SetDeadline
    now0 now1 now2 now3 t c b c' events :
  tcpaction_host action ≠ "" →
  let target := JoinHostPort (tcpaction_host action) (Sprint_int (tcpaction_port action)) in
  let deadline := time_Add now0 (tcpaction_timeout action) in
  let t1 := add_calls ([SpanStart "tcp-socket-probe";
    SpanSetAttribute "bunny-probe-name" name] ++ attempt_calls m) t in
  Dial (set_dialer_Timeout (time_Sub deadline now2) newDialer) target = inr c →
  expect (SetDeadline deadline c) (tcpaction_expectSteps action) t1
    = (Returned (b, c'), add_calls events t1) →
  ∃ t', TCPSocketAction_act (C := C) (Some tr) action name m Dial SetDeadline now0
          now1 now2 now3 t = (Returned tt, t') ∧
    calls t' = calls t ++ run_calls "tcp-socket-probe" name m events b now1 now3
      (ok_status b "probe failed - expect steps failed") [ConnClose].
Proof.
  intros Hhost target deadline t1 Hdial He.
  exists (add_calls [SpanEnd; ContextCancel] (add_calls [ConnClose]
    (add_calls (ok_status b "probe failed - expect steps failed")
       (if b then after_success m now1 now3 (add_calls events t1) else add_calls events t1)))). split.
  - unfold TCPSocketAction_act. apply with_span_run. rewrite decide_False by done.
    unfold mbind, go_bind. rewrite PreMeasurable_run. fold target deadline. rewrite Hdial.
    rewrite add_calls_add. fold t1. unfold deferred. rewrite He. simpl.
    rewrite ?PostMeasurable_run. by destruct b.
  - simpl. rewrite calls_after_if. subst t1. simpl. unfold run_calls. by rewrite <-!app_assoc.
Qed.

(** C24: a TCP probe reports what happened.  The run counts one attempt; when
    the connection fails it sets an error status; otherwise it notes the steps
    of the conversation it ran, all of them on a success, counts a success and
    sets the status OK exactly when the whole conversation succeeded, closes
    the connection, ends the span and cancels the context. *)
Theorem TCPSocketAction_act_reports tr (action : TCPSocketAction) name m Dial SetDeadline
    now0 now1 now2 now3 t :
  tcpaction_host action ≠ "" →
  let target := JoinHostPort (tcpaction_host action) (Sprint_int (tcpaction_port action)) in
  let deadline := time_Add now0 (tcpaction_timeout action) in
  let timeout := time_Sub deadline now2 in
  ∃ t', TCPSocketAction_act (C := C) (Some tr) action name m Dial SetDeadline now0
          now1 now2 now3 t = (Returned tt, t') ∧
    match Dial (set_dialer_Timeout timeout newDialer) target with
    | inl _ => calls t' = calls t ++ run_calls "tcp-socket-probe" name m [] false now1 now3
                 (ok_status false "probe failed - could not connect to tcp server") []
    | inr c =>
        ∃ ok n, (expect (SetDeadline deadline c) (tcpaction_expectSteps action)
                   (add_calls ([SpanStart "tcp-socket-probe";
                      SpanSetAttribute "bunny-probe-name" name] ++ attempt_calls m) t)).1
                = Returned ok ∧
          calls t' = calls t ++ run_calls "tcp-socket-probe" name m
            (step_event <$> take n (tcpaction_expectSteps action)) ok.1 now1 now3
            (ok_status ok.1 "probe failed - expect steps failed") [ConnClose] ∧
          (ok.1 = true → take n (tcpaction_expectSteps action) = tcpaction_expectSteps action)
    end.
Proof.
  intros Hhost target deadline timeout.
  set (t1 := add_calls ([SpanStart "tcp-socket-probe";
    SpanSetAttribute "bunny-probe-name" name] ++ attempt_calls m) t).
  destruct (Dial (set_dialer_Timeout timeout newDialer) target) as [e|c] eqn:Hdial.
  - exists (add_calls [SpanEnd; ContextCancel] (add_calls
      (ok_status false "probe failed - could not connect to tcp server") t1)). split.
    + unfold TCPSocketAction_act. apply with_span_run. rewrite decide_False by done.
      unfold mbind, go_bind. rewrite PreMeasurable_run. fold target deadline timeout. rewrite Hdial.
      by rewrite ?PostMeasurable_run, add_calls_add.
    + subst t1. simpl. unfold run_calls. by rewrite app_nil_l, <-!app_assoc.
  - destruct (expect_run (SetDeadline deadline c) (tcpaction_expectSteps action) t1) as (b & c' & n & He & Hall).
    destruct (TCPSocketAction_act_connected tr action name m Dial SetDeadline now0 now1 now2 now3 t
      _ _ _ _ Hhost Hdial He) as (t' & Ht & Hc).
    exists t'. split; [done|]. exists (b, c'), n. by rewrite He.
Qed.

End act_theorems.

(** ** Lemmas: runs that return *)

Section act_runs.
Context `{MetricLibs} `{Regexp} {C : Type} `{Conn C} (grow : nat → nat) (reg : option registry).

(** The client documents that there is a response when there is no error. *)
Definition client_sane (env : RunEnv (C := C)) : Prop :=
  ∀ deadline client url headers,
    (env_client_Do env deadline client url headers).1 = None →
    is_Some (env_client_Do env deadline client url headers).2.

(** An exec action needs a program to run. *)
Definition runnable (a : ProbeAction) : Prop :=
  match a with ActExec e => exec_command e ≠ [] | _ => True end.

Lemma with_span_runs {A} tr span name (body : go Telem A) Q :
  runs (registry_is reg) body Q → runs (registry_is reg) (with_span (Some tr) span name body) Q.
Proof.
  intros Hb. unfold with_span. apply runs_deferred; [done|].
  apply (runs_bind _ _ _ (λ _, True)); [by apply (runs_deref _ _ tr)|]. intros _ _.
  apply (runs_bind _ _ _ (λ _, True)); [apply emit_runs|]. intros _ _.
  apply (runs_bind _ _ _ (λ _, True)); [apply emit_runs|]. intros _ _. by apply runs_deferred.
Qed.

(** The end of a measured run. *)
Lemma report_runs m start ok now c :
  runs (registry_is reg) (PostMeasurable (m_successes m) (m_response m) ((λ _, start) <$> m_response m) ok now ;;
                     emit c) (λ _, True).
Proof. eapply runs_bind; [apply PostMeasurable_runs|]. intros _ _. apply emit_runs. Qed.

Lemma HTTPGetAction_act_runs tr a name m env now0 now1 now2 :
  client_sane env →
  runs (registry_is reg) (HTTPGetAction_act (Some tr) a name m (env_NewRequest_err env) (env_client_Do env)
    now0 now1 now2) (λ _, True).
Proof.
  intros Hc. apply with_span_runs. destruct (env_NewRequest_err env _); [apply emit_runs|].
  eapply runs_bind; [apply PreMeasurable_runs|]. intros start ->. cbv zeta.
  specialize (Hc (time_Add now0 (httpaction_timeout a)) (httpaction_client a) (httpaction_url a) (httpaction_headers a)).
  destruct (env_client_Do env _ _ _ _) as [err response]. cbn in Hc.
  apply (runs_bind _ _ _ (λ _, True)).
  - destruct err; [by apply runs_ret|]. destruct (Hc eq_refl) as [code ->].
    apply (runs_bind _ _ _ (λ _, True)); [by apply (runs_deref _ _ code)|]. intros ? _. by apply runs_ret.
  - intros failed _. destruct failed; apply report_runs.
Qed.

Lemma GRPCAction_act_runs tr a name m Dial Check now0 now1 now2 :
  runs (registry_is reg) (GRPCAction_act (Some tr) a name m Dial Check now0 now1 now2) (λ _, True).
Proof.
  apply with_span_runs. eapply runs_bind; [apply PreMeasurable_runs|]. intros start ->. cbv zeta.
  destruct (Dial _ _ _); [apply PostMeasurable_runs|]. apply runs_deferred; [done|].
  destruct (Check _ _) as [err response]. case_decide; apply report_runs.
Qed.

Lemma TCPSocketAction_act_runs tr a name m (Dial : Dialer → string → error + C) SetDeadline
    now0 now1 now2 now3 :
  runs (registry_is reg) (TCPSocketAction_act (Some tr) a name m Dial SetDeadline now0 now1 now2 now3)
    (λ _, True).
Proof.
  apply with_span_runs. eapply runs_bind; [apply PreMeasurable_runs|]. intros start ->. cbv zeta.
  destruct (Dial _ _) as [e|c]; [apply report_runs|]. apply runs_deferred; [done|].
  apply (runs_bind _ _ _ (λ _, True)).
  - intros t Ht. edestruct expect_run as (b & c' & n & -> & _). by eexists _, _.
  - intros r _. eapply runs_bind; [apply PostMeasurable_runs|]. intros _ _.
    destruct (negb r.1); apply emit_runs.
Qed.

Lemma ExecAction_act_runs tr a name traceID m Run now0 now1 now2 :
  exec_command a ≠ [] →
  runs (λ st : heap string * Telem, registry_is reg st.2)
    (ExecAction_act grow (Some tr) a name traceID m Run now0 now1 now2) (λ _, True).
Proof.
  intros Hc. unfold ExecAction_act. destruct (exec_command a) as [|program args]; [done|].
  apply runs_deferred; [done|].
  apply (runs_bind _ _ _ (λ _, True)); [by apply (runs_deref _ _ tr)|]. intros _ _.
  apply (runs_bind _ _ _ (λ _, True)); [apply runs_on_snd, emit_runs|]. intros _ _.
  apply (runs_bind _ _ _ (λ _, True)); [apply runs_on_snd, emit_runs|]. intros _ _.
  apply runs_deferred; [done|]. apply (runs_bind _ _ _ (λ _, True)).
  { apply runs_on_fst. intros h _. unfold exec_prepare, append_string.
    destruct (slice_append _ _ _ _ _) as [s' h']. by eexists _, _. }
  intros newEnvVars _. eapply runs_bind; [apply runs_on_snd, PreMeasurable_runs|]. intros start ->.
  apply (runs_bind _ _ _ (λ _, True)); [apply runs_on_fst; intros h _; by eexists _, _|]. intros env _.
  destruct (Run _ program args env);
    (eapply runs_bind; [apply runs_on_snd, PostMeasurable_runs|]); intros _ _;
    apply runs_on_snd, emit_runs.
Qed.

(** No run of a probe panics once there is a tracer. *)
Lemma ProbeAction_act_runs env tr a name m :
  client_sane env → runnable a →
  runs (λ st : heap string * Telem, registry_is reg st.2)
    (ProbeAction_act grow env (Some tr) a name m) (λ _, True).
Proof.
  intros Hc Ha. destruct a; cbn [ProbeAction_act].
  - by apply ExecAction_act_runs.
  - apply runs_on_snd, GRPCAction_act_runs.
  - by apply runs_on_snd, HTTPGetAction_act_runs.
  - apply runs_on_snd, TCPSocketAction_act_runs.
Qed.
End act_runs.

(** ** Theorems: the exec action and its environment *)

Section exec_theorems.
Context `{MetricLibs} (grow : nat → nat).

#[local] Arguments PreMeasurable : simpl never.
#[local] Arguments PostMeasurable : simpl never.
#[local] Arguments fmap : simpl never.

(** The environment entries a configuration asks for. *)
Definition env_entries (envs : list EnvConfig) : list string :=
  (λ e, env_Name e +:+ "=" +:+ env_Value e) <$> envs.

Definition trace_entry (traceID : string) : string := "OTEL_CLI_FORCE_TRACE_ID=" +:+ traceID.

Lemma append_env_spec envs s h :
  slice_ok h s →
  ∃ s' h', append_env grow s envs h = (Returned s', h') ∧ slice_ok h' s' ∧
    slice_elems h' s' = slice_elems h s ++ env_entries envs ∧
    ∀ h0, h0 ⊆ h → h0 !! sl_ptr s = None → h0 ⊆ h'.
Proof.
  revert s h; induction envs as [|e envs IH]; intros s h Hs.
  { exists s, h. by rewrite app_nil_r. }
  cbn [append_env]. unfold append_string, mbind, go_bind.
  destruct (slice_append _ _ _ _ _) as [s1 h1] eqn:Happ.
  destruct (slice_append_spec _ _ _ _ _ _ _ Hs Happ) as [Hs1 He1].
  destruct (IH s1 h1 Hs1) as (s2 & h2 & -> & Hs2 & He2 & Hsub).
  exists s2, h2. split_and!; [done..|by rewrite He2, He1, <-app_assoc|].
  intros h0 Hh Hp. destruct (slice_append_above _ _ _ _ _ _ _ _ Hh Hp Happ). by apply Hsub.
Qed.

(** the environment of an exec probe.  Building the action never panics
    and leaves one entry [Name=Value] for every configured variable, in the
    order of the configuration, in an array of its own. *)
Theorem newExecAction_environment c timeout h :
  ∃ a h', newExecAction grow (Some c) timeout h = (Returned (Some a), h') ∧ h ⊆ h' ∧
    exec_command a = exec_Command c ∧ exec_timeout a = timeout ∧
    slice_ok h' (exec_env a) ∧ slice_elems h' (exec_env a) = env_entries (exec_Env c).
Proof.
  unfold newExecAction, slice_empty. unfold mbind, go_bind.
  set (p := fresh _). assert (h !! p = None) as Hp by apply not_elem_of_dom, is_fresh.
  destruct (append_env_spec (exec_Env c) (Slice p 0 0) (<[p := []]> h)) as (s & h' & -> & Hs & He & Hsub).
  { exists []. simpl. by rewrite lookup_insert_eq. }
  eexists _, h'. split; [done|]. split; [by apply Hsub; [apply insert_subseteq|]|].
  simpl. by rewrite He.
Qed.

Lemma exec_prepare_spec action traceID h :
  slice_ok h (exec_env action) →
  ∃ s h', exec_prepare grow action traceID h = (Returned s, h') ∧
    slice_elems h' s = slice_elems h (exec_env action) ++ [trace_entry traceID] ∧
    slice_ok h' (exec_env action) ∧
    slice_elems h' (exec_env action) = slice_elems h (exec_env action).
Proof.
  intros Hok. unfold exec_prepare, append_string.
  destruct (slice_append _ _ _ _ _) as [s h'] eqn:Happ. exists s, h'.
  destruct (slice_append_spec _ _ _ _ _ _ _ Hok Happ) as [_ He].
  edestruct (slice_append_frame _ _ _ _ _ _ _ (exec_env action) Hok Happ); [done|].
  done.
Qed.

(** C27: an exec probe that is not overlapped by another run reports what
    happened.  The program is run with the configured arguments, the
    configured environment and the run's own trace id, under a context that
    ends at the configured timeout after its start; the run counts one
    attempt, counts a success and sets the status OK exactly when the program
    ended without an error; and the action's own environment is as it was,
    ready for the next run. *)
Theorem ExecAction_act_reports tr action name traceID m Run now0 now1 now2 h t program args :
  slice_ok h (exec_env action) →
  exec_command action = program :: args →
  let deadline := time_Add now0 (exec_timeout action) in
  let env := slice_elems h (exec_env action) ++ [trace_entry traceID] in
  let ok := bool_decide (Run deadline program args env = None) in
  ∃ h' t', ExecAction_act grow (Some tr) action name traceID m Run now0 now1 now2 (h, t)
           = (Returned tt, (h', t')) ∧
    calls t' = calls t ++ run_calls "exec-probe" name m [] ok now1 now2
      (ok_status ok "probe failed - error while running command") [] ∧
    slice_ok h' (exec_env action) ∧
    slice_elems h' (exec_env action) = slice_elems h (exec_env action).
Proof.
  intros Hok Hcmd deadline env ok.
  destruct (exec_prepare_spec action traceID h Hok) as (s & h' & Hp & He & Hok' & He').
  set (t1 := add_calls (attempt_calls m) (add_calls
    [SpanStart "exec-probe"; SpanSetAttribute "bunny-probe-name" name] t)).
  exists h', (add_calls [SpanEnd; ContextCancel] (add_calls
    (ok_status ok "probe failed - error while running command")
    (if ok then after_success m now1 now2 t1 else t1))).
  split; [|split; [|done]].
  - unfold ExecAction_act. rewrite Hcmd. unfold deferred, deref, on_fst, on_snd, emit, modify.
    unfold mbind, mret, go_bind, go_ret. cbn -[run_calls exec_prepare slice_elems].
    rewrite Hp. rewrite !record_call_add, add_calls_add. cbn -[slice_elems].
    rewrite PreMeasurable_run. fold t1. cbn -[slice_elems t1]. rewrite He. fold deadline env. subst ok.
    destruct (Run deadline program args env) as [e|];
      [rewrite bool_decide_eq_false_2 by done|rewrite bool_decide_eq_true_2 by done].
    all: cbn -[t1 add_calls after_success ok_status]; rewrite PostMeasurable_run; clearbody t1.
    all: cbn -[add_calls after_success ok_status].
    all: by rewrite !record_call_add, !add_calls_add.
  - simpl. rewrite calls_after_if. subst t1. simpl. unfold run_calls. by rewrite <-!app_assoc.
Qed.

(** C40: overlapping runs of one exec probe.  When a second run prepares its
    environment before the first one has started its program, the first
    program gets the second run's trace id exactly when the action's
    environment slice has spare capacity, because both runs append to the
    same backing array; the second program always gets its own. *)
Theorem exec_overlap_env action id1 id2 h s1 h1 s2 h2 :
  slice_ok h (exec_env action) →
  exec_prepare grow action id1 h = (Returned s1, h1) →
  exec_prepare grow action id2 h1 = (Returned s2, h2) →
  slice_elems h2 s2 = slice_elems h (exec_env action) ++ [trace_entry id2] ∧
  slice_elems h2 s1 = slice_elems h (exec_env action) ++
    [trace_entry (if (sl_len (exec_env action) <? sl_cap (exec_env action))%nat
                  then id2 else id1)].
Proof.
  intros Hok Hp1 Hp2.
  destruct (exec_prepare_spec action id1 h Hok) as (s & h' & Hp & He & Hok' & Hee).
  rewrite Hp1 in Hp. simplify_eq.
  destruct (exec_prepare_spec action id2 h' Hok') as (s' & h'' & Hp & He' & _ & _).
  rewrite Hp2 in Hp. simplify_eq. rewrite He', Hee. split; [done|].
  revert Hp1 Hp2. unfold exec_prepare, append_string.
  destruct (slice_append _ _ _ _ h) as [sa ha] eqn:Ha. intros [= -> ->].
  destruct (slice_append _ _ _ _ h') as [sb hb] eqn:Hb. intros [= -> ->].
  destruct (Nat.ltb_spec (sl_len (exec_env action)) (sl_cap (exec_env action))) as [Hlt|Hge].
  - rewrite <-Hee, <-He'. f_equal. revert Ha Hb. unfold slice_append.
    rewrite (proj2 (Nat.ltb_lt _ _) Hlt). by intros [= <- _] [= <- _].
  - assert (sl_len (exec_env action) = sl_cap (exec_env action)) as Hfull.
    { destruct Hok as (a & _ & _ & ?). lia. }
    destruct (slice_append_spec _ _ _ _ _ _ _ Hok Ha) as [Hoks _].
    edestruct (slice_append_frame _ _ _ _ _ _ _ s Hoks Hb) as [_ ->]; [|done].
    intros Heq. pose proof (slice_append_full _ _ _ _ _ _ _ Hok Hfull Ha) as Hfr.
    destruct Hok as (a & Hin & _). rewrite Heq in Hfr. congruence.
Qed.

(** an exec probe without a command crashes the program on its first run:
    the command's first element is read without a check.  The span is still
    ended and the context cancelled, and no attempt is counted. *)
Theorem exec_empty_command_panics tr action name traceID m Run now0 now1 now2 h t :
  exec_command action = [] →
  ∃ h', ExecAction_act grow (Some tr) action name traceID m Run now0 now1 now2 (h, t)
        = (Panicked IndexOutOfRange, (h', add_calls
            [SpanStart "exec-probe"; SpanSetAttribute "bunny-probe-name" name;
             SpanEnd; ContextCancel] t)).
Proof.
  intros Hcmd. unfold ExecAction_act, exec_prepare, append_string. rewrite Hcmd.
  unfold deferred, deref, on_fst, on_snd, emit, modify, throw.
  unfold mbind, mret, go_bind, go_ret. cbn -[slice_append].
  destruct (slice_append _ _ _ _ _) as [s h']. exists h'. cbn.
  by rewrite !record_call_add, !add_calls_add.
Qed.

End exec_theorems.

(** ** Theorems: building probes *)

Section build_theorems.
Context `{MetricLibs} `{Regexp} {C : Type} `{Conn C} (grow : nat → nat).

(** The action [newProbe] must take, from the configuration alone: the first
    of exec, gRPC, HTTP and TCP that is present, where an HTTP section with
    another scheme than http and https counts as absent.  The headers are
    those of the last entry for each name, the steps the valid ones. *)
Inductive wanted :=
| WantExec (command : list string)
| WantGRPC (port : Z) (service : option string)
| WantHTTPGet (url : string) (headers : gmap string (list string))
| WantTCPSocket (host : string) (port : Z) (steps : list ExpectStep).

Definition http_usable (c : HTTPGetActionConfig) : bool :=
  match httpget_Scheme c with
  | None => true
  | Some s => bool_decide (ToLower s = "http" ∨ ToLower s = "https")
  end.

(** The URL of an HTTP section: plain http unless a scheme is given. *)
Definition http_url (c : HTTPGetActionConfig) : string :=
  match httpget_Scheme c with None => "http" | Some s => ToLower s end +:+ "://" +:+
  host_or_localhost (httpget_Host c) +:+ ":" +:+ Sprint_int (httpget_Port c) +:+ "/" +:+ httpget_Path c.

Definition http_headers (c : HTTPGetActionConfig) : gmap string (list string) :=
  map_of_bindings ((λ hc, (header_Name hc, header_Value hc)) <$> httpget_HTTPHeaders c).

Definition wanted_http (o : option HTTPGetActionConfig) : option wanted :=
  c ← o; if http_usable c then Some (WantHTTPGet (http_url c) (http_headers c)) else None.

(** The steps of a TCP section that are valid, in their order. *)
Definition wanted_steps (cfgs : list ExpectConfig) : list ExpectStep :=
  omap (λ cfg, match newExpectStep cfg with Returned step => step | Panicked _ => None end) cfgs.

Definition wanted_action (cfg : EgressProbeConfig) : option wanted :=
  match probe_Exec cfg, probe_GRPC cfg, wanted_http (probe_HTTPGet cfg), probe_TCPSocket cfg with
  | Some c, _, _, _ => Some (WantExec (exec_Command c))
  | None, Some c, _, _ => Some (WantGRPC (grpc_Port c) (grpc_Service c))
  | None, None, Some w, _ => Some w
  | None, None, None, Some c =>
      Some (WantTCPSocket (host_or_localhost (tcp_Host c)) (tcp_Port c)
              (wanted_steps (default [] (tcp_Expect c))))
  | None, None, None, None => None
  end.

Definition action_kind (a : ProbeAction) : wanted :=
  match a with
  | ActExec a => WantExec (exec_command a)
  | ActGRPC a => WantGRPC (grpcaction_port a) (grpcaction_service a)
  | ActHTTPGet a => WantHTTPGet (httpaction_url a) (httpaction_headers a)
  | ActTCPSocket a => WantTCPSocket (tcpaction_host a) (tcpaction_port a) (tcpaction_expectSteps a)
  end.

(** An action bounded by [timeout]; the client of an HTTP action neither checks
    certificates nor keeps connections. *)
Definition action_bounded (timeout : Z) (a : ProbeAction) : Prop :=
  match a with
  | ActExec a => exec_timeout a = timeout
  | ActGRPC a => grpcaction_timeout a = timeout
  | ActHTTPGet a => httpaction_timeout a = timeout ∧
      httpaction_client a = mkClient timeout true true true newDialer
  | ActTCPSocket a => tcpaction_timeout a = timeout
  end.

(** An exec action finds the configured variables in its slice. *)
Definition env_configured (h : heap string) (cfg : EgressProbeConfig) (a : ProbeAction) : Prop :=
  match a, probe_Exec cfg with
  | ActExec a, Some c =>
      slice_ok h (exec_env a) ∧ slice_elems h (exec_env a) = env_entries (exec_Env c)
  | _, _ => True
  end.

(** The actions a configuration and a timeout stand for. *)
Definition action_for (timeout : Z) (cfg : EgressProbeConfig) (a : ProbeAction) : Prop :=
  Some (action_kind a) = wanted_action cfg ∧ action_bounded timeout a.

Lemma env_configured_mono h h' cfg a : h ⊆ h' → env_configured h cfg a → env_configured h' cfg a.
Proof.
  intros Hsub. destruct a as [a| | |]; cbn; [|done..]. destruct (probe_Exec cfg) as [c|]; [|done].
  intros [Hok He]. by apply (slice_ok_mono h h') in Hok as [Hok' ->].
Qed.

Lemma http_headers_loop c :
  foldl (λ m hc, <[header_Name hc := header_Value hc]> m) ∅ (httpget_HTTPHeaders c) = http_headers c.
Proof.
  unfold http_headers, map_of_bindings. generalize (∅ : gmap string (list string)).
  induction (httpget_HTTPHeaders c) as [|hc hcs IH]; intros m; [done|]. apply IH.
Qed.

Lemma newHTTPGetAction_kind o timeout :
  (action_kind ∘ ActHTTPGet) <$> newHTTPGetAction o timeout = wanted_http o.
Proof.
  destruct o as [c|]; [|done].
  unfold wanted_http, newHTTPGetAction, http_usable, http_url. rewrite http_headers_loop.
  cbn [mbind option_bind].
  destruct (httpget_Scheme c) as [s|]; [|done].
  destruct (decide (ToLower s = "http" ∨ ToLower s = "https")) as [Hs|Hs].
  - rewrite bool_decide_eq_true_2, decide_False by naive_solver. done.
  - rewrite bool_decide_eq_false_2, decide_True by naive_solver. done.
Qed.

Lemma newExecAction_kind o timeout h :
  ∃ e h', newExecAction grow o timeout h = (Returned e, h') ∧ h ⊆ h' ∧
    match e, o with
    | Some a, Some c => exec_command a = exec_Command c ∧ exec_timeout a = timeout ∧
        slice_ok h' (exec_env a) ∧ slice_elems h' (exec_env a) = env_entries (exec_Env c)
    | None, None => True
    | _, _ => False
    end.
Proof.
  destruct o as [c|]; [|by exists None, h].
  destruct (newExecAction_environment grow c timeout h) as (a & h' & He & Hsub & ?).
  exists (Some a), h'. by split; [|split].
Qed.

Lemma newExpectSteps_wanted cfgs steps : newExpectSteps cfgs = Returned steps → steps = wanted_steps cfgs.
Proof.
  revert steps; induction cfgs as [|cfg cfgs IH]; intros steps; cbn; [by intros [= <-]|].
  destruct (newExpectStep cfg) as [step|]; [|done].
  destruct (newExpectSteps cfgs) as [steps'|]; [|done]. rewrite (IH steps') by done.
  by destruct step; intros [= <-].
Qed.

(** What the four constructors give, chosen from in the order of the code. *)
Lemma choose_action_for cfg e t timeout h :
  match e, probe_Exec cfg with
  | Some a, Some c => exec_command a = exec_Command c ∧ exec_timeout a = timeout ∧
      slice_ok h (exec_env a) ∧ slice_elems h (exec_env a) = env_entries (exec_Env c)
  | None, None => True
  | _, _ => False
  end →
  newTCPSocketAction (probe_TCPSocket cfg) timeout = Returned t →
  match choose_action e (newGRPCAction (probe_GRPC cfg) timeout)
          (newHTTPGetAction (probe_HTTPGet cfg) timeout) t with
  | Some a => action_for timeout cfg a ∧ env_configured h cfg a
  | None => wanted_action cfg = None
  end.
Proof.
  intros He Ht. unfold action_for, env_configured, wanted_action.
  destruct e as [a|], (probe_Exec cfg) as [c|]; try done.
  { destruct He as (Hc & Ho & Hok & Hel). cbn. rewrite Hc. by split_and!. }
  destruct (probe_GRPC cfg) as [c|]; [done|]. cbn [newGRPCAction].
  rewrite <-(newHTTPGetAction_kind _ timeout).
  destruct (newHTTPGetAction (probe_HTTPGet cfg) timeout) as [a|] eqn:Hh.
  { split; [|done]. split; [done|]. cbn. revert Hh. unfold newHTTPGetAction.
    destruct (probe_HTTPGet cfg) as [c|]; [|done].
    destruct (httpget_Scheme c); [case_decide; [done|]|]; by intros [= <-]. }
  destruct (probe_TCPSocket cfg) as [c|]; cbn in Ht; [|by injection Ht as <-].
  destruct (newExpectSteps _) as [steps|] eqn:Es; [|done]. injection Ht as <-. cbn.
  by rewrite (newExpectSteps_wanted _ _ Es).
Qed.

(** What a probe is, by its configuration. *)
Definition probe_for (timeout : Z) (cfg : EgressProbeConfig) (p : Probe) : Prop :=
  Name p = probe_Name cfg ∧ ∃ a, ProbeAction_ p = Some a ∧ action_for timeout cfg a.

(** The environment of a probe's action, if it has one. *)
Definition probe_env (h : heap string) (cfg : EgressProbeConfig) (p : Probe) : Prop :=
  ∀ a, ProbeAction_ p = Some a → env_configured h cfg a.

Lemma probe_env_mono h h' cfg p : h ⊆ h' → probe_env h cfg p → probe_env h' cfg p.
Proof. intros Hsub He a Ha. by eapply env_configured_mono, He. Qed.

Lemma newProbe_kind meter cfg timeout st r st' :
  newProbe grow meter cfg timeout st = (Returned r, st') →
  st.1 ⊆ st'.1 ∧
  match r with
  | Some p => probe_for timeout cfg p ∧ probe_env st'.1 cfg p
  | None => wanted_action cfg = None
  end.
Proof.
  destruct st as [h t]. unfold newProbe. unfold mbind, go_bind, on_fst.
  destruct (newExecAction_kind (probe_Exec cfg) timeout h) as (e & h' & He & Hsub & Hek).
  cbn [fst snd]. rewrite He.
  destruct (newTCPSocketAction (probe_TCPSocket cfg) timeout) as [tc|] eqn:Htc; [|done].
  pose proof (choose_action_for cfg e tc timeout h' Hek Htc) as Hc.
  destruct (choose_action _ _ _ _) as [a|]; [|by intros [= <- <-]].
  unfold on_snd. cbn [fst snd].
  destruct (NewCounterMetric (probe_Attempts _) _ _) as [[ma|] t1]; [|done]. cbn [fst snd].
  destruct (NewResponseTimeMetric _ _ _) as [[mr|] t2]; [|done]. cbn [fst snd].
  destruct (NewCounterMetric (probe_Successes _) _ _) as [[ms|] t3]; [|done].
  intros [= <- <-]. destruct Hc as [Ha Henv]. split; [done|]. split; [split; [done|by exists a]|].
  by intros a' [= <-].
Qed.

Lemma newProbe_calls meter cfg timeout st :
  calls (newProbe grow meter cfg timeout st).2.2 = calls st.2.
Proof.
  destruct st as [h t]. unfold newProbe, mbind, go_bind, on_fst.
  destruct (newExecAction_kind (probe_Exec cfg) timeout h) as (e & h' & He & _).
  cbn [fst snd]. rewrite He.
  destruct (newTCPSocketAction (probe_TCPSocket cfg) timeout) as [tc|]; [|done].
  destruct (choose_action _ _ _ _) as [a|]; [|done]. unfold on_snd. cbn [fst snd].
  pose proof (NewCounterMetric_calls (probe_Attempts (probe_Metrics cfg)) meter t) as Hc1.
  destruct (NewCounterMetric _ _ t) as [[ma|] t1]; [|done]. cbn [fst snd] in *.
  pose proof (NewResponseTimeMetric_calls (probe_ResponseTime (probe_Metrics cfg)) meter t1) as Hc2.
  destruct (NewResponseTimeMetric _ _ _) as [[mr|] t2]; cbn [fst snd] in *; [|congruence].
  pose proof (NewCounterMetric_calls (probe_Successes (probe_Metrics cfg)) meter t2) as Hc3.
  destruct (NewCounterMetric _ _ t2) as [[ms|] t3]; cbn in *; congruence.
Qed.

(** A step of a conversation sets a send or a receive (or, wrongly, both). *)
Definition step_sets_one (cfg : ExpectConfig) : Prop :=
  is_Some (expect_Send cfg) ∨ is_Some (expect_Receive cfg).

Lemma newExpectSteps_total cfgs :
  Forall step_sets_one cfgs → ∃ steps, newExpectSteps cfgs = Returned steps.
Proof.
  induction 1 as [|cfg cfgs Hc _ [steps IH]]; simpl; [by eexists|].
  assert (∃ s, newExpectStep cfg = Returned s) as [s ->].
  { unfold newExpectStep.
    destruct Hc as [[x Hx]|[x Hx]]; rewrite Hx; repeat case_match; by eexists. }
  rewrite IH. by eexists.
Qed.

(** Every step of a TCP section sets a send or a receive. *)
Definition tcp_steps_set (cfg : EgressProbeConfig) : Prop :=
  ∀ c, probe_TCPSocket cfg = Some c → Forall step_sets_one (default [] (tcp_Expect c)).

(** The metrics of a probe fit the registry's names and labels. *)
Definition probe_metrics_fit (schema : metric_schema) (cfg : EgressProbeConfig) : Prop :=
  metrics_fit schema (probe_Attempts (probe_Metrics cfg)) (probe_ResponseTime (probe_Metrics cfg))
    (probe_Successes (probe_Metrics cfg)).

Lemma newProbe_total `{!RegistryLaws} schema mt cfg timeout h t :
  has_registry schema t → probe_metrics_fit schema cfg → tcp_steps_set cfg →
  ∃ r h' t', newProbe grow (Some mt) cfg timeout (h, t) = (Returned r, (h', t')) ∧
    has_registry schema t'.
Proof.
  intros Hr (Hf1 & Hf2 & Hf3) Hsteps. unfold newProbe. unfold mbind, go_bind, on_fst.
  destruct (newExecAction_kind (probe_Exec cfg) timeout h) as (e & h' & He & _).
  cbn [fst snd]. rewrite He.
  assert (∃ a, newTCPSocketAction (probe_TCPSocket cfg) timeout = Returned a) as [a ->].
  { destruct (probe_TCPSocket cfg) as [c|] eqn:Hc; simpl; [|by eexists].
    destruct (newExpectSteps_total (default [] (tcp_Expect c))) as [steps ->]; [by apply Hsteps|].
    by eexists. }
  destruct (choose_action _ _ _ _) as [act|]; [|by eexists _, h', t]. unfold on_snd. cbn [fst snd].
  edestruct (NewCounterMetric_accepted schema) as (m1 & t1 & -> & Hr1); [exact Hf1|exact Hr|]. cbn [fst snd].
  edestruct (NewResponseTimeMetric_accepted schema) as (m2 & t2 & -> & Hr2); [exact Hf2|exact Hr1|]. cbn [fst snd].
  edestruct (NewCounterMetric_accepted schema) as (m3 & t3 & -> & Hr3); [exact Hf3|exact Hr2|].
  by eexists _, h', t3.
Qed.

(** C32: the action of a probe.  When [newProbe] returns, the probe carries the
    configured name and the first configured action in the order exec, gRPC,
    HTTP, TCP, with what was configured: the command, the service, the URL and
    its headers or the address and its valid steps; the action is bounded by
    the timeout, the slice of an exec action holds the configured variables,
    and no slice that was there before has changed.  [newProbe] returns nil
    exactly when no usable action is configured. *)
Theorem newProbe_action meter cfg timeout st r st' :
  newProbe grow meter cfg timeout st = (Returned r, st') →
  (r = None ↔ wanted_action cfg = None) ∧
  (∀ p, r = Some p → Name p = probe_Name cfg ∧
     action_kind <$> ProbeAction_ p = wanted_action cfg ∧
     (∀ a, ProbeAction_ p = Some a → action_bounded timeout a ∧ env_configured st'.1 cfg a)) ∧
  (∀ s, slice_ok st.1 s → slice_elems st'.1 s = slice_elems st.1 s).
Proof.
  intros [Hsub Hr]%newProbe_kind. split_and!; [| |intros s Hs; by eapply slice_ok_mono].
  - destruct r as [p|]; [|done]. destruct Hr as [(_ & a & _ & [Hk _]) _]. split; [done|]. by rewrite <-Hk.
  - intros p ->. destruct Hr as [(Hn & a & Ha & [Hk Hb]) He]. split_and!; [done|by rewrite Ha|].
    intros a' Ha'. split; [|by apply He]. by simplify_eq.
Qed.

Lemma newExpectSteps_invalid cfgs :
  Forall (λ cfg, newExpectStep cfg = Returned None) cfgs → newExpectSteps cfgs = Returned [].
Proof. induction 1 as [|cfg cfgs Hc _ IH]; simpl; [done|]. by rewrite Hc, IH. Qed.

#[local] Arguments PostMeasurable : simpl never.
#[local] Arguments fmap : simpl never.

(** invalid steps are dropped.  A TCP probe all of whose expect steps are
    invalid (a bad delimiter, a bad expression, or both a send and a receive
    in one step) is still built, and then counts a success whenever the
    connection can be opened, whatever the server does. *)
Theorem tcp_invalid_steps_succeed tr c timeout name m Dial SetDeadline now0 now1 now2 now3 t conn :
  Forall (λ cfg, newExpectStep cfg = Returned None) (default [] (tcp_Expect c)) →
  (∀ d target, Dial d target = inr conn) →
  ∃ a t', newTCPSocketAction (Some c) timeout = Returned (Some a) ∧
    TCPSocketAction_act (C := C) (Some tr) a name m Dial SetDeadline now0 now1 now2 now3 t
      = (Returned tt, t') ∧
    calls t' = calls t ++ run_calls "tcp-socket-probe" name m [] true now1 now3
      (ok_status true "") [ConnClose].
Proof.
  intros Hbad Hdial. unfold newTCPSocketAction. rewrite (newExpectSteps_invalid _ Hbad).
  set (t1 := add_calls (attempt_calls m) (add_calls
    [SpanStart "tcp-socket-probe"; SpanSetAttribute "bunny-probe-name" name] t)).
  eexists _, (add_calls [SpanEnd; ContextCancel] (add_calls [ConnClose]
    (add_calls (ok_status true "") (after_success m now1 now3 t1)))).
  split; [done|]. split.
  - unfold TCPSocketAction_act. apply with_span_run. unfold mbind, go_bind.
    rewrite PreMeasurable_run, Hdial. fold t1. unfold deferred, expect.
    simpl. by rewrite PostMeasurable_run.
  - cbn [add_calls calls]. rewrite calls_after_success. subst t1. simpl.
    unfold run_calls. by rewrite <-!app_assoc.
Qed.

End build_theorems.

(** ** Witnesses *)

Definition toy_http : HTTPGetAction :=
  mkHTTPGetAction ∅ "http://localhost:80/" (mkClient 1000 true true true newDialer) 1000.

Lemma HTTPGetAction_act_reports_witness :
  ∃ msg t', @HTTPGetAction_act toy_libs (Some "bunny/egress") toy_http "p" measure_ars
      (λ _, None) (λ _ _ _ _, (None, Some 503)) 5 10 20 toy_telem = (Returned tt, t') ∧
    calls t' = run_calls "http-probe" "p" measure_ars [] false 10 20 (ok_status false msg) [].
Proof.
  destruct (@HTTPGetAction_act_reports toy_libs "bunny/egress" toy_http "p" measure_ars
    (λ _, None) (λ _ _ _ _, (None, Some 503)) 5 10 20 toy_telem None (Some 503))
    as (msg & t' & Hact & Hcalls); [reflexivity|reflexivity|by eexists|].
  exists msg, t'. split; [exact Hact|exact Hcalls].
Defined.

(** A server that greets; the probe expects the greeting. *)
Definition greeting_conn : script_conn := mkScript [] [("h"%char, "i"%char :: [newline])].
Definition toy_tcp : @TCPSocketAction simple_regexp :=
  @mkTCPSocketAction simple_regexp "localhost" 7
    [@ReceiveStep simple_regexp ("h", [(Literal "h", false)]) newline] 1000.

Lemma TCPSocketAction_act_reports_witness :
  ∃ t', @TCPSocketAction_act toy_libs simple_regexp script_conn _ (Some "bunny/egress") toy_tcp
      "p" measure_ars (λ _ _, inr greeting_conn) (λ _ c, c) 0 1 2 3 toy_telem
      = (Returned tt, t') ∧
    ∃ ok n, calls t' = @run_calls "tcp-socket-probe" "p" measure_ars
      (@step_event simple_regexp <$> take n (tcpaction_expectSteps toy_tcp)) ok 1 3
      (ok_status ok "probe failed - expect steps failed") [ConnClose].
Proof.
  destruct (@TCPSocketAction_act_reports toy_libs simple_regexp script_conn _ "bunny/egress"
    toy_tcp "p" measure_ars (λ _ _, inr greeting_conn) (λ _ c, c) 0 1 2 3 toy_telem)
    as (t' & Hact & ok & n & _ & Hcalls & _); [discriminate|].
  exists t'. split; [exact Hact|]. exists ok.1, n. exact Hcalls.
Defined.

(** Three variables: the runtime has grown the slice to capacity four. *)
Definition three_env : ExecActionConfig :=
  mkExecActionConfig ["/bin/true"; "-x"]
    [mkEnvConfig "A" "1"; mkEnvConfig "B" "2"; mkEnvConfig "C" "3"].
Definition three_heap : heap string := {[ 0%nat := ["A=1"; "B=2"; "C=3"; ""] ]}.
Definition three_action : ExecAction := mkExecAction ["/bin/true"; "-x"] (Slice 0 3 4) 1000.

Lemma three_action_built :
  ∃ h, newExecAction grow_double (Some three_env) 1000 ∅ =
    (Returned (Some (mkExecAction ["/bin/true"; "-x"] (Slice 3 3 4) 1000)), h).
Proof. eexists. reflexivity. Qed.

Lemma three_ok : slice_ok three_heap (exec_env three_action).
Proof. eexists. split; [reflexivity|]. split; [reflexivity|]. simpl. lia. Qed.

Lemma ExecAction_act_reports_witness :
  ∃ h' t', @ExecAction_act toy_libs grow_double (Some "bunny/egress") three_action "p" "id1"
      measure_ars (λ _ _ _ env, if decide (last env = Some "OTEL_CLI_FORCE_TRACE_ID=id1")
                              then None else Some (errorString "exit status 1"))
      5 10 20 (three_heap, toy_telem) = (Returned tt, (h', t')) ∧
    calls t' = run_calls "exec-probe" "p" measure_ars [] true 10 20 (ok_status true "") [].
Proof.
  destruct (@ExecAction_act_reports toy_libs grow_double "bunny/egress" three_action "p" "id1"
    measure_ars (λ _ _ _ env, if decide (last env = Some "OTEL_CLI_FORCE_TRACE_ID=id1")
                            then None else Some (errorString "exit status 1"))
    5 10 20 three_heap toy_telem "/bin/true" ["-x"] three_ok eq_refl)
    as (h' & t' & Hact & Hcalls & _).
  exists h', t'. split; [exact Hact|]. exact Hcalls.
Defined.

Lemma exec_overlap_env_witness :
  let '(_, h1) := exec_prepare grow_double three_action "id1" three_heap in
  let '(_, h2) := exec_prepare grow_double three_action "id2" h1 in
  slice_elems h2 (Slice 0 4 4) = ["A=1"; "B=2"; "C=3"; "OTEL_CLI_FORCE_TRACE_ID=id2"].
Proof.
  destruct (exec_overlap_env grow_double three_action "id1" "id2" three_heap (Slice 0 4 4) _
    (Slice 0 4 4) _ three_ok eq_refl eq_refl) as [_ H]. exact H.
Defined.

Lemma exec_empty_command_panics_witness :
  ∃ h', @ExecAction_act toy_libs grow_double (Some "bunny/egress")
      (mkExecAction [] (Slice 0 3 4) 1000) "p" "id1" measure_ars (λ _ _ _ _, None) 5 10 20
      (three_heap, toy_telem)
    = (Panicked IndexOutOfRange, (h', @add_calls toy_libs
        [SpanStart "exec-probe"; SpanSetAttribute "bunny-probe-name" "p";
         SpanEnd; ContextCancel] toy_telem)).
Proof. apply exec_empty_command_panics. reflexivity. Defined.

(** A probe with an HTTP section of an unknown scheme and a TCP section. *)
Definition disabled : MetricsConfig := mkMetricsConfig false "" [].
Definition ftp_then_tcp : EgressProbeConfig :=
  mkEgressProbeConfig "p" (mkEgressProbeMetricsConfig disabled disabled disabled) None None
    (Some (mkHTTPGetActionConfig None [] 80 "" (Some "FTP")))
    (Some (mkTCPSocketActionConfig 7 None None)).

Lemma newProbe_action_witness :
  let p := @mkProbe simple_regexp "p" None None None
    (Some (ActTCPSocket (@mkTCPSocketAction simple_regexp "localhost" 7 [] 1000))) in
  @newProbe toy_libs simple_regexp grow_double None ftp_then_tcp 1000 (∅, toy_telem)
    = (Returned (Some p), (∅, toy_telem)) ∧
  action_kind <$> ProbeAction_ p = Some (WantTCPSocket "localhost" 7 []).
Proof.
  intros p. split; [reflexivity|].
  destruct (@newProbe_action toy_libs simple_regexp grow_double None ftp_then_tcp
    1000 (∅, toy_telem) (Some p) (∅, toy_telem) eq_refl) as (_ & Hp & _).
  exact (proj1 (proj2 (Hp p eq_refl))).
Defined.

(** A delimiter of two bytes is not valid. *)
Definition bad_delimiter : ExpectConfig :=
  mkExpectConfig (Some (mkSendStepConfig "hello" "\n")) None.

Lemma tcp_invalid_steps_succeed_witness :
  ∃ a t', @newTCPSocketAction simple_regexp
      (Some (mkTCPSocketActionConfig 7 None (Some [bad_delimiter]))) 1000 = Returned (Some a) ∧
    @TCPSocketAction_act toy_libs simple_regexp script_conn _ (Some "bunny/egress") a "p"
      measure_ars (λ _ _, inr greeting_conn) (λ _ c, c) 0 1 2 3 toy_telem = (Returned tt, t') ∧
    calls t' = run_calls "tcp-socket-probe" "p" measure_ars [] true 1 3 (ok_status true "")
      [ConnClose].
Proof.
  destruct (@tcp_invalid_steps_succeed toy_libs simple_regexp script_conn _ "bunny/egress"
    (mkTCPSocketActionConfig 7 None (Some [bad_delimiter])) 1000 "p" measure_ars
    (λ _ _, inr greeting_conn) (λ _ c, c) 0 1 2 3 toy_telem greeting_conn)
    as (a & t' & Ha & Hact & Hcalls).
  - repeat constructor.
  - intros target d. reflexivity.
  - exists a, t'. split; [exact Ha|]. split; [exact Hact|exact Hcalls].
Defined.
