(* ===== verification/Egress.v ===== *)
(** * egress/egress.go: the goroutine that runs the probes

    The package's variables, [updateConfig] with what it does before and after
    its wait for telemetry, [performProbes] and one turn of [GoEgress]'s loop.
    Each [act] starts a goroutine of its own (modelled in [Probes]), so what a
    tick does is to start runs: the list [started]. *)

From S2P Require Import Prelude GoStd Config Metrics Expect Probes.
From Stdlib Require Import String.

Local Open Scope Z_scope.

(** ** [time.Ticker] *)

Inductive Ticker :=
| TickerNil
| TickerStopped
| TickerRunning (period : Z).

Section egress.
Context `{MetricLibs} `{Regexp} {C : Type} `{Conn C} (grow : nat → nat).

(** The package's variables.  A run that was started carries the arguments
    of [act]. *)
Record Run := mkRun { run_action : ProbeAction; run_name : string; run_measure : measure }.

Record EgressState := mkEgress {
  ticker : Ticker;
  initialDelayTime : Z;
  egressConfig : option EgressConfig;
  probes : list Probe;
  meter : option string;
  tracer : option string;
  started : list Run }.

Definition set_ticker (k : Ticker) (s : EgressState) : EgressState :=
  mkEgress k (initialDelayTime s) (egressConfig s) (probes s) (meter s) (tracer s)
    (started s).
Definition set_delay (d : Z) (s : EgressState) : EgressState :=
  mkEgress (ticker s) d (egressConfig s) (probes s) (meter s) (tracer s)
    (started s).
Definition set_egressConfig (c : EgressConfig) (s : EgressState) : EgressState :=
  mkEgress (ticker s) (initialDelayTime s) (Some c) (probes s) (meter s) (tracer s)
    (started s).
Definition set_probes (ps : list Probe) (s : EgressState) : EgressState :=
  mkEgress (ticker s) (initialDelayTime s) (egressConfig s) ps (meter s) (tracer s)
    (started s).
Definition set_providers (name : string) (s : EgressState) : EgressState :=
  mkEgress (ticker s) (initialDelayTime s) (egressConfig s) (probes s) (Some name) (Some name)
    (started s).
Definition add_run (r : Run) (s : EgressState) : EgressState :=
  mkEgress (ticker s) (initialDelayTime s) (egressConfig s) (probes s) (meter s) (tracer s)
    (started s ++ [r]).

(** Egress together with the state its calls change: the heap of the string
    slices and telemetry. *)
Abbreviation World := (EgressState * (heap string * Telem))%type.

(** [ticker.Reset(d)] panics for a nil ticker and for a period that is not
    positive. *)
Definition ticker_Reset (d : Z) : go EgressState unit :=
  k ← gets ticker;
  match k with
  | TickerNil => throw NilDereference
  | _ => if d <=? 0 then throw NonPositiveTicker else modify (set_ticker (TickerRunning d))
  end.

Definition ticker_Stop : go EgressState unit :=
  k ← gets ticker;
  match k with
  | TickerNil => throw NilDereference
  | _ => modify (set_ticker TickerStopped)
  end.

(** The variables before [GoEgress] runs, at the time the program starts, and
    what it does before its loop. *)
Definition init_egress (now : Z) : EgressState :=
  mkEgress TickerNil now None [] None None [].
Definition GoEgress_start : go EgressState unit :=
  modify (set_ticker (TickerRunning Hour)) ;; ticker_Stop.

(** The body of the loop over the probe configurations: [*newProbe] is a nil
    dereference when there is no action. *)
Definition add_probe (timeout : Z) (egressProbeConfig : EgressProbeConfig) : go World unit :=
  m ← on_fst (gets meter);
  p ← on_snd (newProbe grow m egressProbeConfig timeout);
  probe ← deref p;
  on_fst (modify (λ s, set_probes (probes s ++ [probe]) s)).

(** [updateConfig] up to the wait for telemetry: the new configuration is the
    package's from here on. *)
Definition updateConfig_receive (bunnyConfig : BunnyConfig) : go World unit :=
  on_fst (modify (set_egressConfig (cfg_Egress bunnyConfig))).

(** What follows [<-ConfigStageChannel]; [stage] is what it delivers: nothing
    if the channel is closed. *)
Definition updateConfig_continue (stage : option ConfigStage) (now : Z) : go World unit :=
  match stage with
  | None => mret tt
  | Some configStage =>
      if decide (configStage ≠ ConfigStageTelemetryCompleted) then mret tt
      else
        on_fst (modify (set_providers "bunny/egress")) ;;
        on_snd (on_snd (emit (SetTextMapPropagator ["tracecontext"]))) ;;
        on_fst (modify (set_probes [])) ;;
        p ← on_fst (gets egressConfig);
        c ← deref p;
        let timeout := duration_ms (TimeoutMilliseconds c) in
        range_loop (add_probe timeout) (egress_Probes c) ;;
        on_fst (modify (set_delay (time_Add now (duration_ms (InitialDelayMilliseconds c))))) ;;
        if 0 <? PeriodMilliseconds c
        then on_fst (ticker_Reset (duration_ms (PeriodMilliseconds c)))
        else on_fst ticker_Stop
  end.

Definition updateConfig (bunnyConfig : BunnyConfig) (stage : option ConfigStage) (now : Z)
  : go World unit :=
  updateConfig_receive bunnyConfig ;;
  updateConfig_continue stage now.

Definition performProbes : go EgressState unit :=
  ps ← gets probes;
  range_loop (λ probe,
    match ProbeAction_ probe with
    | Some probeAction =>
        modify (add_run (mkRun probeAction (Name probe) (probe_measure probe)))
    | None => mret tt
    end) ps.

(** A run that was started, in its own goroutine. *)
Definition Run_act (env : RunEnv (C := C)) (tracer : option string) (r : Run)
  : go (heap string * Telem) unit :=
  ProbeAction_act grow env tracer (run_action r) (run_name r) (run_measure r).

(** What wakes the [select]; a tick comes with the time [time.Now()] gives. *)
Inductive egress_wakeup :=
| Tick (now : Z)
| EgressConfigUpdate (received : option (BunnyConfig * option ConfigStage)) (now : Z)
| EgressSignal (ok : bool).

(** One turn of the loop; [true] when the goroutine returns. *)
Definition GoEgress_step (w : egress_wakeup) : go World bool :=
  match w with
  | Tick now =>
      delay ← on_fst (gets initialDelayTime);
      (if time_Before delay now then on_fst performProbes else mret tt) ;;
      mret false
  | EgressConfigUpdate None _ => mret false
  | EgressConfigUpdate (Some (cfg, stage)) now => updateConfig cfg stage now ;; mret false
  | EgressSignal _ => mret true
  end.

(** The goroutine on a sequence of wake-ups, until it returns. *)
Fixpoint GoEgress_run (ws : list egress_wakeup) : go World bool :=
  match ws with
  | [] => mret false
  | w :: ws' => finished ← GoEgress_step w; if finished : bool then mret true else GoEgress_run ws'
  end.

(** The runs a tick starts. *)
Definition runs_of (ps : list Probe) : list Run :=
  omap (λ p, (λ a, mkRun a (Name p) (probe_measure p)) <$> ProbeAction_ p) ps.

(** ** Lemmas *)

Lemma performProbes_loop ps s :
  range_loop (λ probe,
    match ProbeAction_ probe with
    | Some probeAction =>
        modify (add_run (mkRun probeAction (Name probe) (probe_measure probe)))
    | None => mret tt
    end) ps s =
  (Returned tt, mkEgress (ticker s) (initialDelayTime s) (egressConfig s) (probes s) (meter s)
     (tracer s) (started s ++ runs_of ps)).
Proof.
  revert s; induction ps as [|p ps IH]; intros s; simpl.
  { rewrite app_nil_r. by destruct s. }
  unfold mbind, go_bind. destruct (ProbeAction_ p) as [a|]; simpl; rewrite IH; simpl.
  - by rewrite <-app_assoc.
  - done.
Qed.

Lemma performProbes_spec s :
  performProbes s =
  (Returned tt, mkEgress (ticker s) (initialDelayTime s) (egressConfig s) (probes s) (meter s)
     (tracer s) (started s ++ runs_of (probes s))).
Proof. apply performProbes_loop. Qed.

Lemma add_probe_Returned timeout cfg s ht s' ht' :
  add_probe timeout cfg (s, ht) = (Returned tt, (s', ht')) →
  ∃ p, probe_for timeout cfg p ∧ probe_env ht'.1 cfg p ∧ ht.1 ⊆ ht'.1 ∧
    s' = set_probes (probes s ++ [p]) s.
Proof.
  unfold add_probe, on_fst, on_snd, gets, modify. unfold mbind, go_bind. cbn [fst snd].
  destruct (newProbe _ _ _ _ _) as [[r|] ht1] eqn:E; [|done]. apply newProbe_kind in E as [Hsub Hr].
  destruct r as [p|]; [|done]. cbn. intros [= <- <-]. destruct Hr. by exists p.
Qed.

Lemma add_probes_Returned timeout cfgs s ht s' ht' :
  range_loop (add_probe timeout) cfgs (s, ht) = (Returned tt, (s', ht')) →
  ∃ ps, Forall2 (probe_for timeout) cfgs ps ∧ Forall2 (probe_env ht'.1) cfgs ps ∧ ht.1 ⊆ ht'.1 ∧
    s' = set_probes (probes s ++ ps) s.
Proof.
  revert s ht; induction cfgs as [|cfg cfgs IH]; intros s ht; simpl.
  { intros [= <- <-]. exists []. rewrite app_nil_r. by destruct s. }
  unfold mbind, go_bind. destruct (add_probe timeout cfg (s, ht)) as [[[]|] [s1 ht1]] eqn:E; [|done].
  apply add_probe_Returned in E as (p & Hp & He & Hsub & ->). intros (ps & Hps & Hes & Hsub' & ->)%IH.
  exists (p :: ps). split_and!; [by constructor| |by etrans|cbn; by rewrite <-app_assoc].
  constructor; [by eapply probe_env_mono|done].
Qed.

(** The state a complete update leaves, but for the ticker. *)
Definition updated (c : EgressConfig) (ps : list Probe) (now : Z) (k : Ticker)
    (s : EgressState) : EgressState :=
  mkEgress k (time_Add now (duration_ms (InitialDelayMilliseconds c))) (Some c) ps
    (Some "bunny/egress") (Some "bunny/egress") (started s).

(** What the end of [updateConfig] does to the ticker. *)
Definition reset_ticker (c : EgressConfig) (k : Ticker) : outcome Ticker :=
  match k with
  | TickerNil => Panicked NilDereference
  | _ =>
      if PeriodMilliseconds c <=? 0 then Returned TickerStopped
      else if duration_ms (PeriodMilliseconds c) <=? 0 then Panicked NonPositiveTicker
      else Returned (TickerRunning (duration_ms (PeriodMilliseconds c)))
  end.

Lemma updateConfig_completed bc now s h t :
  let c := cfg_Egress bc in
  let ht1 := (h, record_call (SetTextMapPropagator ["tracecontext"]) t) in
  let s1 := set_probes [] (set_providers "bunny/egress" (set_egressConfig c s)) in
  updateConfig bc (Some ConfigStageTelemetryCompleted) now (s, (h, t)) =
  match range_loop (add_probe (duration_ms (TimeoutMilliseconds c))) (egress_Probes c) (s1, ht1) with
  | (Panicked p, st) => (Panicked p, st)
  | (Returned _, (s2, ht2)) =>
      let s3 := set_delay (time_Add now (duration_ms (InitialDelayMilliseconds c))) s2 in
      match reset_ticker c (ticker s2) with
      | Returned k => (Returned tt, (set_ticker k s3, ht2))
      | Panicked p => (Panicked p, (s3, ht2))
      end
  end.
Proof.
  intros c ht1 s1. unfold updateConfig, updateConfig_receive, updateConfig_continue. fold c.
  rewrite decide_False by naive_solver. unfold deref, gets, on_fst, on_snd, emit, modify. unfold mbind, go_bind. cbn -[range_loop]. fold s1 ht1.
  destruct (range_loop _ _ _) as [[[]|] [s2 ht2]]; [|done]. cbn.
  unfold reset_ticker, ticker_Reset, ticker_Stop, gets, modify, throw, mbind, go_bind. cbn.
  destruct (Z.ltb_spec 0 (PeriodMilliseconds c)) as [Hp|Hp],
    (Z.leb_spec (PeriodMilliseconds c) 0) as [Hq|Hq]; try lia; cbn.
  all: destruct (ticker s2); try done; by destruct (_ <=? 0).
Qed.

(** Once its configuration is in place, the rest of an update is the update. *)
Lemma updateConfig_continues bc stage now s ht :
  egressConfig s = Some (cfg_Egress bc) →
  updateConfig_continue stage now (s, ht) = updateConfig bc stage now (s, ht).
Proof.
  intros Hc. unfold updateConfig, updateConfig_receive, on_fst, modify, mbind, go_bind. cbn [fst snd].
  destruct s; cbn in Hc; by subst.
Qed.

(** The ticker a configuration asks for. *)
Definition configured_ticker (c : EgressConfig) : Ticker :=
  if 0 <? PeriodMilliseconds c then TickerRunning (duration_ms (PeriodMilliseconds c))
  else TickerStopped.

(** Egress works by the configuration [c]. *)
Definition egress_built (c : EgressConfig) (s : EgressState) : Prop :=
  Forall2 (probe_for (duration_ms (TimeoutMilliseconds c))) (egress_Probes c) (probes s) ∧
  ticker s = configured_ticker c.

Lemma updateConfig_Returned bc now s ht s' ht' :
  updateConfig bc (Some ConfigStageTelemetryCompleted) now (s, ht) = (Returned tt, (s', ht')) →
  let c := cfg_Egress bc in
  ∃ ps, Forall2 (probe_for (duration_ms (TimeoutMilliseconds c))) (egress_Probes c) ps ∧
    Forall2 (probe_env ht'.1) (egress_Probes c) ps ∧
    s' = updated c ps now (configured_ticker c) s ∧
    (0 < PeriodMilliseconds c → 0 < duration_ms (PeriodMilliseconds c)).
Proof.
  destruct ht as [h t]. intros Hu c. rewrite updateConfig_completed in Hu. fold c in Hu.
  destruct (range_loop _ _ _) as [[[]|] [s2 ht2]] eqn:E; [|done].
  apply add_probes_Returned in E as (ps & Hps & Hes & _ & ->).
  exists ps. split; [done|]. revert Hu. unfold reset_ticker, configured_ticker. cbn.
  destruct (Z.leb_spec (PeriodMilliseconds c) 0), (Z.ltb_spec 0 (PeriodMilliseconds c)); try lia.
  all: destruct (Z.leb_spec (duration_ms (PeriodMilliseconds c)) 0); destruct (ticker s); try done.
  all: intros [= <- <-]; split; [done|split; [done|lia]].
Qed.

(** C7: a configuration update installs what was configured.  When it completes,
    the probes are, in the order of the configuration, one per configured probe
    with its name, its action, its timeout and, for an exec action, its
    environment; the previous ones are gone; the meter and the tracer are set;
    the initial delay counts from now; and the ticker runs with the configured
    period, or is stopped for a period that is not positive. *)
Theorem updateConfig_installs bc now s ht s' ht' :
  updateConfig bc (Some ConfigStageTelemetryCompleted) now (s, ht) = (Returned tt, (s', ht')) →
  let c := cfg_Egress bc in
  ∃ ps, Forall2 (probe_for (duration_ms (TimeoutMilliseconds c))) (egress_Probes c) ps ∧
    Forall2 (probe_env ht'.1) (egress_Probes c) ps ∧
    s' = updated c ps now (if 0 <? PeriodMilliseconds c
                           then TickerRunning (duration_ms (PeriodMilliseconds c))
                           else TickerStopped) s ∧
    (0 < PeriodMilliseconds c → 0 < duration_ms (PeriodMilliseconds c)).
Proof. apply updateConfig_Returned. Qed.

(** What an update needs of the configured probes: an action, steps that send
    or receive, and metrics the registry takes. *)
Definition probe_fine (schema : metric_schema) (cfg : EgressProbeConfig) : Prop :=
  tcp_steps_set cfg ∧ is_Some (wanted_action cfg) ∧ probe_metrics_fit schema cfg.

Lemma add_probes_total `{!RegistryLaws} schema timeout cfgs s h t :
  is_Some (meter s) → has_registry schema t →
  Forall (probe_fine schema) cfgs →
  ∃ s' h' t', range_loop (add_probe timeout) cfgs (s, (h, t)) = (Returned tt, (s', (h', t'))) ∧
    ticker s' = ticker s ∧ has_registry schema t'.
Proof.
  intros [mt Hm] Hr Hcfgs; revert s Hm h t Hr.
  induction Hcfgs as [|cfg cfgs (Hsteps & Hact & Hfit) _ IH]; intros s Hm h t Hr; simpl.
  { by eexists _, _, _. }
  unfold add_probe, on_fst, on_snd, gets, modify, mbind, go_bind. cbn [fst snd]. rewrite Hm.
  destruct (newProbe_total grow schema mt cfg timeout h t Hr Hfit Hsteps) as (r & h' & t' & E & Hr').
  rewrite E. apply newProbe_kind in E as [_ Hp].
  destruct r as [p|]; [|rewrite Hp in Hact; by destruct Hact]. cbn.
  eapply (IH (set_probes (probes s ++ [p]) s)); [exact Hm|exact Hr'].
Qed.

Lemma reset_ticker_ok c k :
  k ≠ TickerNil → PeriodMilliseconds c ≤ max_ms →
  ∃ k', reset_ticker c k = Returned k' ∧ k' ≠ TickerNil.
Proof.
  intros Hk Hp. pose proof (duration_ms_pos (PeriodMilliseconds c)). unfold reset_ticker.
  destruct (Z.leb_spec (PeriodMilliseconds c) 0); [destruct k; by eauto|].
  destruct (Z.leb_spec (duration_ms (PeriodMilliseconds c)) 0); [lia|]. destruct k; by eauto.
Qed.

Lemma updateConfig_total `{!RegistryLaws} schema bc now s h t :
  has_registry schema t → ticker s ≠ TickerNil →
  Forall (probe_fine schema) (egress_Probes (cfg_Egress bc)) →
  PeriodMilliseconds (cfg_Egress bc) ≤ max_ms →
  ∃ s' h' t', updateConfig bc (Some ConfigStageTelemetryCompleted) now (s, (h, t)) =
    (Returned tt, (s', (h', t'))) ∧ has_registry schema t' ∧ ticker s' ≠ TickerNil.
Proof.
  intros Hr Ht Hcfgs Hp. rewrite updateConfig_completed.
  destruct (add_probes_total schema (duration_ms (TimeoutMilliseconds (cfg_Egress bc))) _
    (set_probes [] (set_providers "bunny/egress" (set_egressConfig (cfg_Egress bc) s))) h
    (record_call (SetTextMapPropagator ["tracecontext"]) t) (mk_is_Some _ _ eq_refl) Hr Hcfgs)
    as (s2 & h2 & t2 & E & Hk & Hr2).
  rewrite E. rewrite Hk. cbn [ticker set_probes set_providers set_egressConfig].
  destruct (reset_ticker_ok (cfg_Egress bc) (ticker s) Ht Hp) as (k & -> & Hne).
  by eexists _, h2, t2.
Qed.

(** C29: a configuration update completes for every sane configuration: each
    probe has a usable action, each TCP step sends or receives, the metrics'
    names and labels are valid and agree with one another and with those the
    registry holds, and the period is at most 9223372036854 ms, the largest a
    duration holds. *)
Theorem updateConfig_completes `{!RegistryLaws} schema bc now s h t :
  has_registry schema t → ticker s ≠ TickerNil →
  Forall (probe_fine schema) (egress_Probes (cfg_Egress bc)) →
  PeriodMilliseconds (cfg_Egress bc) ≤ max_ms →
  (updateConfig bc (Some ConfigStageTelemetryCompleted) now (s, (h, t))).1 = Returned tt.
Proof.
  intros Hr Ht Hcfgs Hp.
  by destruct (updateConfig_total schema bc now s h t Hr Ht Hcfgs Hp) as (s' & h' & t' & -> & _).
Qed.

(** The propagator in force: the last one set. *)
Definition propagator (cs : list call) : option (list string) :=
  last (omap (λ c, match c with SetTextMapPropagator ps => Some ps | _ => None end) cs).

(** egress undoes the propagation of baggage.  Telemetry installs a
    propagator of trace context and baggage, "to make sure that traces are
    propagated with baggage"; every complete update of egress, which waits
    for telemetry, then replaces it by one of trace context alone. *)
Theorem egress_drops_baggage bc now s h t s' h' t' :
  updateConfig bc (Some ConfigStageTelemetryCompleted) now (s, (h, t))
    = (Returned tt, (s', (h', t'))) →
  propagator (calls t') = Some ["tracecontext"].
Proof.
  rewrite updateConfig_completed. set (t1 := record_call _ t). set (s1 := set_probes [] _).
  intros Hu. assert (calls t' = calls t1) as ->.
  { pose proof (range_loop_inv (λ st : EgressState * (heap string * Telem), calls st.2.2 = calls t1)
      (add_probe (duration_ms (TimeoutMilliseconds (cfg_Egress bc))))
      (egress_Probes (cfg_Egress bc)) (s1, (h, t1))) as Hl.
    destruct (range_loop _ _ (s1, (h, t1))) as [[[]|] [s2 [h2 t2]]]; [|done].
    destruct (reset_ticker _ _); [|done]. injection Hu as <- <- <-. apply Hl; [|done].
    intros cfg [s3 ht3] _ Hc. pose proof (newProbe_calls grow (meter s3) cfg
      (duration_ms (TimeoutMilliseconds (cfg_Egress bc))) ht3) as Hn.
    unfold add_probe, on_fst, on_snd, gets, modify, mbind, go_bind. cbn [fst snd] in *.
    destruct (newProbe _ _ _ _ _) as [[[p|]|] ht4]; cbn in *; congruence. }
  unfold propagator. subst t1. cbn. rewrite omap_app. cbn. apply last_snoc.
Qed.

(** a probe without a usable action (no action at all, or only an HTTP
    one with an unknown scheme) crashes the program: [newProbe] returns nil
    and the update dereferences it. *)
Theorem updateConfig_no_action_panics bc now s ht :
  Exists (λ cfg, wanted_action cfg = None) (egress_Probes (cfg_Egress bc)) →
  is_panic (updateConfig bc (Some ConfigStageTelemetryCompleted) now (s, ht)).1 = true.
Proof.
  destruct ht as [h t]. intros Hex. rewrite updateConfig_completed.
  destruct (range_loop _ _ _) as [[[]|] [s2 ht2]] eqn:E; [|done].
  apply add_probes_Returned in E as (ps & Hps & _). exfalso.
  induction Hps as [|cfg p cfgs ps (_ & a & _ & [Hk _]) _ IH]; inversion Hex as [? ? Hn|]; subst.
  - by rewrite Hn in Hk.
  - by apply IH.
Qed.

(** a period of more than 9223372036854 ms (and less than twice that)
    overflows the duration to a negative number, on which resetting the
    ticker panics; a probe list that is fine does not help. *)
Theorem updateConfig_long_period_panics `{!RegistryLaws} schema bc now s h t :
  has_registry schema t → ticker s ≠ TickerNil →
  Forall (probe_fine schema) (egress_Probes (cfg_Egress bc)) →
  max_ms < PeriodMilliseconds (cfg_Egress bc) < 2 * max_ms →
  (updateConfig bc (Some ConfigStageTelemetryCompleted) now (s, (h, t))).1
  = Panicked NonPositiveTicker.
Proof.
  intros Hr Ht Hcfgs Hp. rewrite updateConfig_completed.
  destruct (add_probes_total schema (duration_ms (TimeoutMilliseconds (cfg_Egress bc))) _
    (set_probes [] (set_providers "bunny/egress" (set_egressConfig (cfg_Egress bc) s))) h
    (record_call (SetTextMapPropagator ["tracecontext"]) t) (mk_is_Some _ _ eq_refl) Hr Hcfgs) as (s2 & h2 & t2 & E & Hk & _).
  rewrite E, Hk. unfold reset_ticker. cbn [ticker set_probes set_providers set_egressConfig].
  pose proof (duration_ms_overflow (PeriodMilliseconds (cfg_Egress bc)) Hp).
  destruct (Z.leb_spec (PeriodMilliseconds (cfg_Egress bc)) 0); [unfold max_ms in *; lia|].
  destruct (Z.leb_spec (duration_ms (PeriodMilliseconds (cfg_Egress bc))) 0); [|lia].
  by destruct (ticker s).
Qed.

(** A tick starts every probe once the delay has passed. *)
Lemma GoEgress_tick_contract now s ht :
  GoEgress_step (Tick now) (s, ht) =
  (Returned false,
   (mkEgress (ticker s) (initialDelayTime s) (egressConfig s) (probes s) (meter s) (tracer s)
      (started s ++ (if time_Before (initialDelayTime s) now then runs_of (probes s) else [])), ht)).
Proof.
  unfold GoEgress_step, on_fst, gets, mbind, go_bind. cbn [fst snd].
  destruct (time_Before _ _); [by rewrite performProbes_spec|].
  rewrite app_nil_r. by destruct s.
Qed.

(** The turn that takes a configuration is the update. *)
Lemma GoEgress_step_update bc stage now st :
  GoEgress_step (EgressConfigUpdate (Some (bc, stage)) now) st =
  (match (updateConfig bc stage now st).1 with Returned _ => Returned false | Panicked p => Panicked p end,
   (updateConfig bc stage now st).2).
Proof. unfold GoEgress_step, mbind, go_bind. by destruct (updateConfig bc stage now st) as [[]]. Qed.

(** A complete update makes egress work by its configuration, or panics. *)
Lemma GoEgress_update_contract bc now st :
  let r := GoEgress_step (EgressConfigUpdate (Some (bc, Some ConfigStageTelemetryCompleted)) now) st in
  r.1 = Returned false ∧ egressConfig r.2.1 = Some (cfg_Egress bc) ∧ egress_built (cfg_Egress bc) r.2.1 ∨
  is_panic r.1 = true.
Proof.
  destruct st as [s ht]. unfold GoEgress_step, mbind, go_bind.
  destruct (updateConfig bc _ now (s, ht)) as [[[]|] [s' ht']] eqn:E; [left|by right].
  by apply updateConfig_Returned in E as (ps & Hps & _ & -> & _).
Qed.

(** ticks.  A tick that arrives before the initial delay has passed starts
    nothing; every later one starts each probe once, in the order of the
    configuration; no tick changes anything else. *)
Theorem GoEgress_ticks nows s ht :
  GoEgress_run (Tick <$> nows) (s, ht) =
  (Returned false,
   (mkEgress (ticker s) (initialDelayTime s) (egressConfig s) (probes s) (meter s) (tracer s)
      (started s ++ (nows ≫= λ now, if time_Before (initialDelayTime s) now
                                    then runs_of (probes s) else [])), ht)).
Proof.
  revert s; induction nows as [|now nows IH]; intros s.
  { cbn. rewrite app_nil_r. by destruct s. }
  cbn [fmap list_fmap GoEgress_run]. unfold mbind, go_bind. rewrite GoEgress_tick_contract, IH. cbn.
  by rewrite <-app_assoc.
Qed.

(** What every probe run relies on: once there are probes or started runs, the
    tracer it dereferences is set; every probe has an action; a running ticker
    has a positive period. *)
Definition egress_inv (s : EgressState) : Prop :=
  (probes s ≠ [] ∨ started s ≠ [] → is_Some (tracer s) ∧ is_Some (meter s)) ∧
  Forall (λ p, is_Some (ProbeAction_ p)) (probes s) ∧
  match ticker s with TickerRunning d => 0 < d | _ => True end.

Lemma add_probe_inv timeout cfg st :
  egress_inv st.1 → is_Some (tracer st.1) → is_Some (meter st.1) →
  let st' := (add_probe timeout cfg st).2 in
  egress_inv st'.1 ∧ is_Some (tracer st'.1) ∧ is_Some (meter st'.1).
Proof.
  destruct st as [s ht]. intros (I1 & I2 & I3) Ht Hm st'.
  destruct (add_probe timeout cfg (s, ht)) as [r [s' ht']] eqn:E. subst st'. simpl in *.
  destruct r as [[]|p].
  - apply add_probe_Returned in E as (p & (_ & a & Ha & _) & _ & _ & ->). split_and!; try done.
    split_and!; cbn; [done|apply Forall_app; split; [done|]; constructor; [by exists a|done]|done].
  - revert E. unfold add_probe, on_fst, on_snd, gets, modify, mbind, go_bind. cbn [fst snd].
    destruct (newProbe _ _ _ _ _) as [[[pr|]|] ht1]; cbn; [done|..]; intros [= _ <- _].
    all: by split_and!.
Qed.

Lemma updateConfig_inv bc stage now st :
  egress_inv st.1 → egress_inv (updateConfig bc stage now st).2.1.
Proof.
  destruct st as [s [h t]]. intros Hinv.
  destruct stage as [stage|]; [|done].
  destruct (decide (stage = ConfigStageTelemetryCompleted)) as [->|Hne].
  2: { unfold updateConfig, updateConfig_continue. cbn. by rewrite decide_True. }
  rewrite updateConfig_completed.
  set (s1 := set_probes [] _). set (ht := (h, record_call _ t)).
  pose proof (range_loop_inv (λ st : EgressState * (heap string * Telem), egress_inv st.1 ∧ is_Some (tracer st.1) ∧ is_Some (meter st.1))
    (add_probe (duration_ms (TimeoutMilliseconds (cfg_Egress bc))))
    (egress_Probes (cfg_Egress bc)) (s1, ht)) as Hloop.
  destruct (range_loop _ _ (s1, ht)) as [r [s2 ht2]]. destruct Hloop as ((I1 & I2 & I3) & Ht & Hm).
  - intros cfg st _ (Hi & Ht & Hm). by apply add_probe_inv.
  - destruct Hinv as (_ & _ & ?). subst s1. split_and!; [split_and!|..]; cbn; eauto.
  - destruct r as [[]|]; [|by split_and!].
    unfold reset_ticker. destruct (ticker s2) eqn:Ek; cbn in *; rewrite ?Ek in I3.
    1: by split_and!; cbn; rewrite ?Ek.
    all: destruct (_ <=? 0); [by split_and!|].
    all: destruct (Z.leb_spec (duration_ms (PeriodMilliseconds (cfg_Egress bc))) 0);
      split_and!; cbn; rewrite ?Ek; auto.
Qed.

Lemma GoEgress_step_inv w st : egress_inv st.1 → egress_inv (GoEgress_step w st).2.1.
Proof.
  destruct st as [s ht]. cbn [fst]. intros Hinv. destruct w as [tnow|[[bc stage]|] unow|ok]; try done.
  - rewrite GoEgress_tick_contract. cbn. destruct (time_Before _ _); cbn.
    2: { rewrite app_nil_r. by destruct s. }
    destruct Hinv as (I1 & I2 & I3). split_and!; cbn; try done.
    intros [Hp|Hs]; [by apply I1; left|]. destruct (probes s) as [|p ps] eqn:Ep.
    + rewrite app_nil_r in Hs. by apply I1; right.
    + apply I1. left. by intros [=].
  - unfold GoEgress_step, mbind, go_bind.
    pose proof (updateConfig_inv bc stage unow (s, ht) Hinv) as Hu.
    by destruct (updateConfig bc stage unow (s, ht)) as [[[]|] st'].
Qed.

(** *** Runs that return *)

(** An exec probe has a command. *)
Definition command_set (cfg : EgressProbeConfig) : Prop := wanted_action cfg ≠ Some (WantExec []).

Definition egress_runnable (s : EgressState) : Prop :=
  Forall (λ p, ∀ a, ProbeAction_ p = Some a → runnable a) (probes s) ∧
  Forall (λ r, runnable (run_action r)) (started s).

Lemma probe_for_runnable timeout cfg p a :
  probe_for timeout cfg p → command_set cfg → ProbeAction_ p = Some a → runnable a.
Proof.
  intros (_ & a' & Ha' & [Hk _]) Hc Ha. rewrite Ha in Ha'. injection Ha' as <-.
  unfold command_set in Hc. rewrite <-Hk in Hc.
  destruct a; cbn; [|done..]. intros He. apply Hc. cbn. by rewrite He.
Qed.

Lemma runs_of_runnable ps :
  Forall (λ p, ∀ a, ProbeAction_ p = Some a → runnable a) ps →
  Forall (λ r, runnable (run_action r)) (runs_of ps).
Proof.
  induction 1 as [|p ps Hp _ IH]; cbn; [constructor|].
  destruct (ProbeAction_ p) as [a|]; cbn; [|done]. constructor; [by apply Hp|done].
Qed.

Lemma GoEgress_tick_runnable now s ht :
  egress_runnable s → egress_runnable (GoEgress_step (Tick now) (s, ht)).2.1.
Proof.
  intros [Hp Hs]. rewrite GoEgress_tick_contract. split; [done|]. cbn. apply Forall_app. split; [done|].
  destruct (time_Before _ _); [by apply runs_of_runnable|constructor].
Qed.

Lemma updateConfig_runnable bc now s ht s' ht' :
  updateConfig bc (Some ConfigStageTelemetryCompleted) now (s, ht) = (Returned tt, (s', ht')) →
  Forall command_set (egress_Probes (cfg_Egress bc)) → egress_runnable s → egress_runnable s'.
Proof.
  intros (ps & Hps & _ & -> & _)%updateConfig_Returned Hcs [_ Hs]. split; [|done]. cbn.
  clear -Hps Hcs. induction Hps as [|cfg p cfgs ps Hp _ IH]; [constructor|].
  apply Forall_cons in Hcs as [Hc Hcs]. constructor; [intros a; by eapply probe_for_runnable|by apply IH].
Qed.

(** A run that was started returns. *)
Lemma Run_act_runs reg env s r :
  client_sane env → egress_inv s → egress_runnable s → r ∈ started s →
  runs (λ st : heap string * Telem, registry_is reg st.2) (Run_act env (tracer s) r) (λ _, True).
Proof.
  intros Hc (Htr & _) [_ Hs] Hr. destruct Htr as [[tr ->] _].
  - right. intros E. rewrite E in Hr. by apply not_elem_of_nil in Hr.
  - apply ProbeAction_act_runs; [done|]. rewrite Forall_forall in Hs. by apply Hs.
Qed.

(** *** The runs are those of the configuration in use *)

(** A run of a configured probe. *)
Definition run_for (timeout : Z) (cfg : EgressProbeConfig) (r : Run) : Prop :=
  run_name r = probe_Name cfg ∧ action_for timeout cfg (run_action r).

Lemma runs_of_for timeout cfgs ps :
  Forall2 (probe_for timeout) cfgs ps → Forall2 (run_for timeout) cfgs (runs_of ps).
Proof.
  induction 1 as [|cfg p cfgs ps (Hn & a & Ha & Hk) _ IH]; [constructor|]. cbn. rewrite Ha. cbn.
  by constructor.
Qed.

(** C28: the invariant of egress.  Whatever sequence of ticks, updates (complete
    or not) and signals the goroutine sees, the tracer and the meter are set
    before any probe exists or runs, every probe has an action, and the ticker
    never runs with a period that is not positive. *)
Theorem GoEgress_invariant ws now ht :
  egress_inv (GoEgress_run ws ((GoEgress_start (init_egress now)).2, ht)).2.1.
Proof.
  set (s0 := (GoEgress_start (init_egress now)).2).
  assert (egress_inv s0) as Hinv by (split_and!; cbn; [naive_solver|constructor|done]).
  clearbody s0. revert s0 ht Hinv; induction ws as [|w ws IH]; intros s ht Hinv; [done|].
  cbn [GoEgress_run]. unfold mbind, go_bind.
  pose proof (GoEgress_step_inv w (s, ht) Hinv) as Hstep.
  destruct (GoEgress_step w (s, ht)) as [[[]|] [s' ht']]; [done| |done]. by apply IH.
Qed.

End egress.

(** ** Witnesses *)

(** A configuration of one TCP probe (its HTTP section has an unknown scheme). *)
Definition toy_config (ps : list EgressProbeConfig) (period : Z) : BunnyConfig :=
  mkBunnyConfig (mkEgressConfig ps 500 period 1000) (cfg_Ingress generateDefaultConfig)
    zeroSignalsConfig zeroTelemetryConfig.

(** A probe without any action. *)
Definition no_action : EgressProbeConfig :=
  mkEgressProbeConfig "q" (mkEgressProbeMetricsConfig disabled disabled disabled)
    None None None None.

Definition toy_egress : @EgressState simple_regexp :=
  (GoEgress_start (@init_egress simple_regexp 0)).2.

Lemma toy_probes_fine schema : Forall (@probe_fine simple_regexp schema) [ftp_then_tcp].
Proof.
  constructor; [|constructor]. split_and!; [|by eexists|by split_and!].
  intros c [= <-]. constructor.
Qed.

(** Nothing is registered yet: any names and labels will do. *)
Lemma toy_telem_fits schema : @has_registry toy_libs _ schema toy_telem.
Proof. eexists. split; [reflexivity|]. apply toy_registry_fits. Qed.

Lemma updateConfig_installs_witness :
  let st := @updateConfig toy_libs simple_regexp grow_double (toy_config [ftp_then_tcp] 3000)
      (Some ConfigStageTelemetryCompleted) 10 (toy_egress, (∅, toy_telem)) in
  st.1 = Returned tt ∧
  ∃ ps, Forall2 (probe_for 1000000000) [ftp_then_tcp] ps ∧
    st.2.1 = updated (cfg_Egress (toy_config [ftp_then_tcp] 3000)) ps 10
               (TickerRunning 3000000000) toy_egress.
Proof.
  intros st. split; [reflexivity|].
  destruct (@updateConfig_installs toy_libs simple_regexp grow_double
    (toy_config [ftp_then_tcp] 3000) 10 toy_egress (∅, toy_telem) st.2.1 st.2.2 eq_refl)
    as (ps & Hps & _ & Hst & _).
  exists ps. split; [exact Hps|]. exact Hst.
Defined.

Lemma egress_drops_baggage_witness :
  let st := @updateConfig toy_libs simple_regexp grow_double (toy_config [ftp_then_tcp] 3000)
      (Some ConfigStageTelemetryCompleted) 10
      (toy_egress, (∅, @record_call toy_libs
                         (SetTextMapPropagator ["tracecontext"; "baggage"]) toy_telem)) in
  propagator (calls st.2.2.2) = Some ["tracecontext"].
Proof.
  intros st.
  exact (@egress_drops_baggage toy_libs simple_regexp grow_double (toy_config [ftp_then_tcp] 3000)
    10 toy_egress ∅ (@record_call toy_libs
                       (SetTextMapPropagator ["tracecontext"; "baggage"]) toy_telem)
    st.2.1 st.2.2.1 st.2.2.2 eq_refl).
Defined.

(** A probe that counts its attempts under a label. *)
Definition counted_tcp : EgressProbeConfig :=
  mkEgressProbeConfig "p" (mkEgressProbeMetricsConfig
    (mkMetricsConfig true "egress_tcp_attempts" [mkExtraLabelsConfig "probe" "p"]) disabled disabled)
    None None None (Some (mkTCPSocketActionConfig 7 None None)).

Definition counted_schema : metric_schema := λ name,
  if (name =? "egress_tcp_attempts")%string then Some {["probe"]} else None.

Lemma counted_fine : Forall (@probe_fine simple_regexp counted_schema) [counted_tcp; ftp_then_tcp].
Proof.
  constructor; [|apply toy_probes_fine]. split_and!; [|by eexists|].
  - intros c [= <-]. constructor.
  - split_and!; [|done..]. intros _. split; [reflexivity|]. split; [|by vm_compute].
    apply (bool_decide_unpack _). by vm_compute.
Qed.

Lemma updateConfig_completes_witness :
  (@updateConfig toy_libs simple_regexp grow_double (toy_config [counted_tcp; ftp_then_tcp] max_ms)
     (Some ConfigStageTelemetryCompleted) 10 (toy_egress, (∅, toy_telem))).1 = Returned tt.
Proof.
  apply (@updateConfig_completes toy_libs simple_regexp grow_double _ counted_schema).
  - apply toy_telem_fits.
  - discriminate.
  - exact counted_fine.
  - reflexivity.
Defined.

Lemma updateConfig_no_action_panics_witness :
  is_panic (@updateConfig toy_libs simple_regexp grow_double
    (toy_config [ftp_then_tcp; no_action] 3000) (Some ConfigStageTelemetryCompleted) 10
    (toy_egress, (∅, toy_telem))).1 = true.
Proof.
  apply (@updateConfig_no_action_panics toy_libs simple_regexp grow_double).
  right. left. reflexivity.
Defined.

Lemma updateConfig_long_period_panics_witness :
  (@updateConfig toy_libs simple_regexp grow_double (toy_config [ftp_then_tcp] 9223372036855)
     (Some ConfigStageTelemetryCompleted) 10 (toy_egress, (∅, toy_telem))).1
  = Panicked NonPositiveTicker.
Proof.
  apply (@updateConfig_long_period_panics toy_libs simple_regexp grow_double _ (λ _, None)).
  - apply toy_telem_fits.
  - discriminate.
  - apply toy_probes_fine.
  - split; reflexivity.
Defined.
