(* ===== verification/Ingress.v ===== *)
(** * ingress/: health endpoints and the HTTP server

    [health-endpoint.go]: building an endpoint from its configuration and
    running its query; [ingress.go]: the handler, the routes of the server,
    its start and shutdown, and one turn of [GoIngress]'s loop, of which an
    update has a part before and a part after the wait for telemetry. *)

From S2P Require Import Prelude GoStd Config Metrics Query ServeMux.
From Stdlib Require Import Ascii String.

Local Open Scope Z_scope.

(** ** health-endpoint.go *)

Inductive HealthQuery :=
| IngressInstantQuery (timeout relativeInstantTime : Z) (query : string)
| IngressRangeQuery (timeout relativeStartTime relativeEndTime interval : Z) (query : string).

(** A nil [Query] interface is [None]. *)
Record HealthEndpoint := mkHealthEndpoint {
  endpoint_Path : string;
  endpoint_Query : option HealthQuery;
  endpoint_AttemptsMetric : option CounterMetric;
  endpoint_ResponseTimeMetric : option ResponseTimeMetric;
  endpoint_SuccessesMetric : option CounterMetric }.

Definition endpoint_measure (e : HealthEndpoint) : measure :=
  mkMeasure (endpoint_AttemptsMetric e) (endpoint_ResponseTimeMetric e)
    (endpoint_SuccessesMetric e).

Definition ensureLeadingSlash (path : string) : string :=
  if negb (strings_Index path "/" =? 0) then "/" +:+ path else path.

Definition newInstantQuery (healthConfig : HealthConfig) : outcome (error + HealthQuery) :=
  match health_InstantQuery healthConfig with
  | None => Panicked NilDereference
  | Some c => Returned
      (timeout ← ParseDuration (iq_Timeout c);
       relativeInstantTime ← ParseDuration (iq_RelativeInstantTime c);
       inr (IngressInstantQuery timeout relativeInstantTime (iq_Query c)))
  end.

Definition newRangeQuery (healthConfig : HealthConfig) : outcome (error + HealthQuery) :=
  match health_RangeQuery healthConfig with
  | None => Panicked NilDereference
  | Some c => Returned
      (timeout ← ParseDuration (rq_Timeout c);
       relativeStartTime ← ParseDuration (rq_RelativeStartTime c);
       relativeEndTime ← ParseDuration (rq_RelativeEndTime c);
       interval ← ParseDuration (rq_Interval c);
       inr (IngressRangeQuery timeout relativeStartTime relativeEndTime interval (rq_Query c)))
  end.

Section ingress.
Context `{MetricLibs} `{UnicodeTables} {DB : Type}.

(** An endpoint whose query is not valid is still built, around a nil query,
    and its metrics are created; the error is returned beside it. *)
Definition newHealthEndpoint (meter : option string) (healthConfig : HealthConfig)
  : go Telem (option HealthEndpoint * option error) :=
  let build (newQuery : HealthConfig → outcome (error + HealthQuery)) :=
    r ← of_outcome (newQuery healthConfig);
    metrics ← deref (health_Metrics healthConfig);
    attempts ← NewCounterMetric (health_Attempts metrics) meter;
    responseTime ← NewResponseTimeMetric (health_ResponseTime metrics) meter;
    successes ← NewCounterMetric (health_Successes metrics) meter;
    let query := match r with inl _ => None | inr q => Some q end in
    let err := match r with inl e => Some e | inr _ => None end in
    mret (Some (mkHealthEndpoint (ensureLeadingSlash (health_Path healthConfig)) query
                  attempts responseTime successes), err) in
  match health_InstantQuery healthConfig, health_RangeQuery healthConfig with
  | None, None =>
      mret (None, Some (errorString ("neither instantQuery nor rangeQuery set for health endpoint at path " +:+ health_Path healthConfig)))
  | Some _, Some _ =>
      mret (None, Some (errorString ("both instantQuery and rangeQuery set for health endpoint at path " +:+ health_Path healthConfig)))
  | Some _, None => build newInstantQuery
  | None, Some _ => build newRangeQuery
  end.

(** [exec] of the two queries; [clock] gives the successive readings of
    [time.Now()]. *)
Definition HealthQuery_exec (engine : option (Engine DB)) (db : option DB) (q : HealthQuery)
    (m : measure) (clock : nat → Z) : go Telem (bool * option error) :=
  match q with
  | IngressInstantQuery timeout relativeInstantTime query =>
      let instantTime := time_Add (clock 0%nat) relativeInstantTime in
      timerStart ← PreMeasurable (m_attempts m) (m_response m) (clock 2%nat);
      r ← InstantQuery engine db timeout query instantTime (clock 3%nat);
      PostMeasurable (m_successes m) (m_response m) timerStart
        (match r.2 with Some _ => false | None => true end) (clock 4%nat) ;;
      mret r
  | IngressRangeQuery timeout relativeStartTime relativeEndTime interval query =>
      let startTime := time_Add (clock 0%nat) relativeStartTime in
      let endTime := time_Add (clock 1%nat) relativeEndTime in
      timerStart ← PreMeasurable (m_attempts m) (m_response m) (clock 2%nat);
      r ← RangeQuery engine db timeout query startTime endTime interval (clock 3%nat);
      PostMeasurable (m_successes m) (m_response m) timerStart
        (match r.2 with Some _ => false | None => true end) (clock 4%nat) ;;
      mret r
  end.

(** ** The handler *)

Definition StatusServiceUnavailable : Z := 503.

Fixpoint healthEndpointHandler (engine : option (Engine DB)) (db : option DB)
    (healthEndpoints : list HealthEndpoint) (path : string) (clock : nat → Z) : go Telem Response :=
  match healthEndpoints with
  | [] => mret (mkResponse None "")
  | healthEndpoint :: rest =>
      if decide (endpoint_Path healthEndpoint = path) then
        q ← deref (endpoint_Query healthEndpoint);
        r ← HealthQuery_exec engine db q (endpoint_measure healthEndpoint) clock;
        let queryResult := match r.2 with Some _ => false | None => r.1 end in
        if queryResult : bool then mret (mkResponse (Some 200) (line "healthy"))
        else mret (mkResponse (Some StatusServiceUnavailable) (line "unhealthy"))
      else healthEndpointHandler engine db rest path clock
  end.

(** The handlers of the server. *)
Inductive Handler := HealthHandler | OpenTelemetryHandler | PrometheusHandler.

(** ** The server *)

(** A server is made, listens, and is shut down, after which it never listens. *)
Inductive server_status := Idle | Listening | ShutDown.

(** The package's variables; [servers] holds every server ever made, with its
    status, and [httpServer] the index of the last one; [pending] counts the
    goroutines that have not called [ListenAndServe] yet. *)
Record IngressState := mkIngress {
  ingressConfig : option IngressConfig;
  ingress_meter : option string;
  httpServer : option nat;
  healthEndpoints : list HealthEndpoint;
  servers : list (http_Server Handler * server_status);
  pending_serves : nat }.

Definition init_ingress : IngressState := mkIngress None None None [] [] 0.

Definition set_ingressConfig (c : IngressConfig) (s : IngressState) : IngressState :=
  mkIngress (Some c) (ingress_meter s) (httpServer s) (healthEndpoints s) (servers s)
    (pending_serves s).
Definition set_ingress_meter (m : string) (s : IngressState) : IngressState :=
  mkIngress (ingressConfig s) (Some m) (httpServer s) (healthEndpoints s) (servers s)
    (pending_serves s).
Definition set_endpoints (es : list HealthEndpoint) (s : IngressState) : IngressState :=
  mkIngress (ingressConfig s) (ingress_meter s) (httpServer s) es (servers s) (pending_serves s).
Definition set_server_status (st : server_status) (i : nat) (s : IngressState) : IngressState :=
  mkIngress (ingressConfig s) (ingress_meter s) (httpServer s) (healthEndpoints s)
    (alter (λ x, (x.1, st)) i (servers s)) (pending_serves s).
(** A new server replaces the current one and a goroutine is started. *)
Definition install_server (srv : http_Server Handler) (s : IngressState) : IngressState :=
  mkIngress (ingressConfig s) (ingress_meter s) (Some (List.length (servers s)))
    (healthEndpoints s) (servers s ++ [(srv, Idle)]) (S (pending_serves s)).
Definition serve_started (s : IngressState) : IngressState :=
  mkIngress (ingressConfig s) (ingress_meter s) (httpServer s) (healthEndpoints s)
    (servers s) (pred (pending_serves s)).

Abbreviation IWorld := (IngressState * Telem)%type.

(** [promhttp.HandlerFor] registers the handler's own metric; it panics when
    that is refused. *)
Definition promhttp_HandlerFor : go Telem unit :=
  p ← gets PromRegistry;
  r ← deref p;
  match HandlerFor r with
  | inl _ => throw (MustRegisterFailed (fqName promhttp_desc))
  | inr r' => modify (set_registry (Some r'))
  end.

Definition startHTTPServer : go IWorld unit :=
  p ← on_fst (gets ingressConfig);
  cfg ← deref p;
  let c := HTTPServer cfg in
  mux ← of_outcome (mux_handle_all
    (((λ healthConfig, (ensureLeadingSlash (health_Path healthConfig), HealthHandler)) <$> Health c) ++
     [(ensureLeadingSlash (OpenTelemetryMetricsPath c), OpenTelemetryHandler)]) []);
  on_snd promhttp_HandlerFor ;;
  mux ← of_outcome (mux_Handle (ensureLeadingSlash (PrometheusMetricsPath c)) PrometheusHandler mux);
  on_fst (modify (install_server
    (mkServer (":" +:+ Sprint_int (server_Port c))
       (duration_ms (ReadTimeoutMilliseconds c))
       (duration_ms (ReadHeaderTimeoutMilliseconds c))
       (duration_ms (WriteTimeoutMilliseconds c))
       (duration_ms (IdleTimeoutMilliseconds c))
       (MaxHeaderBytes c) mux))).

(** [httpServer.Shutdown]: its error is only logged. *)
Definition shutdownHTTPServer : go IngressState unit :=
  srv ← gets httpServer;
  match srv with
  | Some i => modify (set_server_status ShutDown i)
  | None => mret tt
  end.

(** The goroutine of [startHTTPServer] reads the variable [httpServer] when it
    runs.  A server that was shut down returns [ErrServerClosed] at once; one
    that listens already, or fails to, is left as it is ([bound] says whether
    the address could be bound). *)
Definition serve_goroutine (bound : bool) : go IngressState unit :=
  modify serve_started ;;
  srv ← gets httpServer;
  i ← deref srv;
  ss ← gets servers;
  match snd <$> ss !! i with
  | Some Idle => if bound then modify (set_server_status Listening i) else mret tt
  | _ => mret tt
  end.

(** ** The goroutine *)

(** The body of the loop over the health configurations: endpoints with an
    error are left out (without an error there is always an endpoint). *)
Definition add_endpoint (healthConfig : HealthConfig) : go IWorld unit :=
  m ← on_fst (gets ingress_meter);
  r ← on_snd (newHealthEndpoint m healthConfig);
  match r.2 with
  | Some _ => mret tt
  | None =>
      e ← deref r.1;
      on_fst (modify (λ s, set_endpoints (healthEndpoints s ++ [e]) s))
  end.

Inductive ingress_wakeup :=
| IngressConfigUpdate (received : option (BunnyConfig * option ConfigStage))
| IngressSignal (ok : bool).

(** A configuration arrives: it is the package's from here on. *)
Definition GoIngress_receive (bunnyConfig : BunnyConfig) : go IWorld unit :=
  on_fst (modify (set_ingressConfig (cfg_Ingress bunnyConfig))).

(** What follows [<-ConfigStageChannel], which delivers [stage], or nothing if
    it is closed. *)
Definition GoIngress_continue (stage : option ConfigStage) : go IWorld bool :=
  match stage with
  | None => mret true
  | Some configStage =>
      if decide (configStage ≠ ConfigStageTelemetryCompleted) then mret true
      else
        on_fst (modify (set_ingress_meter "bunny/ingress")) ;;
        on_fst (modify (set_endpoints [])) ;;
        p ← on_fst (gets ingressConfig);
        c ← deref p;
        range_loop add_endpoint (Health (HTTPServer c)) ;;
        on_fst shutdownHTTPServer ;;
        startHTTPServer ;;
        mret false
  end.

(** One turn of the loop; [true] when the goroutine returns. *)
Definition GoIngress_step (w : ingress_wakeup) : go IWorld bool :=
  match w with
  | IngressConfigUpdate None => mret false
  | IngressConfigUpdate (Some (bunnyConfig, stage)) =>
      GoIngress_receive bunnyConfig ;;
      GoIngress_continue stage
  | IngressSignal _ => on_fst shutdownHTTPServer ;; mret true
  end.

(** A request to the current server, when it listens: routed by its escaped
    path and, for a health path, answered by the handler, which looks at the
    path itself. *)
Definition serve_request (engine : option (Engine DB)) (db : option DB) (clock : nat → Z) (path : string)
  : go IWorld (option (Response + routing Handler)) :=
  s ← on_fst (gets id);
  match httpServer s ≫= λ i, servers s !! i with
  | Some (srv, Listening) =>
      match mux_route (server_Handler srv) path with
      | Routed _ HealthHandler =>
          r ← on_snd (healthEndpointHandler engine db (healthEndpoints s) (pathUnescape path) clock);
          mret (Some (inl r))
      | other => mret (Some (inr other))
      end
  | _ => mret None
  end.

End ingress.

(** ** Lemmas: paths *)

#[local] Arguments Ascii.ascii_dec : simpl never.

Lemma index_head (s : string) : strings_Index s "/" = 0 ↔ ∃ s', s = String slash s'.
Proof.
  unfold strings_Index. destruct s as [|c s]; [split; [done|by intros [? [=]]]|].
  cbn. destruct (Ascii.ascii_dec "/" c) as [<-|Hne]; [split; [by eauto|by destruct s]|].
  split; [|by intros (s' & [= -> ->]); destruct Hne].
  destruct (String.index 0 "/" s) as [n|]; intros ?; exfalso; lia.
Qed.

Lemma ensureLeadingSlash_slash p : ∃ p', ensureLeadingSlash p = String slash p'.
Proof.
  unfold ensureLeadingSlash. destruct (Z.eqb_spec (strings_Index p "/") 0) as [H0|H0]; cbn.
  - by apply index_head.
  - by exists p.
Qed.

Lemma ensureLeadingSlash_id p : ensureLeadingSlash (String slash p) = String slash p.
Proof. unfold ensureLeadingSlash. by rewrite (proj2 (index_head _)) by eauto. Qed.

(** every path the server registers or an endpoint carries starts with
    exactly one added slash at most: a path with a leading slash is kept, any
    other gets one, and doing it twice changes nothing. *)
Theorem ensureLeadingSlash_normal p :
  (∃ p', ensureLeadingSlash p = String slash p') ∧
  ensureLeadingSlash (ensureLeadingSlash p) = ensureLeadingSlash p ∧
  (ensureLeadingSlash p = p ∨ ensureLeadingSlash p = String slash p).
Proof.
  destruct (ensureLeadingSlash_slash p) as [p' Hp]. split_and!.
  - by exists p'.
  - by rewrite Hp, ensureLeadingSlash_id.
  - unfold ensureLeadingSlash. destruct (negb _); [by right|by left].
Qed.

(** ** Lemmas: building endpoints *)

(** The query a configuration denotes: exactly one of the two kinds, with
    durations that parse. *)
Definition parsed_query (hc : HealthConfig) : option HealthQuery :=
  match health_InstantQuery hc, health_RangeQuery hc with
  | Some c, None =>
      match ParseDuration (iq_Timeout c), ParseDuration (iq_RelativeInstantTime c) with
      | inr timeout, inr rel => Some (IngressInstantQuery timeout rel (iq_Query c))
      | _, _ => None
      end
  | None, Some c =>
      match ParseDuration (rq_Timeout c), ParseDuration (rq_RelativeStartTime c),
            ParseDuration (rq_RelativeEndTime c), ParseDuration (rq_Interval c) with
      | inr timeout, inr rs, inr re, inr i =>
          Some (IngressRangeQuery timeout rs re i (rq_Query c))
      | _, _, _, _ => None
      end
  | _, _ => None
  end.

(** Path and query of an endpoint, and of the endpoints a list of
    configurations denotes. *)
Definition endpoint_key (e : HealthEndpoint) : string * option HealthQuery :=
  (endpoint_Path e, endpoint_Query e).
Definition wanted_endpoints (hcs : list HealthConfig) : list (string * option HealthQuery) :=
  omap (λ hc, (λ q, (ensureLeadingSlash (health_Path hc), Some q)) <$> parsed_query hc) hcs.

(** The routes a configuration asks for, in the order of registration. *)
Definition server_routes (c : HTTPServerConfig) : list (string * Handler) :=
  ((λ hc, (ensureLeadingSlash (health_Path hc), HealthHandler)) <$> Health c) ++
  [(ensureLeadingSlash (OpenTelemetryMetricsPath c), OpenTelemetryHandler);
   (ensureLeadingSlash (PrometheusMetricsPath c), PrometheusHandler)].

(** What an update needs of a configured endpoint: a metrics block the registry
    takes. *)
Definition health_fine (schema : metric_schema) (hc : HealthConfig) : Prop :=
  ∃ ms, health_Metrics hc = Some ms ∧
    metrics_fit schema (health_Attempts ms) (health_ResponseTime ms) (health_Successes ms).

Section endpoints.
Context `{MetricLibs} `{UnicodeTables}.

#[local] Arguments ParseDuration : simpl never.
#[local] Arguments ensureLeadingSlash : simpl never.

Lemma newQuery_parsed hc :
  match health_InstantQuery hc, health_RangeQuery hc with
  | Some _, None => ∃ r, newInstantQuery hc = Returned r ∧
      parsed_query hc = match r with inr q => Some q | inl _ => None end
  | None, Some _ => ∃ r, newRangeQuery hc = Returned r ∧
      parsed_query hc = match r with inr q => Some q | inl _ => None end
  | _, _ => parsed_query hc = None
  end.
Proof.
  unfold newInstantQuery, newRangeQuery, parsed_query, mbind, sum_bind.
  destruct (health_InstantQuery hc) as [c|], (health_RangeQuery hc) as [c'|]; try done.
  all: eexists; split; [done|]; repeat case_match; naive_solver.
Qed.

Lemma newHealthEndpoint_Returned meter hc t r t' :
  newHealthEndpoint meter hc t = (Returned r, t') →
  match parsed_query hc with
  | Some q => ∃ e, r = (Some e, None) ∧
      endpoint_key e = (ensureLeadingSlash (health_Path hc), Some q)
  | None => is_Some r.2
  end.
Proof.
  pose proof (newQuery_parsed hc) as Hq. unfold newHealthEndpoint, of_outcome.
  destruct (health_InstantQuery hc) as [c|], (health_RangeQuery hc) as [c'|].
  1, 4: rewrite Hq; intros [= <- _]; by eexists.
  all: destruct Hq as (x & -> & ->); unfold mbind, go_bind.
  all: destruct (health_Metrics hc) as [ms|]; cbn; [|done].
  all: destruct (NewCounterMetric (health_Attempts ms) _ _) as [[ma|] t1]; [|done].
  all: destruct (NewResponseTimeMetric _ _ _) as [[mr|] t2]; [|done].
  all: destruct (NewCounterMetric (health_Successes ms) _ _) as [[mc|] t3]; [|done].
  all: intros [= <- _]; destruct x as [err|q]; [by eexists|]; eexists; by split.
Qed.

Lemma newHealthEndpoint_total `{!RegistryLaws} schema mt hc t :
  health_fine schema hc → has_registry schema t →
  ∃ r t', newHealthEndpoint (Some mt) hc t = (Returned r, t') ∧ has_registry schema t' ∧
    (r.2 = None → is_Some r.1).
Proof.
  intros (ms & Hm & Hf1 & Hf2 & Hf3) Hr. pose proof (newQuery_parsed hc) as Hq.
  unfold newHealthEndpoint, of_outcome.
  destruct (health_InstantQuery hc) as [c|], (health_RangeQuery hc) as [c'|].
  1, 4: by eexists _, t.
  all: destruct Hq as (x & -> & _); unfold mbind, go_bind; cbn; rewrite Hm; cbn.
  all: destruct (NewCounterMetric_accepted schema (health_Attempts ms) mt t Hf1 Hr) as (m1 & t1 & -> & Hr1).
  all: destruct (NewResponseTimeMetric_accepted schema (health_ResponseTime ms) mt t1 Hf2 Hr1) as (m2 & t2 & -> & Hr2).
  all: destruct (NewCounterMetric_accepted schema (health_Successes ms) mt t2 Hf3 Hr2) as (m3 & t3 & -> & Hr3).
  all: by eexists _, t3.
Qed.

Lemma add_endpoints_total `{!RegistryLaws} schema hcs s t :
  is_Some (ingress_meter s) → has_registry schema t → Forall (health_fine schema) hcs →
  ∃ st, range_loop add_endpoint hcs (s, t) = (Returned tt, st) ∧ has_registry schema st.2.
Proof.
  intros [mt Hm] Hr Hhcs. revert s Hm t Hr. induction Hhcs as [|hc hcs Hhc _ IH]; intros s Hm t Hr; cbn.
  { by exists (s, t). }
  unfold add_endpoint, on_fst, on_snd, gets, modify, mbind, go_bind. cbn [fst snd]. rewrite Hm.
  destruct (newHealthEndpoint_total schema mt hc t Hhc Hr) as ([e err] & t' & -> & Hr' & He). cbn in *.
  destruct err as [err|]; cbn; [by apply IH|]. destruct (He eq_refl) as [x ->]. cbn. by apply IH.
Qed.

Lemma add_endpoint_Returned hc s t s' t' :
  add_endpoint hc (s, t) = (Returned tt, (s', t')) →
  ∃ es, endpoint_key <$> es = wanted_endpoints [hc] ∧
    s' = set_endpoints (healthEndpoints s ++ es) s.
Proof.
  unfold add_endpoint, on_fst, on_snd, gets, modify, mbind, go_bind. cbn [fst snd].
  destruct (newHealthEndpoint _ _ _) as [[[e err]|] t1] eqn:E; [|done].
  apply newHealthEndpoint_Returned in E. unfold wanted_endpoints. cbn.
  destruct (parsed_query hc) as [q|].
  - destruct E as (e' & [= -> ->] & Hk). cbn. intros [= <- _]. exists [e']. cbn. by rewrite Hk.
  - destruct E as [x [= ->]]. intros [= <- _]. exists []. rewrite app_nil_r. by destruct s.
Qed.

Lemma add_endpoints_Returned hcs s t s' t' :
  range_loop add_endpoint hcs (s, t) = (Returned tt, (s', t')) →
  ∃ es, endpoint_key <$> es = wanted_endpoints hcs ∧
    s' = set_endpoints (healthEndpoints s ++ es) s.
Proof.
  revert s t; induction hcs as [|hc hcs IH]; intros s t; cbn [range_loop].
  { intros [= <- _]. exists []. rewrite app_nil_r. by destruct s. }
  unfold mbind, go_bind. destruct (add_endpoint hc (s, t)) as [[[]|] [s1 t1]] eqn:E; [|done].
  apply add_endpoint_Returned in E as (es1 & Hes1 & ->). intros (es2 & Hes2 & ->)%IH.
  exists (es1 ++ es2). cbn. rewrite fmap_app, Hes1, Hes2, app_assoc. split; [|done].
  unfold wanted_endpoints. cbn. by destruct (parsed_query hc).
Qed.

(** ** Lemmas: the server *)

(** The server a configuration asks for, with its routes. *)
Definition server_for (c : HTTPServerConfig) (mux : ServeMux Handler) : http_Server Handler :=
  mkServer (":" +:+ Sprint_int (server_Port c))
    (duration_ms (ReadTimeoutMilliseconds c))
    (duration_ms (ReadHeaderTimeoutMilliseconds c))
    (duration_ms (WriteTimeoutMilliseconds c))
    (duration_ms (IdleTimeoutMilliseconds c))
    (MaxHeaderBytes c) mux.

(** The routes are registered one after the other; in between, the handler of
    the Prometheus metrics is made. *)
Lemma startHTTPServer_spec s t cfg :
  ingressConfig s = Some cfg →
  let c := HTTPServer cfg in
  match startHTTPServer (s, t) with
  | (Returned _, (s', t')) => ∃ mux r r', mux_handle_all (server_routes c) [] = Returned mux ∧
      s' = install_server (server_for c mux) s ∧
      PromRegistry t = Some r ∧ HandlerFor r = inr r' ∧ t' = set_registry (Some r') t
  | (Panicked _, _) => is_panic (mux_handle_all (server_routes c) []) = true ∨
      ∀ r r', PromRegistry t = Some r → HandlerFor r ≠ inr r'
  end.
Proof.
  intros Hcfg c. unfold startHTTPServer, of_outcome, on_fst, on_snd, gets, modify, mbind, go_bind.
  cbn [fst snd]. rewrite Hcfg. cbn [deref mret go_ret fst snd].
  assert (server_routes c =
    (((λ hc, (ensureLeadingSlash (health_Path hc), HealthHandler)) <$> Health c) ++
     [(ensureLeadingSlash (OpenTelemetryMetricsPath c), OpenTelemetryHandler)]) ++
    [(ensureLeadingSlash (PrometheusMetricsPath c), PrometheusHandler)]) as ->
    by (unfold server_routes; by rewrite <-app_assoc).
  rewrite (mux_handle_all_app _ [(ensureLeadingSlash (PrometheusMetricsPath c), PrometheusHandler)]).
  fold c.
  destruct (mux_handle_all _ []) as [mux|p]; [|by left]. cbn [mux_handle_all].
  unfold promhttp_HandlerFor, gets, modify, throw, mbind, go_bind. cbn [fst snd].
  destruct (PromRegistry t) as [r|] eqn:Er; [|right; by intros r r' [=]]. cbn [deref mret go_ret].
  destruct (HandlerFor r) as [e|r'] eqn:Eh; [right; intros r0 r' [= <-]; by rewrite Eh|]. cbn [fst snd].
  destruct (mux_Handle _ _ mux) as [mux'|p]; [|by left]. by exists mux', r, r'.
Qed.

(** C30: starting the server.  It crashes the program when two of the configured
    paths are the same once they have their leading slash, or when one of them
    is not a valid pattern, for instance because it contains a blank; when no
    path contains a blank, a tab, an opening brace or a percent sign, and the
    registry takes the metric of the Prometheus handler, it crashes for no
    other reason.  When it returns, the server is installed with a route for
    each health path and the two metrics paths, in this order, and with the
    configured port and timeouts. *)
Theorem startHTTPServer_conflict_iff s t cfg :
  ingressConfig s = Some cfg →
  let c := HTTPServer cfg in
  let paths := (ensureLeadingSlash <$> (health_Path <$> Health c)) ++
    [ensureLeadingSlash (OpenTelemetryMetricsPath c);
     ensureLeadingSlash (PrometheusMetricsPath c)] in
  let r := startHTTPServer (s, t) in
  (¬ NoDup paths ∨ Exists (λ p, (" "%char) ∈ to_bytes p ∨ parsePattern p = None) paths → is_panic r.1 = true) ∧
  (Forall plain_path paths → NoDup paths →
   (∃ reg reg', PromRegistry t = Some reg ∧ HandlerFor reg = inr reg') → is_panic r.1 = false) ∧
  (is_panic r.1 = false →
   ∃ mux, r.2.1 = install_server (server_for c mux) s ∧
     (λ x, (route_pattern x, route_handler x)) <$> mux = server_routes c).
Proof.
  intros Hcfg c paths r.
  assert (paths = (server_routes c).*1) as ->.
  { unfold paths, server_routes. rewrite fmap_app. f_equal. by rewrite <-!list_fmap_compose. }
  pose proof (startHTTPServer_spec s t cfg Hcfg) as Hspec. fold c r in Hspec.
  destruct r as [[[]|p] [s' t']]; cbn [fst snd is_panic].
  - destruct Hspec as (mux & reg & reg' & Hm & -> & _). split_and!; [|done|].
    + intros [Hnd|Hex]; [by destruct Hnd; eapply mux_handle_all_NoDup|exfalso].
      apply Exists_exists in Hex as (q & Hq & Hbad).
      assert (parsePattern q = None) as Hn by (destruct Hbad; [by apply parsePattern_blank|done]).
      pose proof (mux_handle_all_invalid _ [] q Hq Hn) as Hp. by rewrite Hm in Hp.
    + intros _. exists mux. split; [done|]. by apply mux_handle_all_patterns.
  - split_and!; [done| |done]. intros Hpl Hnd (reg & reg' & Hr & Hh).
    destruct Hspec as [Hp|Hp]; [|by destruct (Hp reg reg')].
    pose proof (mux_handle_all_plain (server_routes c) [] Hpl (NoDup_nil_2)) as Hm.
    change (registered []) with ([] : ServeMux Handler) in Hm.
    destruct (mux_handle_all _ _); [done|]. by destruct Hm.
Qed.

End endpoints.

(** ** Lemmas: answering a request *)

(** What the engine gives for a query; executing it may panic. *)
Definition engine_result {DB} (e : Engine DB) (db : option DB) (q : HealthQuery) (clock : nat → Z)
  : outcome (error + Result) :=
  let deadline timeout := time_Add (clock 3%nat) timeout in
  let exec x deadline :=
    match query_Exec e x deadline with
    | Returned res => Returned (inr res)
    | Panicked p => Panicked p
    end in
  match q with
  | IngressInstantQuery timeout rel qs =>
      match NewInstantQuery e db (deadline timeout) qs (time_Add (clock 0%nat) rel) with
      | inl err => Returned (inl err)
      | inr x => exec x (deadline timeout)
      end
  | IngressRangeQuery timeout rs re interval qs =>
      match NewRangeQuery e db (deadline timeout) qs (time_Add (clock 0%nat) rs)
              (time_Add (clock 1%nat) re) interval with
      | inl err => Returned (inl err)
      | inr x => exec x (deadline timeout)
      end
  end.

(** The engine answers: with an error, or with a value when the result carries
    no error. *)
Definition engine_answers {DB} (e : Engine DB) (db : option DB) (q : HealthQuery) (clock : nat → Z) : Prop :=
  ∃ a, engine_result e db q clock = Returned a ∧
    ∀ res, a = inr res → res_Err res = None → is_Some (res_Type res).

(** The answer of the handler to the outcome of a query. *)
Definition answer (r : bool * option error) : Response :=
  match r.2, r.1 with
  | None, true => mkResponse (Some 200) (line "healthy")
  | _, _ => mkResponse (Some StatusServiceUnavailable) (line "unhealthy")
  end.

Section answers.
Context `{MetricLibs} `{UnicodeTables} {DB : Type}.

#[local] Arguments PreMeasurable : simpl never.
#[local] Arguments PostMeasurable : simpl never.
#[local] Arguments fmap : simpl never.
#[local] Arguments ensureLeadingSlash : simpl never.

Lemma HealthQuery_exec_run (e : Engine DB) db q m clock t :
  match engine_result e db q clock with
  | Panicked p => ∃ t', HealthQuery_exec (Some e) db q m clock t = (Panicked p, t')
  | Returned (inl err) =>
      ∃ t', HealthQuery_exec (Some e) db q m clock t = (Returned (false, Some err), t') ∧
      calls t' = calls t ++ attempt_calls m ++ [ContextCancel]
  | Returned (inr res) =>
      match handleQueryResult res with
      | Panicked p => ∃ t', HealthQuery_exec (Some e) db q m clock t = (Panicked p, t')
      | Returned r => ∃ t', HealthQuery_exec (Some e) db q m clock t = (Returned r, t') ∧
          calls t' = calls t ++ attempt_calls m ++ [ContextCancel; QueryClose] ++
            match r.2 with
            | None => success_calls m (clock 2%nat) (clock 4%nat)
            | Some _ => []
            end
      end
  end.
Proof.
  destruct q as [timeout rel qs|timeout rs re interval qs];
    unfold engine_result, HealthQuery_exec, InstantQuery, RangeQuery, of_outcome, emit, modify;
    unfold mbind, go_bind; rewrite PreMeasurable_run; cbn -[PostMeasurable].
  1: destruct (NewInstantQuery _ _ _ _ _) as [err|x].
  3: destruct (NewRangeQuery _ _ _ _ _ _ _) as [err|x].
  1, 3: cbn -[PostMeasurable]; rewrite PostMeasurable_run; eexists; split; [done|]; cbn; by rewrite <-!app_assoc.
  all: destruct (query_Exec e x _) as [res|p]; cbn -[PostMeasurable]; [|by eexists].
  all: destruct (handleQueryResult _) as [[b [err|]]|p]; cbn -[PostMeasurable];
    rewrite ?PostMeasurable_run; eexists; try split; try done.
  all: rewrite ?calls_after_success; cbn; by rewrite <-!app_assoc.
Qed.

Lemma handler_none (engine : option (Engine DB)) db es path clock t :
  path ∉ endpoint_Path <$> es →
  healthEndpointHandler engine db es path clock t = (Returned (mkResponse None ""), t).
Proof.
  induction es as [|e es IH]; [done|]. intros [Hne Hes]%not_elem_of_cons. cbn.
  rewrite decide_False by done. by apply IH.
Qed.

(** The first endpoint with the path of the request runs its query. *)
Lemma handler_cons (engine : option (Engine DB)) db e es q clock t :
  endpoint_Query e = Some q →
  healthEndpointHandler engine db (e :: es) (endpoint_Path e) clock t =
  match HealthQuery_exec engine db q (endpoint_measure e) clock t with
  | (Returned r, t') => (Returned (answer r), t')
  | (Panicked p, t') => (Panicked p, t')
  end.
Proof.
  intros Hq. cbn. rewrite decide_True, Hq by done. unfold mbind, go_bind. cbn.
  destruct (HealthQuery_exec _ _ _ _ _ _) as [[[b [err|]]|p] t']; cbn; [done| |done].
  by destruct b.
Qed.

Lemma wanted_paths es hcs path :
  endpoint_key <$> es = wanted_endpoints hcs →
  path ∈ endpoint_Path <$> es → path ∈ (λ hc, ensureLeadingSlash (health_Path hc)) <$> hcs.
Proof.
  intros Hes Hin. assert (endpoint_Path <$> es = (wanted_endpoints hcs).*1) as Hp.
  { rewrite <-Hes, <-list_fmap_compose. done. }
  rewrite Hp in Hin. clear Hp Hes. apply list_elem_of_fmap in Hin as ([p q] & -> & Hin).
  apply list_elem_of_omap in Hin as (hc & Hhc & Hq). apply list_elem_of_fmap. exists hc.
  destruct (parsed_query hc); [|done]. by injection Hq as <- <-.
Qed.

Lemma handler_finds (engine : option (Engine DB)) db hcs es hc clock t :
  endpoint_key <$> es = wanted_endpoints hcs →
  NoDup ((λ hc, ensureLeadingSlash (health_Path hc)) <$> hcs) → hc ∈ hcs →
  let path := ensureLeadingSlash (health_Path hc) in
  match parsed_query hc with
  | None => healthEndpointHandler engine db es path clock t = (Returned (mkResponse None ""), t)
  | Some q => ∃ m, healthEndpointHandler engine db es path clock t =
      match HealthQuery_exec engine db q m clock t with
      | (Returned r, t') => (Returned (answer r), t')
      | (Panicked p, t') => (Panicked p, t')
      end
  end.
Proof.
  intros Hes Hnd Hin path. revert es Hes.
  induction hcs as [|hc0 hcs IH]; intros es Hes; [by apply not_elem_of_nil in Hin|].
  apply NoDup_cons in Hnd as [Hn0 Hnd]. unfold wanted_endpoints in Hes. cbn in Hes.
  apply elem_of_cons in Hin as [<-|Hin].
  - destruct (parsed_query hc) as [q|].
    + destruct es as [|e es]; [done|]. injection Hes as Hp Hq _.
      exists (endpoint_measure e). unfold path. rewrite <-Hp. by apply handler_cons.
    + apply handler_none. intros Hp. by apply Hn0, (wanted_paths es).
  - assert (path ≠ ensureLeadingSlash (health_Path hc0)) as Hne.
    { intros Heq. apply Hn0. rewrite <-Heq. apply list_elem_of_fmap. by exists hc. }
    destruct (parsed_query hc0) as [q0|]; [|by apply IH].
    destruct es as [|e es]; [done|]. injection Hes as Hp Hq Hes.
    cbn [healthEndpointHandler]. rewrite decide_False by congruence. by apply IH.
Qed.

(** Once its configuration is in place, the rest of an update is the update. *)
Lemma GoIngress_continues bc stage s t :
  ingressConfig s = Some (cfg_Ingress bc) →
  GoIngress_continue stage (s, t) = GoIngress_step (IngressConfigUpdate (Some (bc, stage))) (s, t).
Proof.
  intros Hc. unfold GoIngress_step, GoIngress_receive, on_fst, modify, mbind, go_bind. cbn [fst snd].
  destruct s; cbn in Hc; by subst.
Qed.

(** A complete update, step by step. *)
Lemma GoIngress_update_spec bc s t :
  let c := HTTPServer (cfg_Ingress bc) in
  let s1 := set_endpoints [] (set_ingress_meter "bunny/ingress" (set_ingressConfig (cfg_Ingress bc) s)) in
  GoIngress_step (IngressConfigUpdate (Some (bc, Some ConfigStageTelemetryCompleted))) (s, t) =
  match range_loop add_endpoint (Health c) (s1, t) with
  | (Panicked p, st) => (Panicked p, st)
  | (Returned _, (s2, t2)) =>
      match startHTTPServer ((shutdownHTTPServer s2).2, t2) with
      | (Panicked p, st) => (Panicked p, st)
      | (Returned _, st) => (Returned false, st)
      end
  end.
Proof.
  intros c s1. unfold GoIngress_step, GoIngress_receive, GoIngress_continue.
  rewrite decide_False by naive_solver. unfold on_fst, gets, modify, mbind, go_bind. cbn [fst snd].
  fold s1. change (ingressConfig s1) with (Some (cfg_Ingress bc)). cbn [deref mret go_ret]. fold c.
  destruct (range_loop _ _ (s1, t)) as [[[]|] [s2 t2]]; [|done]. cbn [fst snd].
  unfold shutdownHTTPServer, gets, modify, mbind, go_bind. by destruct (httpServer s2).
Qed.

Lemma shutdown_keeps s :
  let s' := (shutdownHTTPServer s).2 in
  ingressConfig s' = ingressConfig s ∧ healthEndpoints s' = healthEndpoints s ∧ httpServer s' = httpServer s.
Proof.
  unfold shutdownHTTPServer, gets, modify, mbind, go_bind. cbn. by destruct (httpServer s) eqn:E.
Qed.

(** The endpoints and the current server are those of a configuration. *)
Definition set_up_for (c : HTTPServerConfig) (s : IngressState) : Prop :=
  endpoint_key <$> healthEndpoints s = wanted_endpoints (Health c) ∧
  ∃ i st mux, mux_handle_all (server_routes c) [] = Returned mux ∧
    httpServer s = Some i ∧ servers s !! i = Some (server_for c mux, st).

(** What a complete update that returns leaves. *)
Lemma GoIngress_update_Returned bc s t o s' t' :
  GoIngress_step (IngressConfigUpdate (Some (bc, Some ConfigStageTelemetryCompleted))) (s, t)
    = (Returned o, (s', t')) →
  let c := HTTPServer (cfg_Ingress bc) in
  o = false ∧ ingressConfig s' = Some (cfg_Ingress bc) ∧
  endpoint_key <$> healthEndpoints s' = wanted_endpoints (Health c) ∧
  ∃ i mux, mux_handle_all (server_routes c) [] = Returned mux ∧
    httpServer s' = Some i ∧ servers s' !! i = Some (server_for c mux, Idle).
Proof.
  rewrite GoIngress_update_spec. set (s1 := set_endpoints [] _). set (c := HTTPServer (cfg_Ingress bc)).
  destruct (range_loop _ _ (s1, t)) as [[[]|] [s2 t2]] eqn:E; [|done].
  apply add_endpoints_Returned in E as (es & Hes & ->).
  destruct (shutdown_keeps (set_endpoints (healthEndpoints s1 ++ es) s1)) as (Hc & He & _).
  set (s3 := (shutdownHTTPServer _).2) in *. clearbody s3. cbn in Hc, He.
  pose proof (startHTTPServer_spec s3 t2 _ Hc) as Hst.
  destruct (startHTTPServer (s3, t2)) as [[[]|] [s4 t4]]; [|done]. intros [= <- <- <-].
  destruct Hst as (mux & r & r' & Hm & -> & _). cbn. rewrite He. split_and!; [done..|].
  eexists _, mux. split_and!; [done..|]. rewrite lookup_app_r by done. by rewrite Nat.sub_diag.
Qed.

(** The route of a configured health path. *)
Lemma health_route c mux hc :
  mux_handle_all (server_routes c) [] = Returned mux → hc ∈ Health c →
  let path := ensureLeadingSlash (health_Path hc) in
  unambiguous (server_routes c).*1 path → mux_route mux path = Routed path HealthHandler.
Proof.
  intros Hm Hin path Hp. eapply mux_route_reaches; [done| |done].
  unfold server_routes. apply elem_of_app. left. apply list_elem_of_fmap. by exists hc.
Qed.

(** The current server listens. *)
Definition listens (s : IngressState) : Prop :=
  ∃ i srv, httpServer s = Some i ∧ servers s !! i = Some (srv, Listening).

Lemma update_sets_up bc s t s1 t1 :
  GoIngress_step (IngressConfigUpdate (Some (bc, Some ConfigStageTelemetryCompleted))) (s, t)
    = (Returned false, (s1, t1)) →
  let s2 := (serve_goroutine true s1).2 in
  set_up_for (HTTPServer (cfg_Ingress bc)) s2 ∧ listens s2.
Proof.
  intros (_ & _ & Hes & i & mux & Hm & Hi & Hsrv)%GoIngress_update_Returned s2.
  assert (s2 = set_server_status Listening i (serve_started s1)) as ->.
  { unfold s2, serve_goroutine, gets, modify, mbind, go_bind. cbn. rewrite Hi. cbn. by rewrite Hsrv. }
  assert (servers (set_server_status Listening i (serve_started s1)) !! i =
    Some (server_for (HTTPServer (cfg_Ingress bc)) mux, Listening)) as Hcur.
  { cbn. by rewrite list_lookup_alter_eq, Hsrv. }
  split; [split; [done|]; by exists i, Listening, mux|]. by eexists i, _.
Qed.

(** A request for a configured health path is answered by the handler. *)
Lemma serve_configured (engine : option (Engine DB)) db clock c s t hc :
  set_up_for c s → listens s → hc ∈ Health c →
  let path := ensureLeadingSlash (health_Path hc) in
  unambiguous (server_routes c).*1 path →
  serve_request engine db clock path (s, t) =
    match healthEndpointHandler engine db (healthEndpoints s) path clock t with
    | (Returned r, t') => (Returned (Some (inl r)), (s, t'))
    | (Panicked p, t') => (Panicked p, (s, t'))
    end.
Proof.
  intros (Hes & i & st & mux & Hm & Hi & Hsrv) (i' & srv & Hi' & Hl) Hin path Hp.
  rewrite Hi in Hi'. injection Hi' as <-. rewrite Hsrv in Hl. injection Hl as <- ->.
  pose proof (health_route _ _ hc Hm Hin Hp) as Hroute. fold path in Hroute.
  unfold serve_request, on_fst, on_snd, gets, mbind, go_bind, id in *. cbn [fst snd].
  rewrite Hi. cbn. rewrite Hsrv. cbn [server_Handler server_for]. rewrite Hroute.
  destruct Hp as (_ & [_ Hp] & _). rewrite (pathUnescape_plain path Hp).
  by destruct (healthEndpointHandler _ _ _ _ _ _) as [[|] ?].
Qed.

Lemma set_up_finds (engine : option (Engine DB)) db clock c s t hc :
  set_up_for c s → hc ∈ Health c →
  let path := ensureLeadingSlash (health_Path hc) in
  match parsed_query hc with
  | None => healthEndpointHandler engine db (healthEndpoints s) path clock t
            = (Returned (mkResponse None ""), t)
  | Some q => ∃ m, healthEndpointHandler engine db (healthEndpoints s) path clock t =
      match HealthQuery_exec engine db q m clock t with
      | (Returned r, t') => (Returned (answer r), t')
      | (Panicked p, t') => (Panicked p, t')
      end
  end.
Proof.
  intros (Hes & i & st & mux & Hm & _) Hin path. apply (handler_finds _ _ (Health c)); [done| |done].
  apply mux_handle_all_NoDup in Hm.
  unfold server_routes in Hm. rewrite fmap_app, <-list_fmap_compose in Hm.
  by apply NoDup_app in Hm as [Hnd _].
Qed.



(** C39: a health endpoint that could not be configured looks healthy.  For an
    endpoint with neither or both kinds of query, or with a duration that does
    not parse, the update only logs an error; the route is still registered,
    and the handler, which finds no endpoint for it, writes nothing: the
    client gets status 200 with an empty body, and no query is run. *)
Theorem invalid_endpoint_answers_200 (engine : option (Engine DB)) db clock bc s t s1 t1 t2 hc :
  GoIngress_step (IngressConfigUpdate (Some (bc, Some ConfigStageTelemetryCompleted))) (s, t)
    = (Returned false, (s1, t1)) →
  hc ∈ Health (HTTPServer (cfg_Ingress bc)) → parsed_query hc = None →
  let path := ensureLeadingSlash (health_Path hc) in
  unambiguous (server_routes (HTTPServer (cfg_Ingress bc))).*1 path →
  let s2 := (serve_goroutine true s1).2 in
  ∃ r, serve_request engine db clock path (s2, t2) = (Returned (Some (inl r)), (s2, t2)) ∧
    status r = 200 ∧ body r = "".
Proof.
  intros [Hset Hl]%update_sets_up Hin Hq path Hclean s2.
  pose proof (serve_configured engine db clock _ _ t2 hc Hset Hl Hin Hclean) as Hserve.
  fold path s2 in Hserve. rewrite Hserve.
  pose proof (set_up_finds engine db clock _ _ t2 hc Hset Hin) as Hf. rewrite Hq in Hf. fold path s2 in Hf.
  rewrite Hf. by eexists.
Qed.

End answers.

(** ** The servers over time *)

Section servers.
Context `{MetricLibs} `{UnicodeTables} {DB : Type}.

(** Turns of [GoIngress]'s loop and runs of the goroutines that serve, in any
    order. *)
Inductive ingress_step : IngressState * Telem → IngressState * Telem → Prop :=
| ingress_turn w st r st' :
    GoIngress_step w st = (Returned r, st') → ingress_step st st'
| ingress_serve bound s t s' :
    (0 < pending_serves s)%nat → serve_goroutine bound s = (Returned tt, s') →
    ingress_step (s, t) (s', t).

(** Every server but the current one has been shut down; the current one is
    the last one made. *)
Definition servers_inv (s : IngressState) : Prop :=
  match httpServer s with
  | None => servers s = []
  | Some i => List.length (servers s) = S i ∧
      ∀ j srv st, servers s !! j = Some (srv, st) → j ≠ i → st = ShutDown
  end.

(** No server will listen again. *)
Definition all_shut_down (s : IngressState) : Prop :=
  Forall (λ x, x.2 = ShutDown) (servers s).

Lemma shutdown_spec s :
  servers_inv s →
  ∃ s', shutdownHTTPServer s = (Returned tt, s') ∧ servers_inv s' ∧ all_shut_down s' ∧
    ingressConfig s' = ingressConfig s.
Proof.
  unfold servers_inv, shutdownHTTPServer, gets, modify, mbind, go_bind. intros Hinv.
  destruct (httpServer s) as [i|] eqn:Ei.
  - eexists. split; [done|]. cbn. rewrite Ei. destruct Hinv as [Hlen Hinv].
    assert (∀ j srv st, alter (λ x, (x.1, ShutDown)) i (servers s) !! j = Some (srv, st) →
      st = ShutDown) as Hall.
    { intros j srv st. destruct (decide (j = i)) as [->|Hne].
      - rewrite list_lookup_alter_eq. destruct (servers s !! i); cbn; naive_solver.
      - rewrite list_lookup_alter_ne by done. intros Hj. by eapply Hinv. }
    split_and!; [by rewrite length_alter|naive_solver| |done].
    unfold all_shut_down. cbn. apply Forall_lookup. intros j [srv st]. apply Hall.
  - eexists. split; [done|]. rewrite Ei, Hinv. split_and!; [done| |done].
    unfold all_shut_down. rewrite Hinv. constructor.
Qed.

Lemma install_server_inv srv s :
  servers_inv s → all_shut_down s → servers_inv (install_server srv s).
Proof.
  intros _ Hall. unfold servers_inv. cbn. split; [rewrite length_app; cbn; lia|].
  intros j srv' st [Hj|[Hge Hj]]%lookup_app_Some Hne.
  - unfold all_shut_down in Hall. rewrite Forall_lookup in Hall. by apply Hall in Hj.
  - apply list_lookup_singleton_Some in Hj as [? _]. lia.
Qed.

Lemma add_endpoints_servers hcs s t :
  let st := (range_loop add_endpoint hcs (s, t)).2 in
  httpServer st.1 = httpServer s ∧ servers st.1 = servers s ∧ ingressConfig st.1 = ingressConfig s.
Proof.
  apply (range_loop_inv (λ st : IngressState * Telem, httpServer st.1 = httpServer s ∧
    servers st.1 = servers s ∧ ingressConfig st.1 = ingressConfig s)); [|done].
  intros hc [s1 t1] _ (Hs1 & Hs2 & Hs3).
  unfold add_endpoint, on_fst, on_snd, gets, modify, mbind, go_bind. cbn [fst snd].
  destruct (newHealthEndpoint _ _ _) as [[[[e|] [err|]]|] t2]; by split_and!.
Qed.

(** A complete update replaces the server by a new one. *)
Lemma GoIngress_update_inv bc s t o s' t' :
  GoIngress_step (IngressConfigUpdate (Some (bc, Some ConfigStageTelemetryCompleted))) (s, t)
    = (Returned o, (s', t')) →
  servers_inv s → servers_inv s' ∧ is_Some (httpServer s').
Proof.
  rewrite GoIngress_update_spec. set (s1 := set_endpoints [] _). intros Hst Hinv.
  pose proof (add_endpoints_servers (Health (HTTPServer (cfg_Ingress bc))) s1 t) as (H1 & H2 & H3).
  destruct (range_loop _ _ (s1, t)) as [[[]|] [s2 t2]]; [|done]. cbn [fst snd] in *.
  destruct (shutdown_spec s2) as (s3 & Hs3 & Hinv3 & Hall & Hcfg).
  { unfold servers_inv in *. by rewrite H1, H2. }
  rewrite Hs3 in Hst. cbn [snd] in Hst. rewrite H3 in Hcfg.
  pose proof (startHTTPServer_spec s3 t2 _ Hcfg) as Hspec.
  destruct (startHTTPServer (s3, t2)) as [[[]|] [s4 t4]]; [|done]. injection Hst as _ <- _.
  destruct Hspec as (mux & _ & _ & _ & -> & _). split; [by apply install_server_inv|by eexists].
Qed.

Lemma GoIngress_turn_inv w st r st' :
  GoIngress_step w st = (Returned r, st') → servers_inv st.1 → servers_inv st'.1.
Proof.
  destruct st as [s t], st' as [s' t']. destruct w as [[[bc stage]|]|ok]; intros Hst Hinv.
  - destruct stage as [stage|]; [|by injection Hst as <- <- <-].
    destruct (decide (stage = ConfigStageTelemetryCompleted)) as [->|Hd].
    + by eapply GoIngress_update_inv.
    + revert Hst. unfold GoIngress_step, GoIngress_continue. rewrite decide_True by done.
      by intros [= <- <- <-].
  - by injection Hst as <- <- <-.
  - revert Hst. unfold GoIngress_step, on_fst, mbind, go_bind. cbn [fst snd].
    destruct (shutdown_spec s Hinv) as (s1 & -> & Hinv1 & _). by intros [= <- <- <-].
Qed.

(** What a complete update and a signal leave. *)
Lemma GoIngress_update_contract bc s t :
  servers_inv s →
  let r := GoIngress_step (IngressConfigUpdate (Some (bc, Some ConfigStageTelemetryCompleted))) (s, t) in
  r.1 = Returned false ∧ ingressConfig r.2.1 = Some (cfg_Ingress bc) ∧ servers_inv r.2.1 ∧
    set_up_for (HTTPServer (cfg_Ingress bc)) r.2.1 ∨
  is_panic r.1 = true.
Proof.
  intros Hinv r. destruct r as [[b|p] [s' t']] eqn:E; [|by right]. left. subst r.
  destruct (GoIngress_update_inv _ _ _ _ _ _ E Hinv) as [Hinv' _].
  apply GoIngress_update_Returned in E as (-> & Hc & He & i & mux & Hm & Hi & Hsrv).
  do 4 (split; [done|]). by exists i, Idle, mux.
Qed.

Lemma GoIngress_signal_contract ok s t :
  servers_inv s →
  ∃ s', GoIngress_step (IngressSignal ok) (s, t) = (Returned true, (s', t)) ∧
    ingressConfig s' = ingressConfig s ∧ servers_inv s' ∧ all_shut_down s'.
Proof.
  intros Hinv. destruct (shutdown_spec s Hinv) as (s' & Hs & Hinv' & Hall & Hcfg). exists s'.
  unfold GoIngress_step, on_fst, mbind, go_bind. cbn [fst snd]. by rewrite Hs.
Qed.

(** A goroutine that has yet to serve finds a server. *)
Definition server_made (s : IngressState) : Prop := pending_serves s ≠ 0%nat → is_Some (httpServer s).

Lemma GoIngress_signal_made ok s t :
  server_made s → server_made (GoIngress_step (IngressSignal ok) (s, t)).2.1.
Proof.
  unfold GoIngress_step, shutdownHTTPServer, on_fst, gets, modify, mbind, go_bind. cbn.
  destruct (httpServer s) as [i|] eqn:E; [|done]. intros _. unfold server_made. cbn. by rewrite E.
Qed.

Lemma serve_goroutine_made bound s :
  server_made s → pending_serves s ≠ 0%nat →
  is_panic (serve_goroutine bound s).1 = false ∧ server_made (serve_goroutine bound s).2.
Proof.
  intros Hm Hp. destruct (Hm Hp) as [i Hi].
  unfold serve_goroutine, gets, modify, mbind, go_bind. cbn. rewrite Hi. cbn.
  assert (∀ s' : IngressState, httpServer s' = httpServer s → server_made s') as Hk.
  { intros s' Hs _. rewrite Hs. by eexists. }
  destruct (servers s !! i) as [[srv []]|]; cbn; [destruct bound|..]; split; by try apply Hk.
Qed.

Lemma GoIngress_update_total `{!RegistryLaws} schema bc s t :
  servers_inv s → has_registry schema t →
  Forall (health_fine schema) (Health (HTTPServer (cfg_Ingress bc))) →
  is_panic (mux_handle_all (server_routes (HTTPServer (cfg_Ingress bc))) []) = false →
  let r := GoIngress_step (IngressConfigUpdate (Some (bc, Some ConfigStageTelemetryCompleted))) (s, t) in
  is_panic r.1 = false ∧ has_registry schema r.2.2 ∧ server_made r.2.1.
Proof.
  intros Hinv Hr Hhcs Hm. rewrite GoIngress_update_spec. set (s1 := set_endpoints [] _).
  destruct (add_endpoints_total schema (Health (HTTPServer (cfg_Ingress bc))) s1 t) as ([s2 t2] & E & Hr2);
    [by eexists|done..|].
  rewrite E. apply add_endpoints_Returned in E as (es & _ & ->).
  destruct (shutdown_keeps (set_endpoints (healthEndpoints s1 ++ es) s1)) as (Hc & _).
  set (s3 := (shutdownHTTPServer _).2) in *. clearbody s3. cbn in Hc.
  pose proof (startHTTPServer_spec s3 t2 _ Hc) as Hst. destruct Hr2 as (reg & Hreg & Hfit).
  destruct (registry_fits_HandlerFor schema reg Hfit) as (reg' & Hh & Hfit').
  destruct (startHTTPServer (s3, t2)) as [[[]|] [s4 t4]].
  - destruct Hst as (mux & r1 & r2 & _ & -> & Hr1 & Hr2 & ->). cbn in Hreg. rewrite Hreg in Hr1. injection Hr1 as <-. rewrite Hh in Hr2. injection Hr2 as <-.
    split; [done|]. split; [by exists reg'|]. intros _. by eexists.
  - destruct Hst as [Hp|Hp]; [by rewrite Hm in Hp|by destruct (Hp _ _ Hreg Hh)].
Qed.

(** *** Requests that are answered *)

Definition endpoints_ok (s : IngressState) : Prop :=
  Forall (λ e, is_Some (endpoint_Query e)) (healthEndpoints s).

Lemma HealthQuery_exec_runs reg (e : Engine DB) d q m clock :
  engine_sane e → runs (registry_is reg) (HealthQuery_exec (Some e) (Some d) q m clock) (λ _, True).
Proof.
  intros Hs. destruct q; cbn [HealthQuery_exec].
  all: eapply runs_bind; [apply PreMeasurable_runs|]; intros start ->.
  all: eapply runs_bind; [by (apply InstantQuery_runs || apply RangeQuery_runs)|]; intros r _.
  all: eapply runs_bind; [apply PostMeasurable_runs|]; intros _ _; by apply runs_ret.
Qed.

Lemma healthEndpointHandler_runs reg (e : Engine DB) d es path clock :
  engine_sane e → Forall (λ ep, is_Some (endpoint_Query ep)) es →
  runs (registry_is reg) (healthEndpointHandler (Some e) (Some d) es path clock)
    (λ r, status r = 200 ∨ status r = StatusServiceUnavailable).
Proof.
  intros Hs. induction 1 as [|ep es [q Hq] _ IH]; cbn [healthEndpointHandler].
  { apply runs_ret. by left. }
  case_decide; [|done]. apply (runs_bind _ _ _ (λ _, True)); [by apply (runs_deref _ _ q)|]. intros q' _.
  eapply runs_bind; [by apply HealthQuery_exec_runs|]. intros [b err] _. cbn.
  destruct err; [|destruct b]; apply runs_ret; auto.
Qed.

Lemma engine_sane_answers (e : Engine DB) d q clock : engine_sane e → engine_answers e (Some d) q clock.
Proof.
  intros Hs. unfold engine_answers, engine_result. destruct q.
  - destruct (NewInstantQuery _ _ _ _ _) as [err|x] eqn:E; [by eexists|].
    destruct (proj1 (Hs d _ _ _) _ E) as (res & -> & Hres). eexists. split; [done|]. by intros ? [= <-].
  - destruct (NewRangeQuery _ _ _ _ _ _ _) as [err|x] eqn:E; [by eexists|].
    destruct (proj2 (Hs d _ _ _) _ _ _ E) as (res & -> & Hres). eexists. split; [done|]. by intros ? [= <-].
Qed.

(** A request is answered when the engine and the database are there once there
    is a server. *)
Lemma serve_request_runs (engine : option (Engine DB)) db clock path s t :
  endpoints_ok s →
  (is_Some (httpServer s) → ∃ e, engine = Some e ∧ engine_sane e ∧ is_Some db) →
  ∃ r t', serve_request engine db clock path (s, t) = (Returned r, (s, t')) ∧
    PromRegistry t' = PromRegistry t ∧
    ∀ resp, r = Some (inl resp) → status resp = 200 ∨ status resp = StatusServiceUnavailable.
Proof.
  intros Hes Hen. unfold serve_request, on_fst, on_snd, gets. unfold mbind at 1, go_bind at 1.
  cbn [fst snd id]. destruct (httpServer s) as [i|]; [|by eexists _, _]. cbn [mbind option_bind].
  destruct (Hen ltac:(by eexists)) as (e & -> & Hs & [d ->]).
  destruct (servers s !! i) as [[srv []]|]; [by eexists _, _| |by eexists _, _..].
  destruct (mux_route (server_Handler srv) path) as [pattern []| |]; try by eexists _, _.
  unfold mbind, go_bind. cbn [fst snd].
  destruct (healthEndpointHandler_runs (PromRegistry t) e d (healthEndpoints s) (pathUnescape path) clock
    Hs Hes t eq_refl) as (resp & t' & -> & Ht' & Hresp).
  eexists _, t'. split; [reflexivity|]. split; [done|]. by intros ? [= <-].
Qed.

(** Requests leave the variables of the package alone. *)
Lemma serve_request_state (engine : option (Engine DB)) db clock path st :
  (serve_request engine db clock path st).2.1 = st.1.
Proof.
  destruct st as [s t]. unfold serve_request, on_fst, on_snd, gets, mbind, go_bind. cbn [fst snd id].
  destruct (option_bind _ _ _ _) as [[srv []]|]; [done| |done..].
  destruct (mux_route _ _) as [pattern []| |]; [|done..].
  by destruct (healthEndpointHandler _ _ _ _ _ _) as [[] ?].
Qed.

Lemma wanted_endpoints_ok es hcs :
  endpoint_key <$> es = wanted_endpoints hcs → Forall (λ e, is_Some (endpoint_Query e)) es.
Proof.
  intros Hk. apply Forall_forall. intros e He.
  assert (endpoint_key e ∈ wanted_endpoints hcs) as Hin.
  { rewrite <-Hk. apply list_elem_of_fmap. by exists e. }
  unfold wanted_endpoints in Hin. apply list_elem_of_omap in Hin as (hc & _ & Hq).
  destruct (parsed_query hc); [|done]. injection Hq as _ <-. by eexists.
Qed.

Lemma GoIngress_update_endpoints bc s t :
  let r := GoIngress_step (IngressConfigUpdate (Some (bc, Some ConfigStageTelemetryCompleted))) (s, t) in
  r.1 = Returned false → endpoints_ok r.2.1.
Proof.
  intros r Hr. destruct r as [o [s' t']] eqn:E. cbn in *. subst o.
  apply GoIngress_update_Returned in E as (_ & _ & Hes & _). by eapply wanted_endpoints_ok.
Qed.

Lemma GoIngress_signal_endpoints ok s t :
  let s' := (GoIngress_step (IngressSignal ok) (s, t)).2.1 in
  healthEndpoints s' = healthEndpoints s ∧ httpServer s' = httpServer s.
Proof.
  unfold GoIngress_step, shutdownHTTPServer, on_fst, gets, modify, mbind, go_bind. cbn.
  by destruct (httpServer s) eqn:E.
Qed.

Lemma serve_goroutine_endpoints bound s :
  let s' := (serve_goroutine bound s).2 in
  healthEndpoints s' = healthEndpoints s ∧ httpServer s' = httpServer s.
Proof.
  unfold serve_goroutine, gets, modify, mbind, go_bind. cbn.
  destruct (httpServer s) as [i|] eqn:E; [cbn|done].
  destruct (servers s !! i) as [[srv []]|]; [cbn; by destruct bound|done..].
Qed.

(** *** The server stays that of its configuration *)

Lemma set_status_set_up c st j s : set_up_for c s → set_up_for c (set_server_status st j s).
Proof.
  intros (Hes & i & st' & mux & Hm & Hi & Hsrv). split; [done|]. cbn. destruct (decide (i = j)) as [<-|Hne].
  - exists i, st, mux. by rewrite list_lookup_alter_eq, Hsrv.
  - exists i, st', mux. by rewrite list_lookup_alter_ne.
Qed.

Lemma GoIngress_signal_set_up c ok s t :
  set_up_for c s → set_up_for c (GoIngress_step (IngressSignal ok) (s, t)).2.1.
Proof.
  intros Hs. unfold GoIngress_step, shutdownHTTPServer, on_fst, gets, modify, mbind, go_bind. cbn.
  destruct (httpServer s) as [i|]; [by apply set_status_set_up|done].
Qed.

Lemma serve_goroutine_set_up c bound s : set_up_for c s → set_up_for c (serve_goroutine bound s).2.
Proof.
  intros Hs. assert (set_up_for c (serve_started s)) as Hs' by done.
  unfold serve_goroutine, gets, modify, mbind, go_bind. cbn.
  destruct (httpServer s) as [i|]; [cbn|done].
  destruct (servers s !! i) as [[srv []]|]; [cbn; destruct bound|done..]; [|done].
  by apply set_status_set_up.
Qed.

Lemma serve_goroutine_config bound s : ingressConfig (serve_goroutine bound s).2 = ingressConfig s.
Proof.
  unfold serve_goroutine, gets, modify, mbind, go_bind. cbn.
  destruct (httpServer s) as [i|]; [cbn|done].
  destruct (servers s !! i) as [[srv []]|]; [cbn; by destruct bound|done..].
Qed.

Lemma serve_goroutine_inv bound s s' :
  serve_goroutine bound s = (Returned tt, s') →
  (servers_inv s → servers_inv s') ∧ (all_shut_down s → all_shut_down s').
Proof.
  unfold serve_goroutine, gets, modify, mbind, go_bind. cbn.
  destruct (httpServer s) as [i|] eqn:Ei; cbn; [|done].
  destruct (servers s !! i) as [[srv st]|] eqn:Es; cbn; [|by intros [= <-]; split].
  destruct st; [|by intros [= <-]; split..]. destruct bound; intros [= <-]; [|by split].
  split.
  - unfold servers_inv. cbn. rewrite Ei, length_alter. intros [Hlen Hinv]. split; [done|].
    intros j srv' st' Hj Hne. rewrite list_lookup_alter_ne in Hj by done. by eapply Hinv.
  - unfold all_shut_down. rewrite Forall_lookup. intros Hall. by apply Hall in Es.
Qed.

Lemma ingress_steps_inv st st' :
  rtc ingress_step st st' → servers_inv st.1 → servers_inv st'.1.
Proof.
  induction 1 as [|st1 st2 st3 Hstep _ IH]; [done|]. intros Hinv. apply IH.
  destruct Hstep as [w st1 r st2 Hs|b s1 t1 s2 _ Hs].
  - by eapply GoIngress_turn_inv.
  - by eapply serve_goroutine_inv.
Qed.

(** C13: at most one server listens, and it is the current one.  Whatever the
    order of updates, signals and server goroutines, a server that listens is
    the one made by the last update: every earlier one was shut down before
    it was replaced, even when its goroutine ran late. *)
Theorem one_server_listens t0 s t i srv :
  rtc ingress_step (init_ingress, t0) (s, t) →
  servers s !! i = Some (srv, Listening) →
  httpServer s = Some i ∧ List.length (servers s) = S i.
Proof.
  intros Hrtc Hi.
  assert (servers_inv s) as Hinv.
  { by apply ingress_steps_inv in Hrtc. }
  unfold servers_inv in Hinv. destruct (httpServer s) as [k|].
  - destruct Hinv as [Hlen Hinv]. destruct (decide (i = k)) as [->|Hne]; [done|].
    by specialize (Hinv _ _ _ Hi Hne).
  - by rewrite Hinv in Hi.
Qed.

(** C31: after a signal the server is down for good: the goroutine returns with
    every server shut down, and a goroutine of [startHTTPServer] that runs
    only then does not start one again. *)
Theorem shutdown_is_final ok s t :
  servers_inv s →
  ∃ s', GoIngress_step (IngressSignal ok) (s, t) = (Returned true, (s', t)) ∧
    ∀ bounds s'', range_loop serve_goroutine bounds s' = (Returned tt, s'') →
      Forall (λ x, x.2 = ShutDown) (servers s'').
Proof.
  intros Hinv. destruct (shutdown_spec s Hinv) as (s' & Hs & _ & Hall & _).
  exists s'. split.
  { unfold GoIngress_step, on_fst, mbind, go_bind. cbn [fst snd]. by rewrite Hs. }
  intros bounds. clear Hs. revert s' Hall; induction bounds as [|b bounds IH]; intros s' Hall s''; cbn.
  { by intros [= <-]. }
  unfold mbind, go_bind. destruct (serve_goroutine b s') as [[[]|] s1] eqn:E; [|done].
  apply serve_goroutine_inv in E as [_ E]. by apply IH, E.
Qed.

(** a health endpoint without a metrics block crashes the program: the
    configuration's pointer is dereferenced without a check. *)
Theorem endpoint_without_metrics_panics meter hc t :
  health_Metrics hc = None →
  is_Some (health_InstantQuery hc) ∧ health_RangeQuery hc = None ∨
  is_Some (health_RangeQuery hc) ∧ health_InstantQuery hc = None →
  newHealthEndpoint meter hc t = (Panicked NilDereference, t).
Proof.
  intros Hm [[[c Hc] Hn]|[[c Hc] Hn]]; pose proof (newQuery_parsed hc) as Hq;
    unfold newHealthEndpoint, of_outcome, mbind, go_bind; rewrite Hc, Hn in *;
    destruct Hq as (r & -> & _); by rewrite Hm.
Qed.

(** measuring a health query.  Every run counts one attempt; it counts a
    success and its response time exactly when the query gave an answer, also
    when the answer is "unhealthy"; the context is cancelled and the query
    closed. *)
Theorem HealthQuery_exec_measures (e : Engine DB) db q m clock t r t' :
  HealthQuery_exec (Some e) db q m clock t = (Returned r, t') →
  calls t' = calls t ++ attempt_calls m ++ [ContextCancel] ++
    (match engine_result e db q clock with Returned (inr _) => [QueryClose] | _ => [] end) ++
    (match r.2 with None => success_calls m (clock 2%nat) (clock 4%nat) | Some _ => [] end).
Proof.
  intros Hrun. pose proof (HealthQuery_exec_run e db q m clock t) as H'.
  destruct (engine_result e db q clock) as [[err|res]|p].
  - destruct H' as (t1 & Hr & Hc). rewrite Hrun in Hr. simplify_eq. by rewrite Hc.
  - destruct (handleQueryResult res) as [r'|p].
    + destruct H' as (t1 & Hr & Hc). rewrite Hrun in Hr. simplify_eq. by rewrite Hc.
    + destruct H' as (t1 & Hr). rewrite Hrun in Hr. by simplify_eq.
  - destruct H' as (t1 & Hr). rewrite Hrun in Hr. by simplify_eq.
Qed.

End servers.

(** ** Witnesses *)

Definition toy_metrics : IngressHealthEndpointMetricsConfig :=
  mkIngressHealthEndpointMetricsConfig (mkMetricsConfig true "h" []) (mkMetricsConfig false "" [])
    (mkMetricsConfig false "" []).
(** A valid endpoint, and one whose timeout has no unit. *)
Definition good_health : HealthConfig :=
  mkHealthConfig "health" (Some (mkInstantQueryConfig "5s" "-1m" "up")) None (Some toy_metrics).
Definition bad_health : HealthConfig :=
  mkHealthConfig "/bad" (Some (mkInstantQueryConfig "5" "-1m" "up")) None (Some toy_metrics).

Definition toy_ingress (hcs : list HealthConfig) : BunnyConfig :=
  mkBunnyConfig zeroEgressConfig
    (mkIngressConfig (mkHTTPServerConfig 1312 5000 5000 10000 2000 10000
       "otel-metrics" "prom-metrics" hcs)) zeroSignalsConfig zeroTelemetryConfig.

Definition toy_update (hcs : list HealthConfig) :=
  @GoIngress_step toy_libs ascii_tables
    (IngressConfigUpdate (Some (toy_ingress hcs, Some ConfigStageTelemetryCompleted)))
    (init_ingress, toy_telem).

Lemma toy_update_returns :
  toy_update [good_health; bad_health] =
  (Returned false, ((toy_update [good_health; bad_health]).2.1,
                    (toy_update [good_health; bad_health]).2.2)).
Proof. reflexivity. Qed.

Definition toy_clock (n : nat) : Z := Z.of_nat n.

Definition toy_starting (hcs : list HealthConfig) : IngressState :=
  mkIngress (Some (cfg_Ingress (toy_ingress hcs))) None None [] [] 0.

(** The second path is the first one with its slash; the third has a blank. *)
Lemma startHTTPServer_conflict_iff_witness :
  let start hcs := (@startHTTPServer toy_libs ascii_tables (toy_starting hcs, toy_telem)).1 in
  is_panic (start [good_health; mkHealthConfig "/health" None None None]) = true ∧
  is_panic (start [good_health; mkHealthConfig "/a b" None None None]) = true ∧
  is_panic (start [good_health; bad_health]) = false.
Proof.
  intros start. split_and!.
  - apply (@startHTTPServer_conflict_iff toy_libs ascii_tables (toy_starting [good_health; mkHealthConfig "/health" None None None])
      toy_telem _ eq_refl). left.
    intros [Hnin _]%NoDup_cons. apply Hnin. left.
  - apply (@startHTTPServer_conflict_iff toy_libs ascii_tables (toy_starting [good_health; mkHealthConfig "/a b" None None None])
      toy_telem _ eq_refl). right.
    right. left. left. by apply (bool_decide_unpack _).
  - apply (@startHTTPServer_conflict_iff toy_libs ascii_tables (toy_starting [good_health; bad_health])
      toy_telem _ eq_refl).
    + by apply (bool_decide_unpack _).
    + by apply (bool_decide_unpack _).
    + eexists _, _. split; reflexivity.
Defined.

(** Nothing in the paths of the examples needs unescaping. *)
Lemma toy_unambiguous path :
  cleanPath path = path → plain_path path →
  unambiguous (server_routes (HTTPServer (cfg_Ingress (toy_ingress [good_health; bad_health])))).*1 path.
Proof. intros Hc Hp. split_and!; [done..|]. intros _. by apply (bool_decide_unpack _). Qed.


Lemma invalid_endpoint_answers_200_witness :
  let u := toy_update [good_health; bad_health] in
  ∃ r, @serve_request toy_libs unit (Some scalar_engine) (Some tt) toy_clock "/bad"
      ((serve_goroutine true u.2.1).2, toy_telem)
      = (Returned (Some (inl r)), ((serve_goroutine true u.2.1).2, toy_telem)) ∧
    status r = 200 ∧ body r = "".
Proof.
  apply (@invalid_endpoint_answers_200 toy_libs ascii_tables unit (Some scalar_engine) (Some tt) toy_clock
    (toy_ingress [good_health; bad_health]) init_ingress toy_telem _ _ toy_telem bad_health
    toy_update_returns); [right; left|reflexivity|].
  apply toy_unambiguous; [reflexivity|]. by apply (bool_decide_unpack _).
Defined.

Lemma one_server_listens_witness :
  let s := (serve_goroutine true (toy_update [good_health; bad_health]).2.1).2 in
  httpServer s = Some 0%nat ∧ List.length (servers s) = 1%nat.
Proof.
  eapply (@one_server_listens toy_libs ascii_tables toy_telem _
    (toy_update [good_health; bad_health]).2.2 0%nat).
  - eapply rtc_l; [exact (ingress_turn _ _ _ _ toy_update_returns)|].
    eapply rtc_l; [|apply rtc_refl].
    apply (ingress_serve true); [|reflexivity]. vm_compute. lia.
  - reflexivity.
Defined.

(** A server listens, and a goroutine of an earlier one has not run yet. *)
Definition toy_listening : IngressState :=
  let srv := server_for (HTTPServer (cfg_Ingress generateDefaultConfig)) [] in
  mkIngress None None (Some 1%nat) [] [(srv, ShutDown); (srv, Listening)] 1.

Lemma shutdown_is_final_witness :
  ∃ s', @GoIngress_step toy_libs ascii_tables (IngressSignal true) (toy_listening, toy_telem)
        = (Returned true, (s', toy_telem)) ∧
    ∀ bounds s'', range_loop serve_goroutine bounds s' = (Returned tt, s'') →
      Forall (λ x, x.2 = ShutDown) (servers s'').
Proof.
  apply (@shutdown_is_final toy_libs ascii_tables). split; [reflexivity|].
  intros [|[|j]] srv st Hj Hne; [by injection Hj|by destruct Hne|discriminate].
Defined.

Lemma endpoint_without_metrics_panics_witness :
  @newHealthEndpoint toy_libs (Some "bunny/ingress")
    (mkHealthConfig "health" (Some (mkInstantQueryConfig "5s" "-1m" "up")) None None) toy_telem
  = (Panicked NilDereference, toy_telem).
Proof.
  apply endpoint_without_metrics_panics; [reflexivity|]. left. split; [by eexists|reflexivity].
Defined.

Lemma HealthQuery_exec_measures_witness :
  ∃ t', @HealthQuery_exec toy_libs unit (Some scalar_engine) (Some tt) (IngressInstantQuery 5 0 "up")
          measure_ars toy_clock toy_telem = (Returned (true, None), t') ∧
    calls t' = attempt_calls measure_ars ++ [ContextCancel; QueryClose] ++
               success_calls measure_ars 2 4.
Proof.
  eexists. split; [reflexivity|].
  rewrite (@HealthQuery_exec_measures toy_libs unit scalar_engine (Some tt) (IngressInstantQuery 5 0 "up")
    measure_ars toy_clock toy_telem (true, None) _ eq_refl). reflexivity.
Defined.
