(* ===== verification/Signals.v ===== *)
(** * signals/signals.go: waiting for the watched process and forwarding signals

    The process list (github.com/shirou/gopsutil) is outside the program: one
    call of [process.Processes()] together with the [Cmdline()] of its
    processes is a [snapshot], and the wait is a function of the successive
    snapshots. *)

From S2P Require Import Prelude GoStd Config.
From Stdlib Require Import Ascii String.

Local Open Scope Z_scope.

(** ** Data *)

(** The error of the listing, and for each process its command line with the
    error of reading it (the text that came with an error is still used). *)
Record snapshot := mkSnapshot {
  processes_err : option error;
  processes : list (string * option error) }.

(** What a turn of the loop does: go on, keep waiting for the process to end,
    or return. *)
Inductive signals_turn := SignalsContinue | SignalsWaiting | SignalsReturn.

Section signals.
Context `{Regexp} {Chan Signal : Type}.

Record SignalsState := mkSignals {
  osSignalListenerChannels : list Chan;
  signalsConfig : option SignalsConfig;
  watchedProcessCommandLineRegEx : option regexp;
  signals_sent : list (Chan * Signal) }.

Definition init_signals : SignalsState := mkSignals [] None None [].

Definition AddSignalListener (ch : Chan) (s : SignalsState) : SignalsState :=
  mkSignals (osSignalListenerChannels s ++ [ch]) (signalsConfig s)
    (watchedProcessCommandLineRegEx s) (signals_sent s).

(** ** Waiting *)

(** The scan of one snapshot stops at the first match. *)
Fixpoint process_found (re : regexp) (ps : list (string * option error)) : bool :=
  match ps with
  | [] => false
  | (commandLine, _) :: ps' =>
      if MatchString re (to_bytes commandLine) then true else process_found re ps'
  end.

(** The loop over the successive snapshots: the number of seconds slept, or
    [None] when the process is still there in all of them. *)
Fixpoint waitForProcess_loop (re : regexp) (snaps : list snapshot) : option nat :=
  match snaps with
  | [] => None
  | snap :: snaps' =>
      if process_found re (processes snap) then S <$> waitForProcess_loop re snaps'
      else Some 0%nat
  end.

Definition waitForProcess (re : option regexp) (snaps : list snapshot) : option nat :=
  match re with
  | None => Some 0%nat
  | Some re => waitForProcess_loop re snaps
  end.

(** ** The goroutine *)

Inductive signals_wakeup :=
| SignalsConfigUpdate (received : option BunnyConfig)
| OSSignal (sig : Signal) (snaps : list snapshot).

Definition set_watched (c : SignalsConfig) (re : option regexp) (s : SignalsState) : SignalsState :=
  mkSignals (osSignalListenerChannels s) (Some c) re (signals_sent s).
Definition send_signal (sig : Signal) (s : SignalsState) (ch : Chan) : SignalsState :=
  mkSignals (osSignalListenerChannels s) (signalsConfig s) (watchedProcessCommandLineRegEx s)
    (signals_sent s ++ [(ch, sig)]).

(** [regexp.Compile] leaves nil in the variable on an error. *)
Definition GoSignals_step (w : signals_wakeup) (s : SignalsState) : signals_turn * SignalsState :=
  match w with
  | SignalsConfigUpdate None => (SignalsContinue, s)
  | SignalsConfigUpdate (Some bunnyConfig) =>
      let c := cfg_Signals bunnyConfig in
      match WatchedProcessCommandLineRegEx c with
      | None => (SignalsContinue, set_watched c (watchedProcessCommandLineRegEx s) s)
      | Some src =>
          match regexp_Compile src with
          | inl _ => (SignalsContinue, set_watched c None s)
          | inr re => (SignalsContinue, set_watched c (Some re) s)
          end
      end
  | OSSignal sig snaps =>
      match waitForProcess (watchedProcessCommandLineRegEx s) snaps with
      | None => (SignalsWaiting, s)
      | Some _ => (SignalsReturn, foldl (send_signal sig) s (osSignalListenerChannels s))
      end
  end.

(** The configurations that arrive before a signal does. *)
Definition apply_updates (cfgs : list BunnyConfig) (s : SignalsState) : SignalsState :=
  foldl (λ s c, (GoSignals_step (SignalsConfigUpdate (Some c)) s).2) s cfgs.

(** ** Lemmas *)

Lemma process_found_true re ps :
  process_found re ps = true ↔ Exists (λ p, MatchString re (to_bytes p.1) = true) ps.
Proof.
  induction ps as [|[cl e] ps IH]; cbn; [by rewrite Exists_nil|].
  rewrite Exists_cons, <-IH. cbn. destruct (MatchString re _); naive_solver.
Qed.

Lemma waitForProcess_loop_Some re snaps n :
  waitForProcess_loop re snaps = Some n ↔
  ∃ before snap after, snaps = before ++ snap :: after ∧ List.length before = n ∧
    Forall (λ sn, process_found re (processes sn) = true) before ∧
    process_found re (processes snap) = false.
Proof.
  revert n; induction snaps as [|sn snaps IH]; intros n; cbn.
  { split; [done|]. by intros ([] & ? & ? & [=] & _). }
  destruct (process_found re (processes sn)) eqn:E.
  - split.
    + destruct (waitForProcess_loop re snaps) as [k|]; [|done]. intros [= <-].
      destruct (proj1 (IH k) eq_refl) as (b & x & a & -> & Hl & Hb & Hx).
      exists (sn :: b), x, a. cbn. split_and!; [done|by rewrite Hl|by constructor|done].
    + intros ([|sn' b] & x & a & [= -> ->] & Hl & Hb & Hx); [congruence|].
      apply Forall_cons in Hb as [_ Hb]. destruct n as [|n]; [done|].
      rewrite (proj2 (IH n)); [done|]. exists b, x, a. by injection Hl.
  - split.
    + intros [= <-]. by exists [], sn, snaps.
    + intros ([|sn' b] & x & a & [= -> ->] & Hl & Hb & Hx); cbn in Hl; [by subst|].
      apply Forall_cons in Hb as [? _]. congruence.
Qed.

Lemma send_signals sig chans s :
  foldl (send_signal sig) s chans =
  mkSignals (osSignalListenerChannels s) (signalsConfig s) (watchedProcessCommandLineRegEx s)
    (signals_sent s ++ ((., sig) <$> chans)).
Proof.
  revert s; induction chans as [|ch chans IH]; intros s; cbn.
  - rewrite app_nil_r. by destruct s.
  - rewrite IH. cbn. by rewrite <-app_assoc.
Qed.

(** The expression in force after a sequence of configurations: that of the last
    one that had one, if it compiles. *)
Definition compiled (src : string) : option regexp :=
  match regexp_Compile src with inl _ => None | inr re => Some re end.
Definition watched_by (cfgs : list BunnyConfig) : option regexp :=
  last (omap (λ c, WatchedProcessCommandLineRegEx (cfg_Signals c)) cfgs) ≫= compiled.

(** What a turn of [GoSignals] leaves: a configuration is taken as it is; a
    signal goes to every listener, or nothing happens. *)
Lemma GoSignals_update_contract c s cfgs :
  watchedProcessCommandLineRegEx s = watched_by cfgs →
  GoSignals_step (SignalsConfigUpdate (Some c)) s =
  (SignalsContinue, set_watched (cfg_Signals c) (watched_by (cfgs ++ [c])) s).
Proof.
  intros Hs. unfold watched_by, compiled. rewrite omap_app. cbn.
  destruct (WatchedProcessCommandLineRegEx _) as [src|]; cbn.
  - rewrite last_snoc. cbn. by destruct (regexp_Compile src).
  - by rewrite app_nil_r, Hs.
Qed.

Lemma GoSignals_signal_contract sig snaps s :
  GoSignals_step (OSSignal sig snaps) s = (SignalsWaiting, s) ∨
  GoSignals_step (OSSignal sig snaps) s =
    (SignalsReturn, mkSignals (osSignalListenerChannels s) (signalsConfig s)
       (watchedProcessCommandLineRegEx s)
       (signals_sent s ++ ((., sig) <$> osSignalListenerChannels s))).
Proof.
  unfold GoSignals_step. destruct (waitForProcess _ _); [right|by left]. by rewrite send_signals.
Qed.

(** ** Theorems *)

(** C21: a signal is forwarded when the watched process is gone, and not before.
    With an expression set, the goroutine waits through every snapshot that
    has a process whose command line matches, sleeping a second after each;
    at the first one that has none it sends the signal to every listener
    once, in the order of registration, and returns; as long as there is none
    it has sent nothing. *)
Theorem signal_forwarded_when_process_gone re sig snaps s :
  watchedProcessCommandLineRegEx s = Some re →
  let matches sn := Exists (λ p, MatchString re (to_bytes p.1) = true) (processes sn) in
  (∃ before snap after, snaps = before ++ snap :: after ∧ Forall matches before ∧
     ¬ matches snap ∧ waitForProcess (Some re) snaps = Some (List.length before) ∧
     GoSignals_step (OSSignal sig snaps) s =
     (SignalsReturn, mkSignals (osSignalListenerChannels s) (signalsConfig s) (Some re)
        (signals_sent s ++ ((., sig) <$> osSignalListenerChannels s)))) ∨
  (Forall matches snaps ∧ GoSignals_step (OSSignal sig snaps) s = (SignalsWaiting, s)).
Proof.
  intros Hre matches. unfold GoSignals_step. rewrite Hre. cbn [waitForProcess].
  destruct (waitForProcess_loop re snaps) as [n|] eqn:E.
  - left. apply waitForProcess_loop_Some in E as (b & x & a & -> & <- & Hb & Hx).
    exists b, x, a. split_and!; try done.
    + eapply Forall_impl; [exact Hb|]. intros sn. apply process_found_true.
    + unfold matches. rewrite <-process_found_true. by rewrite Hx.
    + by rewrite send_signals, Hre.
  - right. split; [|done]. clear Hre. induction snaps as [|sn snaps IH]; [constructor|].
    cbn in E. destruct (process_found re (processes sn)) eqn:Ef; [|done].
    constructor; [by apply process_found_true|]. apply IH.
    by destruct (waitForProcess_loop re snaps).
Qed.

(** which process is watched.  After any sequence of configurations, the
    expression in force is the one of the last configuration that had one,
    or none if that one does not compile; configurations without one change
    nothing, so that an expression cannot be removed by a reload. *)
Theorem watched_expression cfgs s :
  watchedProcessCommandLineRegEx (apply_updates cfgs s) =
  match last (omap (λ c, WatchedProcessCommandLineRegEx (cfg_Signals c)) cfgs) with
  | None => watchedProcessCommandLineRegEx s
  | Some src => match regexp_Compile src with inl _ => None | inr re => Some re end
  end.
Proof.
  unfold apply_updates. induction cfgs as [|c cfgs IH] using rev_ind; [done|].
  rewrite foldl_app, omap_app. cbn.
  destruct (WatchedProcessCommandLineRegEx (cfg_Signals c)) as [src|]; cbn.
  - rewrite last_snoc. by destruct (regexp_Compile src).
  - by rewrite app_nil_r.
Qed.

(** a failed listing counts as the end of the process: when
    [process.Processes()] fails and returns no processes, the signal is
    forwarded at once although the watched process may be running. *)
Theorem listing_error_ends_wait sig e rest s :
  GoSignals_step (OSSignal sig (mkSnapshot (Some e) [] :: rest)) s =
  (SignalsReturn, mkSignals (osSignalListenerChannels s) (signalsConfig s)
     (watchedProcessCommandLineRegEx s)
     (signals_sent s ++ ((., sig) <$> osSignalListenerChannels s))).
Proof.
  unfold GoSignals_step. destruct (watchedProcessCommandLineRegEx s) as [re|] eqn:E; cbn;
    by rewrite send_signals, E.
Qed.

End signals.

(** ** Witnesses *)

(** An application that ends after two seconds. *)
Lemma signal_forwarded_when_process_gone_witness :
  let re : @regexp simple_regexp :=
    ("mya", [(Literal "m", false); (Literal "y", false); (Literal "a", false)]) in
  let s := @mkSignals simple_regexp nat nat [1%nat; 2%nat] None (Some re) [] in
  let up := mkSnapshot None [("/bunny", None); ("/bin/myapp -v", None)] in
  let down := mkSnapshot None [("/bunny", None)] in
  @waitForProcess simple_regexp (Some re) [up; up; down] = Some 2%nat ∧
  signals_sent (GoSignals_step (OSSignal 15%nat [up; up; down]) s).2
    = [(1%nat, 15%nat); (2%nat, 15%nat)].
Proof.
  intros re s up down. split; [reflexivity|].
  destruct (@signal_forwarded_when_process_gone simple_regexp nat nat re 15%nat [up; up; down] s
    eq_refl) as [(b & x & a & _ & _ & _ & _ & ->)|[Hall _]]; [reflexivity|].
  exfalso. do 2 apply Forall_inv_tail in Hall. apply Forall_inv in Hall.
  apply process_found_true in Hall. discriminate.
Defined.
