(* ===== verification/System.v ===== *)
(** * main.go: the goroutines and the channels between them

    [main] wires the channels, starts the five goroutines and waits for them.
    Each channel has room for one element.  A state has the program counter
    of every goroutine, the contents of the channels and the wait group; a
    label says which goroutine moves, and [exec_step] moves it, or is [None]
    where it blocks.  What a goroutine does between two channel operations is
    the subject of the other files: here a configuration is its number, and
    [applied], [sent] and [configured] count what has been done with it. *)

From stdpp Require Import functions.
From S2P Require Import Prelude.

(** ** Goroutines, channels, states *)

Inductive comp := Config_ | Egress_ | Ingress_ | Telemetry_ | Signals_.

#[global] Instance comp_eq_dec : EqDecision comp.
Proof. solve_decision. Defined.

(** The calls of [AddChannelListener] in [main], in their order. *)
Definition config_listeners : list comp := [Egress_; Ingress_; Signals_; Telemetry_].
Definition stage_listeners : list comp := [Egress_; Ingress_].
Definition signal_listeners : list comp := [Config_; Egress_; Ingress_; Telemetry_].

(** What is left of [main]. *)
Inductive main_action := Start (c : comp) | WgAdd | WgWait.
Definition main_actions : list main_action :=
  [Start Config_; WgAdd; Start Egress_; WgAdd; Start Ingress_; WgAdd;
   Start Telemetry_; WgAdd; Start Signals_; WgAdd; WgWait].

(** [GoConfig]: sending configuration [k] to the channels that are left, or in
    its [select]. *)
Inductive config_pc := COff | CSend (k : nat) (todo : list comp) | CIdle (k : nat) | CDone.
(** [GoEgress] and [GoIngress]: in the [select], or holding configuration [k]
    and waiting for telemetry's stage. *)
Inductive worker_pc := WOff | WIdle | WStage (k : nat) | WDone.
(** [GoTelemetry]: in the [select], or announcing configuration [k]. *)
Inductive telemetry_pc := TOff | TIdle | TSend (k : nat) (todo : list comp) | TDone.
(** [GoSignals]: in the [select], waiting for the watched process, or
    forwarding. *)
Inductive signals_pc := SOff | SIdle | SWait | SSend (todo : list comp) | SDone.

Record sys := mkSys {
  main_pc : list main_action;
  wg : Z;
  crashed : bool;
  cfg : config_pc;
  wrk : comp → worker_pc;
  tel : telemetry_pc;
  sgn : signals_pc;
  upd : comp → option nat;   (* the ConfigUpdateChannel of a package *)
  stg : comp → bool;         (* its ConfigStageChannel holds an element *)
  osg : comp → bool;         (* its OSSignalsChannel holds an element *)
  sent : comp → nat;         (* configurations sent to a package *)
  applied : comp → nat;      (* configurations applied by a package *)
  configured : nat }.        (* configurations telemetry has set up *)

Definition init_sys : sys :=
  mkSys main_actions 0 false COff (λ _, WOff) TOff SOff (λ _, None) (λ _, false) (λ _, false)
    (λ _, 0) (λ _, 0) 0.

Definition set_main m s := mkSys m (wg s) (crashed s) (cfg s) (wrk s) (tel s) (sgn s) (upd s)
  (stg s) (osg s) (sent s) (applied s) (configured s).
Definition set_wg w s := mkSys (main_pc s) w (crashed s) (cfg s) (wrk s) (tel s) (sgn s) (upd s)
  (stg s) (osg s) (sent s) (applied s) (configured s).
Definition set_crashed s := mkSys (main_pc s) (wg s) true (cfg s) (wrk s) (tel s) (sgn s) (upd s)
  (stg s) (osg s) (sent s) (applied s) (configured s).
Definition set_cfg x s := mkSys (main_pc s) (wg s) (crashed s) x (wrk s) (tel s) (sgn s) (upd s)
  (stg s) (osg s) (sent s) (applied s) (configured s).
Definition set_wrk (c : comp) x s := mkSys (main_pc s) (wg s) (crashed s) (cfg s) (<[c := x]> (wrk s))
  (tel s) (sgn s) (upd s) (stg s) (osg s) (sent s) (applied s) (configured s).
Definition set_tel x s := mkSys (main_pc s) (wg s) (crashed s) (cfg s) (wrk s) x (sgn s) (upd s)
  (stg s) (osg s) (sent s) (applied s) (configured s).
Definition set_sgn x s := mkSys (main_pc s) (wg s) (crashed s) (cfg s) (wrk s) (tel s) x (upd s)
  (stg s) (osg s) (sent s) (applied s) (configured s).
Definition set_upd (c : comp) x s := mkSys (main_pc s) (wg s) (crashed s) (cfg s) (wrk s) (tel s) (sgn s)
  (<[c := x]> (upd s)) (stg s) (osg s) (sent s) (applied s) (configured s).
Definition set_stg (c : comp) x s := mkSys (main_pc s) (wg s) (crashed s) (cfg s) (wrk s) (tel s) (sgn s)
  (upd s) (<[c := x]> (stg s)) (osg s) (sent s) (applied s) (configured s).
Definition set_osg (c : comp) x s := mkSys (main_pc s) (wg s) (crashed s) (cfg s) (wrk s) (tel s) (sgn s)
  (upd s) (stg s) (<[c := x]> (osg s)) (sent s) (applied s) (configured s).
Definition set_sent (c : comp) x s := mkSys (main_pc s) (wg s) (crashed s) (cfg s) (wrk s) (tel s) (sgn s)
  (upd s) (stg s) (osg s) (<[c := x]> (sent s)) (applied s) (configured s).
Definition set_applied (c : comp) x s := mkSys (main_pc s) (wg s) (crashed s) (cfg s) (wrk s) (tel s)
  (sgn s) (upd s) (stg s) (osg s) (sent s) (<[c := x]> (applied s)) (configured s).
Definition set_configured x s := mkSys (main_pc s) (wg s) (crashed s) (cfg s) (wrk s) (tel s)
  (sgn s) (upd s) (stg s) (osg s) (sent s) (applied s) x.

(** ** Steps *)

(** The deferred [wg.Done()]: a negative counter panics. *)
Definition wg_Done (s : sys) : sys :=
  let w := (wg s - 1)%Z in
  if (w <? 0)%Z then set_crashed (set_wg w s) else set_wg w s.

Inductive label :=
| LMain          (* the next action of main *)
| LConfigSend    (* GoConfig sends to the next channel *)
| LReload        (* GoConfig sees a changed file *)
| LRecv (c : comp)   (* egress, ingress or telemetry or signals receives a configuration *)
| LStage (c : comp)  (* egress or ingress receives the stage *)
| LAnnounce      (* telemetry sends the stage to the next channel *)
| LSignal (c : comp) (* a goroutine receives the signal and returns *)
| LOSSignal      (* GoSignals receives a signal of the operating system *)
| LProcessGone   (* the watched process is gone *)
| LForward.      (* GoSignals sends the signal to the next channel *)

#[global] Instance label_eq_dec : EqDecision label.
Proof. solve_decision. Defined.

Definition start_goroutine (c : comp) (s : sys) : sys :=
  match c with
  | Config_ => set_cfg (CSend 1 config_listeners) s
  | Egress_ | Ingress_ => set_wrk c WIdle s
  | Telemetry_ => set_tel TIdle s
  | Signals_ => set_sgn SIdle s
  end.

Definition step_main (s : sys) : option sys :=
  match main_pc s with
  | Start c :: rest => Some (set_main rest (start_goroutine c s))
  | WgAdd :: rest => Some (set_main rest (set_wg (wg s + 1) s))
  | WgWait :: rest => if (wg s =? 0)%Z then Some (set_main rest s) else None
  | [] => None
  end.

Definition step_recv (c : comp) (s : sys) : option sys :=
  match upd s c with
  | None => None
  | Some k =>
      match c with
      | Egress_ | Ingress_ =>
          match wrk s c with WIdle => Some (set_wrk c (WStage k) (set_upd c None s)) | _ => None end
      | Telemetry_ =>
          match tel s with
          | TIdle => Some (set_configured k (set_tel (TSend k stage_listeners) (set_upd c None s)))
          | _ => None
          end
      | Signals_ => match sgn s with SIdle => Some (set_upd c None s) | _ => None end
      | Config_ => None
      end
  end.

Definition step_stage (c : comp) (s : sys) : option sys :=
  match c, wrk s c with
  | (Egress_ | Ingress_), WStage k =>
      if stg s c then Some (set_applied c k (set_wrk c WIdle (set_stg c false s))) else None
  | _, _ => None
  end.

Definition step_signal (c : comp) (s : sys) : option sys :=
  if osg s c then
    match c with
    | Config_ =>
        match cfg s with CIdle _ => Some (wg_Done (set_cfg CDone (set_osg c false s))) | _ => None end
    | Egress_ | Ingress_ =>
        match wrk s c with WIdle => Some (wg_Done (set_wrk c WDone (set_osg c false s))) | _ => None end
    | Telemetry_ =>
        match tel s with TIdle => Some (wg_Done (set_tel TDone (set_osg c false s))) | _ => None end
    | Signals_ => None
    end
  else None.

(** [GoConfig] sends to the next channel; the channel may be full. *)
Definition step_config_send (s : sys) : option sys :=
  match cfg s with
  | CSend k (c :: todo) =>
      match upd s c with
      | None => Some (set_sent c k (set_upd c (Some k)
                  (set_cfg (match todo with [] => CIdle k | _ => CSend k todo end) s)))
      | Some _ => None
      end
  | _ => None
  end.

(** [configureTelemetry] announces its stage to the next channel. *)
Definition step_announce (s : sys) : option sys :=
  match tel s with
  | TSend k (c :: todo) =>
      if stg s c then None
      else Some (set_stg c true
             (set_tel (match todo with [] => TIdle | _ => TSend k todo end) s))
  | _ => None
  end.

(** [GoSignals] forwards the signal to the next channel, and returns after the
    last one. *)
Definition step_forward (s : sys) : option sys :=
  match sgn s with
  | SSend (c :: todo) =>
      if osg s c then None
      else
        let s' := set_osg c true s in
        Some (match todo with
              | [] => wg_Done (set_sgn SDone s')
              | _ => set_sgn (SSend todo) s'
              end)
  | _ => None
  end.

(** One step of the program: the next channel operation of one goroutine. *)
Definition exec_step (l : label) (s : sys) : option sys :=
  if crashed s then None else
  match l with
  | LMain => step_main s
  | LConfigSend => step_config_send s
  | LReload =>
      match cfg s with CIdle k => Some (set_cfg (CSend (S k) config_listeners) s) | _ => None end
  | LRecv c => step_recv c s
  | LStage c => step_stage c s
  | LAnnounce => step_announce s
  | LSignal c => step_signal c s
  | LOSSignal => match sgn s with SIdle => Some (set_sgn SWait s) | _ => None end
  | LProcessGone =>
      match sgn s with SWait => Some (set_sgn (SSend signal_listeners) s) | _ => None end
  | LForward => step_forward s
  end.

Fixpoint exec (ls : list label) (s : sys) : option sys :=
  match ls with
  | [] => Some s
  | l :: ls' => s' ← exec_step l s; exec ls' s'
  end.

(** A state some schedule reaches. *)
Definition reachable (s : sys) : Prop := ∃ ls, exec ls init_sys = Some s.

(** Every goroutine and [main] have returned. *)
Definition finished (s : sys) : Prop :=
  cfg s = CDone ∧ wrk s Egress_ = WDone ∧ wrk s Ingress_ = WDone ∧ tel s = TDone ∧
  sgn s = SDone ∧ main_pc s = [].

(** ** The invariant *)

Definition is_worker (c : comp) : Prop := c = Egress_ ∨ c = Ingress_.

(** The configuration [GoConfig] has sent to a channel it has yet to send to,
    and to the others. *)
Definition config_sent (pc : config_pc) (f : comp → nat) : Prop :=
  match pc with
  | COff => ∀ c, f c = 0
  | CSend k todo => 1 ≤ k ∧ NoDup todo ∧ (∀ c, c ∈ todo → c ∈ config_listeners ∧ f c = k - 1) ∧
      (∀ c, c ∈ config_listeners → c ∉ todo → f c = k)
  | CIdle k => ∀ c, c ∈ config_listeners → f c = k
  | CDone => True
  end.

(** The stages telemetry has sent to a worker, after [n] configurations. *)
Definition announced (pc : telemetry_pc) (n : nat) (c : comp) : nat :=
  match pc with TSend k todo => if decide (c ∈ todo) then n - 1 else n | _ => n end.

(** The configurations a worker has taken from its channel. *)
Definition taken (s : sys) (c : comp) : nat :=
  match upd s c with Some _ => sent s c - 1 | None => sent s c end.

Record inv (s : sys) : Prop := mkInv {
  inv_config : config_sent (cfg s) (sent s);
  inv_upd c k : upd s c = Some k → k = sent s c ∧ 1 ≤ k;
  inv_tel_taken : configured s = taken s Telemetry_;
  inv_tel : match tel s with
            | TSend k todo => k = configured s ∧ 1 ≤ k ∧ NoDup todo ∧
                (∀ c, c ∈ todo → is_worker c)
            | _ => True
            end;
  inv_worker c : is_worker c →
    match wrk s c with
    | WStage k => k = S (applied s c) ∧ taken s c = k
    | _ => taken s c = applied s c
    end;
  inv_stage c : is_worker c →
    announced (tel s) (configured s) c = applied s c + (if stg s c then 1 else 0) }.

(** ** Lemmas *)

Ltac sys_unfold :=
  unfold set_main, set_wg, set_crashed, set_cfg, set_wrk, set_tel, set_sgn, set_upd, set_stg,
    set_osg, set_sent, set_applied, set_configured in *; cbn in *.

(** The invariant only looks at some fields. *)
Lemma inv_ext s s' :
  cfg s' = cfg s → wrk s' = wrk s → tel s' = tel s → upd s' = upd s → stg s' = stg s →
  sent s' = sent s → applied s' = applied s → configured s' = configured s →
  inv s → inv s'.
Proof.
  destruct s, s'; cbn; intros; subst. match goal with H : inv _ |- _ => destruct H end.
  by constructor.
Qed.

Lemma inv_wg_Done s : inv s → inv (wg_Done s).
Proof. unfold wg_Done. destruct (_ <? 0)%Z; by apply inv_ext. Qed.

Lemma inv_init : inv init_sys.
Proof. constructor; cbn; try done; naive_solver. Qed.

Lemma inv_start c s :
  (c = Config_ → cfg s = COff) → (is_worker c → wrk s c = WOff) → (c = Telemetry_ → tel s = TOff) →
  inv s → inv (start_goroutine c s).
Proof.
  intros Hc Hw Ht [I1 I2 I3 I4 I5 I6]. unfold start_goroutine.
  destruct c; sys_unfold; constructor; unfold taken in *; cbn; try done.
  - rewrite Hc in I1 by done. cbn in I1. split_and!; [lia| |..].
    + repeat constructor; set_solver.
    + intros c Hin. rewrite I1. split; [done|lia].
    + done.
  - intros c Hcw. specialize (I5 c Hcw). destruct (decide (c = Egress_)) as [->|Hne].
    + rewrite fn_lookup_insert. by rewrite Hw in I5 by by left.
    + by rewrite fn_lookup_insert_ne.
  - intros c Hcw. specialize (I5 c Hcw). destruct (decide (c = Ingress_)) as [->|Hne].
    + rewrite fn_lookup_insert. by rewrite Hw in I5 by by right.
    + by rewrite fn_lookup_insert_ne.
  - intros c Hcw. specialize (I6 c Hcw). by rewrite Ht in I6.
Qed.

(** What [main] has yet to start is not running. *)
Definition off (c : comp) (s : sys) : Prop :=
  match c with
  | Config_ => cfg s = COff
  | Egress_ | Ingress_ => wrk s c = WOff
  | Telemetry_ => tel s = TOff
  | Signals_ => sgn s = SOff
  end.

Definition main_inv (s : sys) : Prop :=
  (∃ pre, main_actions = pre ++ main_pc s) ∧ ∀ c, Start c ∈ main_pc s → off c s.

Lemma off_start c c' s : c ≠ c' → off c' (start_goroutine c s) ↔ off c' s.
Proof.
  intros Hne. unfold start_goroutine, off.
  destruct c, c'; try done; sys_unfold; by rewrite fn_lookup_insert_ne.
Qed.

Lemma off_wg_Done c s : off c (wg_Done s) ↔ off c s.
Proof. unfold wg_Done. by destruct (_ <? 0)%Z. Qed.

Lemma wg_Done_main s : main_pc (wg_Done s) = main_pc s.
Proof. unfold wg_Done. by destruct (_ <? 0)%Z. Qed.

(** A goroutine that moves was started, and moving starts no other. *)
Lemma off_step l s s' c :
  l ≠ LMain → exec_step l s = Some s' → off c s → off c s'.
Proof.
  intros Hl. unfold exec_step, step_config_send, step_announce, step_forward, step_recv, step_stage, step_signal. destruct (crashed s); [done|].
  destruct l; try done; intros Hs Hoff.
  all: repeat (case_match; try done); simplify_eq; rewrite ?off_wg_Done.
  all: unfold off in *; destruct c; sys_unfold; try done; try congruence.
  all: match goal with
       | |- fn_insert ?x _ _ ?c = _ =>
           destruct (decide (c = x)) as [<-|]; [congruence|by rewrite fn_lookup_insert_ne]
       | |- <[?x := _]> _ ?c = _ =>
           destruct (decide (c = x)) as [<-|]; [congruence|by rewrite fn_lookup_insert_ne]
       end.
Qed.

Lemma main_unchanged l s s' :
  l ≠ LMain → exec_step l s = Some s' → main_pc s' = main_pc s.
Proof.
  intros Hl. unfold exec_step, step_config_send, step_announce, step_forward, step_recv, step_stage, step_signal. destruct (crashed s); [done|].
  destruct l; try done; intros Hs.
  all: repeat (case_match; try done); simplify_eq; by rewrite ?wg_Done_main.
Qed.

Lemma main_inv_step l s s' : exec_step l s = Some s' → main_inv s → main_inv s'.
Proof.
  intros Hs [[pre Hpre] Hoff]. destruct (decide (l = LMain)) as [->|Hl].
  2: { split.
       - exists pre. by rewrite (main_unchanged _ _ _ Hl Hs).
       - intros c Hc. rewrite (main_unchanged _ _ _ Hl Hs) in Hc. by eapply off_step, Hoff. }
  unfold exec_step, step_config_send, step_announce, step_forward, step_main in Hs. destruct (crashed s); [done|].
  destruct (main_pc s) as [|a rest] eqn:Em; [done|].
  assert (NoDup (omap (λ a, match a with Start c => Some c | _ => None end) main_actions)) as Hnd.
  { cbn. apply NoDup_ListNoDup. repeat constructor; cbn; intuition discriminate. }
  destruct a as [c| |]; [| |case_match; [|done]]; simplify_eq; split.
  1, 3, 5: eexists (pre ++ [_]); rewrite <-app_assoc; exact Hpre.
  - intros c' Hc'. apply off_start; [|by apply Hoff; right]. intros ->.
    rewrite Hpre, omap_app in Hnd. apply NoDup_app in Hnd as (_ & _ & Hnd). cbn in Hnd.
    apply NoDup_cons in Hnd as [Hnd _]. apply Hnd. apply list_elem_of_omap. by exists (Start c').
  - intros c' Hc'. by apply (Hoff c'); right.
  - intros c' Hc'. by apply (Hoff c'); right.
Qed.

Lemma inv_config_send s k c todo :
  cfg s = CSend k (c :: todo) → upd s c = None → inv s →
  inv (set_sent c k (set_upd c (Some k)
         (set_cfg (match todo with [] => CIdle k | _ => CSend k todo end) s))).
Proof.
  intros Hc Hu [I1 I2 I3 I4 I5 I6]. rewrite Hc in I1. cbn in I1.
  destruct I1 as (Hk & Hnd & Hin & Hout). apply NoDup_cons in Hnd as [Hct Hnd].
  destruct (Hin c) as [Hcl Hcs]; [by left|]. set (s' := set_sent _ _ _).
  assert (∀ c', taken s' c' = taken s c') as Htaken.
  { intros c'. unfold taken, s'. cbn. destruct (decide (c' = c)) as [->|Hne].
    - rewrite !fn_lookup_insert, Hu. lia.
    - by rewrite !fn_lookup_insert_ne. }
  constructor.
  - unfold s'; cbn. assert (∀ c', c' ∈ config_listeners → c' ∉ todo →
      <[c := k]> (sent s) c' = k) as Hk'.
    { intros c' Hl Ht. destruct (decide (c' = c)) as [->|Hne]; [by rewrite fn_lookup_insert|].
      rewrite fn_lookup_insert_ne by done. apply Hout; [done|]. by apply not_elem_of_cons. }
    destruct todo as [|x todo]; [intros c' Hl; by apply Hk', not_elem_of_nil|].
    split_and!; try done. intros c' Hc'. assert (c' ≠ c) by (by intros ->).
    rewrite fn_lookup_insert_ne by done. apply Hin. by right.
  - unfold s'; cbn. intros c' k'. destruct (decide (c' = c)) as [->|Hne].
    + rewrite !fn_lookup_insert. by intros [= <-].
    + rewrite !fn_lookup_insert_ne by done. apply I2.
  - by rewrite Htaken.
  - done.
  - intros c' Hw. rewrite Htaken. by apply I5.
  - done.
Qed.

Lemma inv_recv_worker s c k :
  is_worker c → upd s c = Some k → wrk s c = WIdle → inv s →
  inv (set_wrk c (WStage k) (set_upd c None s)).
Proof.
  intros Hc Hu Hw [I1 I2 I3 I4 I5 I6]. destruct (I2 _ _ Hu) as [Hk Hk1].
  pose proof (I5 c Hc) as Hap. rewrite Hw in Hap. unfold taken in Hap. rewrite Hu in Hap.
  constructor; unfold taken in *; cbn; try done.
  - intros c' k'. destruct (decide (c' = c)) as [->|Hne].
    + by rewrite fn_lookup_insert.
    + rewrite fn_lookup_insert_ne by done. apply I2.
  - rewrite fn_lookup_insert_ne by (by destruct Hc; congruence). done.
  - intros c' Hc'. destruct (decide (c' = c)) as [->|Hne].
    + rewrite !fn_lookup_insert. lia.
    + rewrite !fn_lookup_insert_ne by done. by apply I5.
Qed.

Lemma inv_recv_telemetry s k :
  upd s Telemetry_ = Some k → tel s = TIdle → inv s →
  inv (set_configured k (set_tel (TSend k stage_listeners) (set_upd Telemetry_ None s))).
Proof.
  intros Hu Ht [I1 I2 I3 I4 I5 I6]. destruct (I2 _ _ Hu) as [Hk Hk1].
  unfold taken in I3. rewrite Hu in I3. rewrite Ht in I6. cbn in I6.
  constructor; unfold taken in *; cbn; try done.
  - intros c' k'. destruct (decide (c' = Telemetry_)) as [->|Hne].
    + by rewrite fn_lookup_insert.
    + rewrite fn_lookup_insert_ne by done. apply I2.
  - split_and!; try done.
    + apply NoDup_ListNoDup. repeat constructor; cbn; intuition discriminate.
    + intros c [->|[->|[]%elem_of_nil]%elem_of_cons]%elem_of_cons; [by left|by right].
  - intros c' Hc'. rewrite fn_lookup_insert_ne by (by destruct Hc'; congruence). by apply I5.
  - intros c' Hc'. rewrite decide_True by (unfold stage_listeners; destruct Hc'; set_solver).
    rewrite <-I6 by done. lia.
Qed.

Lemma inv_recv_signals s :
  inv s → inv (set_upd Signals_ None s).
Proof.
  intros [I1 I2 I3 I4 I5 I6]. constructor; unfold taken in *; cbn; try done.
  - intros c' k'. destruct (decide (c' = Signals_)) as [->|Hne].
    + by rewrite fn_lookup_insert.
    + rewrite fn_lookup_insert_ne by done. apply I2.
  - intros c' Hc'. rewrite fn_lookup_insert_ne by (by destruct Hc'; congruence). by apply I5.
Qed.

Lemma inv_stage_recv s c k :
  wrk s c = WStage k → stg s c = true → is_worker c → inv s →
  inv (set_applied c k (set_wrk c WIdle (set_stg c false s))).
Proof.
  intros Hw Hs Hc [I1 I2 I3 I4 I5 I6]. pose proof (I5 c Hc) as Hap. rewrite Hw in Hap.
  pose proof (I6 c Hc) as Han. rewrite Hs in Han.
  constructor; unfold taken in *; cbn; try done.
  - intros c' Hc'. destruct (decide (c' = c)) as [->|Hne].
    + rewrite !fn_lookup_insert. lia.
    + rewrite !fn_lookup_insert_ne by done. by apply I5.
  - intros c' Hc'. destruct (decide (c' = c)) as [->|Hne].
    + rewrite !fn_lookup_insert. lia.
    + rewrite !fn_lookup_insert_ne by done. by apply I6.
Qed.

Lemma inv_announce s k c todo :
  tel s = TSend k (c :: todo) → stg s c = false → inv s →
  inv (set_stg c true (set_tel (match todo with [] => TIdle | _ => TSend k todo end) s)).
Proof.
  intros Ht Hs [I1 I2 I3 I4 I5 I6]. rewrite Ht in I4, I6. cbn in I6.
  destruct I4 as (Hk & Hk1 & Hnd & Hall). apply NoDup_cons in Hnd as [Hct Hnd].
  assert (∀ c', announced (match todo with [] => TIdle | _ => TSend k todo end) (configured s) c'
    = if decide (c' ∈ todo) then configured s - 1 else configured s) as Hann.
  { intros c'. destruct todo; [|done]. cbn. by rewrite decide_False by apply not_elem_of_nil. }
  constructor; unfold taken in *; cbn; try done.
  - destruct todo as [|x todo]; [done|]. split_and!; try done. intros c' Hc'. apply Hall. by right.
  - intros c' Hc'. rewrite Hann. specialize (I6 c' Hc').
    destruct (decide (c' = c)) as [->|Hne].
    + rewrite fn_lookup_insert, decide_False by done.
      rewrite decide_True in I6 by (by left). rewrite Hs in I6. lia.
    + rewrite fn_lookup_insert_ne by done.
      rewrite <-I6. by case_decide; case_decide; set_solver.
Qed.

Lemma inv_exit_config c s : inv s → inv (set_cfg CDone (set_osg c false s)).
Proof. intros [I1 I2 I3 I4 I5 I6]. by constructor. Qed.

Lemma inv_exit_worker c s :
  is_worker c → wrk s c = WIdle → inv s → inv (set_wrk c WDone (set_osg c false s)).
Proof.
  intros Hc Hw [I1 I2 I3 I4 I5 I6]. constructor; try done. intros c' Hc'. cbn.
  destruct (decide (c' = c)) as [->|Hne].
  - rewrite fn_lookup_insert. specialize (I5 c Hc). by rewrite Hw in I5.
  - rewrite fn_lookup_insert_ne by done. by apply I5.
Qed.

Lemma inv_exit_telemetry c s : tel s = TIdle → inv s → inv (set_tel TDone (set_osg c false s)).
Proof.
  intros Ht [I1 I2 I3 I4 I5 I6]. rewrite Ht in I6. by constructor.
Qed.

Lemma inv_step l s s' : exec_step l s = Some s' → main_inv s → inv s → inv s'.
Proof.
  intros Hs [_ Hoff] Hi. unfold exec_step in Hs. destruct (crashed s); [done|].
  destruct l as [| | |c|c| |c| | |]; unfold step_main, step_config_send, step_announce, step_forward,
    step_recv, step_stage, step_signal in Hs.
  - destruct (main_pc s) as [|[c| |] rest]; [done|..]; [| |case_match; [|done]]; simplify_eq.
    2, 3: by eapply inv_ext; last exact Hi.
    eapply (inv_ext (start_goroutine c s)); try done.
    pose proof (Hoff c ltac:(left)) as Hc.
    apply inv_start; [..|done]; [by intros ->|by intros [->| ->]|by intros ->].
  - destruct (cfg s) as [|k [|c todo]| |] eqn:Ec; try done.
    destruct (upd s c) eqn:Eu; [done|]. simplify_eq. by apply inv_config_send.
  - destruct (cfg s) as [| |k|] eqn:Ec; try done. simplify_eq.
    destruct Hi as [I1 I2 I3 I4 I5 I6]. constructor; try done. cbn. rewrite Ec in I1.
    split_and!; [lia|by repeat constructor; set_solver| |by intros].
    intros c Hc. rewrite I1 by done. split; [done|lia].
  - destruct (upd s c) eqn:Eu; [|done].
    destruct c; [done|..]; case_match; try done; simplify_eq.
    + apply inv_recv_worker; auto. by left.
    + apply inv_recv_worker; auto. by right.
    + by apply inv_recv_telemetry.
    + by apply inv_recv_signals.
  - assert (is_worker c) as Hc by (destruct c; try done; [by left|by right]).
    destruct c; try done.
    all: destruct (wrk s _) as [| |k|] eqn:Ew; try done; destruct (stg s _) eqn:Es; try done.
    all: simplify_eq; by apply inv_stage_recv.
  - destruct (tel s) as [| |k [|c todo]|] eqn:Et; try done. destruct (stg s c) eqn:Es; [done|].
    simplify_eq. by apply inv_announce.
  - destruct (osg s c); [|done].
    destruct c; try done; case_match; try done; simplify_eq; apply inv_wg_Done.
    + by apply inv_exit_config.
    + apply inv_exit_worker; [by left|done..].
    + apply inv_exit_worker; [by right|done..].
    + by apply inv_exit_telemetry.
  - case_match; try done. simplify_eq. by eapply inv_ext; last exact Hi.
  - case_match; try done. simplify_eq. by eapply inv_ext; last exact Hi.
  - destruct (sgn s) as [| | |[|c todo]|]; try done. destruct (osg s c); [done|]. simplify_eq.
    destruct todo; [apply inv_wg_Done|]; by eapply inv_ext; last exact Hi.
Qed.

(** ** The wait group *)

Definition exited (c : comp) (s : sys) : bool :=
  match c with
  | Config_ => match cfg s with CDone => true | _ => false end
  | Egress_ | Ingress_ => match wrk s c with WDone => true | _ => false end
  | Telemetry_ => match tel s with TDone => true | _ => false end
  | Signals_ => match sgn s with SDone => true | _ => false end
  end.

Definition b2z (b : bool) : Z := if b then 1 else 0.

Definition exits (s : sys) : Z :=
  b2z (exited Config_ s) + b2z (exited Egress_ s) + b2z (exited Ingress_ s)
  + b2z (exited Telemetry_ s) + b2z (exited Signals_ s).

Fixpoint adds_left (m : list main_action) : Z :=
  match m with
  | [] => 0
  | WgAdd :: m' => 1 + adds_left m'
  | _ :: m' => adds_left m'
  end.

(** The counter is the number of [Add]s made less the number of goroutines
    that have returned; [main] goes on only when all have. *)
Definition wg_inv (s : sys) : Prop :=
  wg s = (5 - adds_left (main_pc s) - exits s)%Z ∧ (main_pc s = [] → exits s = 5%Z).

Lemma exits_bounds s : (0 ≤ exits s ≤ 5)%Z.
Proof. unfold exits, b2z. repeat case_match; lia. Qed.

Lemma exits_wg_Done s : exits (wg_Done s) = exits s.
Proof. unfold wg_Done. by destruct (_ <? 0)%Z. Qed.

Lemma exited_wg_Done c s : exited c (wg_Done s) = exited c s.
Proof. unfold wg_Done. by destruct (_ <? 0)%Z. Qed.

Lemma wg_Done_wg s : wg (wg_Done s) = (wg s - 1)%Z.
Proof. unfold wg_Done. by destruct (_ <? 0)%Z. Qed.

(** A step lets at most the goroutine that moves return, and then it calls
    [Done]. *)
Lemma exits_step l s s' :
  l ≠ LMain → exec_step l s = Some s' → (wg s' - wg s)%Z = (exits s - exits s')%Z.
Proof.
  intros Hl. unfold exec_step, step_config_send, step_announce, step_forward, step_recv, step_stage, step_signal. destruct (crashed s); [done|].
  destruct l; try done; intros Hs.
  all: repeat (case_match; try done); simplify_eq; rewrite ?exits_wg_Done, ?wg_Done_wg.
  all: unfold exits, exited; sys_unfold; rewrite ?fn_lookup_insert;
    rewrite ?fn_lookup_insert_ne by done.
  all: repeat match goal with H : _ = _ :> config_pc |- _ => rewrite H; clear H
         | H : _ = _ :> worker_pc |- _ => rewrite H; clear H
         | H : _ = _ :> telemetry_pc |- _ => rewrite H; clear H
         | H : _ = _ :> signals_pc |- _ => rewrite H; clear H end.
  all: try lia.
  all: unfold b2z; lia.
Qed.

Lemma wg_decreases l s s' : l ≠ LMain → exec_step l s = Some s' → (wg s' ≤ wg s)%Z.
Proof.
  intros Hl. unfold exec_step, step_config_send, step_announce, step_forward, step_recv, step_stage, step_signal. destruct (crashed s); [done|].
  destruct l; try done; intros Hs.
  all: repeat (case_match; try done); simplify_eq; rewrite ?wg_Done_wg; cbn; lia.
Qed.

(** [main] ends with its [Wait]. *)
Lemma main_last s a : main_inv s → main_pc s = [a] → a = WgWait.
Proof.
  intros [[pre Hpre] _] Ha. rewrite Ha in Hpre. apply (f_equal last) in Hpre.
  rewrite last_snoc in Hpre. by injection Hpre.
Qed.

Lemma exits_start c m s : off c s → exits (set_main m (start_goroutine c s)) = exits s.
Proof.
  intros Hc. unfold exits, exited, start_goroutine. destruct c; cbn in Hc; sys_unfold;
    rewrite ?fn_lookup_insert; rewrite ?fn_lookup_insert_ne by done; by rewrite ?Hc.
Qed.

Lemma wg_inv_step l s s' : exec_step l s = Some s' → main_inv s → wg_inv s → wg_inv s'.
Proof.
  intros Hs Hmi [Hwg Hmain]. pose proof Hmi as [_ Hoff]. destruct (decide (l = LMain)) as [->|Hl].
  - unfold exec_step, step_config_send, step_announce, step_forward, step_main in Hs. destruct (crashed s); [done|].
    destruct (main_pc s) as [|a rest] eqn:Em; [done|].
    assert (rest = [] → a = WgWait) as Hlast by (intros ->; by eapply main_last).
    destruct a as [c| |].
    + simplify_eq. unfold wg_inv. rewrite exits_start by (by apply Hoff; left).
      split; [by destruct c|]. intros Hr. assert (rest = []) as Hr' by (by destruct c).
      discriminate (Hlast Hr').
    + simplify_eq. unfold wg_inv. split; [|intros Hr; discriminate (Hlast Hr)].
      change (wg s + 1 = 5 - adds_left rest - exits s)%Z. cbn in Hwg. lia.
    + destruct (Z.eqb_spec (wg s) 0) as [H0|]; [|done]. simplify_eq. split; [done|].
      intros Hr. cbn in Hr. subst rest. change (exits s = 5)%Z. cbn in Hwg. lia.
  - pose proof (exits_step _ _ _ Hl Hs) as He. pose proof (main_unchanged _ _ _ Hl Hs) as Hm.
    unfold wg_inv. rewrite Hm. split; [lia|]. intros Hn. specialize (Hmain Hn).
    pose proof (wg_decreases _ _ _ Hl Hs). pose proof (exits_bounds s'). lia.
Qed.

Lemma reachable_inv s : reachable s → main_inv s ∧ inv s ∧ wg_inv s.
Proof.
  intros [ls Hls]. assert (main_inv init_sys ∧ inv init_sys ∧ wg_inv init_sys) as Hi.
  { split; [|split; [apply inv_init|done]]. split; [by exists []|]. intros [] _; done. }
  revert Hi Hls. generalize init_sys. induction ls as [|l ls IH]; intros s0 Hi Hls; cbn in Hls.
  { by injection Hls as <-. }
  destruct (exec_step l s0) as [s1|] eqn:E; [|done]. destruct Hi as (H1 & H2 & H3).
  apply (IH s1); [|done]. split_and!.
  - by eapply main_inv_step.
  - by eapply inv_step.
  - by eapply wg_inv_step.
Qed.

Lemma exec_app ls1 ls2 s : exec (ls1 ++ ls2) s = exec ls1 s ≫= exec ls2.
Proof.
  revert s; induction ls1 as [|l ls1 IH]; intros s; cbn; [done|].
  destruct (exec_step l s); cbn; [apply IH|done].
Qed.

Lemma exits_all s : exits s = 5%Z → ∀ c, exited c s = true.
Proof.
  intros He c. revert He. unfold exits, b2z.
  destruct c; repeat (match goal with |- context [exited ?x s] => destruct (exited x s) end); lia || done.
Qed.

Lemma finished_last s : reachable s → main_pc s = [] → finished s.
Proof.
  intros Hr Hm. destruct (reachable_inv s Hr) as (_ & _ & _ & He).
  pose proof (exits_all s (He Hm)) as Hall.
  pose proof (Hall Config_) as H1. pose proof (Hall Egress_) as H2.
  pose proof (Hall Ingress_) as H3. pose proof (Hall Telemetry_) as H4.
  pose proof (Hall Signals_) as H5. cbn in *.
  split_and!; [by destruct (cfg s)|by destruct (wrk s Egress_)|by destruct (wrk s Ingress_)|
    by destruct (tel s)|by destruct (sgn s)|done].
Qed.

Lemma inv_applied s c : inv s → is_worker c → applied s c ≤ configured s ∧ applied s c ≤ sent s c.
Proof.
  intros [I1 I2 I3 I4 I5 I6] Hc. specialize (I5 c Hc). specialize (I6 c Hc).
  unfold announced, taken in *. split.
  - destruct (tel s) as [| |k todo|]; [lia..| |lia]. case_decide; lia.
  - destruct (wrk s c), (upd s c); lia.
Qed.

(** ** Theorems *)

(** C5: telemetry comes first.  Egress and ingress apply the configurations
    one by one in the order they were sent, and each only after telemetry
    has set up its providers for that configuration, whatever the
    interleaving. *)
Theorem workers_follow_telemetry s c :
  reachable s → is_worker c →
  applied s c ≤ configured s ∧ applied s c ≤ sent s c ∧
  ∀ s', exec_step (LStage c) s = Some s' →
    applied s' c = S (applied s c) ∧ applied s' c ≤ configured s'.
Proof.
  intros Hr Hc. destruct (reachable_inv s Hr) as (Hm & Hi & _).
  split_and!; [by apply inv_applied..|]. intros s' Hs'.
  pose proof (inv_step _ _ _ Hs' Hm Hi) as Hi'. split; [|by apply inv_applied].
  destruct Hi as [_ _ _ _ I5 _]. specialize (I5 c Hc).
  unfold exec_step, step_config_send, step_announce, step_forward, step_stage in Hs'. destruct (crashed s); [done|].
  destruct c; try done.
  all: destruct (wrk s _) as [| |k|]; try done; destruct (stg s _); [|done]; simplify_eq.
  all: cbn; rewrite fn_lookup_insert; tauto.
Qed.

(** [main] returns last.  When [wg.Wait()] lets it go on, every goroutine
    has returned. *)
Theorem main_returns_last s : reachable s → main_pc s = [] → finished s.
Proof. apply finished_last. Qed.

Lemma crash_inv_step l s s' :
  exec_step l s = Some s' → (crashed s = true → (wg s < 0)%Z) → crashed s' = true → (wg s' < 0)%Z.
Proof.
  intros Hs _ Hc. unfold exec_step, step_config_send, step_announce, step_forward, step_main, step_recv, step_stage, step_signal in Hs.
  destruct (crashed s) eqn:Ec; [done|].
  assert (∀ x, crashed x = false → crashed (wg_Done x) = true → (wg (wg_Done x) < 0)%Z) as Hd.
  { intros x Hx. unfold wg_Done. destruct (Z.ltb_spec (wg x - 1) 0); cbn; [done|]. by rewrite Hx. }
  destruct l; repeat (case_match; try done); simplify_eq; try (by apply Hd); cbn in Hc; try congruence.
  all: match goal with c : comp |- _ => destruct c end; cbn in Hc; congruence.
Qed.

Lemma crash_wg s : reachable s → crashed s = true → (wg s < 0)%Z.
Proof.
  intros [ls Hls]. cut (∀ s0, exec ls s0 = Some s → (crashed s0 = true → (wg s0 < 0)%Z) →
    crashed s = true → (wg s < 0)%Z); [intros Hcut; by apply (Hcut init_sys)|].
  clear. induction ls as [|l ls IH]; intros s0; cbn; [by intros [= ->]|].
  destruct (exec_step l s0) as [s1|] eqn:E; [|done]. cbn. intros Hx H0. apply (IH s1 Hx).
  by eapply crash_inv_step.
Qed.

(** The first configuration reaches everyone. *)
Definition startup : list label :=
  [LMain; LMain; LMain; LMain; LMain; LMain; LMain; LMain; LMain;   (* up to Start Signals_ *)
   LConfigSend; LConfigSend; LConfigSend; LConfigSend;
   LRecv Egress_; LRecv Ingress_; LRecv Signals_; LRecv Telemetry_; LAnnounce; LAnnounce;
   LStage Egress_; LStage Ingress_].

(** A signal is forwarded to everyone. *)
Definition forward : list label :=
  [LOSSignal; LProcessGone; LForward; LForward; LForward; LForward].

(** A schedule that runs and ends in a state with a decidable property. *)
Lemma exec_reaches ls (P : sys → bool) :
  match exec ls init_sys with Some s => P s | None => false end = true →
  ∃ s, reachable s ∧ P s = true.
Proof.
  destruct (exec ls init_sys) as [s|] eqn:E; [|done]. intros HP. exists s. split; [by exists ls|done].
Qed.

(** the counter of the wait group can become negative.  The [Add] of a
    goroutine is made after the goroutine is started, so that a signal that
    is handled before the last [Add] crashes the program; once the last [Add]
    is made, this cannot happen. *)
Theorem waitgroup_crash_window :
  (∃ s, reachable s ∧ crashed s = true) ∧
  (∀ s, reachable s → adds_left (main_pc s) = 0%Z → crashed s = false).
Proof.
  split.
  - apply (exec_reaches (startup ++ [LOSSignal; LProcessGone; LForward; LForward; LForward;
      LSignal Config_; LSignal Egress_; LSignal Ingress_; LForward; LSignal Telemetry_])).
    by vm_compute.
  - intros s Hr Ha. destruct (reachable_inv s Hr) as (_ & _ & Hwg & _).
    destruct (crashed s) eqn:Ec; [|done]. pose proof (crash_wg s Hr Ec).
    pose proof (exits_bounds s). lia.
Qed.

Lemma stuck_step l s s' c k :
  exec_step l s = Some s' → main_inv s → is_worker c →
  tel s = TDone → wrk s c = WStage k → stg s c = false →
  tel s' = TDone ∧ wrk s' c = WStage k ∧ stg s' c = false.
Proof.
  intros Hs [_ Hoff] Hc Ht Hw Hg. destruct (decide (l = LMain)) as [->|Hl].
  - unfold exec_step, step_config_send, step_announce, step_forward, step_main in Hs. destruct (crashed s); [done|].
    destruct (main_pc s) as [|[c'| |] rest]; [done|..]; [| |case_match; [|done]]; simplify_eq.
    2, 3: done.
    pose proof (Hoff c' ltac:(left)) as Hc'. unfold start_goroutine.
    destruct c'; cbn in Hc'; sys_unfold; try done; try congruence.
    all: rewrite fn_lookup_insert_ne by congruence; done.
  - unfold exec_step, step_config_send, step_announce, step_forward, step_recv, step_stage, step_signal in Hs. destruct (crashed s); [done|].
    assert (∀ x, tel (wg_Done x) = tel x ∧ wrk (wg_Done x) = wrk x ∧ stg (wg_Done x) = stg x) as Hd.
    { intros x. unfold wg_Done. by destruct (_ <? 0)%Z. }
    destruct l; try done; repeat (case_match; try done); simplify_eq.
    all: try (destruct (Hd (set_sgn SDone (set_osg c0 true s))) as (-> & -> & ->)).
    all: rewrite ?(proj1 (Hd _)), ?(proj1 (proj2 (Hd _))), ?(proj2 (proj2 (Hd _))).
    all: sys_unfold; split_and!; try done; try congruence.
    all: match goal with |- context [<[?x := _]> _ ?y] =>
           destruct (decide (y = x)) as [->|]; [congruence|by rewrite fn_lookup_insert_ne] end.
Qed.

Lemma reachable_exec s ls s' : reachable s → exec ls s = Some s' → reachable s'.
Proof. intros [ls0 H0] Hls. exists (ls0 ++ ls). by rewrite exec_app, H0. Qed.

Lemma stuck_exec ls s s' c k :
  exec ls s = Some s' → reachable s → is_worker c →
  tel s = TDone → wrk s c = WStage k → stg s c = false →
  wrk s' c = WStage k ∧ main_pc s' ≠ [].
Proof.
  intros Hls Hr Hc. revert s Hls Hr.
  induction ls as [|l ls IH]; intros s Hls Hr Ht Hw Hg; cbn in Hls.
  - injection Hls as <-. split; [done|]. intros Hm.
    destruct (reachable_inv s Hr) as (_ & _ & _ & He).
    pose proof (exits_all s (He Hm) c) as Hx. destruct Hc as [->| ->]; cbn in Hx; by rewrite Hw in Hx.
  - destruct (exec_step l s) as [s1|] eqn:E; [|done]. cbn in Hls.
    destruct (reachable_inv s Hr) as (Hm & _ & _).
    destruct (stuck_step _ _ _ c k E Hm Hc Ht Hw Hg) as (Ht1 & Hw1 & Hg1).
    apply (IH s1); try done. apply (reachable_exec s [l]); [done|]. cbn. by rewrite E.
Qed.

(** C37: shutting down can hang.  A signal that arrives while a configuration
    is on its way can be taken by telemetry before the configuration is:
    then telemetry returns without announcing it, and egress, which took the
    configuration already, waits for the announcement for ever; [main] never
    returns, whatever happens next. *)
Theorem shutdown_can_hang :
  ∃ s, reachable s ∧ crashed s = false ∧ sgn s = SDone ∧ cfg s = CDone ∧
    ∀ ls s', exec ls s = Some s' → wrk s' Egress_ = WStage 1 ∧ main_pc s' ≠ [].
Proof.
  destruct (exec_reaches
    ([LMain; LMain; LMain; LMain; LMain; LMain; LMain; LMain; LMain; LMain;
      LConfigSend; LRecv Egress_; LConfigSend; LConfigSend; LConfigSend] ++ forward ++
     [LSignal Config_; LSignal Ingress_; LSignal Telemetry_])
    (λ s, negb (crashed s) && negb (stg s Egress_) &&
          match sgn s, cfg s, tel s, wrk s Egress_ with
          | SDone, CDone, TDone, WStage 1 => true | _, _, _, _ => false end))
    as (s & Hr & HP); [by vm_compute|].
  exists s. apply andb_true_iff in HP as [[Hc Hg]%andb_true_iff HP].
  apply negb_true_iff in Hc, Hg. split; [done|]. split; [done|].
  destruct (sgn s), (cfg s), (tel s) eqn:Et, (wrk s Egress_) as [| |[|[|n]]|] eqn:Ew; try done.
  split_and!; try done. intros ls s' Hls. eapply stuck_exec; eauto. by left.
Qed.

(** ** Shutting down from a quiet state *)

(** The listeners the signal has yet to be sent to. *)
Definition to_notify (pc : signals_pc) : list comp :=
  match pc with SIdle | SWait => signal_listeners | SSend todo => todo | _ => [] end.

(** No configuration is on its way: all goroutines run and sit in their
    [select], or have returned on the signal. *)
Record quiet (s : sys) : Prop := mkQuiet {
  q_crashed : crashed s = false;
  q_upd c : upd s c = None;
  q_cfg : (∃ k, cfg s = CIdle k) ∨ cfg s = CDone;
  q_wrk c : is_worker c → wrk s c = WIdle ∨ wrk s c = WDone;
  q_tel : tel s = TIdle ∨ tel s = TDone;
  q_sgn : match sgn s with SOff | SSend [] => False | _ => True end;
  q_todo : ∃ pre, signal_listeners = pre ++ to_notify (sgn s);
  q_listener c : c ∈ signal_listeners →
    if decide (c ∈ to_notify (sgn s)) then osg s c = false ∧ exited c s = false
    else osg s c = negb (exited c s);
  q_main : main_pc s = [WgWait] ∨ main_pc s = [] ∧ exits s = 5%Z;
  q_wg : wg s = (5 - exits s)%Z }.

(** The steps left until everything has returned. *)
Definition steps_left (s : sys) : Z :=
  Z.of_nat (List.length (main_pc s)) +
  match sgn s with
  | SIdle => 5 | SWait => 4 | SSend todo => Z.of_nat (List.length todo) - 1 | _ => 0
  end + (5 - exits s).

Lemma signal_listeners_NoDup : NoDup signal_listeners.
Proof. apply NoDup_ListNoDup. repeat constructor; cbn; intuition discriminate. Qed.

Lemma signal_listener c : c ≠ Signals_ → c ∈ signal_listeners.
Proof. intros Hc. unfold signal_listeners. rewrite !elem_of_cons. destruct c; auto. done. Qed.

Lemma not_signal_listener : Signals_ ∉ signal_listeners.
Proof. unfold signal_listeners. rewrite !elem_of_cons, elem_of_nil. naive_solver. Qed.

Lemma wg_Done_pos x : (1 ≤ wg x)%Z → wg_Done x = set_wg (wg x - 1) x.
Proof. intros Hx. unfold wg_Done. destruct (Z.ltb_spec (wg x - 1) 0); [lia|done]. Qed.

Lemma exits_lt c s : exited c s = false → (exits s ≤ 4)%Z.
Proof.
  intros He. unfold exits, b2z.
  destruct c; rewrite He; repeat case_match; lia.
Qed.

Lemma step_signal_exited c s s' :
  step_signal c s = Some s' → osg s c = true ∧ exited c s = false.
Proof.
  unfold step_signal. destruct (osg s c); [|done].
  destruct c; cbn; repeat case_match; naive_solver.
Qed.

(** What the return of a goroutine on the signal changes. *)
Lemma step_signal_effect c s s' :
  step_signal c s = Some s' → (1 ≤ wg s)%Z → crashed s = false →
  c ∈ signal_listeners ∧ sgn s' = sgn s ∧ upd s' = upd s ∧ osg s' = <[c := false]> (osg s) ∧
  wg s' = (wg s - 1)%Z ∧ crashed s' = false ∧
  (∀ c', exited c' s' = if decide (c' = c) then true else exited c' s) ∧
  (cfg s' = cfg s ∨ cfg s' = CDone) ∧ (∀ c', wrk s' c' = wrk s c' ∨ wrk s' c' = WDone) ∧
  (tel s' = tel s ∨ tel s' = TDone).
Proof.
  unfold step_signal. intros Hs Hwg Hc. destruct (osg s c); [|done].
  destruct c; repeat (case_match; try done); simplify_eq;
    rewrite wg_Done_pos by (cbn; lia); cbn; split_and!; auto using signal_listener.
  all: try (intros []; cbn; rewrite ?fn_lookup_insert; rewrite ?fn_lookup_insert_ne by done; auto; fail).
  all: intros c'; match goal with |- context [<[?x := _]> _ _] =>
         destruct (decide (c' = x)) as [->|]; [rewrite fn_lookup_insert; by right|
           rewrite fn_lookup_insert_ne by done; by left] end.
Qed.

Lemma quiet_signal c s s' :
  quiet s → exec_step (LSignal c) s = Some s' → quiet s' ∧ steps_left s = (1 + steps_left s')%Z.
Proof.
  intros Hq Hs. pose proof (exits_step (LSignal c) s s' ltac:(done) Hs) as He.
  pose proof (main_unchanged (LSignal c) s s' ltac:(done) Hs) as Hm.
  destruct Hq as [Q1 Q2 Q3 Q4 Q5 Q6 Q7 Q8 Q9 Q10].
  unfold exec_step, step_config_send, step_announce, step_forward in Hs. rewrite Q1 in Hs.
  destruct (step_signal_exited _ _ _ Hs) as [Ho Hx]. pose proof (exits_lt _ _ Hx) as Hlt.
  destruct (step_signal_effect _ _ _ Hs ltac:(lia) Q1)
    as (Hin & E1 & E2 & E3 & E4 & E5 & E6 & E7 & E8 & E9).
  split; [|unfold steps_left; rewrite Hm, E1; lia].
  constructor; rewrite ?E1, ?E2, ?E3, ?E4, ?Hm; try done.
  - destruct E7 as [-> | ->]; [done|by right].
  - intros c' Hc'. destruct (E8 c') as [-> | ->]; [by apply Q4|by right].
  - destruct E9 as [-> | ->]; [done|by right].
  - intros c' Hc'. specialize (Q8 c' Hc'). rewrite E6.
    destruct (decide (c' = c)) as [->|Hne].
    + rewrite fn_lookup_insert. case_decide; [|done]. naive_solver.
    + by rewrite fn_lookup_insert_ne.
  - destruct Q9 as [->|[_ ?]]; [by left|lia].
  - lia.
Qed.

Lemma quiet_forward s s' :
  quiet s → exec_step LForward s = Some s' → quiet s' ∧ steps_left s = (1 + steps_left s')%Z.
Proof.
  intros Hq Hs. pose proof (exits_step LForward s s' ltac:(done) Hs) as He.
  destruct Hq as [Q1 Q2 Q3 Q4 Q5 Q6 Q7 Q8 Q9 Q10].
  unfold exec_step, step_config_send, step_announce, step_forward in Hs. rewrite Q1 in Hs.
  destruct (sgn s) as [| | |[|c todo]|] eqn:Eg; try done. destruct (osg s c) eqn:Eo; [done|].
  assert (exited Signals_ s = false) as Hx by (cbn; by rewrite Eg).
  pose proof (exits_lt _ _ Hx) as Hlt. destruct Q7 as [pre Hpre].
  assert (NoDup (c :: todo)) as [Hct _]%NoDup_cons.
  { pose proof signal_listeners_NoDup as Hnd. rewrite Hpre in Hnd.
    by apply NoDup_app in Hnd as (_ & _ & ?). }
  assert (∀ pc, pc = (match todo with [] => SDone | _ => SSend todo end) →
    s' = set_sgn pc (set_osg c true (set_wg (wg s - match todo with [] => 1 | _ => 0 end) s)))
    as Hs'.
  { intros pc ->. destruct todo; simplify_eq; [by rewrite wg_Done_pos by (cbn; lia)|].
    destruct s; cbn. by rewrite Z.sub_0_r. }
  specialize (Hs' _ eq_refl). set (pc := match todo with [] => _ | _ => _ end) in Hs'.
  assert (to_notify pc = todo) as Hpc by (by destruct todo).
  assert (∀ c', c' ∈ signal_listeners → exited c' s' = exited c' s) as Hex.
  { intros c' Hc'. subst s'. destruct c'; try done. by apply not_signal_listener in Hc'. }
  split.
  - subst s'. constructor; cbn in *; try done.
    + subst pc. by destruct todo.
    + rewrite Hpc. exists (pre ++ [c]). by rewrite <-app_assoc.
    + intros c' Hc'. rewrite Hpc, Hex by done. specialize (Q8 c' Hc').
      destruct (decide (c' = c)) as [->|Hne].
      * rewrite decide_True in Q8 by (by left). destruct Q8 as [_ ->].
        by rewrite fn_lookup_insert, decide_False.
      * rewrite fn_lookup_insert_ne by done.
        destruct (decide (c' ∈ todo)); [rewrite decide_True in Q8 by (by right)|
          rewrite decide_False in Q8 by set_solver]; done.
    + destruct Q9 as [->|[_ ?]]; [by left|lia].
    + lia.
  - subst s'. unfold steps_left. rewrite Eg. cbn [sgn set_sgn main_pc set_osg set_wg wg] in *.
    subst pc. destruct todo; cbn -[Z.add Z.sub Z.of_nat] in *; lia.
Qed.

(** The signal arrives, or the watched process is gone. *)
Lemma quiet_set_sgn s pc :
  quiet s → (sgn s = SIdle ∧ pc = SWait ∨ sgn s = SWait ∧ pc = SSend signal_listeners) →
  quiet (set_sgn pc s) ∧ steps_left s = (1 + steps_left (set_sgn pc s))%Z.
Proof.
  intros [Q1 Q2 Q3 Q4 Q5 Q6 Q7 Q8 Q9 Q10] Hpc.
  assert (exits (set_sgn pc s) = exits s) as He.
  { unfold exits, exited. destruct Hpc as [[Hs ->]|[Hs ->]]; cbn; by rewrite Hs. }
  assert (to_notify pc = to_notify (sgn s)) as Hn by (by destruct Hpc as [[-> ->]|[-> ->]]).
  split.
  - constructor; try done; rewrite ?He; try done; cbn.
    + by destruct Hpc as [[_ ->]|[_ ->]].
    + by rewrite Hn.
    + intros c Hc. rewrite Hn. specialize (Q8 c Hc). destruct c; try done. by apply not_signal_listener in Hc.
  - unfold steps_left. rewrite He. by destruct Hpc as [[-> ->]|[-> ->]]; cbn; lia.
Qed.

(** The steps a quiet system can make, reloads apart: each keeps it quiet and
    brings the end nearer. *)
Lemma quiet_step l s s' :
  quiet s → l ≠ LReload → exec_step l s = Some s' →
  quiet s' ∧ steps_left s = (1 + steps_left s')%Z.
Proof.
  intros Hq Hl Hs. destruct l as [| | |c|c| |c| | |]; try done.
  6: by eapply quiet_signal.
  8: by eapply quiet_forward.
  all: pose proof Hq as [Q1 Q2 Q3 Q4 Q5 Q6 Q7 Q8 Q9 Q10];
    unfold exec_step, step_config_send, step_announce, step_forward, step_main, step_recv, step_stage in Hs; rewrite Q1 in Hs.
  - destruct Q9 as [Hm|[Hm _]]; rewrite Hm in Hs; [|done].
    destruct (Z.eqb_spec (wg s) 0) as [H0|]; [|done]. simplify_eq.
    assert (exits s = 5%Z) as H5 by lia. split.
    + constructor; try done. by right.
    + unfold steps_left. rewrite Hm. change (exits (set_main [] s)) with (exits s). cbn. lia.
  - destruct Q3 as [[k Hk]|Hk]; by rewrite Hk in Hs.
  - by rewrite Q2 in Hs.
  - destruct c; try done; destruct (wrk s _) eqn:Ew; try done.
    + destruct (Q4 Egress_ (or_introl eq_refl)); congruence.
    + destruct (Q4 Ingress_ (or_intror eq_refl)); congruence.
  - destruct Q5 as [Ht|Ht]; by rewrite Ht in Hs.
  - destruct (sgn s) eqn:Eg; try done. simplify_eq. apply quiet_set_sgn; [done|by left].
  - destruct (sgn s) eqn:Eg; try done. simplify_eq. apply quiet_set_sgn; [done|by right].
Qed.

(** A goroutine that has the signal in its channel can take it. *)
Lemma quiet_can_exit s c :
  quiet s → c ∈ signal_listeners → osg s c = true → exited c s = false →
  ∃ s', exec_step (LSignal c) s = Some s'.
Proof.
  intros [Q1 Q2 Q3 Q4 Q5 Q6 Q7 Q8 Q9 Q10] Hin Ho Hx.
  unfold exec_step, step_config_send, step_announce, step_forward, step_signal. rewrite Q1, Ho.
  destruct c; cbn in Hx.
  - destruct Q3 as [[k ->]|Hd]; [by eexists|by rewrite Hd in Hx].
  - destruct (Q4 Egress_ (or_introl eq_refl)) as [->|Hd]; [by eexists|by rewrite Hd in Hx].
  - destruct (Q4 Ingress_ (or_intror eq_refl)) as [->|Hd]; [by eexists|by rewrite Hd in Hx].
  - destruct Q5 as [->|Hd]; [by eexists|by rewrite Hd in Hx].
  - by apply not_signal_listener in Hin.
Qed.

Lemma quiet_progress s :
  quiet s → finished s ∨ ∃ l s', l ≠ LReload ∧ exec_step l s = Some s'.
Proof.
  intros Hq. pose proof Hq as [Q1 Q2 Q3 Q4 Q5 Q6 Q7 Q8 Q9 Q10].
  destruct (sgn s) as [| | |[|c todo]|] eqn:Eg; try done.
  - right. exists LOSSignal. unfold exec_step, step_config_send, step_announce, step_forward. rewrite Q1, Eg. by eexists.
  - right. exists LProcessGone. unfold exec_step, step_config_send, step_announce, step_forward. rewrite Q1, Eg. by eexists.
  - right. exists LForward. unfold exec_step, step_config_send, step_announce, step_forward. rewrite Q1, Eg.
    assert (c ∈ signal_listeners) as Hc by (destruct Q7 as [pre ->]; apply elem_of_app; right; left).
    specialize (Q8 c Hc). cbn in Q8. rewrite decide_True in Q8 by (by left).
    rewrite (proj1 Q8). by eexists.
  - destruct (decide (Forall (λ c, exited c s = true) signal_listeners)) as [Hall|Hn].
    + unfold signal_listeners in Hall. rewrite !Forall_cons in Hall. destruct Hall as (H1 & H2 & H3 & H4 & _).
      assert (exits s = 5%Z) as H5.
      { unfold exits. rewrite H1, H2, H3, H4. cbn. by rewrite Eg. }
      destruct Q9 as [Hm|[Hm _]].
      * right. exists LMain. unfold exec_step, step_config_send, step_announce, step_forward, step_main. rewrite Q1, Hm, Q10, H5. by eexists.
      * left. cbn in *. split_and!; try done; [by destruct (cfg s)|by destruct (wrk s Egress_)|
          by destruct (wrk s Ingress_)|by destruct (tel s)].
    + right. apply not_Forall_Exists in Hn; [|apply _]. apply Exists_exists in Hn as (c & Hc & Hx).
      apply not_true_is_false in Hx. specialize (Q8 c Hc). cbn in Q8.
      rewrite decide_False, Hx in Q8 by apply not_elem_of_nil.
      destruct (quiet_can_exit s c Hq Hc Q8 Hx) as [s' Hs']. by exists (LSignal c), s'.
Qed.

(** C12: shutting down works when no configuration is on its way.  From a state
    where all goroutines run, sit in their [select] and no channel holds
    anything, and if the file does not change any more, every schedule ends
    after at most eleven steps, and it can only end with every goroutine and
    [main] returned and without a crash. *)
Theorem quiet_shutdown_terminates s ls s' :
  quiet s → sgn s = SIdle → main_pc s = [WgWait] →
  exec ls s = Some s' → LReload ∉ ls →
  List.length ls ≤ 11 ∧ crashed s' = false ∧
  (finished s' ∨ ∃ l s'', l ≠ LReload ∧ exec_step l s' = Some s'').
Proof.
  intros Hq Hg Hm Hls Hnr.
  assert (quiet s' ∧ steps_left s = (Z.of_nat (List.length ls) + steps_left s')%Z) as [Hq' Hst].
  { clear Hg Hm. revert s Hq Hls Hnr. induction ls as [|l ls IH]; intros s Hq Hls Hnr; cbn in Hls.
    - injection Hls as <-. split; [done|]. cbn. lia.
    - destruct (exec_step l s) as [s1|] eqn:E; [|done]. cbn in Hls.
      apply not_elem_of_cons in Hnr as [Hl Hnr].
      destruct (quiet_step l s s1 Hq ltac:(done) E) as [Hq1 Hs1].
      destruct (IH s1 Hq1 Hls Hnr) as [Hq' Hs']. split; [done|]. cbn [List.length]. lia. }
  split_and!; [|by destruct Hq'|by apply quiet_progress].
  assert (steps_left s ≤ 11)%Z as H11.
  { unfold steps_left. rewrite Hg, Hm. pose proof (exits_bounds s). cbn. lia. }
  assert (0 ≤ steps_left s')%Z as H0.
  { unfold steps_left. pose proof (exits_bounds s'). destruct Hq' as [_ _ _ _ _ Q6 _ _ _ _].
    destruct (sgn s') as [| | |[|]|]; cbn -[Z.of_nat]; try done; lia. }
  lia.
Qed.

(** ** Witnesses *)

Lemma workers_follow_telemetry_witness :
  ∃ s, applied s Egress_ = 1 ∧ applied s Egress_ ≤ configured s.
Proof.
  destruct (exec_reaches startup (λ s, bool_decide (applied s Egress_ = 1))) as (s & Hr & HP);
    [by vm_compute|].
  exists s. split; [by apply bool_decide_eq_true in HP|].
  exact (proj1 (workers_follow_telemetry s Egress_ Hr (or_introl eq_refl))).
Defined.

Lemma main_returns_last_witness : ∃ s, reachable s ∧ finished s.
Proof.
  destruct (exec_reaches (startup ++ [LMain] ++ forward ++
    [LSignal Config_; LSignal Egress_; LSignal Ingress_; LSignal Telemetry_; LMain])
    (λ s, match main_pc s with [] => true | _ => false end)) as (s & Hr & HP); [by vm_compute|].
  exists s. split; [exact Hr|]. apply (main_returns_last s Hr). by destruct (main_pc s).
Defined.

Definition quiet_state : sys :=
  mkSys [WgWait] 5 false (CIdle 1)
    (λ c, match c with Egress_ | Ingress_ => WIdle | _ => WOff end) TIdle SIdle
    (λ _, None) (λ _, false) (λ _, false) (λ _, 1) (λ _, 1) 1.

Lemma quiet_state_quiet : quiet quiet_state.
Proof.
  constructor; cbn; try done.
  - left. by exists 1.
  - intros c [->| ->]; by left.
  - by left.
  - by exists [].
  - intros c Hc. rewrite decide_True by done. split; [done|by destruct c].
  - by left.
Qed.

Lemma quiet_shutdown_terminates_witness :
  ∃ s', exec [LOSSignal; LProcessGone; LForward; LSignal Config_] quiet_state = Some s' ∧
    crashed s' = false ∧ (finished s' ∨ ∃ l s'', l ≠ LReload ∧ exec_step l s' = Some s'').
Proof.
  eexists. split; [reflexivity|].
  apply (quiet_shutdown_terminates quiet_state
    [LOSSignal; LProcessGone; LForward; LSignal Config_] _ quiet_state_quiet); [reflexivity..|].
  by rewrite !elem_of_cons, elem_of_nil; intros [[=]|[[=]|[[=]|[[=]|[]]]]].
Defined.
