(* ===== verification/Program.v ===== *)
(** * The goroutines put together

    [System] follows the channels alone.  Here the goroutines run with the
    state of their packages: a step of the program is a turn of [GoConfig],
    [GoEgress], [GoIngress], [GoTelemetry] or [GoSignals] as the other files
    define it, and a channel holds the configuration, stage or signal that was
    sent.  The program refines [System], so that what is shown there of
    channels and schedules holds of it, and the configurations of the packages
    can be related to one another.

    A turn is one step; what it sends leaves one message at a time afterwards,
    because a send may block.  The run of a probe and the request of a health
    check are steps too, between those of the goroutines: they use the tracer
    of egress, the endpoints of ingress and the query engine of telemetry as
    they find them.  How runs overlap is followed by [Metrics] and [Probes]. *)

From stdpp Require Import functions.
From S2P Require Import Prelude GoStd Config Metrics Query Telemetry Expect Probes.
From S2P Require Import Egress Ingress Signals System ServeMux.
From Stdlib Require Import String.

(** ** States *)

(** A goroutine: not started, in its [select], holding something while it
    waits, sending what a turn of its loop has to send ([after] is how that
    turn ends), or returned. *)
Inductive ctl (M W : Type) :=
| NotStarted
| Selecting
| Holding (w : W)
| Sending (todo : list (comp * M)) (after : outcome bool)
| Ended.
Arguments NotStarted {M W}.
Arguments Selecting {M W}.
Arguments Holding {M W} _.
Arguments Sending {M W} _ _.
Arguments Ended {M W}.

(** The control state with the variables of the package. *)
Record goroutine (S M W : Type) := mkG { g_ctl : ctl M W; g_st : S }.
Arguments mkG {S M W} _ _.
Arguments g_ctl {S M W} _.
Arguments g_st {S M W} _.

(** Where a goroutine is after a turn with something to send. *)
Definition settle {M W} (todo : list (comp * M)) (after : outcome bool) : ctl M W :=
  match todo, after with
  | [], Returned false => Selecting
  | [], _ => Ended
  | _, _ => Sending todo after
  end.

(** The messages a turn has added to a list of sends. *)
Definition new_sends {A} (before after : list A) : list A := drop (List.length before) after.

Section program.
Context `{MetricLibs} `{Regexp} `{UnicodeTables} (grow : nat → nat) {C : Type} `{Conn C} {DB Signal : Type}.
Context (yaml_Unmarshal : string → option BunnyConfig → option BunnyConfig * option error)
  (sha256_hex : string → string).

Abbreviation ConfigG := (goroutine (Config.State (Chan := comp)) BunnyConfig unit).
Abbreviation EgressG := (goroutine EgressState unit BunnyConfig).
Abbreviation IngressG := (goroutine IngressState unit BunnyConfig).
Abbreviation TelemetryG := (goroutine (Telemetry.State (Chan := comp) (DB := DB)) ConfigStage unit).
(** While it waits for the watched process, [GoSignals] holds the signal and
    the looks at the process list so far. *)
Abbreviation SignalsG :=
  (goroutine (SignalsState (Chan := comp) (Signal := Signal)) Signal (Signal * list snapshot)).

Record prog := mkProg {
  p_main : list main_action;
  p_wg : Z;
  p_crashed : option panic;
  p_config : ConfigG;
  p_egress : EgressG;
  p_ingress : IngressG;
  p_telemetry : TelemetryG;
  p_signals : SignalsG;
  p_upd : comp → option BunnyConfig;   (* the ConfigUpdateChannel of a package *)
  p_stg : comp → option ConfigStage;   (* its ConfigStageChannel *)
  p_osg : comp → option Signal;        (* its OSSignalsChannel *)
  p_heap : heap string;
  p_telem : Telem;
  p_taken : list nat }.                (* the runs of probes that have run *)

Definition with_main m p := mkProg m (p_wg p) (p_crashed p) (p_config p) (p_egress p) (p_ingress p)
  (p_telemetry p) (p_signals p) (p_upd p) (p_stg p) (p_osg p) (p_heap p) (p_telem p) (p_taken p).
Definition with_wg w p := mkProg (p_main p) w (p_crashed p) (p_config p) (p_egress p) (p_ingress p)
  (p_telemetry p) (p_signals p) (p_upd p) (p_stg p) (p_osg p) (p_heap p) (p_telem p) (p_taken p).
Definition with_panic e p := mkProg (p_main p) (p_wg p) (Some e) (p_config p) (p_egress p)
  (p_ingress p) (p_telemetry p) (p_signals p) (p_upd p) (p_stg p) (p_osg p) (p_heap p) (p_telem p) (p_taken p).
Definition with_config g p := mkProg (p_main p) (p_wg p) (p_crashed p) g (p_egress p) (p_ingress p)
  (p_telemetry p) (p_signals p) (p_upd p) (p_stg p) (p_osg p) (p_heap p) (p_telem p) (p_taken p).
Definition with_egress g p := mkProg (p_main p) (p_wg p) (p_crashed p) (p_config p) g (p_ingress p)
  (p_telemetry p) (p_signals p) (p_upd p) (p_stg p) (p_osg p) (p_heap p) (p_telem p) (p_taken p).
Definition with_ingress g p := mkProg (p_main p) (p_wg p) (p_crashed p) (p_config p) (p_egress p) g
  (p_telemetry p) (p_signals p) (p_upd p) (p_stg p) (p_osg p) (p_heap p) (p_telem p) (p_taken p).
Definition with_telemetry g p := mkProg (p_main p) (p_wg p) (p_crashed p) (p_config p) (p_egress p)
  (p_ingress p) g (p_signals p) (p_upd p) (p_stg p) (p_osg p) (p_heap p) (p_telem p) (p_taken p).
Definition with_signals g p := mkProg (p_main p) (p_wg p) (p_crashed p) (p_config p) (p_egress p)
  (p_ingress p) (p_telemetry p) g (p_upd p) (p_stg p) (p_osg p) (p_heap p) (p_telem p) (p_taken p).
Definition with_upd (c : comp) x p := mkProg (p_main p) (p_wg p) (p_crashed p) (p_config p)
  (p_egress p) (p_ingress p) (p_telemetry p) (p_signals p) (<[c := x]> (p_upd p)) (p_stg p)
  (p_osg p) (p_heap p) (p_telem p) (p_taken p).
Definition with_stg (c : comp) x p := mkProg (p_main p) (p_wg p) (p_crashed p) (p_config p)
  (p_egress p) (p_ingress p) (p_telemetry p) (p_signals p) (p_upd p) (<[c := x]> (p_stg p))
  (p_osg p) (p_heap p) (p_telem p) (p_taken p).
Definition with_osg (c : comp) x p := mkProg (p_main p) (p_wg p) (p_crashed p) (p_config p)
  (p_egress p) (p_ingress p) (p_telemetry p) (p_signals p) (p_upd p) (p_stg p)
  (<[c := x]> (p_osg p)) (p_heap p) (p_telem p) (p_taken p).
Definition with_world h t p := mkProg (p_main p) (p_wg p) (p_crashed p) (p_config p) (p_egress p)
  (p_ingress p) (p_telemetry p) (p_signals p) (p_upd p) (p_stg p) (p_osg p) h t (p_taken p).
Definition with_taken i p := mkProg (p_main p) (p_wg p) (p_crashed p) (p_config p) (p_egress p)
  (p_ingress p) (p_telemetry p) (p_signals p) (p_upd p) (p_stg p) (p_osg p) (p_heap p) (p_telem p)
  (i :: p_taken p).

(** What [main] sets of the garbage collector when the environment does not: the
    memory limit in bytes and the percentage ([None] is left as it is). *)
Definition memory_settings (Getenv : string → string) : option Z * option Z :=
  (if decide (Getenv "GOMEMLIMIT" = "") then Some (1024 * 1024 * 64)%Z else None,
   if decide (Getenv "GOGC" = "") then Some 10%Z else None).

(** The program when [main] has wired up the channels. *)
Definition init_prog (now : Z) (h : heap string) (t : Telem) : prog :=
  mkProg main_actions 0 None
    (mkG NotStarted (foldl (λ s c, Config.AddChannelListener c s) Config.init_state config_listeners))
    (mkG NotStarted (init_egress now))
    (mkG NotStarted init_ingress)
    (mkG NotStarted (foldl (λ s c, Telemetry.AddChannelListener c s) Telemetry.init_state stage_listeners))
    (mkG NotStarted (foldl (λ s c, AddSignalListener c s) init_signals signal_listeners))
    (λ _, None) (λ _, None) (λ _, None) h t [].

(** ** Steps *)

(** The deferred [wg.Done()]. *)
Definition p_Done (p : prog) : prog :=
  let w := (p_wg p - 1)%Z in
  if (w <? 0)%Z then with_panic NegativeWaitGroup (with_wg w p) else with_wg w p.

(** The end of a turn that has nothing left to send. *)
Definition end_turn {M} (todo : list (comp * M)) (after : outcome bool) (p : prog) : prog :=
  match todo, after with
  | [], Returned true => p_Done p
  | [], Panicked e => with_panic e p
  | _, _ => p
  end.

Definition void (o : outcome unit) : outcome bool :=
  match o with Returned _ => Returned false | Panicked e => Panicked e end.

(** A turn of [GoConfig], and of the others. *)
Definition config_turn (r : outcome bool * Config.State (Chan := comp)) (p : prog) : prog :=
  let todo := new_sends (Config.sent (g_st (p_config p))) (Config.sent r.2) in
  end_turn todo r.1 (with_config (mkG (settle todo r.1) r.2) p).
Definition egress_turn (r : outcome bool * (EgressState * (heap string * Telem))) (p : prog) : prog :=
  end_turn ([] : list (comp * unit)) r.1
    (with_egress (mkG (settle [] r.1) r.2.1) (with_world r.2.2.1 r.2.2.2 p)).
Definition ingress_turn (r : outcome bool * (IngressState * Telem)) (p : prog) : prog :=
  end_turn ([] : list (comp * unit)) r.1
    (with_ingress (mkG (settle [] r.1) r.2.1) (with_world (p_heap p) r.2.2 p)).
Definition telemetry_turn
    (r : outcome bool * (Telemetry.State (Chan := comp) (DB := DB) * Telem)) (p : prog) : prog :=
  let todo := new_sends (stages_sent (g_st (p_telemetry p))) (stages_sent r.2.1) in
  end_turn todo r.1
    (with_telemetry (mkG (settle todo r.1) r.2.1) (with_world (p_heap p) r.2.2 p)).

(** A turn of [GoSignals]; [sig] is the signal and the looks it has had, when
    it waits for the process. *)
Definition signals_turn_end (held : option (Signal * list snapshot))
    (r : signals_turn * SignalsState (Chan := comp) (Signal := Signal)) (p : prog) : prog :=
  match r.1, held with
  | SignalsWaiting, Some w => with_signals (mkG (Holding w) r.2) p
  | SignalsReturn, _ =>
      let todo := new_sends (signals_sent (g_st (p_signals p))) (signals_sent r.2) in
      end_turn todo (Returned true) (with_signals (mkG (settle todo (Returned true)) r.2) p)
  | _, _ => with_signals (mkG Selecting r.2) p
  end.

(** What the environment decides: results of reads, times, answers of the
    libraries. *)
Inductive plabel :=
| PMain (env_path : string) (rd : file_read) (watcher_created : bool)
| PEvent (w : config_wakeup)        (* a file event or an error of the watcher *)
| PConfigSend
| PRecv (c : comp) (env : TelemetryEnv (DB := DB))
| PStage (c : comp) (now : Z)
| PAnnounce
| PTick (now : Z)
| PSignal (c : comp) (Shutdown : option MeterProvider → option TracerProvider → outcome unit)
| POSSignal (sig : Signal)
| PSnapshot (snap : snapshot)
| PForward
| PServe (bound : bool)             (* a goroutine of startHTTPServer runs *)
| PAct (i : nat) (env : RunEnv (C := C))      (* a run of a probe, in its goroutine *)
| PRequest (clock : nat → Z) (path : string). (* a request to the HTTP server *)

(** [go f()]: the part of the goroutine before its [select] is done at once. *)
Definition p_start (c : comp) (env_path : string) (rd : file_read) (watcher_created : bool)
    (p : prog) : prog :=
  match c with
  | Config_ =>
      let r := GoConfig_start yaml_Unmarshal env_path rd watcher_created (g_st (p_config p)) in
      config_turn (void r.1, r.2) p
  | Egress_ =>
      let r := GoEgress_start (g_st (p_egress p)) in
      egress_turn (void r.1, (r.2, (p_heap p, p_telem p))) p
  | Ingress_ => with_ingress (mkG Selecting (g_st (p_ingress p))) p
  | Telemetry_ => with_telemetry (mkG Selecting (g_st (p_telemetry p))) p
  | Signals_ => with_signals (mkG Selecting (g_st (p_signals p))) p
  end.

Definition p_step_main (env_path : string) (rd : file_read) (watcher_created : bool) (p : prog)
  : option prog :=
  match p_main p with
  | Start c :: rest => Some (with_main rest (p_start c env_path rd watcher_created p))
  | WgAdd :: rest => Some (with_main rest (with_wg (p_wg p + 1) p))
  | WgWait :: rest => if (p_wg p =? 0)%Z then Some (with_main rest p) else None
  | [] => None
  end.

Definition p_step_event (w : config_wakeup) (p : prog) : option prog :=
  match w, g_ctl (p_config p) with
  | ConfigSignal _, _ => None
  | _, Selecting => Some (config_turn (GoConfig_step yaml_Unmarshal sha256_hex w (g_st (p_config p))) p)
  | _, _ => None
  end.

Definition p_step_config_send (p : prog) : option prog :=
  match g_ctl (p_config p) with
  | Sending ((c, bc) :: todo) after =>
      match p_upd p c with
      | None => Some (end_turn todo after
                  (with_config (mkG (settle todo after) (g_st (p_config p)))
                     (with_upd c (Some bc) p)))
      | Some _ => None
      end
  | _ => None
  end.

(** Egress and ingress set their configuration when they receive it, and then
    wait for the stage. *)
Definition p_step_recv (c : comp) (env : TelemetryEnv (DB := DB)) (p : prog) : option prog :=
  match p_upd p c with
  | None => None
  | Some bc =>
      let p' := with_upd c None p in
      match c with
      | Egress_ =>
          match g_ctl (p_egress p) with
          | Selecting =>
              let r := updateConfig_receive bc (g_st (p_egress p), (p_heap p, p_telem p)) in
              Some (with_egress (mkG (Holding bc) r.2.1) p')
          | _ => None
          end
      | Ingress_ =>
          match g_ctl (p_ingress p) with
          | Selecting =>
              let r := GoIngress_receive bc (g_st (p_ingress p), p_telem p) in
              Some (with_ingress (mkG (Holding bc) r.2.1) p')
          | _ => None
          end
      | Telemetry_ =>
          match g_ctl (p_telemetry p) with
          | Selecting => Some (telemetry_turn (GoTelemetry_step (TelemetryUpdate true bc env)
                                 (g_st (p_telemetry p), p_telem p)) p')
          | _ => None
          end
      | Signals_ =>
          match g_ctl (p_signals p) with
          | Selecting => Some (signals_turn_end None
                                 (GoSignals_step (SignalsConfigUpdate (Some bc)) (g_st (p_signals p))) p')
          | _ => None
          end
      | Config_ => None
      end
  end.

Definition p_step_stage (c : comp) (now : Z) (p : prog) : option prog :=
  match p_stg p c with
  | None => None
  | Some stage =>
      let p' := with_stg c None p in
      match c with
      | Egress_ =>
          match g_ctl (p_egress p) with
          | Holding _ =>
              let r := updateConfig_continue grow (Some stage) now
                         (g_st (p_egress p), (p_heap p, p_telem p)) in
              Some (egress_turn (void r.1, r.2) p')
          | _ => None
          end
      | Ingress_ =>
          match g_ctl (p_ingress p) with
          | Holding _ => Some (ingress_turn
              (GoIngress_continue (Some stage) (g_st (p_ingress p), p_telem p)) p')
          | _ => None
          end
      | _ => None
      end
  end.

Definition p_step_announce (p : prog) : option prog :=
  match g_ctl (p_telemetry p) with
  | Sending ((c, stage) :: todo) after =>
      match p_stg p c with
      | None => Some (end_turn todo after
                  (with_telemetry (mkG (settle todo after) (g_st (p_telemetry p)))
                     (with_stg c (Some stage) p)))
      | Some _ => None
      end
  | _ => None
  end.

(** A tick can also be left over from before the ticker was stopped. *)
Definition p_step_tick (now : Z) (p : prog) : option prog :=
  match g_ctl (p_egress p) with
  | Selecting => Some (egress_turn (GoEgress_step grow (Tick now)
                         (g_st (p_egress p), (p_heap p, p_telem p))) p)
  | _ => None
  end.

Definition p_step_signal (c : comp)
    (Shutdown : option MeterProvider → option TracerProvider → outcome unit) (p : prog) : option prog :=
  match p_osg p c with
  | None => None
  | Some _ =>
      let p' := with_osg c None p in
      match c with
      | Config_ =>
          match g_ctl (p_config p) with
          | Selecting => Some (config_turn (GoConfig_step yaml_Unmarshal sha256_hex (ConfigSignal true)
                                 (g_st (p_config p))) p')
          | _ => None
          end
      | Egress_ =>
          match g_ctl (p_egress p) with
          | Selecting => Some (egress_turn (GoEgress_step grow (EgressSignal true)
                                 (g_st (p_egress p), (p_heap p, p_telem p))) p')
          | _ => None
          end
      | Ingress_ =>
          match g_ctl (p_ingress p) with
          | Selecting => Some (ingress_turn (GoIngress_step (IngressSignal true)
                                 (g_st (p_ingress p), p_telem p)) p')
          | _ => None
          end
      | Telemetry_ =>
          match g_ctl (p_telemetry p) with
          | Selecting => Some (telemetry_turn (GoTelemetry_step (TelemetrySignal true Shutdown)
                                 (g_st (p_telemetry p), p_telem p)) p')
          | _ => None
          end
      | Signals_ => None
      end
  end.

Definition p_step_os_signal (sig : Signal) (p : prog) : option prog :=
  match g_ctl (p_signals p) with
  | Selecting => Some (with_signals (mkG (Holding (sig, [])) (g_st (p_signals p))) p)
  | _ => None
  end.

(** One more look at the process list; without an expression none is needed. *)
Definition p_step_snapshot (snap : snapshot) (p : prog) : option prog :=
  match g_ctl (p_signals p) with
  | Holding (sig, snaps) =>
      Some (signals_turn_end (Some (sig, snaps ++ [snap]))
              (GoSignals_step (OSSignal sig (snaps ++ [snap])) (g_st (p_signals p))) p)
  | _ => None
  end.

Definition p_step_forward (p : prog) : option prog :=
  match g_ctl (p_signals p) with
  | Sending ((c, sig) :: todo) after =>
      match p_osg p c with
      | None => Some (end_turn todo after
                  (with_signals (mkG (settle todo after) (g_st (p_signals p)))
                     (with_osg c (Some sig) p)))
      | Some _ => None
      end
  | _ => None
  end.

Definition p_step_serve (bound : bool) (p : prog) : option prog :=
  match pending_serves (g_st (p_ingress p)) with
  | O => None
  | S _ =>
      let r := serve_goroutine bound (g_st (p_ingress p)) in
      let p' := with_ingress (mkG (g_ctl (p_ingress p)) r.2) p in
      Some (match r.1 with Returned _ => p' | Panicked e => with_panic e p' end)
  end.

(** The [i]-th run that was started; it reads the tracer when it runs. *)
Definition p_step_act (i : nat) (env : RunEnv (C := C)) (p : prog) : option prog :=
  match started (g_st (p_egress p)) !! i with
  | Some run =>
      if decide (i ∈ p_taken p) then None
      else
        let r := Run_act grow env (tracer (g_st (p_egress p))) run (p_heap p, p_telem p) in
        let p' := with_taken i (with_world r.2.1 r.2.2 p) in
        Some (match r.1 with Returned _ => p' | Panicked e => with_panic e p' end)
  | None => None
  end.

(** A request, answered by the handlers of ingress with the engine and the
    database of telemetry; the HTTP server recovers from the panic of a handler. *)
Definition p_answer (clock : nat → Z) (path : string) (p : prog)
  : outcome (option (Response + routing Handler)) * (IngressState * Telem) :=
  serve_request (promQueryEngine (g_st (p_telemetry p))) (promDB (g_st (p_telemetry p))) clock path
    (g_st (p_ingress p), p_telem p).
Definition p_step_request (clock : nat → Z) (path : string) (p : prog) : option prog :=
  let r := p_answer clock path p in
  Some (with_ingress (mkG (g_ctl (p_ingress p)) r.2.1) (with_world (p_heap p) r.2.2 p)).

(** One step; a program that has panicked makes none. *)
Definition exec_prog (l : plabel) (p : prog) : option prog :=
  match p_crashed p with
  | Some _ => None
  | None =>
      match l with
      | PMain env_path rd watcher_created => p_step_main env_path rd watcher_created p
      | PEvent w => p_step_event w p
      | PConfigSend => p_step_config_send p
      | PRecv c env => p_step_recv c env p
      | PStage c now => p_step_stage c now p
      | PAnnounce => p_step_announce p
      | PTick now => p_step_tick now p
      | PSignal c Shutdown => p_step_signal c Shutdown p
      | POSSignal sig => p_step_os_signal sig p
      | PSnapshot snap => p_step_snapshot snap p
      | PForward => p_step_forward p
      | PServe bound => p_step_serve bound p
      | PAct i env => p_step_act i env p
      | PRequest clock path => p_step_request clock path p
      end
  end.

Fixpoint run_prog (ls : list plabel) (p : prog) : option prog :=
  match ls with
  | [] => Some p
  | l :: ls' => p' ← exec_prog l p; run_prog ls' p'
  end.

End program.

(** ** A run for the witnesses *)

(** A configuration with a TCP probe and a health endpoint, in every document. *)
Definition sample_config : BunnyConfig :=
  mkBunnyConfig (cfg_Egress (toy_config [ftp_then_tcp] 3000)) (cfg_Ingress (toy_ingress [good_health]))
    zeroSignalsConfig zeroTelemetryConfig.
Definition sample_yaml (d : string) (c : option BunnyConfig) : option BunnyConfig * option error :=
  (Some sample_config, None).

Definition sample_env : @TelemetryEnv toy_libs unit :=
  {| MkdirTemp := inr "/tmp/tsdb"; register_base := λ r, inr r;
     tsdb_Open := λ _ _ r, Returned (inr tt, r);
     QueryTracker := unit; NewActiveQueryTracker := λ _ _, Returned tt;
     NewEngine := λ _ _ r, Returned (scalar_engine, r);
     exporter_err := λ _, None |}.

Abbreviation sample_label := (@plabel toy_libs script_conn unit nat).
Abbreviation sample_run ls :=
  (@run_prog toy_libs simple_regexp ascii_tables grow_double script_conn _ unit nat sample_yaml toy_hash ls
     (init_prog 0 ∅ toy_telem)).

(** Everything starts and the first configuration reaches everyone; the server
    begins to listen. *)
Definition sample_startup : list sample_label :=
  replicate 10 (PMain "" (FileData "x") true) ++
  replicate 4 PConfigSend ++
  [PRecv Telemetry_ sample_env; PAnnounce; PAnnounce; PRecv Egress_ sample_env; PStage Egress_ 10;
   PRecv Ingress_ sample_env; PStage Ingress_ 10; PRecv Signals_ sample_env; PServe true].
(** A tick, the run it starts, and a request. *)
Definition sample_run_env : RunEnv (C := script_conn) :=
  mkRunEnv (λ _, None) (λ _ _ _ _, (None, Some 200%Z)) (λ _ _ _, None) (λ _ _, (None, Some 1%Z))
    (λ _ _, inr (mkScript [] [])) (λ _ c, c) "0af7651916cd43dd8448eb211c80319c" (λ _ _ _ _, None)
    toy_clock.
Definition sample_traffic : list sample_label :=
  [PTick 2000000000; PAct 0 sample_run_env; PRequest toy_clock "/health"].
Definition sample_start : list sample_label := sample_startup ++ sample_traffic.
(** A tick, and a reload that egress takes first. *)
Definition sample_reload : list sample_label :=
  [PTick 2000000000; PEvent (WatcherEvent true fsWrite (FileData "y") (FileData "y"))] ++
  replicate 4 PConfigSend ++ [PRecv Egress_ sample_env; PRecv Telemetry_ sample_env; PAnnounce].
(** A signal that reaches everyone, and the end. *)
Definition sample_signal : list sample_label :=
  [POSSignal 15; PSnapshot (mkSnapshot None [])] ++ replicate 4 PForward.
(** [Shutdown] on a provider that was never made dereferences nil here. *)
Definition sample_Shutdown (mp : option MeterProvider) (tp : option TracerProvider) : outcome unit :=
  match mp, tp with Some _, Some _ => Returned tt | _, _ => Panicked NilDereference end.
Definition sample_stop : list sample_label :=
  [PSignal Telemetry_ sample_Shutdown; PSignal Egress_ sample_Shutdown;
   PSignal Ingress_ sample_Shutdown; PSignal Config_ sample_Shutdown; PMain "" (FileData "x") true].
Definition sample_shutdown : list sample_label := sample_signal ++ sample_stop.
