(* ===== verification/Refinement.v ===== *)
(** * The program refines its system of channels

    A forward simulation from [Program] to [System]: every step of the program
    that does not panic is a step of the system or changes nothing that the
    system looks at.  The configurations broadcast so far number what the
    system counts, which gives the theorems on the whole program: the probes of
    egress and the server of ingress are never newer than the providers of
    telemetry, at rest all packages work by the current configuration, which
    decides what is probed and what a health request is answered, and a program
    that has ended has shut everything down. *)

From stdpp Require Import functions.
From S2P Require Import Prelude GoStd Config Metrics Query Telemetry Expect Probes.
From S2P Require Import ServeMux Egress Ingress Signals System Program.
From Stdlib Require Import String.

(** ** The relation between the two states *)

(** The [k]-th configuration of a history, counted from one. *)
Definition numbered (hs : list BunnyConfig) (k : nat) (bc : BunnyConfig) : Prop :=
  1 ≤ k ∧ hs !! (k - 1) = Some bc.

(** A package's configuration is the part [f] of the [k]-th; there is none
    before the first. *)
Definition uses {A} (hs : list BunnyConfig) (f : BunnyConfig → A) (cur : option A) (k : nat) : Prop :=
  match cur with
  | None => k = 0
  | Some x => ∃ bc, numbered hs k bc ∧ x = f bc
  end.

(** Something that was set up for the [k]-th configuration, or for none yet. *)
Definition installed (hs : list BunnyConfig) (P : option BunnyConfig → Prop) (k : nat) : Prop :=
  match k with
  | O => P None
  | S _ => ∃ bc, numbered hs k bc ∧ P (Some bc)
  end.

(** A value that the first [k] configurations determine. *)
Definition follows {A} (hs : list BunnyConfig) (f : list BunnyConfig → A) (cur : A) (k : nat) : Prop :=
  k ≤ List.length hs ∧ cur = f (take k hs).

(** Everything [GoConfig] has sent, by the history of its broadcasts. *)
Definition broadcasts (hs : list BunnyConfig) : list (comp * BunnyConfig) :=
  hs ≫= λ bc, (., bc) <$> config_listeners.

(** Messages that all carry [m]. *)
Definition all_carry {M} (m : M) (todo : list (comp * M)) : Prop := todo = (., m) <$> todo.*1.

(** A channel of capacity one is full when it holds an element. *)
Definition is_full {A} (x : option A) : bool := match x with Some _ => true | None => false end.

Definition config_rel (hs : list BunnyConfig) (c : ctl BunnyConfig unit) (pc : config_pc) : Prop :=
  match c with
  | NotStarted => pc = COff ∧ hs = []
  | Selecting => hs ≠ [] ∧ pc = CIdle (List.length hs)
  | Holding _ => False
  | Sending todo after => after ≠ Returned true ∧ todo ≠ [] ∧
      (∃ bc, last hs = Some bc ∧ all_carry bc todo) ∧ pc = CSend (List.length hs) todo.*1
  | Ended => pc = CDone
  end.

Definition worker_rel (hs : list BunnyConfig) (c : ctl unit BunnyConfig) (pc : worker_pc) : Prop :=
  match c with
  | NotStarted => pc = WOff
  | Selecting => pc = WIdle
  | Holding bc => ∃ k, numbered hs k bc ∧ pc = WStage k
  | Sending _ _ => False
  | Ended => pc = WDone
  end.

Definition telemetry_rel (c : ctl ConfigStage unit) (pc : telemetry_pc) : Prop :=
  match c with
  | NotStarted => pc = TOff
  | Selecting => pc = TIdle
  | Holding _ => False
  | Sending todo after => after ≠ Returned true ∧ todo ≠ [] ∧
      all_carry ConfigStageTelemetryCompleted todo ∧ ∃ k, pc = TSend k todo.*1
  | Ended => pc = TDone
  end.

Definition signals_rel {Signal W} (c : ctl Signal W) (pc : signals_pc) : Prop :=
  match c with
  | NotStarted => pc = SOff
  | Selecting => pc = SIdle
  | Holding _ => pc = SWait
  | Sending todo after => after = Returned true ∧ todo ≠ [] ∧ pc = SSend todo.*1
  | Ended => pc = SDone
  end.

(** ** Lemmas on the parts of the relation *)

Lemma numbered_app hs hs' k bc : numbered hs k bc → numbered (hs ++ hs') k bc.
Proof. intros [Hk Hl]. split; [done|by apply lookup_app_l_Some]. Qed.

Lemma numbered_last hs bc : last hs = Some bc → numbered hs (List.length hs) bc.
Proof.
  rewrite last_lookup. intros Hl. split; [|by rewrite Nat.sub_1_r].
  destruct hs; [done|cbn; lia].
Qed.

Lemma uses_app {A} hs hs' (f : BunnyConfig → A) cur k : uses hs f cur k → uses (hs ++ hs') f cur k.
Proof.
  destruct cur as [x|]; [|done]. intros (bc & Hn & ->). exists bc. split; [by apply numbered_app|done].
Qed.

Lemma worker_rel_app hs hs' c pc : worker_rel hs c pc → worker_rel (hs ++ hs') c pc.
Proof.
  destruct c as [| |bc| |]; try done. intros (k & Hn & ->). exists k. split; [by apply numbered_app|done].
Qed.

Lemma installed_app hs hs' P k : installed hs P k → installed (hs ++ hs') P k.
Proof. destruct k; [done|]. intros (bc & Hn & HP). exists bc. split; [by apply numbered_app|done]. Qed.

Lemma installed_mono hs (P Q : option BunnyConfig → Prop) k :
  (∀ o, P o → Q o) → installed hs P k → installed hs Q k.
Proof. intros HPQ. destruct k; cbn; naive_solver. Qed.

Lemma installed_Some hs (P : option BunnyConfig → Prop) k bc : numbered hs k bc → P (Some bc) → installed hs P k.
Proof. intros Hn HP. destruct k; [by destruct Hn; lia|]. by exists bc. Qed.

Lemma installed_length hs (P : option BunnyConfig → Prop) bc :
  last hs = Some bc → installed hs P (List.length hs) → P (Some bc).
Proof.
  intros Hl. destruct hs as [|x hs]; [done|]. intros (bc' & [_ Hn] & HP). rewrite last_lookup in Hl.
  cbn in Hl, Hn. rewrite Nat.sub_0_r in Hn. congruence.
Qed.

Lemma follows_app {A} hs hs' (f : list BunnyConfig → A) cur k :
  follows hs f cur k → follows (hs ++ hs') f cur k.
Proof. intros [Hk ->]. split; [rewrite length_app; lia|]. by rewrite take_app_le. Qed.

Lemma numbered_take hs k bc : numbered hs k bc → take k hs = take (k - 1) hs ++ [bc].
Proof.
  intros [Hk Hl]. destruct k; [lia|]. cbn in Hl |- *. rewrite Nat.sub_0_r in *. by apply take_S_r.
Qed.

#[export] Hint Resolve numbered_app uses_app worker_rel_app installed_app follows_app : bunny.

Lemma to_all_fst {M} (m : M) (cs : list comp) : ((., m) <$> cs).*1 = cs.
Proof. induction cs as [|c cs IH]; [done|]. by csimpl; rewrite IH. Qed.

Lemma all_carry_to_all {M} (m : M) cs : all_carry m ((., m) <$> cs).
Proof. unfold all_carry. by rewrite to_all_fst. Qed.

Lemma all_carry_cons {M} (m m' : M) c todo :
  all_carry m ((c, m') :: todo) ↔ m' = m ∧ all_carry m todo.
Proof. unfold all_carry. cbn. split; [by intros [= -> ?]|by intros [-> <-]]. Qed.

Lemma new_sends_app {A} (l k : list A) : new_sends l (l ++ k) = k.
Proof. unfold new_sends. by rewrite drop_app_length. Qed.

Lemma new_sends_same {A} (l : list A) : new_sends l l = [].
Proof. unfold new_sends. apply drop_all. Qed.

(** A relation between functions survives an update of both. *)
Lemma insert_rel {A B} (R : A → B → Prop) (f : comp → A) (g : comp → B) c a b :
  R a b → (∀ c', R (f c') (g c')) → ∀ c', R (<[c := a]> f c') (<[c := b]> g c').
Proof.
  intros Hab Hfg c'. destruct (decide (c = c')) as [<-|Hne].
  - by rewrite !fn_lookup_insert.
  - by rewrite !fn_lookup_insert_ne.
Qed.

(** What a package has taken from its channel changes only when it takes. *)
Lemma taken_send s c k todo pc :
  inv s → cfg s = CSend k (c :: todo) → upd s c = None →
  ∀ c', taken (set_sent c k (set_upd c (Some k) (set_cfg pc s))) c' = taken s c'.
Proof.
  intros Hinv Hc Hu c'. unfold taken. cbn. destruct (decide (c = c')) as [<-|Hne].
  - rewrite !fn_lookup_insert, Hu. pose proof (inv_config s Hinv) as Hs. rewrite Hc in Hs.
    destruct Hs as (_ & _ & Hs & _). symmetry. apply Hs. left.
  - by rewrite !fn_lookup_insert_ne.
Qed.

Lemma taken_recv s c k :
  inv s → upd s c = Some k → taken (set_upd c None s) c = k.
Proof.
  intros Hinv Hu. unfold taken. cbn. rewrite fn_lookup_insert.
  by destruct (inv_upd s Hinv c k Hu) as [-> _].
Qed.

Lemma taken_full s c k : inv s → upd s c = Some k → taken s c = k - 1.
Proof. intros Hinv Hu. unfold taken. rewrite Hu. by destruct (inv_upd s Hinv c k Hu) as [-> _]. Qed.

Lemma taken_recv_ne s c c' : c ≠ c' → taken (set_upd c None s) c' = taken s c'.
Proof. intros Hne. unfold taken. cbn. by rewrite fn_lookup_insert_ne. Qed.

Lemma wg_Done_live s : (0 ≤ wg s - 1)%Z → wg_Done s = set_wg (wg s - 1) s.
Proof. intros Hw. unfold wg_Done. by destruct (Z.ltb_spec (wg s - 1) 0); [lia|]. Qed.

(** ** The simulation *)

Section refinement.
Context `{MetricLibs} `{Regexp} `{UnicodeTables} (grow : nat → nat) {C : Type} `{Conn C} {DB Signal : Type}.
Context (yaml_Unmarshal : string → option BunnyConfig → option BunnyConfig * option error)
  (sha256_hex : string → string).

Abbreviation prog := (prog (DB := DB) (Signal := Signal)).
Abbreviation exec_prog := (exec_prog (C := C) grow yaml_Unmarshal sha256_hex).
Abbreviation run_prog := (run_prog (C := C) grow yaml_Unmarshal sha256_hex).

(** What the packages have set up for a configuration, or before the first. *)
Definition egress_by (s : EgressState) (o : option BunnyConfig) : Prop :=
  match o with
  | None => probes s = []
  | Some bc => egress_built (cfg_Egress bc) s
  end.
Definition ingress_by (s : IngressState) (o : option BunnyConfig) : Prop :=
  match o with
  | None => httpServer s = None
  | Some bc => set_up_for (HTTPServer (cfg_Ingress bc)) s
  end.
Definition telemetry_by (s : Telemetry.State (Chan := comp) (DB := DB)) (o : option BunnyConfig) : Prop :=
  match o with
  | None => meterProvider s = None ∧ traceProvider s = None ∧ promQueryEngine s = None
  | Some bc => is_Some (promQueryEngine s) ∧
      ∃ env : TelemetryEnv (DB := DB), meterProvider s = Some (wanted_meter env (cfg_Telemetry bc)) ∧
        traceProvider s = Some (wanted_tracer env (cfg_Telemetry bc))
  end.

(** The program [p] with the history [hs] is at the state [s] of the system. *)
Record refines (hs : list BunnyConfig) (p : prog) (s : sys) : Prop := mkRefines {
  ref_main : main_pc s = p_main p;
  ref_wg : wg s = p_wg p;
  ref_live : p_crashed p = None ∧ crashed s = false;
  ref_config : config_rel hs (g_ctl (p_config p)) (cfg s);
  ref_egress : worker_rel hs (g_ctl (p_egress p)) (wrk s Egress_);
  ref_ingress : worker_rel hs (g_ctl (p_ingress p)) (wrk s Ingress_);
  ref_telemetry : telemetry_rel (g_ctl (p_telemetry p)) (tel s);
  ref_signals : signals_rel (g_ctl (p_signals p)) (sgn s);
  ref_upd c : option_Forall2 (λ bc k, numbered hs k bc) (p_upd p c) (upd s c);
  ref_stg c : p_stg p c = if stg s c then Some ConfigStageTelemetryCompleted else None;
  ref_osg c : osg s c = is_full (p_osg p c);
  ref_history : Config.sent (g_st (p_config p)) = broadcasts hs;
  ref_current : hs ≠ [] → bunnyConfig (g_st (p_config p)) = last hs;
  ref_egress_uses : uses hs cfg_Egress (egressConfig (g_st (p_egress p))) (taken s Egress_);
  ref_ingress_uses : uses hs cfg_Ingress (ingressConfig (g_st (p_ingress p))) (taken s Ingress_);
  ref_telemetry_uses :
    uses hs cfg_Telemetry (telemetryConfig (g_st (p_telemetry p))) (configured s);
  ref_signals_uses : uses hs cfg_Signals (signalsConfig (g_st (p_signals p))) (taken s Signals_);
  ref_egress_built : installed hs (egress_by (g_st (p_egress p))) (applied s Egress_);
  ref_ingress_built : installed hs (ingress_by (g_st (p_ingress p))) (applied s Ingress_);
  ref_telemetry_built : installed hs (telemetry_by (g_st (p_telemetry p))) (configured s);
  ref_signals_watch : follows hs watched_by
    (watchedProcessCommandLineRegEx (g_st (p_signals p))) (taken s Signals_) }.

(** What the packages keep for themselves: the channels [main] registered and
    the invariants of egress and of ingress; a goroutine that waits for the
    stage has set its configuration; a signal that was taken has shut down the
    server and the providers. *)
Record packages_inv (p : prog) : Prop := mkPackages {
  pk_config : configUpdateChannels (g_st (p_config p)) = config_listeners;
  pk_telemetry : configStageChannels (g_st (p_telemetry p)) = stage_listeners;
  pk_signals : osSignalListenerChannels (g_st (p_signals p)) = signal_listeners;
  pk_egress : egress_inv (g_st (p_egress p));
  pk_egress_off : g_ctl (p_egress p) = NotStarted → egressConfig (g_st (p_egress p)) = None;
  pk_egress_held bc : g_ctl (p_egress p) = Holding bc →
    egressConfig (g_st (p_egress p)) = Some (cfg_Egress bc);
  pk_ingress_held bc : g_ctl (p_ingress p) = Holding bc →
    ingressConfig (g_st (p_ingress p)) = Some (cfg_Ingress bc);
  pk_ingress : servers_inv (g_st (p_ingress p));
  pk_ingress_ended : g_ctl (p_ingress p) = Ended → all_shut_down (g_st (p_ingress p));
  pk_shutdowns : List.length (shutdowns (g_st (p_telemetry p))) =
    match g_ctl (p_telemetry p) with Ended => 1 | _ => 0 end }.

(** The system makes one step or none. *)
Definition steps (s s' : sys) : Prop := s' = s ∨ ∃ l, exec_step l s = Some s'.

(** A state of the program that the system can follow to from [s]. *)
Definition followed (p' : prog) (s : sys) : Prop :=
  ∃ hs' s', refines hs' p' s' ∧ packages_inv p' ∧ steps s s'.

Lemma p_Done_live (p : prog) :
  p_crashed (p_Done p) = None → (0 ≤ p_wg p - 1)%Z ∧ p_Done p = with_wg (p_wg p - 1) p.
Proof. unfold p_Done. destruct (Z.ltb_spec (p_wg p - 1) 0); [done|]. split; [lia|done]. Qed.

(** The end of a turn without a panic: there is more to send, the goroutine
    is in its [select], or it has returned. *)
Lemma end_turn_live {M W} (todo : list (comp * M)) after (p : prog) :
  p_crashed (end_turn todo after p) = None →
  todo ≠ [] ∧ end_turn todo after p = p ∧ settle (W := W) todo after = Sending todo after ∨
  todo = [] ∧ after = Returned false ∧ end_turn todo after p = p ∧
    settle (W := W) todo after = Selecting ∨
  todo = [] ∧ after = Returned true ∧ (0 ≤ p_wg p - 1)%Z ∧
    end_turn todo after p = with_wg (p_wg p - 1) p ∧ settle (W := W) todo after = Ended.
Proof.
  destruct todo as [|m todo]; [|by left]. destruct after as [[]|e]; cbn; [|intros _; by right; left|done].
  intros [Hw Hp]%p_Done_live. by right; right.
Qed.

Lemma refines_upd_None hs p s c : refines hs p s → p_upd p c = None → upd s c = None.
Proof. intros Hr Hu. pose proof (ref_upd _ _ _ Hr c) as Hc. rewrite Hu in Hc. by inversion Hc. Qed.

Lemma refines_upd_Some hs p s c bc :
  refines hs p s → p_upd p c = Some bc → ∃ k, upd s c = Some k ∧ numbered hs k bc.
Proof. intros Hr Hu. pose proof (ref_upd _ _ _ Hr c) as Hc. rewrite Hu in Hc. inversion Hc; eauto. Qed.

(** A turn that panics before it sends ends the program. *)
Lemma end_turn_panic {M} after (p : prog) :
  is_panic after = true → p_crashed (end_turn ([] : list (comp * M)) after p) ≠ None.
Proof. by destruct after as [[]|e]. Qed.

(** A turn of [GoConfig] that sends. *)
Lemma config_turn_sends (p : prog) r c :
  configUpdateChannels (g_st (p_config p)) = config_listeners →
  sends_current c (g_st (p_config p)) r.2 →
  Config.sent r.2 = Config.sent (g_st (p_config p)) ++ ((., c) <$> config_listeners) ∧
  config_turn r p = with_config (mkG (Sending ((., c) <$> config_listeners) r.1) r.2) p.
Proof.
  intros Hch (_ & _ & Hs). unfold to_all in Hs. rewrite Hch in Hs.
  unfold config_turn. by rewrite Hs, new_sends_app.
Qed.

(** A shutdown and a goroutine that serves leave what was set up. *)
Lemma ingress_by_signal ok s t o :
  ingress_by s o → ingress_by (GoIngress_step (IngressSignal ok) (s, t)).2.1 o.
Proof.
  destruct o as [bc|]; [apply GoIngress_signal_set_up|]. cbn [ingress_by]. intros Hs.
  by rewrite (proj2 (GoIngress_signal_endpoints ok s t)).
Qed.

Lemma ingress_by_serve bound s o : ingress_by s o → ingress_by (serve_goroutine bound s).2 o.
Proof.
  destruct o as [bc|]; [apply serve_goroutine_set_up|]. cbn [ingress_by]. intros Hs.
  by rewrite (proj2 (serve_goroutine_endpoints bound s)).
Qed.

Ltac fn_simpl :=
  repeat first [rewrite fn_lookup_insert | rewrite fn_lookup_insert_ne by done].

(** Close the fields of [refines] or [packages_inv] that a step leaves. *)
Ltac refine_fields := split; cbn; fn_simpl; try done; eauto with bunny.

Lemma follow_config_send p p' hs s :
  refines hs p s → packages_inv p → inv s →
  p_step_config_send p = Some p' → p_crashed p' = None → followed p' s.
Proof.
  intros Hr Hk Hinv. unfold p_step_config_send.
  destruct (g_ctl (p_config p)) as [| | |[|[c bc] todo] after|] eqn:Ec; try done.
  pose proof (ref_config _ _ _ Hr) as Hcr. rewrite Ec in Hcr.
  destruct Hcr as (Hafter & _ & (bc' & Hlast & Hall) & Hcfg).
  apply all_carry_cons in Hall as [-> Hall]. destruct (p_upd p c) eqn:Eu; [done|].
  pose proof (refines_upd_None _ _ _ _ Hr Eu) as Hu. intros [= <-] Hlive.
  set (k := List.length hs) in *. csimpl in Hcfg.
  set (pc := match todo.*1 with [] => CIdle k | _ => CSend k todo.*1 end).
  pose proof (taken_send s c k todo.*1 pc Hinv Hcfg Hu) as Htaken.
  exists hs, (set_sent c k (set_upd c (Some k) (set_cfg pc s))).
  assert (config_rel hs (settle (W := unit) todo after) pc) as Hpc.
  { destruct todo as [|m todo]; cbn; [destruct after as [[]|e]; try done; by destruct hs|]. subst pc. by eauto 10. }
  assert (∀ q : prog, p_crashed (end_turn todo after q) = None → end_turn todo after q = q) as Hend.
  { intros q [(_ & -> & _)|[(_ & _ & -> & _)|(_ & -> & _)]]%(end_turn_live (W := unit)); done. }
  rewrite Hend by done. split_and!; [|by destruct Hk|right; exists LConfigSend].
  - destruct Hr. refine_fields.
    1: apply insert_rel; [|done]; constructor; by apply numbered_last.
    all: by rewrite Htaken.
  - unfold exec_step, step_config_send. destruct (ref_live _ _ _ Hr) as [_ ->]. by rewrite Hcfg, Hu.
Qed.

Lemma refines_broadcast hs p s st c after :
  refines hs p s → bunnyConfig st = Some c →
  Config.sent st = broadcasts hs ++ ((., c) <$> config_listeners) → after ≠ Returned true →
  refines (hs ++ [c]) (with_config (mkG (Sending ((., c) <$> config_listeners) after) st) p)
    (set_cfg (CSend (S (List.length hs)) config_listeners) s).
Proof.
  intros [] Hc Hsent Hafter. refine_fields.
  - split_and!; [done..| |by rewrite length_app, Nat.add_1_r]. exists c. by rewrite last_snoc.
  - intros c'. destruct (ref_upd0 c'); constructor. by apply numbered_app.
  - rewrite Hsent. unfold broadcasts. by rewrite bind_app.
  - intros _. by rewrite last_snoc.
Qed.

Lemma follow_event w p p' hs s :
  refines hs p s → packages_inv p →
  p_step_event yaml_Unmarshal sha256_hex w p = Some p' → p_crashed p' = None → followed p' s.
Proof.
  intros Hr Hk Hst Hlive. pose proof (ref_config _ _ _ Hr) as Hcr.
  unfold p_step_event in Hst. destruct (g_ctl (p_config p)) eqn:Ec; try by destruct w.
  pose proof (pk_config _ Hk) as Hch.
  pose proof (GoConfig_step_contract yaml_Unmarshal sha256_hex w (g_st (p_config p))) as Hc.
  rewrite Hch in Hc. specialize (Hc ltac:(done)).
  set (st := g_st (p_config p)) in *. set (r := GoConfig_step yaml_Unmarshal sha256_hex w st) in *.
  assert (p' = config_turn r p) as ->.
  { destruct w; try done; by injection Hst as <-. }
  assert (r = (Returned false, st) ∨ ∃ c, r.1 = Returned false ∧ sends_current c st r.2)
    as [Hsame|(c & Ho & Hs)].
  { destruct w as [[] op hashed loaded| |]; auto; [|done]. destruct Hc as [?|Hc]; [by left|right].
    destruct (loaded_config _ loaded) as [c|]; [by exists c|]. destruct Hc as [Hp Hsent].
    exfalso. revert Hlive. unfold config_turn. rewrite Hsent, new_sends_same. by apply end_turn_panic. }
  - exists hs, s. rewrite Hsame. unfold config_turn. cbn. rewrite new_sends_same. cbn.
    split_and!; [|by destruct Hk; refine_fields|by left]. destruct Hr. refine_fields; by rewrite Ec in *.
  - destruct (config_turn_sends p r c Hch Hs) as (Hsent & ->). destruct Hs as (Hch' & Hcur & _).
    subst st. rewrite (ref_history _ _ _ Hr) in Hsent.
    eexists (hs ++ [c]), _. split_and!; [apply refines_broadcast; [done..|by rewrite Ho]| |].
    + destruct Hk. refine_fields. by rewrite Hch'.
    + right. exists LReload. cbn in Hcr. unfold exec_step.
      destruct (ref_live _ _ _ Hr) as [_ ->]. by rewrite (proj2 Hcr).
Qed.

(** [go config.GoConfig()] and the other goroutines. *)
Lemma follow_start c env_path rd w rest p hs s :
  refines hs p s → packages_inv p → main_inv s → inv s → p_main p = Start c :: rest →
  let p' := p_start yaml_Unmarshal c env_path rd w p in
  p_crashed p' = None →
  ∃ hs', refines hs' p' (start_goroutine c s) ∧ packages_inv p'.
Proof.
  intros Hr Hk [_ Hoff] Hinv Hm p' Hlive. pose proof (ref_main _ _ _ Hr) as Hmain. rewrite Hm in Hmain.
  specialize (Hoff c ltac:(rewrite Hmain; left)). subst p'. destruct c; cbn in Hoff.
  - pose proof (ref_config _ _ _ Hr) as Hcr. rewrite Hoff in Hcr.
    assert (hs = []) as ->.
    { destruct (g_ctl (p_config p)); cbn in Hcr; naive_solver. }
    unfold p_start in *. pose proof (pk_config _ Hk) as Hch.
    pose proof (GoConfig_start_contract yaml_Unmarshal env_path rd w (g_st (p_config p))) as Hc.
    rewrite Hch in Hc. specialize (Hc ltac:(done)).
    set (r := GoConfig_start yaml_Unmarshal env_path rd w (g_st (p_config p))) in *.
    destruct (loaded_config yaml_Unmarshal rd) as [c|].
    + destruct Hc as [Hs Ho]. destruct (config_turn_sends p (void r.1, r.2) c Hch Hs) as (Hsent & ->).
      rewrite (ref_history _ _ _ Hr) in Hsent. exists [c]. destruct Hs as (Hch' & Hcur & _).
      split; [|destruct Hk; refine_fields; by rewrite Hch'].
      apply (refines_broadcast [] p s); [done..|]. rewrite Ho. by destruct w.
    + destruct Hc as [Hp Hsent]. exfalso. revert Hlive. unfold config_turn. cbn.
      rewrite Hsent, new_sends_same. apply end_turn_panic. by destruct r.1.
  - exists hs. pose proof (ref_egress _ _ _ Hr) as He. rewrite Hoff in He.
    assert (g_ctl (p_egress p) = NotStarted) as Hns by (destruct (g_ctl (p_egress p)); cbn in He; naive_solver).
    assert (applied s Egress_ = 0) as Happ.
    { pose proof (inv_worker s Hinv Egress_ ltac:(by left)) as Hw. rewrite Hoff in Hw. rewrite <-Hw.
      pose proof (ref_egress_uses _ _ _ Hr) as Hu. by rewrite (pk_egress_off _ Hk Hns) in Hu. }
    split; [destruct Hr; refine_fields; by rewrite Happ in *|].
    destruct Hk. refine_fields. destruct pk_egress0 as (I1 & I2 & _). by split_and!.
  - exists hs. split; [destruct Hr; refine_fields|destruct Hk; refine_fields].
  - exists hs. pose proof (ref_telemetry _ _ _ Hr) as Ht. rewrite Hoff in Ht.
    split; [destruct Hr; refine_fields|destruct Hk; refine_fields].
    rewrite pk_shutdowns0. destruct (g_ctl (p_telemetry p)); cbn in Ht; naive_solver.
  - exists hs. split; [destruct Hr; refine_fields|destruct Hk; refine_fields].
Qed.

Lemma follow_main env_path rd w p p' hs s :
  refines hs p s → packages_inv p → main_inv s → inv s →
  p_step_main yaml_Unmarshal env_path rd w p = Some p' → p_crashed p' = None → followed p' s.
Proof.
  intros Hr Hk Hi Hinv. unfold p_step_main. pose proof (ref_main _ _ _ Hr) as Hm.
  destruct (ref_live _ _ _ Hr) as [_ Hlive].
  destruct (p_main p) as [|[c| |] rest] eqn:Em; [done|..].
  - intros [= <-] Hl. destruct (follow_start c env_path rd w rest p hs s Hr Hk Hi Hinv Em Hl)
      as (hs' & Hr' & Hk'). exists hs', (set_main rest (start_goroutine c s)).
    split_and!; [by destruct Hr'|by destruct Hk'|].
    right. exists LMain. unfold exec_step, step_main. by rewrite Hlive, Hm.
  - intros [= <-] _. exists hs, (set_main rest (set_wg (wg s + 1) s)).
    split_and!; [destruct Hr; refine_fields; by rewrite ref_wg0|by destruct Hk|].
    right. exists LMain. unfold exec_step, step_main. by rewrite Hlive, Hm.
  - pose proof (ref_wg _ _ _ Hr) as Hwg. destruct (Z.eqb_spec (p_wg p) 0) as [Hz|]; [|done].
    intros [= <-] _. exists hs, (set_main rest s).
    split_and!; [by destruct Hr; refine_fields|by destruct Hk|].
    right. exists LMain. unfold exec_step, step_main. by rewrite Hlive, Hm, Hwg, Hz.
Qed.

(** Taking a configuration from a channel. *)
Lemma refines_upd_taken hs p s c :
  refines hs p s → ∀ c', option_Forall2 (λ bc k, numbered hs k bc)
    (<[c := None]> (p_upd p) c') (<[c := None]> (upd s) c').
Proof. intros Hr. apply insert_rel; [constructor|apply Hr]. Qed.

Lemma follow_recv_worker c env p p' hs s :
  refines hs p s → packages_inv p → inv s → is_worker c →
  p_step_recv c env p = Some p' → followed p' s.
Proof.
  intros Hr Hk Hinv Hw. unfold p_step_recv. destruct (p_upd p c) as [bc|] eqn:Eu; [|done].
  destruct (refines_upd_Some _ _ _ _ _ Hr Eu) as (k & Hu & Hn).
  destruct (ref_live _ _ _ Hr) as [_ Hlive]. pose proof (refines_upd_taken hs p s c Hr) as Hupd.
  pose proof (taken_recv s c k Hinv Hu) as Htk.
  intros Hst. exists hs, (set_wrk c (WStage k) (set_upd c None s)).
  assert (wrk s c = WIdle ∧ refines hs p' (set_wrk c (WStage k) (set_upd c None s)) ∧ packages_inv p')
    as (Hidle & Hr' & Hk').
  { rewrite <-Htk in Hn. destruct Hw as [-> | ->]; cbn in Hst.
    - pose proof (ref_egress _ _ _ Hr) as He. destruct (g_ctl (p_egress p)); try done.
      injection Hst as <-. split_and!; [done| |by destruct Hk; refine_fields; naive_solver].
      destruct Hr. by refine_fields.
    - pose proof (ref_ingress _ _ _ Hr) as He. destruct (g_ctl (p_ingress p)); try done.
      injection Hst as <-. split_and!; [done| |by destruct Hk; refine_fields; naive_solver].
      destruct Hr. by refine_fields. }
  split_and!; [done..|]. right. exists (LRecv c). unfold exec_step, step_recv.
  rewrite Hlive, Hu, Hidle. by destruct Hw as [-> | ->].
Qed.

Lemma follow_recv_telemetry env p p' hs s :
  refines hs p s → packages_inv p →
  p_step_recv Telemetry_ env p = Some p' → p_crashed p' = None → followed p' s.
Proof.
  intros Hr Hk. unfold p_step_recv. destruct (p_upd p Telemetry_) as [bc|] eqn:Eu; [|done].
  destruct (refines_upd_Some _ _ _ _ _ Hr Eu) as (k & Hu & Hn).
  destruct (ref_live _ _ _ Hr) as [_ Hlive]. pose proof (refines_upd_taken hs p s Telemetry_ Hr) as Hupd.
  pose proof (ref_telemetry _ _ _ Hr) as Ht.
  destruct (g_ctl (p_telemetry p)) eqn:Ec; try done. intros <-%(inj Some) Hl.
  pose proof (GoTelemetry_update_contract bc env (g_st (p_telemetry p)) (p_telem p))
    as (Hch & Hsd & Hcfg & Hout).
  set (r := GoTelemetry_step _ _) in *. clearbody r.
  unfold telemetry_turn in *. cbn [p_telemetry with_upd] in *.
  destruct Hout as [(Ho & Hprom & Hmp & Htp & Hs%update_stages_sent)|(Hp & Hs & _)].
  2: { exfalso. revert Hl. unfold stages_sent. rewrite Hs, new_sends_same. by apply end_turn_panic. }
  rewrite Hs, new_sends_app, (pk_telemetry _ Hk) in *. rewrite Ho. cbn.
  exists hs, (set_configured k (set_tel (TSend k stage_listeners) (set_upd Telemetry_ None s))).
  split_and!.
  - destruct Hr. refine_fields.
    + split_and!; [done..|by exists k].
    + rewrite Hcfg. by exists bc.
    + apply (installed_Some _ _ _ bc); [done|]. destruct Hprom as (? & ? & ? & ? & ? & ? & ? & ? & H').
      split; [|by exists env]. destruct H' as (_ & _ & _ & _ & _ & -> & _). by eexists.
  - destruct Hk. refine_fields. by rewrite Hsd, pk_shutdowns0, Ec.
  - right. exists (LRecv Telemetry_). unfold exec_step, step_recv. by rewrite Hlive, Hu, Ht.
Qed.

Lemma follow_recv_signals env p p' hs s :
  refines hs p s → packages_inv p → inv s →
  p_step_recv Signals_ env p = Some p' → followed p' s.
Proof.
  intros Hr Hk Hinv. unfold p_step_recv. destruct (p_upd p Signals_) as [bc|] eqn:Eu; [|done].
  destruct (refines_upd_Some _ _ _ _ _ Hr Eu) as (k & Hu & Hn).
  destruct (ref_live _ _ _ Hr) as [_ Hlive]. pose proof (refines_upd_taken hs p s Signals_ Hr) as Hupd.
  pose proof (ref_signals _ _ _ Hr) as Hg.
  destruct (g_ctl (p_signals p)) eqn:Ec; try done. intros <-%(inj Some).
  destruct (ref_signals_watch _ _ _ Hr) as [Hle Hre].
  rewrite (GoSignals_update_contract bc (g_st (p_signals p)) _ Hre).
  rewrite (taken_full _ _ _ Hinv Hu), <-(numbered_take _ _ _ Hn).
  pose proof (taken_recv _ _ _ Hinv Hu) as Htk.
  exists hs, (set_upd Signals_ None s). split_and!; [|by destruct Hk; refine_fields|].
  - destruct Hr. refine_fields; rewrite Htk; [by exists bc|]. split; [|done].
    destruct Hn as [_ Hn%lookup_lt_Some]. lia.
  - right. exists (LRecv Signals_). unfold exec_step, step_recv. by rewrite Hlive, Hu, Hg.
Qed.

(** A stage that is taken leaves the channel empty. *)
Lemma refines_stg_taken hs p s c :
  refines hs p s → ∀ c', <[c := None]> (p_stg p) c' =
    if <[c := false]> (stg s) c' then Some ConfigStageTelemetryCompleted else None.
Proof. intros Hr. by apply (insert_rel (λ x (y : bool), x = if y then _ else _)), Hr. Qed.

Lemma refines_stg_Some hs p s c stage :
  refines hs p s → p_stg p c = Some stage → stg s c = true ∧ stage = ConfigStageTelemetryCompleted.
Proof. intros Hr. rewrite (ref_stg _ _ _ Hr c). by destruct (stg s c); [intros [= <-]|]. Qed.

Lemma follow_stage_egress now p p' hs s :
  refines hs p s → packages_inv p → inv s →
  p_step_stage grow Egress_ now p = Some p' → p_crashed p' = None → followed p' s.
Proof.
  intros Hr Hk Hinv. unfold p_step_stage. destruct (p_stg p Egress_) as [stage|] eqn:Es; [|done].
  destruct (refines_stg_Some _ _ _ _ _ Hr Es) as [Hstg ->].
  pose proof (refines_stg_taken hs p s Egress_ Hr) as Htaken.
  destruct (ref_live _ _ _ Hr) as [_ Hlive]. pose proof (ref_egress _ _ _ Hr) as He.
  destruct (g_ctl (p_egress p)) as [| |bc| |] eqn:Ec; try done. destruct He as (k & Hn & Hw).
  pose proof (inv_worker s Hinv Egress_ ltac:(by left)) as Hwk. rewrite Hw in Hwk. destruct Hwk as [_ Htk].
  intros <-%(inj Some) Hl. rewrite (updateConfig_continues grow bc) in * by (by apply (pk_egress_held _ Hk)).
  set (st := (g_st (p_egress p), (p_heap p, p_telem p))) in *.
  pose proof (GoEgress_update_contract grow bc now st) as Hout.
  pose proof (GoEgress_step_inv grow
    (EgressConfigUpdate (Some (bc, Some ConfigStageTelemetryCompleted)) now) st (pk_egress _ Hk)) as Hi.
  rewrite GoEgress_step_update in Hout, Hi.
  set (r := updateConfig grow bc _ now st) in *. clearbody r. cbn [fst snd] in Hout, Hi.
  destruct Hout as [(Ho & Hcfg & Hbuilt)|Hp]; [|by exfalso; revert Hl; apply end_turn_panic].
  exists hs, (set_applied Egress_ k (set_wrk Egress_ WIdle (set_stg Egress_ false s))).
  unfold egress_turn. cbn [fst snd]. change (void r.1 = Returned false) in Ho. rewrite Ho. cbn.
  split_and!; [|by destruct Hk; refine_fields|].
  - rewrite <-Htk in Hn. destruct Hr. refine_fields; [rewrite Hcfg; by exists bc|].
    apply (installed_Some _ _ _ bc); [by rewrite <-Htk|done].
  - right. exists (LStage Egress_). unfold exec_step, step_stage. by rewrite Hlive, Hw, Hstg.
Qed.

Lemma follow_stage_ingress now p p' hs s :
  refines hs p s → packages_inv p → inv s →
  p_step_stage grow Ingress_ now p = Some p' → p_crashed p' = None → followed p' s.
Proof.
  intros Hr Hk Hinv. unfold p_step_stage. destruct (p_stg p Ingress_) as [stage|] eqn:Es; [|done].
  destruct (refines_stg_Some _ _ _ _ _ Hr Es) as [Hstg ->].
  pose proof (refines_stg_taken hs p s Ingress_ Hr) as Htaken.
  destruct (ref_live _ _ _ Hr) as [_ Hlive]. pose proof (ref_ingress _ _ _ Hr) as He.
  destruct (g_ctl (p_ingress p)) as [| |bc| |] eqn:Ec; try done. destruct He as (k & Hn & Hw).
  pose proof (inv_worker s Hinv Ingress_ ltac:(by right)) as Hwk. rewrite Hw in Hwk. destruct Hwk as [_ Htk].
  intros <-%(inj Some) Hl. rewrite (GoIngress_continues bc) in * by (by apply (pk_ingress_held _ Hk)).
  pose proof (GoIngress_update_contract bc (g_st (p_ingress p)) (p_telem p) (pk_ingress _ Hk)) as Hout.
  set (r := GoIngress_step _ _) in *. clearbody r.
  destruct Hout as [(Ho & Hcfg & Hi & Hset)|Hp]; [|by exfalso; revert Hl; apply end_turn_panic].
  exists hs, (set_applied Ingress_ k (set_wrk Ingress_ WIdle (set_stg Ingress_ false s))).
  unfold ingress_turn. rewrite Ho. cbn. split_and!; [|by destruct Hk; refine_fields|].
  - rewrite <-Htk in Hn. destruct Hr. refine_fields; [rewrite Hcfg; by exists bc|].
    apply (installed_Some _ _ _ bc); [by rewrite <-Htk|done].
  - right. exists (LStage Ingress_). unfold exec_step, step_stage. by rewrite Hlive, Hw, Hstg.
Qed.

Lemma follow_announce p p' hs s :
  refines hs p s → packages_inv p →
  p_step_announce p = Some p' → p_crashed p' = None → followed p' s.
Proof.
  intros Hr Hk. unfold p_step_announce. pose proof (ref_telemetry _ _ _ Hr) as Ht.
  destruct (g_ctl (p_telemetry p)) as [| | |[|[c stage] todo] after|] eqn:Ec; try done.
  destruct Ht as (Hafter & _ & Hall & k & Htel). csimpl in Htel. apply all_carry_cons in Hall as [-> Hall].
  destruct (p_stg p c) eqn:Es; [done|]. intros [= <-] Hlive.
  assert (stg s c = false) as Hs.
  { pose proof (ref_stg _ _ _ Hr c) as Hc. rewrite Es in Hc. by destruct (stg s c). }
  set (pc := match todo.*1 with [] => TIdle | _ => TSend k todo.*1 end).
  exists hs, (set_stg c true (set_tel pc s)).
  assert (telemetry_rel (settle (W := unit) todo after) pc) as Hpc.
  { destruct todo as [|m todo]; cbn; [by destruct after as [[]|e]|]. subst pc. by eauto 10. }
  assert (∀ q : prog, p_crashed (end_turn todo after q) = None → end_turn todo after q = q ∧
    settle (M := ConfigStage) (W := unit) todo after ≠ Ended) as Hend.
  { intros q [(_ & -> & ->)|[(_ & _ & -> & ->)|(_ & -> & _)]]%(end_turn_live (W := unit)); done. }
  destruct (Hend _ Hlive) as [-> Hne]. split_and!; [| |right; exists LAnnounce].
  - destruct Hr. refine_fields. by apply (insert_rel (λ x (y : bool), x = if y then _ else _)).
  - destruct Hk. refine_fields. rewrite pk_shutdowns0, Ec. by destruct (settle todo after).
  - unfold exec_step, step_announce. destruct (ref_live _ _ _ Hr) as [_ ->]. by rewrite Htel, Hs.
Qed.

Lemma follow_tick now p p' hs s :
  refines hs p s → packages_inv p → p_step_tick grow now p = Some p' → followed p' s.
Proof.
  intros Hr Hk. unfold p_step_tick. destruct (g_ctl (p_egress p)) eqn:Ec; try done.
  intros <-%(inj Some). exists hs, s.
  pose proof (GoEgress_step_inv grow (Tick now)
    (g_st (p_egress p), (p_heap p, p_telem p)) (pk_egress _ Hk)) as Hi.
  rewrite GoEgress_tick_contract in Hi |- *. cbn in Hi |- *.
  split_and!; [|by destruct Hk; refine_fields|by left]. destruct Hr. refine_fields; by rewrite Ec in *.
Qed.

(** Giving a signal to a goroutine, and taking it. *)
Lemma refines_osg_insert hs p s c x b :
  refines hs p s → b = is_full x →
  ∀ c', <[c := b]> (osg s) c' = is_full (<[c := x]> (p_osg p) c').
Proof.
  intros Hr Hb. apply (insert_rel (λ (y : option Signal) z, z = is_full y)); [done|].
  apply Hr.
Qed.

(** A goroutine that takes the signal returns: the counter of the wait group
    goes down. *)
Lemma exec_signal c s s' :
  crashed s = false → osg s c = true → (0 ≤ wg s' - 1)%Z →
  match c with
  | Config_ => ∃ k, cfg s = CIdle k ∧ s' = set_cfg CDone (set_osg c false s)
  | Egress_ | Ingress_ => wrk s c = WIdle ∧ s' = set_wrk c WDone (set_osg c false s)
  | Telemetry_ => tel s = TIdle ∧ s' = set_tel TDone (set_osg c false s)
  | Signals_ => False
  end →
  exec_step (LSignal c) s = Some (set_wg (wg s' - 1) s').
Proof.
  intros Hc Ho Hw Hs. rewrite <-wg_Done_live by done. unfold exec_step, step_signal. rewrite Hc, Ho.
  destruct c; [destruct Hs as (k & -> & ->)|destruct Hs as [-> ->]..|]; done.
Qed.

Lemma follow_signal c Shutdown p p' hs s :
  refines hs p s → packages_inv p →
  p_step_signal grow yaml_Unmarshal sha256_hex c Shutdown p = Some p' → p_crashed p' = None →
  followed p' s.
Proof.
  intros Hr Hk. unfold p_step_signal. destruct (p_osg p c) as [sig|] eqn:Eo; [|done].
  pose proof (ref_wg _ _ _ Hr) as Hwg. destruct (ref_live _ _ _ Hr) as [_ Hlive].
  assert (osg s c = true) as Ho by (rewrite (ref_osg _ _ _ Hr c), Eo; done).
  pose proof (refines_osg_insert hs p s c None false Hr ltac:(done)) as Hosg.
  destruct c; [| | | |done].
  - pose proof (ref_config _ _ _ Hr) as Hc. destruct (g_ctl (p_config p)) eqn:Ec; try done.
    destruct Hc as [_ Hc]. intros <-%(inj Some). unfold config_turn. cbn. rewrite new_sends_same. cbn.
    intros [Hw ->]%p_Done_live. cbn in *.
    eexists hs, _. split_and!; [| |right; exists (LSignal Config_)].
    3: { eapply exec_signal; [done..| |by eexists]. cbn. by rewrite Hwg. }
    + destruct Hr. refine_fields. by rewrite Hwg.
    + by destruct Hk; refine_fields.
  - pose proof (ref_egress _ _ _ Hr) as Hc. destruct (g_ctl (p_egress p)) eqn:Ec; try done.
    intros <-%(inj Some). unfold egress_turn. cbn.
    intros [Hw ->]%p_Done_live. cbn in *.
    eexists hs, _. split_and!; [| |right; exists (LSignal Egress_)].
    3: { eapply exec_signal; [done..| |done]. cbn. by rewrite Hwg. }
    + destruct Hr. refine_fields. by rewrite Hwg.
    + by destruct Hk; refine_fields.
  - pose proof (ref_ingress _ _ _ Hr) as Hc. destruct (g_ctl (p_ingress p)) eqn:Ec; try done.
    intros <-%(inj Some). unfold ingress_turn.
    destruct (GoIngress_signal_contract true (g_st (p_ingress p)) (p_telem p) (pk_ingress _ Hk))
      as (st & Hst & Hcfg & Hi & Hall).
    pose proof (ingress_by_signal true (g_st (p_ingress p)) (p_telem p)) as Hby. rewrite Hst in *.
    cbn in Hby |- *. intros [Hw ->]%p_Done_live. cbn in *.
    eexists hs, _. split_and!; [| |right; exists (LSignal Ingress_)].
    3: { eapply exec_signal; [done..| |done]. cbn. by rewrite Hwg. }
    + destruct Hr. refine_fields; [by rewrite Hwg|by rewrite Hcfg|by eapply installed_mono].
    + by destruct Hk; refine_fields.
  - pose proof (ref_telemetry _ _ _ Hr) as Hc. destruct (g_ctl (p_telemetry p)) eqn:Ec; try done.
    intros <-%(inj Some). rewrite GoTelemetry_signal_contract. unfold telemetry_turn.
    destruct (Shutdown _ _) as [u|e]; cbn; rewrite new_sends_same; [|done]. cbn. intros [Hw ->]%p_Done_live. cbn in *.
    eexists hs, _. split_and!; [| |right; exists (LSignal Telemetry_)].
    3: { eapply exec_signal; [done..| |done]. cbn. by rewrite Hwg. }
    + destruct Hr. refine_fields. by rewrite Hwg.
    + destruct Hk. refine_fields. by rewrite length_app, pk_shutdowns0, Ec.
Qed.

Lemma follow_os_signal sig p p' hs s :
  refines hs p s → packages_inv p → p_step_os_signal sig p = Some p' → followed p' s.
Proof.
  intros Hr Hk. unfold p_step_os_signal. pose proof (ref_signals _ _ _ Hr) as Hg.
  destruct (g_ctl (p_signals p)) eqn:Ec; try done. intros [= <-].
  exists hs, (set_sgn SWait s). split_and!; [by destruct Hr; refine_fields|by destruct Hk; refine_fields|].
  right. exists LOSSignal. unfold exec_step. destruct (ref_live _ _ _ Hr) as [_ ->]. by rewrite Hg.
Qed.

Lemma follow_snapshot snap p p' hs s :
  refines hs p s → packages_inv p → p_step_snapshot snap p = Some p' → followed p' s.
Proof.
  intros Hr Hk. unfold p_step_snapshot. pose proof (ref_signals _ _ _ Hr) as Hg.
  destruct (g_ctl (p_signals p)) as [| |[sig snaps]| |] eqn:Ec; try done. intros <-%(inj Some).
  destruct (GoSignals_signal_contract sig (snaps ++ [snap]) (g_st (p_signals p))) as [-> | ->].
  - exists hs, s. split_and!; [|by destruct Hk; refine_fields|by left]. by destruct Hr; refine_fields.
  - unfold signals_turn_end. cbn [fst snd signals_sent]. rewrite new_sends_app, (pk_signals _ Hk). cbn.
    exists hs, (set_sgn (SSend signal_listeners) s).
    split_and!; [by destruct Hr; refine_fields|by destruct Hk; refine_fields|].
    right. exists LProcessGone. unfold exec_step. destruct (ref_live _ _ _ Hr) as [_ ->]. by rewrite Hg.
Qed.

Lemma follow_forward p p' hs s :
  refines hs p s → packages_inv p →
  p_step_forward p = Some p' → p_crashed p' = None → followed p' s.
Proof.
  intros Hr Hk. unfold p_step_forward. pose proof (ref_signals _ _ _ Hr) as Hg.
  destruct (g_ctl (p_signals p)) as [| | |[|[c sig] todo] after|] eqn:Ec; try done.
  destruct Hg as (-> & _ & Hg). csimpl in Hg. destruct (p_osg p c) eqn:Eo; [done|].
  assert (osg s c = false) as Ho by (rewrite (ref_osg _ _ _ Hr c), Eo; done).
  pose proof (refines_osg_insert hs p s c (Some sig) true Hr ltac:(done)) as Hosg.
  pose proof (ref_wg _ _ _ Hr) as Hwg. destruct (ref_live _ _ _ Hr) as [_ Hlive].
  intros <-%(inj Some) Hl. destruct todo as [|[c' sig'] todo]; cbn in Hl |- *.
  - apply p_Done_live in Hl as [Hw ->]. cbn in *.
    exists hs, (set_wg (wg s - 1) (set_sgn SDone (set_osg c true s))). split_and!.
    + destruct Hr. refine_fields. by rewrite Hwg.
    + by destruct Hk; refine_fields.
    + right. exists LForward. unfold exec_step, step_forward. rewrite Hlive, Hg, Ho. cbn.
      f_equal. apply (wg_Done_live (set_sgn SDone (set_osg c true s))). cbn. by rewrite Hwg.
  - exists hs, (set_sgn (SSend (c' :: todo.*1)) (set_osg c true s)).
    split_and!; [by destruct Hr; refine_fields|by destruct Hk; refine_fields|].
    right. exists LForward. unfold exec_step, step_forward. by rewrite Hlive, Hg, Ho.
Qed.

Lemma follow_serve bound p p' hs s :
  refines hs p s → packages_inv p →
  p_step_serve bound p = Some p' → p_crashed p' = None → followed p' s.
Proof.
  intros Hr Hk. unfold p_step_serve. destruct (pending_serves _) eqn:En; [done|].
  intros <-%(inj Some). pose proof (serve_goroutine_config bound (g_st (p_ingress p))) as Hcfg.
  destruct (serve_goroutine bound (g_st (p_ingress p))) as [[[]|e] st] eqn:E; [cbn in *; intros _|done].
  pose proof E as [Hinv Hall]%serve_goroutine_inv. exists hs, s.
  split_and!; [|destruct Hk; refine_fields; by rewrite Hcfg|by left].
  destruct Hr. refine_fields; [by rewrite Hcfg|]. eapply installed_mono; [|done].
  intros o Ho. pose proof (ingress_by_serve bound _ o Ho) as Ho'. by rewrite E in Ho'.
Qed.

(** Runs of probes and requests do not touch the channels. *)
Lemma follow_act i (env : RunEnv (C := C)) p p' hs s :
  refines hs p s → packages_inv p →
  p_step_act grow i env p = Some p' → p_crashed p' = None → followed p' s.
Proof.
  intros Hr Hk. unfold p_step_act. destruct (started _ !! i) as [run|]; [|done].
  case_decide; [done|]. intros <-%(inj Some). destruct (Run_act _ _ _ _ _) as [[[]|e] w]; [cbn; intros _|done].
  exists hs, s. split_and!; [|by destruct Hk; refine_fields|by left]. by destruct Hr; refine_fields.
Qed.

Lemma follow_request clock path p p' hs s :
  refines hs p s → packages_inv p → p_step_request clock path p = Some p' → followed p' s.
Proof.
  intros Hr Hk. unfold p_step_request. intros <-%(inj Some).
  assert ((p_answer clock path p).2.1 = g_st (p_ingress p)) as -> by apply serve_request_state.
  exists hs, s. split_and!; [|by destruct Hk; refine_fields|by left]. by destruct Hr; refine_fields.
Qed.

(** Every step of the program that does not panic is followed by the system. *)
Lemma follow_step l p p' hs s :
  refines hs p s → packages_inv p → reachable s →
  exec_prog l p = Some p' → p_crashed p' = None → followed p' s.
Proof.
  intros Hr Hk Hreach. destruct (reachable_inv s Hreach) as (Hmain & Hinv & _).
  unfold exec_prog. rewrite (proj1 (ref_live _ _ _ Hr)).
  destruct l as [env_path rd w|w| |c env|c now| |now|c sd|sig|snap| |bound|i env|clock path].
  - by eapply follow_main.
  - by eapply follow_event.
  - by eapply follow_config_send.
  - destruct c; intros Hst Hl.
    + by unfold p_step_recv in Hst; destruct (p_upd p Config_).
    + eapply follow_recv_worker; [done..|by left|done].
    + eapply follow_recv_worker; [done..|by right|done].
    + by eapply follow_recv_telemetry.
    + by eapply follow_recv_signals.
  - destruct c; intros Hst Hl; [|by eapply follow_stage_egress|by eapply follow_stage_ingress|..].
    all: unfold p_step_stage in Hst; by destruct (p_stg p _).
  - by eapply follow_announce.
  - intros Hst _. by eapply follow_tick.
  - by eapply follow_signal.
  - intros Hst _. by eapply follow_os_signal.
  - intros Hst _. by eapply follow_snapshot.
  - by eapply follow_forward.
  - by eapply follow_serve.
  - by eapply follow_act.
  - intros Hst _. by eapply follow_request.
Qed.

(** A program that has panicked makes no further step. *)
Lemma run_prog_live ls (p p' : prog) : run_prog ls p = Some p' → p_crashed p' = None → p_crashed p = None.
Proof.
  destruct ls as [|l ls]; cbn; [by intros [= <-]|]. unfold exec_prog. by destruct (p_crashed p).
Qed.

Lemma run_prog_follows ls (p p' : prog) hs s :
  run_prog ls p = Some p' → p_crashed p' = None →
  refines hs p s → packages_inv p → reachable s →
  ∃ hs' s', refines hs' p' s' ∧ packages_inv p' ∧ reachable s'.
Proof.
  intros Hrun Hl. revert p hs s Hrun. induction ls as [|l ls IH]; intros p hs s Hrun Hr Hk Hs; cbn in Hrun.
  { injection Hrun as <-. by exists hs, s. }
  destruct (exec_prog l p) as [p1|] eqn:E; [|done]. cbn in Hrun.
  pose proof (run_prog_live _ _ _ Hrun Hl) as Hl1.
  destruct (follow_step l p p1 hs s Hr Hk Hs E Hl1) as (hs1 & s1 & Hr1 & Hk1 & [->|[l' Hstep]]).
  - by eapply IH.
  - apply (IH p1 hs1 s1); try done. apply (reachable_exec s [l']); [done|]. cbn. by rewrite Hstep.
Qed.

Lemma refines_init now h t :
  let p : prog := init_prog now h t in refines [] p init_sys ∧ packages_inv p.
Proof.
  split; [refine_fields; intros c; constructor|].
  refine_fields. split_and!; cbn; [naive_solver|constructor|done].
Qed.

(** ** Theorems *)

(** What follows for any run that has not panicked. *)
Lemma run_refines ls now h t (p : prog) :
  run_prog ls (init_prog now h t) = Some p → p_crashed p = None →
  ∃ hs s, refines hs p s ∧ packages_inv p ∧ reachable s.
Proof.
  intros Hrun Hl. destruct (refines_init now h t) as [Hr Hk].
  eapply run_prog_follows; [done..|]. by exists [].
Qed.

(** C2: the program refines its system of channels.  Whatever the schedule,
    the file, the libraries and the clock do, as long as no goroutine panics
    the program is at a state of the system: the same control points, full and
    empty channels and wait group, and every configuration in a channel, in a
    goroutine's hands or in use is the one of the system's number in the
    history of broadcasts. *)
Theorem program_refines_system ls now h t (p : prog) :
  run_prog ls (init_prog now h t) = Some p → p_crashed p = None →
  ∃ hs s, reachable s ∧ refines hs p s.
Proof.
  intros Hrun Hl. destruct (run_refines ls now h t p Hrun Hl) as (hs & s & Hr & _ & Hs). eauto.
Qed.

(** C20: egress and ingress never run ahead of telemetry.  In every run that has
    not panicked, the probes and the ticker of egress, the endpoints and the
    server of ingress and the providers of telemetry are each those of one of
    the configurations that [GoConfig] broadcast (or nothing has been set up
    yet), and those of egress and ingress are not newer than those of
    telemetry. *)
Theorem packages_behind_telemetry ls now h t (p : prog) :
  run_prog ls (init_prog now h t) = Some p → p_crashed p = None →
  ∃ hs ke ki kt, Config.sent (g_st (p_config p)) = broadcasts hs ∧
    installed hs (egress_by (g_st (p_egress p))) ke ∧
    installed hs (ingress_by (g_st (p_ingress p))) ki ∧
    installed hs (telemetry_by (g_st (p_telemetry p))) kt ∧
    ke ≤ kt ∧ ki ≤ kt.
Proof.
  intros Hrun Hl. destruct (run_refines ls now h t p Hrun Hl) as (hs & s & Hr & _ & Hs).
  destruct (reachable_inv s Hs) as (_ & Hi & _). destruct Hr.
  exists hs, (applied s Egress_), (applied s Ingress_), (configured s).
  split_and!; [done..| |]; apply inv_applied; [done|by left|done|by right].
Qed.

(** Every goroutine has returned. *)
Definition all_returned (p : prog) : Prop :=
  g_ctl (p_config p) = Ended ∧ g_ctl (p_egress p) = Ended ∧ g_ctl (p_ingress p) = Ended ∧
  g_ctl (p_telemetry p) = Ended ∧ g_ctl (p_signals p) = Ended.

(** Every goroutine is in its [select] and no configuration is on its way. *)
Definition at_rest (p : prog) : Prop :=
  g_ctl (p_config p) = Selecting ∧ g_ctl (p_egress p) = Selecting ∧
  g_ctl (p_ingress p) = Selecting ∧ g_ctl (p_telemetry p) = Selecting ∧
  g_ctl (p_signals p) = Selecting ∧ ∀ c, p_upd p c = None.

(** At rest, every package has come to the last configuration. *)
Lemma numbers_at_rest hs (p : prog) s :
  refines hs p s → reachable s → at_rest p →
  ∃ bc, last hs = Some bc ∧ taken s Signals_ = List.length hs ∧ configured s = List.length hs ∧
    applied s Egress_ = List.length hs ∧ applied s Ingress_ = List.length hs.
Proof.
  intros Hr Hs (Hc & He & Hi & Ht & Hg & Hu).
  destruct (reachable_inv s Hs) as (_ & [I1 _ I3 _ I5 _] & _).
  assert (∀ c, upd s c = None) as Hupd by (intros c; by eapply refines_upd_None).
  destruct Hr. rewrite Hc, He, Hi in *. destruct ref_config0 as [Hne Hcfg]. rewrite Hcfg in I1.
  cbn in ref_egress0, ref_ingress0.
  assert (∀ c, c ∈ config_listeners → taken s c = List.length hs) as Htaken.
  { intros c Hin. unfold taken. rewrite Hupd. by apply I1. }
  pose proof (I5 Egress_ ltac:(by left)) as I5e. pose proof (I5 Ingress_ ltac:(by right)) as I5i.
  rewrite ref_egress0 in I5e. rewrite ref_ingress0 in I5i.
  destruct (last hs) as [bc|] eqn:E; [|by apply last_None in E]. exists bc.
  rewrite <-I5e, <-I5i, I3. split_and!; [done|apply Htaken; repeat constructor..].
Qed.

(** What holds of the packages when they work by the history [hs]. *)
Definition agree (hs : list BunnyConfig) (bc : BunnyConfig) (p : prog) : Prop :=
  Config.sent (g_st (p_config p)) = broadcasts hs ∧ last hs = Some bc ∧
  bunnyConfig (g_st (p_config p)) = Some bc ∧
  egress_by (g_st (p_egress p)) (Some bc) ∧
  ingress_by (g_st (p_ingress p)) (Some bc) ∧
  telemetry_by (g_st (p_telemetry p)) (Some bc) ∧
  watchedProcessCommandLineRegEx (g_st (p_signals p)) = watched_by hs.

Lemma agree_at_rest hs (p : prog) s :
  refines hs p s → reachable s → at_rest p → ∃ bc, agree hs bc p.
Proof.
  intros Hr Hs Hrest. destruct (numbers_at_rest hs p s Hr Hs Hrest) as (bc & Hl & Hsg & Ht & He & Hi).
  exists bc. destruct Hr. rewrite Hsg, Ht, He, Hi in *. destruct ref_signals_watch0 as [_ Hw].
  rewrite take_ge in Hw by done. assert (hs ≠ []) as Hne by (by destruct hs).
  split_and!; [done..|by rewrite ref_current0| | | |done]; by eapply installed_length.
Qed.

(** C9: the packages work by the current configuration.  Whenever the program is
    at rest, the last configuration that was broadcast is the one config holds;
    egress has its probes, with their names, actions and timeouts, and its
    ticker; ingress has its endpoints and the current server has its routes,
    address and timeouts; telemetry has its providers and a query engine; and
    signals watches the expression of the last configuration that had one, if
    it compiles. *)
Theorem packages_agree_at_rest ls now h t (p : prog) :
  run_prog ls (init_prog now h t) = Some p → p_crashed p = None → at_rest p →
  ∃ hs bc, Config.sent (g_st (p_config p)) = broadcasts hs ∧ last hs = Some bc ∧
    bunnyConfig (g_st (p_config p)) = Some bc ∧
    egress_by (g_st (p_egress p)) (Some bc) ∧
    ingress_by (g_st (p_ingress p)) (Some bc) ∧
    telemetry_by (g_st (p_telemetry p)) (Some bc) ∧
    watchedProcessCommandLineRegEx (g_st (p_signals p)) = watched_by hs.
Proof.
  intros Hrun Hl Hrest. destruct (run_refines ls now h t p Hrun Hl) as (hs & s & Hr & _ & Hs).
  exists hs. by eapply agree_at_rest.
Qed.


(** C8: the loaded configuration decides what is probed.  In every state of a run
    that has not panicked in which the goroutines are at rest, a tick after the
    initial delay starts one run for each probe of the configuration that
    config holds, in its order, with its name, its action (command, service,
    URL and headers, or address and steps) and its timeout; a tick before
    starts none. *)
Theorem loaded_probes_run ls now h t (p : prog) bc tick :
  run_prog ls (init_prog now h t) = Some p → p_crashed p = None →
  at_rest p → bunnyConfig (g_st (p_config p)) = Some bc →
  ∃ p' rs, exec_prog (PTick tick) p = Some p' ∧
    started (g_st (p_egress p')) = started (g_st (p_egress p)) ++ rs ∧
    if time_Before (initialDelayTime (g_st (p_egress p))) tick
    then Forall2 (run_for (duration_ms (TimeoutMilliseconds (cfg_Egress bc))))
           (egress_Probes (cfg_Egress bc)) rs
    else rs = [].
Proof.
  intros Hrun Hc Hrest Hbc. destruct (run_refines ls now h t p Hrun Hc) as (hs & s & Hr & _ & Hs).
  destruct (agree_at_rest hs p s Hr Hs Hrest) as (bc' & _ & _ & Hbc' & [Hps _] & _).
  rewrite Hbc in Hbc'. injection Hbc' as <-. destruct Hrest as (_ & Hsel & _).
  unfold exec_prog, p_step_tick. rewrite (proj1 (ref_live _ _ _ Hr)), Hsel, GoEgress_tick_contract.
  eexists _, _. split; [reflexivity|]. split; [reflexivity|].
  destruct (time_Before _ _); [|done]. by apply runs_of_for.
Qed.

(** C14: the end of the program.  When [main] has got past its wait, without a
    panic, every goroutine has returned, no HTTP server listens or ever will,
    and telemetry has shut down its providers, once. *)
Theorem program_ends_clean ls now h t (p : prog) :
  run_prog ls (init_prog now h t) = Some p → p_crashed p = None → p_main p = [] →
  all_returned p ∧ all_shut_down (g_st (p_ingress p)) ∧
  List.length (shutdowns (g_st (p_telemetry p))) = 1.
Proof.
  intros Hrun Hl Hm. destruct (run_refines ls now h t p Hrun Hl) as (hs & s & [] & [] & Hs).
  destruct (finished_last s Hs) as (F1 & F2 & F3 & F4 & F5 & _); [congruence|].
  rewrite F1 in *. rewrite F2 in *. rewrite F3 in *. rewrite F4 in *. rewrite F5 in *.
  assert (all_returned p) as (E1 & E2 & E3 & E4 & E5).
  { clear -ref_config0 ref_egress0 ref_ingress0 ref_telemetry0 ref_signals0.
    split_and!; match goal with |- ?c = Ended => destruct c end; cbn in *; naive_solver. }
  split_and!; [done..|auto|by rewrite pk_shutdowns0, E4].
Qed.

End refinement.

(** ** Witnesses *)

#[local] Existing Instance ascii_tables.

(** The runs of the witnesses do not panic: what is looked at of the state they
    reach is computed. *)
Lemma run_observed {A} (f : @prog toy_libs simple_regexp unit nat → A) ls x :
  f <$> sample_run ls = Some x → ∃ p, sample_run ls = Some p ∧ f p = x.
Proof. destruct (sample_run ls) as [p|]; [|done]. intros [= <-]. by exists p. Qed.

Lemma sample_startup_rests :
  ∃ p, sample_run sample_startup = Some p ∧ p_crashed p = None ∧ at_rest p.
Proof.
  destruct (run_observed (λ p, (p_crashed p, g_ctl (p_config p), g_ctl (p_egress p),
    g_ctl (p_ingress p), g_ctl (p_telemetry p), g_ctl (p_signals p),
    p_upd p <$> [Config_; Egress_; Ingress_; Telemetry_; Signals_])) sample_startup
    (None, Selecting, Selecting, Selecting, Selecting, Selecting, replicate 5 None)) as (p & Hp & Ho).
  { vm_compute. reflexivity. }
  exists p. cbn in Ho. injection Ho as H1 H2 H3 H4 H5 H6 H7 H8 H9 H10 H11.
  split; [exact Hp|]. split; [exact H1|]. split_and!; try assumption. intros []; assumption.
Qed.

Lemma sample_shutdown_ends :
  ∃ p, sample_run (sample_startup ++ sample_shutdown) = Some p ∧ p_crashed p = None ∧ p_main p = [].
Proof.
  destruct (run_observed (λ p, (p_crashed p, p_main p)) (sample_startup ++ sample_shutdown)
    (None, [])) as (p & Hp & Ho); [vm_compute; reflexivity|].
  injection Ho as H1 H2. exists p. split_and!; assumption.
Qed.

(** In the run with a reload, egress holds the second configuration and waits
    for telemetry. *)
Lemma sample_reload_runs :
  ∃ p, sample_run (sample_startup ++ sample_reload) = Some p ∧ p_crashed p = None.
Proof. apply (run_observed p_crashed). vm_compute. reflexivity. Qed.

Lemma program_refines_system_witness :
  ∃ p, sample_run sample_startup = Some p ∧ ∃ hs s, reachable s ∧ refines hs p s.
Proof.
  destruct sample_startup_rests as (p & Hp & Hc & _). exists p. split; [exact Hp|].
  exact (program_refines_system grow_double sample_yaml toy_hash
    sample_startup 0 ∅ toy_telem p Hp Hc).
Defined.

Lemma packages_behind_telemetry_witness :
  ∃ p, sample_run (sample_startup ++ sample_reload) = Some p ∧
    ∃ hs ke ki kt, Config.sent (g_st (p_config p)) = broadcasts hs ∧
      installed hs (egress_by (g_st (p_egress p))) ke ∧
      installed hs (ingress_by (g_st (p_ingress p))) ki ∧
      installed hs (telemetry_by (H := toy_libs) (g_st (p_telemetry p))) kt ∧ ke ≤ kt ∧ ki ≤ kt.
Proof.
  destruct sample_reload_runs as (p & Hp & Hc). exists p. split; [exact Hp|].
  exact (packages_behind_telemetry grow_double sample_yaml toy_hash
    (sample_startup ++ sample_reload) 0 ∅ toy_telem p Hp Hc).
Defined.

Lemma packages_agree_at_rest_witness :
  ∃ p bc, sample_run sample_startup = Some p ∧ bunnyConfig (g_st (p_config p)) = Some bc ∧
    egress_by (g_st (p_egress p)) (Some bc).
Proof.
  destruct sample_startup_rests as (p & Hp & Hc & Hrest).
  destruct (packages_agree_at_rest grow_double sample_yaml toy_hash
    sample_startup 0 ∅ toy_telem p Hp Hc Hrest) as (hs & bc & _ & _ & Hbc & He & _).
  exists p, bc. split_and!; assumption.
Defined.

Lemma program_ends_clean_witness :
  ∃ p, sample_run (sample_startup ++ sample_shutdown) = Some p ∧
    all_shut_down (g_st (p_ingress p)) ∧ List.length (shutdowns (g_st (p_telemetry p))) = 1.
Proof.
  destruct sample_shutdown_ends as (p & Hp & Hc & Hm). exists p. split; [exact Hp|].
  destruct (program_ends_clean grow_double sample_yaml toy_hash
    (sample_startup ++ sample_shutdown) 0 ∅ toy_telem p Hp Hc Hm) as (_ & H1 & H2).
  split; assumption.
Defined.

Lemma sample_start_rests :
  ∃ p, sample_run sample_start = Some p ∧ p_crashed p = None ∧ at_rest p ∧
    listens (g_st (p_ingress p)) ∧ bunnyConfig (g_st (p_config p)) = Some sample_config ∧
    promQueryEngine (g_st (p_telemetry p)) = Some scalar_engine ∧
    promDB (g_st (p_telemetry p)) = Some tt ∧
    time_Before (initialDelayTime (g_st (p_egress p))) 3000000000 = true.
Proof.
  destruct (run_observed (λ p, (p_crashed p, g_ctl (p_config p), g_ctl (p_egress p),
    g_ctl (p_ingress p), g_ctl (p_telemetry p), g_ctl (p_signals p),
    p_upd p <$> [Config_; Egress_; Ingress_; Telemetry_; Signals_],
    httpServer (g_st (p_ingress p)), snd <$> servers (g_st (p_ingress p)) !! 0,
    bunnyConfig (g_st (p_config p)), promQueryEngine (g_st (p_telemetry p)),
    promDB (g_st (p_telemetry p)), time_Before (initialDelayTime (g_st (p_egress p))) 3000000000))
    sample_start
    (None, Selecting, Selecting, Selecting, Selecting, Selecting, replicate 5 None, Some 0, Some Listening,
     Some sample_config, Some scalar_engine, Some tt, true)) as (p & Hp & Ho).
  { vm_compute. reflexivity. }
  exists p. cbn in Ho.
  injection Ho as E0 E1 E2 E3 E4 E5 E6 E7 E8 E9 E10 E11 E12 E13 E14 E15 E16.
  split; [exact Hp|]. split; [exact E0|].
  split; [split_and!; try assumption; intros []; assumption|].
  split; [|split_and!; assumption]. destruct (servers _ !! 0) as [[srv st]|] eqn:E; [|discriminate].
  injection E12 as ->. exists 0, srv. split; assumption.
Qed.


Lemma loaded_probes_run_witness :
  ∃ p (p' : @prog toy_libs simple_regexp unit nat) r, sample_run sample_start = Some p ∧
    started (g_st (p_egress p')) = started (g_st (p_egress p)) ++ [r] ∧ run_name r = "p".
Proof.
  destruct sample_start_rests as (p & Hp & Hc & Hrest & _ & Hbc & _ & _ & Hd).
  destruct (@loaded_probes_run toy_libs simple_regexp ascii_tables grow_double
    script_conn _ unit nat sample_yaml toy_hash sample_start 0 ∅ toy_telem p sample_config 3000000000
    Hp Hc Hrest Hbc) as (p' & rs & _ & Hst & Hrs).
  rewrite Hd in Hrs. apply Forall2_cons_inv_l in Hrs as (r & rs' & [Hn _] & Hrs & ->).
  apply Forall2_nil_inv_l in Hrs as ->. exists p, p', r. split; [exact Hp|]. split; [exact Hst|exact Hn].
Defined.
