(* ===== verification/Safety.v ===== *)
(** * A sane environment never makes the program panic

    The panics of the packages are characterised in their own files.  Here the
    whole program is run: when every configuration that is loaded is sane, the
    watcher, the temporary directory, the registry, the database and the query
    engine can be created, no signal arrives before [main] waits for its
    goroutines, and telemetry gets it only once it has providers to shut down,
    no schedule makes the program panic, and every health request is answered.
    Each package relies on the others for it: egress and ingress find a
    registry because telemetry was configured before, and they are only given
    configurations that were loaded. *)

From stdpp Require Import functions.
From S2P Require Import Prelude GoStd Config Metrics Query Telemetry Expect Probes Egress.
From S2P Require Import Ingress Signals System ServeMux Program Refinement.
From Stdlib Require Import String.

(** ** Sane configurations and environments *)

Section sanity.
Context `{Regexp} (schema : metric_schema).

(** Every probe has a usable action, steps that send or receive and a command
    to execute, the period fits a duration, every health endpoint has its
    metrics, all metrics fit the schema of names and labels, and the paths of
    the server are plain and differ. *)
Definition sane (bc : BunnyConfig) : Prop :=
  Forall (probe_fine schema) (egress_Probes (cfg_Egress bc)) ∧
  Forall command_set (egress_Probes (cfg_Egress bc)) ∧
  (PeriodMilliseconds (cfg_Egress bc) ≤ max_ms)%Z ∧
  Forall (health_fine schema) (Health (HTTPServer (cfg_Ingress bc))) ∧
  Forall plain_path (server_routes (HTTPServer (cfg_Ingress bc))).*1 ∧
  NoDup (server_routes (HTTPServer (cfg_Ingress bc))).*1.

Lemma broadcasts_sane hs : Forall (λ m, sane m.2) (broadcasts hs) → Forall sane hs.
Proof.
  induction hs as [|bc hs IH]; [done|]. unfold broadcasts. cbn [mbind list_bind].
  rewrite Forall_app. intros [Hbc Hhs]. constructor; [by inversion Hbc|by apply IH].
Qed.

Lemma numbered_sane hs k bc : Forall sane hs → numbered hs k bc → sane bc.
Proof. rewrite Forall_lookup. intros Hhs [_ Hk]. eauto. Qed.

Lemma all_sane bc (cs : list comp) : sane bc → Forall (λ m, sane m.2) ((., bc) <$> cs).
Proof. intros Hbc. induction cs; by constructor. Qed.

(** The routes of a sane configuration can be registered. *)
Lemma sane_routes `{UnicodeTables} bc :
  sane bc → is_panic (mux_handle_all (server_routes (HTTPServer (cfg_Ingress bc))) []) = false.
Proof.
  intros (_ & _ & _ & _ & Hp & Hnd).
  pose proof (mux_handle_all_plain (server_routes (HTTPServer (cfg_Ingress bc))) [] Hp (NoDup_nil_2)) as Hm.
  change (registered []) with ([] : ServeMux Handler) in Hm.
  destruct (mux_handle_all _ _); [done|]. by destruct Hm.
Qed.

End sanity.

Section safety.
Context `{MetricLibs} `{!RegistryLaws} `{Regexp} `{UnicodeTables} (schema : metric_schema)
  (grow : nat → nat) {C : Type} `{Conn C} {DB Signal : Type}.
Context (yaml_Unmarshal : string → option BunnyConfig → option BunnyConfig * option error)
  (sha256_hex : string → string).

Abbreviation prog := (prog (DB := DB) (Signal := Signal)).
Abbreviation exec_prog := (exec_prog (C := C) grow yaml_Unmarshal sha256_hex).
Abbreviation run_prog := (run_prog (C := C) grow yaml_Unmarshal sha256_hex).
Abbreviation sane := (sane schema).
Abbreviation plabel := (plabel (C := C) (DB := DB) (Signal := Signal)).

Definition load_sane (rd : file_read) : Prop :=
  ∃ bc, loaded_config yaml_Unmarshal rd = Some bc ∧ sane bc.

(** The temporary directory, the registry, the database, the query tracker and
    the engine can be created, and what Prometheus registers for itself leaves
    the names of the schema alone. *)
Definition env_sane (env : TelemetryEnv (DB := DB)) : Prop :=
  (∃ d, MkdirTemp env = inr d) ∧
  (∃ r, register_base env NewRegistry = inr r ∧ registry_fits schema r) ∧
  (∀ dir o r, registry_fits schema r →
     ∃ db r', tsdb_Open env dir o r = Returned (inr db, r') ∧ registry_fits schema r') ∧
  (∀ dir n, ∃ tr, NewActiveQueryTracker env dir n = Returned tr) ∧
  (∀ o tr r, registry_fits schema r →
     ∃ e r', NewEngine env o tr r = Returned (e, r') ∧ registry_fits schema r' ∧ engine_sane e).

(** [main] has started everything and waits, or has gone on. *)
Definition waiting (p : prog) : Prop := p_main p = [WgWait] ∨ p_main p = [].

(** A step with a sane environment. *)
Definition sane_step (p : prog) (l : plabel) : Prop :=
  match l with
  | PMain _ rd watcher_created => load_sane rd ∧ watcher_created = true
  | PEvent (WatcherEvent true _ _ loaded) => load_sane loaded
  | PRecv _ env => env_sane env
  | POSSignal _ => waiting p
  | PSignal Telemetry_ Shutdown =>
      (∀ mp tp, Shutdown (Some mp) (Some tp) = Returned tt) ∧
      is_Some (meterProvider (g_st (p_telemetry p))) ∧ is_Some (traceProvider (g_st (p_telemetry p)))
  | PAct _ env => client_sane env
  | _ => True
  end.

Fixpoint sane_run (ls : list plabel) (p : prog) : Prop :=
  match ls with
  | [] => True
  | l :: ls' => sane_step p l ∧ match exec_prog l p with Some p' => sane_run ls' p' | None => True end
  end.

(** ** The invariant *)

Record live (p : prog) : Prop := mkLive {
  lv_sane : Forall (λ m, sane m.2) (Config.sent (g_st (p_config p)));
  lv_config : match g_ctl (p_config p) with Sending _ after => after = Returned false | _ => True end;
  lv_telemetry :
    match g_ctl (p_telemetry p) with Sending _ after => after = Returned false | _ => True end;
  lv_registry : is_Some (telemetryConfig (g_st (p_telemetry p))) → has_registry schema (p_telem p);
  lv_ticker : g_ctl (p_egress p) ≠ NotStarted → ticker (g_st (p_egress p)) ≠ TickerNil;
  lv_server : server_made (g_st (p_ingress p));
  lv_runnable : egress_runnable (g_st (p_egress p));
  lv_endpoints : endpoints_ok (g_st (p_ingress p));
  lv_engine : is_Some (telemetryConfig (g_st (p_telemetry p))) →
    ∃ e, promQueryEngine (g_st (p_telemetry p)) = Some e ∧ engine_sane e ∧
      is_Some (promDB (g_st (p_telemetry p)));
  lv_served : is_Some (httpServer (g_st (p_ingress p))) →
    is_Some (telemetryConfig (g_st (p_telemetry p)));
  lv_signals : (g_ctl (p_signals p) = NotStarted ∨ g_ctl (p_signals p) = Selecting) ∧
    (∀ c, p_osg p c = None) ∨ waiting p }.

(** The program and the system it refines. *)
Record tracked (p : prog) (hs : list BunnyConfig) (s : sys) : Prop := mkTracked {
  tr_refines : refines hs p s;
  tr_packages : packages_inv p;
  tr_reachable : reachable s;
  tr_live : live p }.

Definition safe (p : prog) : Prop := p_crashed p = None ∧ live p.

Lemma tracked_sane p hs s k bc : tracked p hs s → numbered hs k bc → sane bc.
Proof.
  intros [Hr _ _ Hl] Hn. eapply numbered_sane; [|done]. apply broadcasts_sane.
  rewrite <-(ref_history _ _ _ Hr). apply Hl.
Qed.

(** A goroutine that is still running counts in the wait group. *)
Lemma tracked_wg p hs s c : tracked p hs s → waiting p → exited c s = false → (1 ≤ p_wg p)%Z.
Proof.
  intros [Hr _ Hs _] Hw Hc. destruct (reachable_inv s Hs) as (_ & _ & Hwg & Hend).
  rewrite (ref_main _ _ _ Hr), (ref_wg _ _ _ Hr) in *.
  assert (exits s ≠ 5%Z) as Hne.
  { intros He. pose proof (exits_all s He c). congruence. }
  pose proof (exits_bounds s). destruct Hw as [Hm|Hm]; rewrite Hm in *; [cbn in Hwg; lia|].
  by specialize (Hend eq_refl).
Qed.

Lemma p_Done_safe (p : prog) : (1 ≤ p_wg p)%Z → p_Done p = with_wg (p_wg p - 1) p.
Proof. intros Hw. unfold p_Done. by destruct (Z.ltb_spec (p_wg p - 1) 0); [lia|]. Qed.

(** Telemetry has been configured when a stage is in a channel. *)
Lemma tracked_configured p hs s c :
  tracked p hs s → is_worker c → stg s c = true →
  is_Some (telemetryConfig (g_st (p_telemetry p))).
Proof.
  intros [Hr _ Hs Hl] Hw Hstg.
  destruct (reachable_inv s Hs) as (_ & [_ _ _ _ _ I6] & _). specialize (I6 c Hw). rewrite Hstg in I6.
  pose proof (ref_telemetry_uses _ _ _ Hr) as Hu.
  destruct (telemetryConfig _); [by eexists|]. cbn in Hu. rewrite Hu in I6.
  unfold announced in I6. destruct (tel s); [lia..| |lia]. destruct (decide _); lia.
Qed.

Ltac live_fields := split; cbn; try done; eauto.

Lemma safe_start c env_path rd p hs s rest :
  tracked p hs s → p_main p = Start c :: rest → load_sane rd →
  p_crashed p = None → safe (p_start yaml_Unmarshal c env_path rd true p).
Proof.
  intros [Hr Hk _ Hl] Hm (bc & Hbc & Hsane) Hc. destruct c; cbn.
  - pose proof (pk_config _ Hk) as Hch.
    pose proof (GoConfig_start_contract yaml_Unmarshal env_path rd true (g_st (p_config p))) as Hs.
    rewrite Hch, Hbc in Hs. destruct (Hs ltac:(done)) as [Hs' Ho].
    set (r := GoConfig_start _ _ _ _ _) in *. clearbody r.
    destruct (config_turn_sends p (void r.1, r.2) bc Hch Hs') as [Hsent ->]. cbn in Hsent.
    split; [done|]. destruct Hl. rewrite Ho. live_fields. rewrite Hsent, Forall_app. split; [done|].
    by apply (all_sane _ bc config_listeners).
  - split; [done|]. destruct Hl. live_fields.
  - split; [done|]. destruct Hl. live_fields.
  - split; [done|]. destruct Hl. live_fields.
  - split; [done|]. destruct Hl. live_fields. destruct lv_signals0 as [[_ Hosg]|Hw]; auto.
Qed.

Lemma p_start_main c env_path rd (p : prog) :
  load_sane rd → packages_inv p → p_main (p_start yaml_Unmarshal c env_path rd true p) = p_main p.
Proof.
  intros (bc & Hbc & _) Hk. destruct c; try done. cbn. pose proof (pk_config _ Hk) as Hch.
  pose proof (GoConfig_start_contract yaml_Unmarshal env_path rd true (g_st (p_config p))) as Hs.
  rewrite Hch, Hbc in Hs. destruct (Hs ltac:(done)) as [Hs' Ho].
  set (r := GoConfig_start _ _ _ _ _) in *. clearbody r.
  by destruct (config_turn_sends p (void r.1, r.2) bc Hch Hs') as [_ ->].
Qed.

(** The actions of [main] do not change the rest; before it waits, no signal
    has been taken. *)
Lemma live_main rest (p : prog) :
  live p → (waiting p → waiting (with_main rest p)) → live (with_main rest p).
Proof. intros [] Hw. live_fields. naive_solver. Qed.

Lemma safe_main env_path rd p p' hs s :
  tracked p hs s → p_crashed p = None → load_sane rd →
  p_step_main yaml_Unmarshal env_path rd true p = Some p' → safe p'.
Proof.
  intros Ht Hc Hrd. unfold p_step_main. destruct (p_main p) as [|[c| |] rest] eqn:Em; [done|..].
  - intros [= <-]. destruct (safe_start c env_path rd p hs s rest Ht Em Hrd Hc) as [Hc' Hl'].
    split; [done|]. apply live_main; [done|]. unfold waiting.
    rewrite p_start_main, Em by (done || apply Ht). naive_solver.
  - intros [= <-]. split; [done|]. apply (live_main rest (with_wg (p_wg p + 1) p)).
    + by destruct Ht as [_ _ _ []].
    + unfold waiting. cbn. rewrite Em. naive_solver.
  - destruct (p_wg p =? 0)%Z; [|done]. intros [= <-]. split; [done|]. apply live_main; [apply Ht|].
    unfold waiting. cbn. rewrite Em. intros [[= ->]|[=]]. by right.
Qed.

Lemma safe_event w p p' hs s :
  tracked p hs s → p_crashed p = None → sane_step p (PEvent w) →
  p_step_event yaml_Unmarshal sha256_hex w p = Some p' → safe p'.
Proof.
  intros [Hr Hk _ Hl] Hc Hsane Hst. unfold p_step_event in Hst.
  destruct (g_ctl (p_config p)) eqn:Ec; try by destruct w.
  pose proof (pk_config _ Hk) as Hch.
  pose proof (GoConfig_step_contract yaml_Unmarshal sha256_hex w (g_st (p_config p))) as Hs.
  rewrite Hch in Hs. specialize (Hs ltac:(done)).
  set (st := g_st (p_config p)) in *. set (r := GoConfig_step yaml_Unmarshal sha256_hex w st) in *.
  assert (p' = config_turn r p) as ->.
  { destruct w; try done; by injection Hst as <-. }
  assert (r = (Returned false, st) ∨ ∃ bc, sane bc ∧ r.1 = Returned false ∧ sends_current bc st r.2)
    as [Hsame|(bc & Hbc & Ho & Hcur)].
  { destruct w as [[] op hashed loaded| |]; auto; [|done]. destruct Hs as [?|Hs]; [by left|right].
    destruct Hsane as (bc & Hbc & Hsane). rewrite Hbc in Hs. exists bc. by destruct Hs. }
  - rewrite Hsame. unfold config_turn. cbn. rewrite new_sends_same. split; [done|].
    destruct Hl. live_fields.
  - destruct (config_turn_sends p r bc Hch Hcur) as [Hsent ->]. split; [done|].
    destruct Hl. live_fields. rewrite Hsent, Forall_app. split; [done|].
    by apply (all_sane _ bc config_listeners).
Qed.

(** The last message of a turn leaves the goroutine in its [select]. *)
Lemma safe_config_send p p' hs s :
  tracked p hs s → p_crashed p = None → p_step_config_send p = Some p' → safe p'.
Proof.
  intros [_ _ _ Hl] Hc. unfold p_step_config_send. pose proof (lv_config _ Hl) as Ha.
  destruct (g_ctl (p_config p)) as [| | |[|[c bc] todo] after|]; try done. subst after.
  destruct (p_upd p c); [done|]. intros [= <-].
  destruct todo; (split; [done|]); destruct Hl; live_fields.
Qed.

Lemma safe_announce p p' hs s :
  tracked p hs s → p_crashed p = None → p_step_announce p = Some p' → safe p'.
Proof.
  intros [_ _ _ Hl] Hc. unfold p_step_announce. pose proof (lv_telemetry _ Hl) as Ha.
  destruct (g_ctl (p_telemetry p)) as [| | |[|[c stage] todo] after|]; try done. subst after.
  destruct (p_stg p c); [done|]. intros [= <-].
  destruct todo; (split; [done|]); destruct Hl; live_fields.
Qed.

(** What telemetry sets up in a sane environment. *)
Lemma prometheus_sane env (st : Telemetry.State (Chan := comp) (DB := DB)) t :
  env_sane env → prometheus_set_up env st t →
  has_registry schema t ∧
  ∃ e, promQueryEngine st = Some e ∧ engine_sane e ∧ is_Some (promDB st).
Proof.
  intros (_ & (r0 & Hr0 & Hfit0) & Hopen & _ & Hengine)
    (dir & o & r & opened & n & tr & eo & engine & Hr & Ho & _ & He & Hreg & Hpe & Hdb).
  rewrite Hr0 in Hr. injection Hr as <-.
  destruct (Hopen dir o r0 Hfit0) as (db & r1 & Ho' & Hfit1). rewrite Ho in Ho'. injection Ho' as ->.
  destruct (Hengine eo tr r1 Hfit1) as (e & r2 & He' & Hfit2 & Hsane). cbn in He. rewrite He in He'.
  injection He' as ->. split; [by exists r2|]. exists e. by rewrite Hdb.
Qed.

Lemma prometheus_works env c : env_sane env → ¬ prometheus_fails env c.
Proof.
  intros ([d Hd] & (r0 & Hr0 & Hfit0) & Hopen & Htrack & Hengine).
  intros [(? & ? & _)|[(? & ?)|[(r & dir & o & e & Hr & Ho)|[(dir & n & e & Ht)|
    (r & dir & o & opened & eo & tr & e & Hr & Ho & He)]]]]; try congruence.
  - rewrite Hr0 in Hr. injection Hr as <-. destruct (Hopen dir o r0 Hfit0) as (? & ? & ? & _). congruence.
  - destruct (Htrack dir n). congruence.
  - rewrite Hr0 in Hr. injection Hr as <-. destruct (Hopen dir o r0 Hfit0) as (db & r1 & Ho' & Hfit1).
    rewrite Ho in Ho'. injection Ho' as ->. destruct (Hengine eo tr r1 Hfit1) as (? & ? & He' & _).
    cbn in He. congruence.
Qed.

Lemma safe_recv c env p p' hs s :
  tracked p hs s → p_crashed p = None → env_sane env → p_step_recv c env p = Some p' → safe p'.
Proof.
  intros [Hr Hk _ Hl] Hc Henv. unfold p_step_recv.
  destruct (p_upd p c) as [bc|] eqn:Eu; [|done]. destruct c; [done|..].
  - destruct (g_ctl (p_egress p)) eqn:Ec; try done. intros [= <-]. split; [done|].
    destruct Hl. live_fields. rewrite Ec in *. by auto.
  - destruct (g_ctl (p_ingress p)); try done. intros [= <-]. split; [done|]. destruct Hl. live_fields.
  - destruct (g_ctl (p_telemetry p)); try done. intros <-%(inj Some).
    pose proof (GoTelemetry_update_contract bc env (g_st (p_telemetry p)) (p_telem p)) as (_ & _ & Htc & Hout).
    set (r := GoTelemetry_step _ _) in *. clearbody r.
    destruct Hout as [(Ho & Hprom & _ & _ & Hs%update_stages_sent)|(_ & _ & Hf)];
      [|by destruct (prometheus_works env _ Henv Hf)].
    destruct (prometheus_sane env _ _ Henv Hprom) as [Hreg Heng].
    unfold telemetry_turn. cbn. rewrite Hs, new_sends_app, (pk_telemetry _ Hk), Ho. split; [done|].
    destruct Hl. live_fields; by rewrite Htc.
  - destruct (g_ctl (p_signals p)) eqn:Ec; try done. intros <-%(inj Some).
    destruct (ref_signals_watch _ _ _ Hr) as [_ Hre].
    rewrite (GoSignals_update_contract bc (g_st (p_signals p)) _ Hre).
    split; [done|]. destruct Hl. live_fields. destruct lv_signals0 as [[_ Ho]|Hw]; auto.
Qed.

Lemma safe_stage c now p p' hs s :
  tracked p hs s → p_crashed p = None → p_step_stage grow c now p = Some p' → safe p'.
Proof.
  intros Ht Hc. pose proof Ht as [Hr Hk Hs Hl]. unfold p_step_stage.
  destruct (p_stg p c) as [stage|] eqn:Es; [|done].
  destruct (refines_stg_Some _ _ _ _ _ Hr Es) as [Hstg ->]. destruct c; try done.
  - pose proof (ref_egress _ _ _ Hr) as He. destruct (g_ctl (p_egress p)) as [| |bc| |] eqn:Ec; try done.
    destruct He as (k & Hn & _). destruct (tracked_sane _ _ _ _ _ Ht Hn) as (Hp & Hcmd & Hper & _).
    pose proof (lv_registry _ Hl (tracked_configured _ _ _ Egress_ Ht ltac:(by left) Hstg)) as Hreg.
    intros <-%(inj Some). rewrite (updateConfig_continues grow bc) by (by apply (pk_egress_held _ Hk)).
    destruct (updateConfig_total grow schema bc now (g_st (p_egress p)) (p_heap p)
      (p_telem p) Hreg) as (st & h & t & E & Hreg' & Htick); [by apply Hl; rewrite Ec|done..|].
    pose proof (updateConfig_runnable grow _ _ _ _ _ _ E Hcmd (lv_runnable _ Hl)) as Hrun.
    rewrite E. split; [done|]. destruct Hl. live_fields.
  - pose proof (ref_ingress _ _ _ Hr) as He. destruct (g_ctl (p_ingress p)) as [| |bc| |] eqn:Ec; try done.
    destruct He as (k & Hn & _). pose proof (tracked_sane _ _ _ _ _ Ht Hn) as Hsane.
    pose proof (sane_routes _ _ Hsane) as Hm. destruct Hsane as (_ & _ & _ & Hhc & _).
    pose proof (tracked_configured _ _ _ Ingress_ Ht ltac:(by right) Hstg) as Htc.
    pose proof (lv_registry _ Hl Htc) as Hreg. intros <-%(inj Some).
    rewrite (GoIngress_continues bc) by (by apply (pk_ingress_held _ Hk)).
    pose proof (GoIngress_update_contract bc (g_st (p_ingress p)) (p_telem p) (pk_ingress _ Hk)) as Hout.
    destruct (GoIngress_update_total schema bc (g_st (p_ingress p)) (p_telem p) (pk_ingress _ Hk) Hreg Hhc Hm)
      as (Hnp & Hreg' & Hmade).
    pose proof (GoIngress_update_endpoints bc (g_st (p_ingress p)) (p_telem p)) as Hes.
    set (r := GoIngress_step _ _) in *. clearbody r.
    destruct Hout as [(Ho & Hcfg & _)|Hp]; [|congruence]. unfold ingress_turn. rewrite Ho. split; [done|].
    destruct Hl. live_fields.
Qed.

Lemma safe_tick now p p' hs s :
  tracked p hs s → p_crashed p = None → p_step_tick grow now p = Some p' → safe p'.
Proof.
  intros [_ _ _ Hl] Hc. unfold p_step_tick. destruct (g_ctl (p_egress p)) eqn:Ec; try done.
  intros <-%(inj Some).
  pose proof (GoEgress_tick_runnable grow now _ (p_heap p, p_telem p) (lv_runnable _ Hl)) as Hrun.
  rewrite GoEgress_tick_contract in Hrun |- *. split; [done|].
  destruct Hl. live_fields. intros _. apply lv_ticker0. by rewrite Ec.
Qed.

(** A signal in a channel means that [main] waits. *)
Lemma tracked_waiting p hs s c : tracked p hs s → is_Some (p_osg p c) → waiting p.
Proof. intros [_ _ _ Hl] [sig Ho]. destruct (lv_signals _ Hl) as [[_ Hn]|?]; [congruence|done]. Qed.

Lemma safe_signal c Shutdown p p' hs s :
  tracked p hs s → p_crashed p = None → sane_step p (PSignal c Shutdown) →
  p_step_signal grow yaml_Unmarshal sha256_hex c Shutdown p = Some p' → safe p'.
Proof.
  intros Ht Hc Hsane. pose proof Ht as [Hr Hk Hs Hl]. unfold p_step_signal.
  destruct (p_osg p c) as [sig|] eqn:Eo; [|done].
  pose proof (tracked_waiting p hs s c Ht ltac:(by rewrite Eo)) as Hw.
  pose proof (tracked_wg p hs s c Ht Hw) as Hwg. destruct c; [| | | |done].
  - pose proof (ref_config _ _ _ Hr) as Hcr. destruct (g_ctl (p_config p)) eqn:Ec; try done.
    cbn in Hwg. rewrite (proj2 Hcr) in Hwg. intros <-%(inj Some). unfold config_turn. cbn.
    rewrite new_sends_same. cbn. rewrite p_Done_safe by (by apply Hwg). split; [done|].
    destruct Hl. live_fields.
  - pose proof (ref_egress _ _ _ Hr) as Hcr. destruct (g_ctl (p_egress p)) eqn:Ec; try done.
    cbn in Hwg, Hcr. rewrite Hcr in Hwg. intros <-%(inj Some). unfold egress_turn. cbn.
    rewrite p_Done_safe by (by apply Hwg). split; [done|]. destruct Hl. live_fields.
    intros _. apply lv_ticker0. by rewrite Ec.
  - pose proof (ref_ingress _ _ _ Hr) as Hcr. destruct (g_ctl (p_ingress p)) eqn:Ec; try done.
    cbn in Hwg, Hcr. rewrite Hcr in Hwg. intros <-%(inj Some).
    pose proof (GoIngress_signal_made true (g_st (p_ingress p)) (p_telem p) (lv_server _ Hl)) as Hmade.
    destruct (GoIngress_signal_endpoints true (g_st (p_ingress p)) (p_telem p)) as [Hes Hsrv].
    destruct (GoIngress_signal_contract true (g_st (p_ingress p)) (p_telem p) (pk_ingress _ Hk))
      as (st & E & _). rewrite E in Hmade, Hes, Hsrv |- *. cbn in Hes, Hsrv. unfold ingress_turn. cbn.
    rewrite p_Done_safe by (by apply Hwg). split; [done|]. destruct Hl. live_fields.
    + unfold endpoints_ok. by rewrite Hes.
    + by rewrite Hsrv.
  - pose proof (ref_telemetry _ _ _ Hr) as Hcr. destruct (g_ctl (p_telemetry p)) eqn:Ec; try done.
    cbn in Hwg, Hcr. rewrite Hcr in Hwg. intros <-%(inj Some).
    destruct Hsane as (Hsd & [mp Emp] & [tp Etp]).
    rewrite GoTelemetry_signal_contract, Emp, Etp, Hsd. unfold telemetry_turn. cbn.
    rewrite new_sends_same. cbn.
    rewrite p_Done_safe by (by apply Hwg). split; [done|]. destruct Hl. live_fields.
Qed.

Lemma safe_os_signal sig p p' hs s :
  tracked p hs s → p_crashed p = None → waiting p → p_step_os_signal sig p = Some p' → safe p'.
Proof.
  intros [_ _ _ Hl] Hc Hw. unfold p_step_os_signal. destruct (g_ctl (p_signals p)); try done.
  intros [= <-]. split; [done|]. destruct Hl. live_fields.
Qed.

(** [GoSignals] looks for the process and forwards only when [main] waits. *)
Lemma tracked_signals_busy p hs s :
  tracked p hs s → g_ctl (p_signals p) ≠ NotStarted → g_ctl (p_signals p) ≠ Selecting → waiting p.
Proof. intros [_ _ _ Hl] H1' H2'. destruct (lv_signals _ Hl) as [[[?|?] _]|?]; done. Qed.

Lemma safe_snapshot snap p p' hs s :
  tracked p hs s → p_crashed p = None → p_step_snapshot snap p = Some p' → safe p'.
Proof.
  intros Ht Hc. pose proof (tracked_signals_busy _ _ _ Ht) as Hw. destruct Ht as [_ Hk _ Hl].
  unfold p_step_snapshot. destruct (g_ctl (p_signals p)) as [| |[sig snaps]| |]; try done.
  specialize (Hw ltac:(done) ltac:(done)). intros <-%(inj Some).
  destruct (GoSignals_signal_contract sig (snaps ++ [snap]) (g_st (p_signals p))) as [-> | ->].
  - split; [done|]. destruct Hl. live_fields.
  - unfold signals_turn_end. cbn [fst snd signals_sent]. rewrite new_sends_app, (pk_signals _ Hk).
    split; [done|]. destruct Hl. live_fields.
Qed.

Lemma safe_forward p p' hs s :
  tracked p hs s → p_crashed p = None → p_step_forward p = Some p' → safe p'.
Proof.
  intros Ht Hc. pose proof (tracked_signals_busy _ _ _ Ht) as Hw.
  pose proof (tracked_wg p hs s Signals_ Ht) as Hwg. destruct Ht as [Hr Hk _ Hl].
  unfold p_step_forward. pose proof (ref_signals _ _ _ Hr) as Hg.
  destruct (g_ctl (p_signals p)) as [| | |[|[c sig] todo] after|]; try done.
  destruct Hg as (-> & _ & Hg). cbn in Hwg. rewrite Hg in Hwg.
  specialize (Hw ltac:(done) ltac:(done)). destruct (p_osg p c); [done|]. intros [= <-].
  destruct todo as [|[c' sig'] todo]; cbn.
  - rewrite p_Done_safe by (by apply Hwg). split; [done|]. destruct Hl. live_fields.
  - split; [done|]. destruct Hl. live_fields.
Qed.

Lemma safe_serve bound p p' hs s :
  tracked p hs s → p_crashed p = None → p_step_serve bound p = Some p' → safe p'.
Proof.
  intros [_ _ _ Hl] Hc. unfold p_step_serve.
  destruct (pending_serves (g_st (p_ingress p))) eqn:En; [done|]. intros <-%(inj Some).
  destruct (serve_goroutine_made bound (g_st (p_ingress p)) (lv_server _ Hl)) as [Hp Hm]; [by rewrite En|].
  destruct (serve_goroutine_endpoints bound (g_st (p_ingress p))) as [Hes Hsrv].
  destruct (serve_goroutine bound _) as [[[]|e] st]; [|done]. cbn in Hes, Hsrv.
  split; [done|]. destruct Hl. live_fields; [unfold endpoints_ok; by rewrite Hes|by rewrite Hsrv].
Qed.

Lemma safe_act i (env : RunEnv (C := C)) p p' hs s :
  tracked p hs s → p_crashed p = None → client_sane env → p_step_act grow i env p = Some p' → safe p'.
Proof.
  intros [_ Hk _ Hl] Hc Henv. unfold p_step_act. destruct (started _ !! i) as [run|] eqn:Ei; [|done].
  case_decide; [done|]. intros <-%(inj Some).
  destruct (Run_act_runs grow (PromRegistry (p_telem p)) env (g_st (p_egress p)) run Henv (pk_egress _ Hk)
    (lv_runnable _ Hl) (list_elem_of_lookup_2 _ _ _ Ei) (p_heap p, p_telem p) eq_refl)
    as ([] & [h t] & -> & Hreg & _). cbn in Hreg. unfold registry_is in Hreg.
  split; [done|]. destruct Hl. live_fields. unfold has_registry. by rewrite Hreg.
Qed.

(** In a state of a sane run a request is answered. *)
Lemma live_answers clock path (p : prog) :
  live p →
  ∃ r t, p_answer clock path p = (Returned r, (g_st (p_ingress p), t)) ∧
    PromRegistry t = PromRegistry (p_telem p) ∧
    ∀ resp, r = Some (inl resp) → status resp = 200%Z ∨ status resp = StatusServiceUnavailable.
Proof. intros []. apply serve_request_runs; [done|]. intros Hs. auto. Qed.

Lemma safe_request clock path p p' hs s :
  tracked p hs s → p_crashed p = None → p_step_request clock path p = Some p' → safe p'.
Proof.
  intros [_ _ _ Hl] Hc. unfold p_step_request.
  destruct (live_answers clock path p Hl) as (r & t & -> & Hreg & _). intros <-%(inj Some).
  split; [done|]. destruct Hl. live_fields. unfold has_registry. by rewrite Hreg.
Qed.

Lemma safe_step l p p' hs s :
  tracked p hs s → p_crashed p = None → sane_step p l → exec_prog l p = Some p' → safe p'.
Proof.
  intros Ht Hc Hl. unfold exec_prog. rewrite Hc.
  destruct l as [env_path rd w|w| |c env|c now| |now|c sd|sig|snap| |bound|i env|clock path]; cbn in Hl.
  - destruct Hl as [Hrd ->]. by eapply safe_main.
  - by eapply safe_event.
  - by eapply safe_config_send.
  - by eapply safe_recv.
  - by eapply safe_stage.
  - by eapply safe_announce.
  - by eapply safe_tick.
  - by eapply safe_signal.
  - by eapply safe_os_signal.
  - by eapply safe_snapshot.
  - by eapply safe_forward.
  - by eapply safe_serve.
  - by eapply safe_act.
  - by eapply safe_request.
Qed.

Lemma live_init now h t : live (init_prog now h t).
Proof.
  split; cbn; try done; try by intros [].
  all: first [by constructor|left; by auto].
Qed.

Lemma sane_run_tracked ls now h t p :
  sane_run ls (init_prog now h t) → run_prog ls (init_prog now h t) = Some p →
  ∃ hs s, tracked p hs s.
Proof.
  assert (tracked (init_prog now h t) [] init_sys) as Ht.
  { destruct (refines_init (DB := DB) (Signal := Signal) now h t) as [Hr Hk].
    split; [done..|by exists []|apply live_init]. }
  revert Ht. generalize (init_prog now h t : prog) as p0, init_sys as s0, ([] : list BunnyConfig) as hs0.
  induction ls as [|l ls IH]; intros p0 s0 hs0 Ht Hsane Hrun; cbn in *.
  { injection Hrun as <-. by exists hs0, s0. }
  destruct Hsane as [Hl Hls]. destruct (exec_prog l p0) as [p1|] eqn:E; [cbn in Hrun|done].
  assert (p_crashed p0 = None) as Hc by apply Ht.
  destruct (safe_step l p0 p1 hs0 s0 Ht Hc Hl E) as [Hc1 Hl1]. destruct Ht as [Hr Hk Hs _].
  destruct (follow_step _ _ _ l p0 p1 hs0 s0 Hr Hk Hs E Hc1) as (hs1 & s1 & Hr1 & Hk1 & Hst).
  eapply (IH p1 s1 hs1); [split; try done|done..].
  destruct Hst as [->|[l' Hst]]; [done|]. apply (reachable_exec s0 [l']); [done|]. cbn. by rewrite Hst.
Qed.


(** C10: every health request is answered.  In every state of such a run, a
    request for any path is answered without a panic of the handler, by a
    health endpoint with 200 or 503: a server exists only when telemetry has
    opened the database and made the query engine, and every endpoint has a
    query. *)
Theorem health_requests_answered ls now h t p clock path :
  sane_run ls (init_prog now h t) → run_prog ls (init_prog now h t) = Some p →
  ∃ r st, p_answer clock path p = (Returned r, st) ∧
    ∀ resp, r = Some (inl resp) → status resp = 200%Z ∨ status resp = 503%Z.
Proof.
  intros Hs Hr. destruct (sane_run_tracked ls now h t p Hs Hr) as (? & ? & [_ _ _ Hl]).
  destruct (live_answers clock path p Hl) as (r & t' & -> & _ & Hresp). by eexists _, _.
Qed.

End safety.

(** ** Witnesses *)

#[local] Existing Instance toy_libs.
#[local] Existing Instance toy_registry_laws.
#[local] Existing Instance simple_regexp.
#[local] Existing Instance ascii_tables.

(** The metric of the sample endpoint has no labels. *)
Definition sample_schema : metric_schema := λ name, if (name =? "h")%string then Some ∅ else None.

Lemma sample_config_sane : sane sample_schema sample_config.
Proof.
  split; [apply toy_probes_fine|]. split; [by repeat constructor|]. split; [done|].
  split; [|split; apply (bool_decide_unpack _); by vm_compute].
  constructor; [|constructor]. exists toy_metrics. split; [done|]. split_and!; [|done..].
  intros _. split; [done|]. split; [apply map_Forall_empty|done].
Qed.

(** Steps whose environment is sane whatever the state. *)
Definition sane_env (l : sample_label) : Prop :=
  ∀ p : @prog toy_libs simple_regexp unit nat, sane_step sample_schema sample_yaml p l.

Lemma sane_env_run ls (p : @prog toy_libs simple_regexp unit nat) : Forall sane_env ls → sane_run sample_schema grow_double sample_yaml toy_hash ls p.
Proof.
  intros Hls. revert p. induction Hls as [|l ls Hl _ IH]; intros p; [exact I|].
  split; [apply Hl|]. destruct (exec_prog _ _ _ l p); [apply IH|exact I].
Qed.


Lemma sample_load_sane : load_sane sample_schema sample_yaml (FileData "x").
Proof. exists sample_config. split; [done|apply sample_config_sane]. Qed.

Lemma sample_main_sane : sane_env (PMain "" (FileData "x") true).
Proof. intros p. split; [apply sample_load_sane|done]. Qed.

Lemma scalar_engine_sane : engine_sane scalar_engine.
Proof. intros d deadline qs q. split; intros *; intros [= <-]; eexists; (split; [reflexivity|]); by eexists. Qed.

Lemma sample_env_sane : env_sane sample_schema sample_env.
Proof.
  split; [by eexists|]. split; [eexists; split; [reflexivity|]; apply toy_registry_fits|].
  split; [intros dir o r Hr; by eexists _, _|]. split; [intros; by eexists|].
  intros o tr r Hr. eexists _, _. split; [reflexivity|]. split; [done|apply scalar_engine_sane].
Qed.

Lemma sample_start_sane : Forall sane_env sample_start.
Proof.
  pose proof sample_env_sane as He.
  pose proof sample_main_sane as Hm. apply Forall_app. split.
  - apply Forall_app. split; [by apply Forall_replicate|].
    apply Forall_app. split; [by apply Forall_replicate|].
    repeat (apply Forall_cons_2; [intros p; first [exact He|exact I]|]). by apply Forall_nil_2.
  - apply Forall_cons_2; [done|]. apply Forall_cons_2; [intros p deadline client url headers _; by eexists|].
    apply Forall_cons_2; [done|]. by apply Forall_nil_2.
Qed.

(** What the run shows before the signal, and before telemetry takes it. *)
Lemma sample_start_waits : ∃ p, sample_run sample_start = Some p ∧ p_main p = [WgWait].
Proof. apply (run_observed p_main). vm_compute. reflexivity. Qed.




(** The state of the request in that run. *)
Lemma health_requests_answered_witness :
  ∃ p r st, sample_run sample_start = Some p ∧ p_answer toy_clock "/health" p = (Returned r, st).
Proof.
  destruct sample_start_waits as (p & Hp & _).
  destruct (@health_requests_answered toy_libs toy_registry_laws simple_regexp ascii_tables sample_schema grow_double
    script_conn _ unit nat sample_yaml toy_hash sample_start 0 ∅ toy_telem p toy_clock "/health")
    as (r & st & Hr & _).
  - apply sane_env_run, sample_start_sane.
  - exact Hp.
  - exists p, r, st. split; [exact Hp|exact Hr].
Defined.
