(* ===== verification/Bee.v ===== *)
(** * bee/main.go: what the handlers of bee do

    The TCP conversation of bee, over the same connections and buffers as the
    probes' (so that the two sides can be put together), the routine that
    wastes time in nested spans, and the HTTP handlers.  Time passes at every
    reading of the clock and at every sleep, beyond what was asked for, by an
    amount that is a parameter; what was added up so far is part of the state,
    so that theorems can say what the code itself spent.  The random numbers
    and the shuffle of [math/rand] are parameters too. *)

From S2P Require Import Prelude GoStd GoMath ServeMux Config Metrics Expect Probes.
From Stdlib Require Import Ascii String.

(** ** The TCP conversation *)

Section tcp.
Context {C : Type} `{Conn C}.

Definition tcpRead (words : string) (r : bufio_Reader) (c : C) : bool * bufio_Reader * C :=
  let '(wordsSent, err, r', c') := ReadString newline r c in
  match err with
  | Some _ => (false, r', c')
  | None => (bool_decide (to_bytes words ++ [newline] = wordsSent), r', c')
  end.

(** The loop that hands the words to the writer. *)
Fixpoint bee_write_loop (fuel : nat) (remainingWords : bytes) (w : bufio_Writer) (c : C)
  : bool * bufio_Writer * C :=
  match remainingWords, fuel with
  | [], _ => (true, w, c)
  | _, O => (true, w, c)
  | _, S fuel' =>
      let '(bytesWritten, err, w', c') := writer_Write remainingWords w c in
      match bytesWritten, err with
      | O, _ => (false, w', c')
      | _, Some _ => (false, w', c')
      | _, None => bee_write_loop fuel' (drop bytesWritten remainingWords) w' c'
      end
  end.

Definition tcpWrite (words : string) (w : bufio_Writer) (c : C) : bool * bufio_Writer * C :=
  let fullText := to_bytes words ++ [newline] in
  match bee_write_loop (List.length fullText) fullText w c with
  | (false, w', c') => (false, w', c')
  | (true, w', c') =>
      let '(err, w'', c'') := writer_Flush w' c' in
      (match err with Some _ => false | None => true end, w'', c'')
  end.

(** The four steps, each only when the one before succeeded. *)
Definition bee_conversation (c : C) : bool * C :=
  match tcpRead "hello" (mkReader [] None) c with
  | (false, _, c1) => (false, c1)
  | (true, r, c1) =>
      match tcpWrite "yellow" (mkWriter [] None) c1 with
      | (false, _, c2) => (false, c2)
      | (true, w, c2) =>
          match tcpRead "how're ya now?" r c2 with
          | (false, _, c3) => (false, c3)
          | (true, _, c3) => let '(b, _, c4) := tcpWrite "can't complain" w c3 in (b, c4)
          end
      end
  end.

End tcp.

(** ** Wasting time *)

Definition makeChildName (parentName : string) (i : Z) : string :=
  if decide (parentName = "timeWaster") then parentName +:+ "-" +:+ Sprint_int i
  else parentName +:+ Sprint_int i.

(** The calls on spans, and on the connection a span is about. *)
Inductive span_event :=
| SpanStarted (name : string)
| SpanEnded (name : string)
| StatusSet (code : span_code) (message : string)
| ConnectionClosed.

(** The variable [tracer]; the clock, the time it has moved that no sleep asked
    for, and the number of times it did so; the number of random choices made;
    the calls on spans. *)
Record tw_state := mkTW {
  tw_tracer : option string;
  tw_now : Z;
  tw_late : Z;
  tw_ticks : nat;
  tw_draws : nat;
  tw_spans : list span_event }.

Definition add_spans (es : list span_event) (s : tw_state) : tw_state :=
  mkTW (tw_tracer s) (tw_now s) (tw_late s) (tw_ticks s) (tw_draws s) (tw_spans s ++ es).
Definition count_draw (s : tw_state) : tw_state :=
  mkTW (tw_tracer s) (tw_now s) (tw_late s) (tw_ticks s) (S (tw_draws s)) (tw_spans s).
Definition advance (d : Z) (s : tw_state) : tw_state :=
  mkTW (tw_tracer s) (tw_now s + d) (tw_late s) (tw_ticks s) (tw_draws s) (tw_spans s).

(** [late] is the time the program, the scheduler and the machine take by the
    [i]-th time the clock is looked at. *)
Definition delayed (late : nat → N) (s : tw_state) : tw_state :=
  let d := Z.of_N (late (tw_ticks s)) in
  mkTW (tw_tracer s) (tw_now s + d) (tw_late s + d) (S (tw_ticks s)) (tw_draws s) (tw_spans s).

(** [time.Now] *)
Definition time_Now (late : nat → N) : go tw_state Z :=
  modify (delayed late) ;; gets tw_now.

(** [time.Sleep] pauses for at least the duration; one that is not positive
    asks for nothing. *)
Definition Sleep (late : nat → N) (d : Z) : go tw_state unit :=
  modify (λ s, delayed late (advance (Z.max 0 d) s)).

(** [_, span := ( *tracer).Start(..., name); defer span.End(); body]. *)
Definition in_span {A} (name : string) (body : go tw_state A) : go tw_state A :=
  tracer ← gets tw_tracer;
  _ ← deref tracer;
  modify (add_spans [SpanStarted name]) ;;
  deferred (add_spans [SpanEnded name]) body.

Section tcp_connection.
Context {C : Type} `{Conn C} (late : nat → N).

Definition handleTCPConnection (SetDeadline : Z → C → C) (connection : C)
  : go tw_state (bool * C) :=
  in_span "handleTCPConnection" (deferred (add_spans [ConnectionClosed])
    (now ← time_Now late;
     let '(ok, c) := bee_conversation (SetDeadline (time_Add now (10 * Second)) connection) in
     modify (add_spans [if ok : bool then StatusSet CodeOk "successful tcp conversation"
                        else StatusSet CodeError "failed tcp conversation"]) ;;
     mret (ok, c))).
End tcp_connection.

Section time_waster.
Local Open Scope Z_scope.
(** The [n]-th draw below a bound, and the [n]-th shuffle. *)
Context (draw : nat → Z → Z) (shuffle : nat → list Z → list Z) (late : nat → N).

(** [rand.Int63n] panics when its bound is not positive. *)
Definition Int63n (n : Z) : go tw_state Z :=
  if n <=? 0 then throw (PanicCall "invalid argument to Int63n")
  else
    i ← gets tw_draws;
    modify count_draw ;;
    mret (draw i n).

Definition rand_Shuffle (l : list Z) : go tw_state (list Z) :=
  i ← gets tw_draws;
  modify count_draw ;;
  mret (shuffle i l).

(** [timeWaster]; the length of the name bounds the depth, so the fuel never
    runs out when it is more than 21 less that length. *)
Fixpoint timeWaster (fuel : nat) (timeToStop : Z) (childName : string) : go tw_state unit :=
  match fuel with
  | O => throw (PanicCall "out of fuel")
  | S fuel' =>
      in_span childName
        (now ← time_Now late;
         let timeAvailableMilliseconds := Milliseconds (time_Sub timeToStop now) in
         if timeAvailableMilliseconds <=? 10 then mret tt
         else if (20 <? String.length childName)%nat then mret tt
         else
           x0 ← Int63n timeAvailableMilliseconds;
           let delay0 := Z.quot (wrap64 (x0 * 40)) 100 in
           x1 ← Int63n timeAvailableMilliseconds;
           let delay1 := Z.quot (wrap64 (x1 * 40)) 100 in
           let delay2 := timeAvailableMilliseconds - delay0 - delay1 in
           delays ← rand_Shuffle [delay0; delay1; delay2];
           match delays with
           | [a; b; c] =>
               t0 ← time_Now late;
               timeWaster fuel' (time_Add t0 (duration_ms a)) (makeChildName childName 0) ;;
               Sleep late (duration_ms b) ;;
               t1 ← time_Now late;
               timeWaster fuel' (time_Add t1 (duration_ms c)) (makeChildName childName 1) ;;
               t2 ← time_Now late;
               Sleep late (time_Sub timeToStop t2)
           | _ => throw IndexOutOfRange
           end)
  end.

(** ** The HTTP handlers *)

Definition helloEndpoint : Response := mkResponse (Some 200) (line "hello").

(** [time.Time.Unix]: the seconds of a time given in nanoseconds. *)
Definition time_Unix (t : Z) : Z := t / Second.

Definition float64_two : float64 := float64_of_Z 2.

Section health.
Context (trigReduce : float64 → Z * float64).

(** [y] and [delay] of [checkHealth] at a second. *)
Definition health_wave (unix : Z) : float64 * Z :=
  let period := 100 in
  let maxDelay := float64_one in
  let percent := fdiv (float64_of_Z (Z.rem unix period)) (float64_of_Z period) in
  let x := fmul (fmul float64_two Pi) percent in
  let y := fdiv (fadd (Sin trigReduce x) float64_one) float64_two in
  (y, Z_of_float64 (fmul (fmul y maxDelay) (float64_of_Z Second))).

(** Twelve levels of calls are enough for [timeWaster]. *)
Definition checkHealth : go tw_state bool :=
  now1 ← time_Now late;
  let '(y, delay) := health_wave (time_Unix now1) in
  now2 ← time_Now late;
  let timeToStop := time_Add now2 delay in
  timeWaster 12 timeToStop "timeWaster" ;;
  mret (fltb float64_zero y).

Definition healthEndpoint : go tw_state Response :=
  in_span "healthEndpoint"
    (healthy ← checkHealth;
     if healthy : bool then mret (mkResponse (Some 200) (line "healthy"))
     else mret (mkResponse (Some 408) (line "unhealthy"))).

End health.
End time_waster.

(** ** Theorems: the conversation *)

Section tcp_theorems.
Context {C : Type} `{ConnLaws C}.

#[local] Opaque bufferSize maxConsecutiveEmptyReads.

(** bee reads exactly one line.  [tcpRead] succeeds exactly when the next
    line that arrives is the expected one, however the stream is cut into
    reads, and then leaves what follows the line for the next step. *)
Theorem tcpRead_exact words r (c : C) :
  reader_ok r c → newline ∉ to_bytes words →
  ∃ b r' c', tcpRead words r c = (b, r', c') ∧ conn_written c' = conn_written c ∧
    (b = true ↔ ∃ rest, incoming r c = to_bytes words ++ newline :: rest) ∧
    (∀ rest, incoming r c = to_bytes words ++ newline :: rest →
       incoming r' c' = rest ∧ reader_ok r' c').
Proof.
  intros Hok Hw. unfold tcpRead.
  destruct (ReadString_spec newline r c Hok) as (out & e & r' & c' & -> & Hwr & Hres).
  destruct (split_at_delim newline (incoming r c)) as [[ln rest0]|] eqn:Hs.
  - destruct Hres as (-> & -> & Hin & Hok'). eexists _, _, _. split; [done|]. split; [done|].
    rewrite bool_decide_eq_true. split; [split|].
    + intros <-. exists rest0. apply split_at_delim_cat in Hs. rewrite Hs. by rewrite <-app_assoc.
    + intros [rest Hinc]. rewrite Hinc, split_at_delim_first in Hs by done. by simplify_eq.
    + intros rest Hinc. rewrite Hinc, split_at_delim_first in Hs by done. by simplify_eq.
  - destruct Hres as [-> [err ->]]. eexists _, _, _. split; [done|]. split; [done|].
    split; [split; [done|]|]; [intros [rest Hinc]|intros rest Hinc];
      by rewrite Hinc, split_at_delim_first in Hs.
Qed.

Lemma bee_write_loop_spec fuel text w c b w' c' :
  List.length text ≤ fuel → w_err w = None → List.length (w_buf w) ≤ bufferSize →
  bee_write_loop fuel text w c = (b, w', c') → b = true →
  w_err w' = None ∧ outgoing w' c' = outgoing w c ++ text.
Proof.
  intros Hfuel Hw Hlen. destruct text as [|x text]; simpl in Hfuel.
  { destruct fuel; simpl; intros [= <- <- <-] _; by rewrite app_nil_r. }
  destruct fuel as [|fuel]; [lia|]. cbn [bee_write_loop].
  destruct (writer_Write (x :: text) w c) as [[[n e] w1] c1] eqn:Hwr.
  apply writer_Write_spec in Hwr; [|done..]. destruct e as [e|].
  { destruct n; intros [= <- <- <-]; done. }
  destruct Hwr as (-> & Hw1 & _ & Hout). cbn [List.length drop]. rewrite drop_all.
  destruct fuel; simpl; by intros [= <- <- <-] _.
Qed.

(** bee writes exactly its line.  When [tcpWrite] reports success the
    connection received the words and a newline, and nothing else. *)
Theorem tcpWrite_exact words w (c : C) w' c' :
  w = mkWriter [] None → tcpWrite words w c = (true, w', c') →
  conn_written c' = conn_written c ++ to_bytes words ++ [newline] ∧ w' = mkWriter [] None.
Proof.
  intros ->. unfold tcpWrite.
  destruct (bee_write_loop _ _ _ _) as [[b w1] c1] eqn:Hl.
  destruct b; [|done]. apply bee_write_loop_spec in Hl as [Hw1 Ho]; [|done|done|simpl; lia|done].
  destruct (writer_Flush w1 c1) as [[err w2] c2] eqn:Hf.
  apply writer_Flush_spec in Hf; [|done]. destruct err as [e|]; [done|]. intros [= <- <-].
  destruct Hf as [-> Hwr]. split; [|done]. rewrite Hwr. unfold outgoing in Ho.
  cbn [w_buf] in Ho. by rewrite app_nil_r in Ho.
Qed.

End tcp_theorems.

(** ** Bunny and bee together *)

(** What bee has written once it has read [input]: its conversation on a
    connection that delivers those bytes. *)
Definition bee_output (input : bytes) : bytes :=
  sc_out (bee_conversation
    (mkScript [] (match input with [] => [] | x :: rest => [(x, rest)] end))).2.

(** The probe's end of a connection to bee: the bytes the probe has sent and
    the number of bytes it has read.  What bee has written depends on nothing
    but what it was sent. *)
Record bee_conn := mkBeeConn { bc_sent : bytes; bc_read : nat }.

#[global] Instance bee_Conn : Conn bee_conn := {|
  conn_Write p c := (List.length p, None, mkBeeConn (bc_sent c ++ p) (bc_read c));
  conn_Read c :=
    match drop (bc_read c) (bee_output (bc_sent c)) with
    | [] => ([], Some DeadlineExceeded, c)
    | bs => (bs, None, mkBeeConn (bc_sent c) (List.length (bee_output (bc_sent c))))
    end;
  conn_reads_left c := List.length (drop (bc_read c) (bee_output (bc_sent c))) |}.

(** The conversation of the sample configuration. *)
Definition bee_expect (greeting answer : string) : list ExpectConfig :=
  let nl := String newline "" in
  [mkExpectConfig (Some (mkSendStepConfig "hello" nl)) None;
   mkExpectConfig None (Some (mkReceiveStepConfig greeting nl));
   mkExpectConfig (Some (mkSendStepConfig "how're ya now?" nl)) None;
   mkExpectConfig None (Some (mkReceiveStepConfig answer nl))].

Section together.
Context `{MetricLibs} `{Regexp}.

(** The four steps one by one. *)
Lemma bee_step1 :
  SendStep_do "hello" newline (mkReadWriter (mkReader [] None) (mkWriter [] None) (mkBeeConn [] 0))
  = (true, None, mkReadWriter (mkReader [] None) (mkWriter [] None)
                   (mkBeeConn (to_bytes "hello" ++ [newline]) 0)).
Proof. by vm_compute. Qed.

Lemma bee_step2 re :
  ReceiveStep_do re newline (mkReadWriter (mkReader [] None) (mkWriter [] None)
    (mkBeeConn (to_bytes "hello" ++ [newline]) 0)) =
  (MatchString re (to_bytes "yellow"), None,
   mkReadWriter (mkReader [] None) (mkWriter [] None)
     (mkBeeConn (to_bytes "hello" ++ [newline]) 7)).
Proof. by vm_compute. Qed.

Lemma bee_step3 :
  SendStep_do "how're ya now?" newline (mkReadWriter (mkReader [] None) (mkWriter [] None)
    (mkBeeConn (to_bytes "hello" ++ [newline]) 7))
  = (true, None, mkReadWriter (mkReader [] None) (mkWriter [] None)
       (mkBeeConn (to_bytes "hello" ++ newline :: to_bytes "how're ya now?" ++ [newline]) 7)).
Proof. by vm_compute. Qed.

Lemma bee_step4 re :
  ReceiveStep_do re newline (mkReadWriter (mkReader [] None) (mkWriter [] None)
    (mkBeeConn (to_bytes "hello" ++ newline :: to_bytes "how're ya now?" ++ [newline]) 7)) =
  (MatchString re (to_bytes "can't complain"), None,
   mkReadWriter (mkReader [] None) (mkWriter [] None)
     (mkBeeConn (to_bytes "hello" ++ newline :: to_bytes "how're ya now?" ++ [newline]) 22)).
Proof. by vm_compute. Qed.

Definition bee_steps re1 re2 : list ExpectStep :=
  [SendStep "hello" newline; ReceiveStep re1 newline;
   SendStep "how're ya now?" newline; ReceiveStep re2 newline].

Lemma bee_expect_steps greeting answer re1 re2 :
  regexp_Compile greeting = inr re1 → regexp_Compile answer = inr re2 →
  newExpectSteps (bee_expect greeting answer) = Returned (bee_steps re1 re2).
Proof. intros H1 H2. cbn. by rewrite H1, H2. Qed.

Lemma bee_expect_run re1 re2 t :
  MatchString re1 (to_bytes "yellow") = true →
  MatchString re2 (to_bytes "can't complain") = true →
  ∃ c t', expect (mkBeeConn [] 0) (bee_steps re1 re2) t = (Returned (true, c), t') ∧
    bc_sent c = to_bytes "hello" ++ newline :: to_bytes "how're ya now?" ++ [newline] ∧
    drop (bc_read c) (bee_output (bc_sent c)) = [].
Proof.
  intros M1 M2. eexists _, _.
  unfold expect, bee_steps. cbn [expect_loop step_do].
  unfold on_snd, on_fst, emit, modify, mbind, go_bind.
  cbn [fst snd]. rewrite bee_step1. cbn [fst snd]. rewrite bee_step2, M1. cbn [fst snd].
  rewrite bee_step3. cbn [fst snd]. rewrite bee_step4, M2. cbn [fst snd].
  split; [reflexivity|]. split; by vm_compute.
Qed.

(** the sample TCP probe passes against bee.  For any expressions that
    match bee's two answers, the steps built from the sample configuration
    run to success on a connection to bee: both sides send what the other
    expects, in the same order, and neither waits for the other for ever. *)
Theorem bee_conversation_succeeds greeting answer re1 re2 t :
  regexp_Compile greeting = inr re1 → regexp_Compile answer = inr re2 →
  MatchString re1 (to_bytes "yellow") = true →
  MatchString re2 (to_bytes "can't complain") = true →
  ∃ steps c t', newExpectSteps (bee_expect greeting answer) = Returned steps ∧
    expect (mkBeeConn [] 0) steps t = (Returned (true, c), t') ∧
    bc_sent c = to_bytes "hello" ++ newline :: to_bytes "how're ya now?" ++ [newline] ∧
    drop (bc_read c) (bee_output (bc_sent c)) = [].
Proof.
  intros H1 H2 M1 M2. destruct (bee_expect_run re1 re2 t M1 M2) as (c & t' & He & Hs & Hd).
  exists (bee_steps re1 re2), c, t'. by rewrite (bee_expect_steps _ _ _ _ H1 H2).
Qed.

End together.

(** ** Spans *)

(** The names of the open spans, the innermost first, after some events. *)
Fixpoint open_spans (stack : list string) (es : list span_event) : option (list string) :=
  match es with
  | [] => Some stack
  | SpanStarted n :: es' => open_spans (n :: stack) es'
  | SpanEnded n :: es' =>
      match stack with
      | m :: stack' => if decide (m = n) then open_spans stack' es' else None
      | [] => None
      end
  | _ :: es' => open_spans stack es'
  end.

(** Every span that is started is ended, the inner ones before the outer ones. *)
Definition nested (es : list span_event) : Prop := ∀ stack, open_spans stack es = Some stack.

(** From [s] to [s'] nothing but nested spans was added. *)
Definition traced (s s' : tw_state) : Prop :=
  tw_tracer s' = tw_tracer s ∧ ∃ es, tw_spans s' = tw_spans s ++ es ∧ nested es.

Lemma open_spans_app stack es1 es2 :
  open_spans stack (es1 ++ es2) = open_spans stack es1 ≫= λ st, open_spans st es2.
Proof.
  revert stack; induction es1 as [|[n|n|c m|] es1 IH]; intros stack; cbn; [done|apply IH| |apply IH..].
  destruct stack as [|m stack]; [done|]. case_decide; [apply IH|done].
Qed.

Lemma nested_app es1 es2 : nested es1 → nested es2 → nested (es1 ++ es2).
Proof. intros H1 H2 stack. rewrite open_spans_app, H1. apply H2. Qed.

Lemma nested_in_span name es : nested es → nested (SpanStarted name :: es ++ [SpanEnded name]).
Proof. intros H stack. cbn. rewrite open_spans_app, H. cbn. by rewrite decide_True. Qed.

Lemma traced_refl s : traced s s.
Proof. split; [done|]. exists []. by rewrite app_nil_r. Qed.

Lemma traced_trans s1 s2 s3 : traced s1 s2 → traced s2 s3 → traced s1 s3.
Proof.
  intros [H1 (es1 & E1 & N1)] [H2 (es2 & E2 & N2)]. split; [congruence|].
  exists (es1 ++ es2). rewrite E2, E1, app_assoc. split; [done|by apply nested_app].
Qed.

Lemma traced_same s s' : tw_tracer s' = tw_tracer s → tw_spans s' = tw_spans s → traced s s'.
Proof. intros Ht Hs. split; [done|]. exists []. by rewrite app_nil_r. Qed.

Lemma traced_tracer s s' : traced s s' → tw_tracer s' = tw_tracer s.
Proof. by intros []. Qed.

(** A body that returns within a span. *)
Lemma in_span_run {A} name (body : go tw_state A) s (P : Z → Z → Prop) a :
  is_Some (tw_tracer s) →
  (∃ s1, body (add_spans [SpanStarted name] s) = (Returned a, s1) ∧
         traced (add_spans [SpanStarted name] s) s1 ∧ P (tw_now s1) (tw_late s1)) →
  ∃ s', in_span name body s = (Returned a, s') ∧ traced s s' ∧ P (tw_now s') (tw_late s').
Proof.
  intros [tr Htr] (s1 & Hb & [T (es & E & N)] & HP).
  exists (add_spans [SpanEnded name] s1). unfold in_span, deferred, gets, modify, mbind, go_bind.
  rewrite Htr. cbn [deref mret go_ret]. rewrite Hb. split; [done|]. split; [|done].
  split; [done|]. exists (SpanStarted name :: es ++ [SpanEnded name]).
  split; [|by apply nested_in_span]. cbn in E |- *. by rewrite E, <-!app_assoc.
Qed.

(** ** Time *)

(** From [s] to a state with the given clock and delays, no more than [d] went
    by besides the delays. *)
Definition took_at (d : Z) (s : tw_state) (now late : Z) : Prop :=
  (tw_late s ≤ late ∧ tw_now s ≤ now ≤ tw_now s + d + (late - tw_late s))%Z.
Definition took (d : Z) (s s' : tw_state) : Prop := took_at d s (tw_now s') (tw_late s').

Lemma delayed_took late s : took 0 s (delayed late s).
Proof. unfold took, took_at. cbn. lia. Qed.

(** ** Theorems: wasting time *)

(** A sleep lasts what was asked for and the delays, never less. *)
Lemma slept late d s s' :
  s' = delayed late (advance (Z.max 0 d) s) →
  (tw_now s + Z.max 0 d ≤ tw_now s')%Z ∧ took (Z.max 0 d) s s'.
Proof. intros ->. unfold took, took_at. cbn. lia. Qed.

Lemma took_trans d1 d2 s1 s2 s3 : took d1 s1 s2 → took d2 s2 s3 → took (d1 + d2) s1 s3.
Proof. unfold took, took_at. lia. Qed.

Section time_waster_theorems.
Local Open Scope Z_scope.
Context (draw : nat → Z → Z) (shuffle : nat → list Z → list Z).
(** What [math/rand] documents. *)
Hypothesis draw_range : ∀ i n, 0 < n → 0 ≤ draw i n < n.
Hypothesis shuffle_permutes : ∀ i l, shuffle i l ≡ₚ l.

Lemma makeChildName_longer name i :
  0 ≤ i → (String.length name < String.length (makeChildName name i))%nat.
Proof.
  intros H0. assert (∀ a b, String.length (a +:+ b) = String.length a + String.length b)%nat as Happ.
  { induction a as [|c a IH]; intros b; [done|]. exact (f_equal S (IH b)). }
  assert (1 ≤ String.length (Sprint_int i))%nat as Hi.
  { destruct (Sprint_int_head i H0) as (c & l & Hc & _). destruct (Sprint_int i); cbn in *; [done|lia]. }
  unfold makeChildName. case_decide; rewrite !Happ; cbn; lia.
Qed.

(** Forty percent of a draw. *)
Lemma delay_bounds x n :
  0 ≤ x < n → n ≤ max_ms → 0 ≤ Z.quot (wrap64 (x * 40)) 100 ∧ 5 * Z.quot (wrap64 (x * 40)) 100 ≤ 2 * n.
Proof.
  intros Hx Hn. rewrite wrap64_id.
  - rewrite Z.quot_div_nonneg by lia. pose proof (Z.mul_div_le (x * 40) 100). split; [|lia].
    apply Z.div_pos; lia.
  - unfold is_int64, int64_min, int64_max, max_ms in *. lia.
Qed.

Lemma shuffled i d0 d1 d2 :
  ∃ a b c, shuffle i [d0; d1; d2] = [a; b; c] ∧ a + b + c = d0 + d1 + d2 ∧
    (0 ≤ d0 → 0 ≤ d1 → 0 ≤ d2 → 0 ≤ a ∧ 0 ≤ b ∧ 0 ≤ c).
Proof.
  pose proof (shuffle_permutes i [d0; d1; d2]) as Hp.
  pose proof (Permutation_length Hp) as Hl.
  destruct (shuffle i [d0; d1; d2]) as [|a [|b [|c [|]]]]; try done. exists a, b, c.
  split; [done|]. split.
  - assert (∀ l l' : list Z, l ≡ₚ l' → foldr Z.add 0 l = foldr Z.add 0 l') as Hsum.
    { induction 1; cbn; lia. }
    apply Hsum in Hp. cbn in Hp. lia.
  - intros H0 H1 H2. assert (Forall (λ x, 0 ≤ x) [a; b; c]) as Hf.
    { rewrite Hp. by repeat constructor. }
    rewrite !Forall_cons in Hf. tauto.
Qed.

(** The time there is, in milliseconds, and what a sleep makes of it. *)
Lemma available_range stop now :
  stop - now ≤ int64_max →
  let n := Milliseconds (time_Sub stop now) in
  n ≤ max_ms ∧ (0 < n → n * Millisecond ≤ stop - now) ∧
  Z.max 0 (time_Sub stop now) = Z.max 0 (stop - now).
Proof.
  intros Hd n. subst n. unfold time_Sub, Milliseconds, Millisecond, int64_min, int64_max, max_ms in *.
  set (d := Z.max _ _). assert (d ≤ 9223372036854775807) as Hd' by lia.
  destruct (Z_lt_le_dec d 0) as [Hn|Hn].
  - pose proof (Z.quot_opp_l d 1000000 ltac:(lia)) as Ho.
    pose proof (Z.quot_pos (- d) 1000000 ltac:(lia) ltac:(lia)). lia.
  - rewrite Z.quot_div_nonneg by lia. pose proof (Z.mul_div_le d 1000000).
    assert (d / 1000000 < 9223372036855) by (apply Z.div_lt_upper_bound; lia). lia.
Qed.

(** The three delays are not negative and fill the time there is. *)
Lemma delays_fill i x0 x1 n :
  0 ≤ x0 < n → 0 ≤ x1 < n → n ≤ max_ms →
  let d0 := Z.quot (wrap64 (x0 * 40)) 100 in
  let d1 := Z.quot (wrap64 (x1 * 40)) 100 in
  ∃ a b c, shuffle i [d0; d1; n - d0 - d1] = [a; b; c] ∧ a + b + c = n ∧ 0 ≤ a ∧ 0 ≤ b ∧ 0 ≤ c.
Proof.
  intros H0 H1 Hn d0 d1. destruct (delay_bounds x0 n H0 Hn) as [Ha Ha'].
  destruct (delay_bounds x1 n H1 Hn) as [Hb Hb']. fold d0 in Ha, Ha'. fold d1 in Hb, Hb'.
  destruct (shuffled i d0 d1 (n - d0 - d1)) as (a & b & c & -> & Hsum & Hpos).
  exists a, b, c. split; [done|]. split; [lia|]. apply Hpos; lia.
Qed.

Context (late : nat → N).

(** The operations as first steps. *)
Lemma time_Now_bind {A} (k : Z → go tw_state A) s :
  (x ← time_Now late; k x) s = k (tw_now (delayed late s)) (delayed late s).
Proof. done. Qed.

Lemma Int63n_bind {A} n (k : Z → go tw_state A) s :
  0 < n → (x ← Int63n draw n; k x) s = k (draw (tw_draws s) n) (count_draw s).
Proof. intros Hn. unfold Int63n. by rewrite (proj2 (Z.leb_gt n 0)). Qed.

Lemma rand_Shuffle_bind {A} l (k : list Z → go tw_state A) s :
  (x ← rand_Shuffle shuffle l; k x) s = k (shuffle (tw_draws s) l) (count_draw s).
Proof. done. Qed.

(** [timeWaster] with some fuel: it returns, adds nested spans only, spends no
    more than the time there is besides the delays, and does not return early
    when it found more than ten milliseconds. *)
Definition wastes (fuel : nat) : Prop := ∀ stop name s,
  is_Some (tw_tracer s) → (21 - String.length name < fuel)%nat → stop - tw_now s ≤ int64_max →
  ∃ s', timeWaster draw shuffle late fuel stop name s = (Returned tt, s') ∧ traced s s' ∧
    took (Z.max 0 (stop - tw_now s)) s s' ∧
    (10 < Milliseconds (time_Sub stop (tw_now (delayed late s))) → (String.length name ≤ 20)%nat →
     stop ≤ tw_now s').

(** The two children and the sleep between them. *)
Lemma children_run fuel name a b c s :
  wastes fuel → is_Some (tw_tracer s) → (20 - String.length name < fuel)%nat →
  0 ≤ a → 0 ≤ b → 0 ≤ c → a + b + c ≤ max_ms →
  ∃ s', traced s s' ∧ took ((a + b + c) * Millisecond) s s' ∧ ∀ k : go tw_state unit,
    (timeWaster draw shuffle late fuel (time_Add (tw_now s) (duration_ms a)) (makeChildName name 0) ;;
     Sleep late (duration_ms b) ;;
     t1 ← time_Now late;
     timeWaster draw shuffle late fuel (time_Add t1 (duration_ms c)) (makeChildName name 1) ;; k) s
    = k s'.
Proof.
  intros Hw Htr Hf Ha Hb Hc Hn. rewrite !duration_ms_id by lia.
  unfold Sleep, time_Now, gets, modify, time_Add, mbind, go_bind.
  pose proof (makeChildName_longer name 0 ltac:(lia)) as L0.
  pose proof (makeChildName_longer name 1 ltac:(lia)) as L1.
  unfold max_ms, Millisecond in *.
  destruct (Hw (tw_now s + a * 1000000) (makeChildName name 0) s) as (s1 & -> & R1 & T1 & _);
    [done|lia|unfold int64_max; lia|].
  set (s2 := delayed late (delayed late _)).
  assert (took (Z.max 0 (b * 1000000) + 0) s1 s2) as T2 by
    (eapply took_trans; [by apply (slept late)|apply delayed_took]).
  assert (traced s1 s2) as R2 by (by apply traced_same). clearbody s2.
  destruct (Hw (tw_now s2 + c * 1000000) (makeChildName name 1) s2) as (s3 & -> & R3 & T3 & _);
    [by rewrite (traced_tracer _ _ R2), (traced_tracer _ _ R1)|lia|unfold int64_max; lia|].
  exists s3. split; [exact (traced_trans _ _ _ R1 (traced_trans _ _ _ R2 R3))|].
  split; [|done]. unfold took, took_at in *. lia.
Qed.

Lemma timeWaster_run fuel : wastes fuel.
Proof.
  induction fuel as [|fuel IH]; intros stop name s Htr Hf Hd; [lia|].
  cbn [timeWaster]. unfold took, delayed. cbn [tw_now].
  apply (in_span_run _ _ _ (λ now l, took_at _ s now l ∧ (_ → _ → stop ≤ now))); [done|].
  set (s0 := add_spans _ s). change (tw_tracer s) with (tw_tracer s0) in Htr.
  change (tw_now s) with (tw_now s0) in *. change (took_at ?d s) with (took_at d s0).
  change (tw_ticks s) with (tw_ticks s0). clearbody s0.
  rewrite time_Now_bind. change (tw_now s0 + Z.of_N (late (tw_ticks s0))) with (tw_now (delayed late s0)).
  pose proof (delayed_took late s0) as T0. assert (traced s0 (delayed late s0)) as R0 by (by apply traced_same).
  set (s1 := delayed late s0) in *. clearbody s1. unfold took, took_at in T0 |- *.
  destruct (available_range stop (tw_now s1) ltac:(lia)) as (Hav & Hle & _).
  set (n := Milliseconds (time_Sub stop (tw_now s1))) in *.
  destruct (Z.leb_spec n 10); [exists s1; split_and!; [done|done|lia..]|].
  destruct (Nat.ltb_spec 20 (String.length name)); [exists s1; split_and!; [done|done|lia..]|].
  rewrite !Int63n_bind, rand_Shuffle_bind by lia. cbn [count_draw tw_draws].
  destruct (delays_fill (S (S (tw_draws s1))) (draw (tw_draws s1) n) (draw (S (tw_draws s1)) n) n)
    as (a & b & c & -> & Hsum & Ha & Hb & Hc); [apply draw_range; lia..|lia|].
  rewrite time_Now_bind. set (s2 := delayed late _).
  assert (took 0 s1 s2) as T1 by apply (delayed_took late (count_draw (count_draw (count_draw s1)))).
  assert (traced s0 s2) as R1 by (eapply traced_trans; [exact R0|]; by apply traced_same).
  clearbody s2. destruct (children_run fuel name a b c s2) as (s3 & R2 & T2 & ->);
    [done|by rewrite (traced_tracer _ _ R1)|lia..|].
  rewrite time_Now_bind. pose proof (delayed_took late s3) as T3.
  unfold Sleep, modify. unfold took, took_at, Millisecond in *. eexists. split; [reflexivity|].
  destruct (available_range stop (tw_now (delayed late s3))) as (_ & _ & ->); [lia|].
  split; [exact (traced_trans _ _ _ R1 (traced_trans _ _ _ R2 (traced_same s3 _ eq_refl eq_refl)))|].
  destruct (slept late (stop - tw_now (delayed late s3)) (delayed late s3) _ eq_refl) as [Hs T4].
  unfold took, took_at in T4. split; lia.
Qed.

(** C36: bee's time waster returns when it should.  With twelve levels of calls
    it always returns, whatever the random choices: it never asks for a random
    number below zero, and it splits the time it has into three delays that
    fill it.  Its sleeps ask for no more than the time that was left to the
    time to stop, however they nest: it returns no later than that, or than
    the call, by more than what the sleeps and the machine added up.  If it
    found more than ten milliseconds it does not return early.  It ends every
    span it starts, the inner ones before the outer ones. *)
Theorem timeWaster_stops_on_time stop s :
  is_Some (tw_tracer s) → stop - tw_now s ≤ int64_max →
  ∃ s', timeWaster draw shuffle late 12 stop "timeWaster" s = (Returned tt, s') ∧
    traced s s' ∧ tw_late s ≤ tw_late s' ∧
    tw_now s ≤ tw_now s' ≤ Z.max (tw_now s) stop + (tw_late s' - tw_late s) ∧
    (10 < Milliseconds (time_Sub stop (tw_now s + Z.of_N (late (tw_ticks s)))) → stop ≤ tw_now s').
Proof.
  intros Htr Hd. destruct (timeWaster_run 12 stop "timeWaster" s) as (s' & Hs & Ht & Hr & Heq);
    [done|cbn; lia|done|].
  unfold took, took_at in Hr. exists s'. do 2 (split; [done|]). do 2 (split; [lia|]).
  intros Hm. apply Heq; [done|]. cbn. lia.
Qed.

(** *** The health endpoint *)

Context (trigReduce : float64 → Z * float64).

(** The seconds, modulo the period, at which the wave is at zero. *)
Definition wave_at_zero (unix : Z) : bool := (Z.rem unix 100 =? 75) || (Z.rem unix 100 =? -25).

(** The wave at all remainders there are. *)
Lemma health_wave_table :
  forallb (λ r, let '(y, delay) := health_wave trigReduce r in
                Bool.eqb (fltb float64_zero y) (negb (wave_at_zero r)) &&
                (0 <=? delay) && (delay <=? Second)) (seqZ (-99) 199) = true.
Proof. vm_compute. reflexivity. Qed.

Lemma health_wave_bounds unix :
  ∃ y delay, health_wave trigReduce unix = (y, delay) ∧
    fltb float64_zero y = negb (wave_at_zero unix) ∧ 0 ≤ delay ≤ Second.
Proof.
  assert (-99 ≤ Z.rem unix 100 < 100) as Hr.
  { pose proof (Z.rem_bound_abs unix 100 ltac:(lia)). lia. }
  assert (Z.rem (Z.rem unix 100) 100 = Z.rem unix 100) as Hrr by (apply Z.rem_rem; lia).
  pose proof health_wave_table as Ht. rewrite forallb_forall in Ht.
  specialize (Ht (Z.rem unix 100)). destruct (health_wave trigReduce unix) as [y delay] eqn:Hw.
  assert (health_wave trigReduce (Z.rem unix 100) = (y, delay)) as Hw'.
  { rewrite <-Hw. unfold health_wave. by rewrite Hrr. }
  rewrite Hw' in Ht. exists y, delay. split; [done|].
  assert (wave_at_zero (Z.rem unix 100) = wave_at_zero unix) as Hz by (unfold wave_at_zero; by rewrite Hrr).
  rewrite Hz in Ht. rewrite !andb_true_iff, !Z.leb_le, eqb_true_iff in Ht.
  destruct Ht as [[? ?] ?]; [apply list_elem_of_In, elem_of_seqZ; lia|done].
Qed.

(** The time at which [checkHealth] looks at the wave. *)
Definition seen_at (s : tw_state) : Z := tw_now (delayed late s).

Lemma checkHealth_run s :
  is_Some (tw_tracer s) →
  ∃ s', checkHealth draw shuffle late trigReduce s
        = (Returned (negb (wave_at_zero (time_Unix (seen_at s)))), s') ∧
    traced s s' ∧ took Second s s' ∧ took 0 s (delayed late s) ∧ took Second (delayed late s) s'.
Proof.
  intros Htr. unfold checkHealth. rewrite time_Now_bind. fold (seen_at s).
  destruct (health_wave_bounds (time_Unix (seen_at s))) as (y & delay & -> & <- & Hd).
  rewrite time_Now_bind. pose proof (delayed_took late s) as T0.
  set (s1 := delayed late s) in *. pose proof (delayed_took late s1) as T1. set (s2 := delayed late s1) in *.
  assert (traced s s2) as R1 by (by apply traced_same).
  destruct (timeWaster_run 12 (time_Add (tw_now s2) delay) "timeWaster" s2) as (s' & Hs & R2 & T2 & _);
    [done|cbn; lia|unfold time_Add, Second, int64_max in *; lia|].
  unfold mbind, go_bind. rewrite Hs. exists s'. split; [done|].
  split; [exact (traced_trans _ _ _ R1 R2)|]. unfold time_Add, took, took_at in *. lia.
Qed.

(** The health endpoint always answers, and spends at most a second. *)
Lemma healthEndpoint_run s :
  is_Some (tw_tracer s) →
  ∃ r s', healthEndpoint draw shuffle late trigReduce s = (Returned r, s') ∧
    took Second s s' ∧ took Second (delayed late s) s' ∧ traced s s' ∧
    r = (if wave_at_zero (time_Unix (seen_at s)) then mkResponse (Some 408) (line "unhealthy")
         else mkResponse (Some 200) (line "healthy")).
Proof.
  intros Htr. set (r := if wave_at_zero _ then _ else _). exists r. unfold healthEndpoint.
  match goal with |- context [in_span ?n ?body s] =>
    destruct (in_span_run n body s (λ now l, took_at Second s now l ∧
      took_at Second (delayed late s) now l) r Htr) as (s' & Hrun & Ht & Hnow1 & Hnow2); [|by exists s'] end.
  destruct (checkHealth_run (add_spans [SpanStarted "healthEndpoint"] s)) as (s1 & Hc & Ht & T1 & _ & T2);
    [done|].
  exists s1. unfold mbind, go_bind. rewrite Hc. split; [|done].
  subst r. change (seen_at (add_spans _ s)) with (seen_at s). by destruct (wave_at_zero _).
Qed.

End time_waster_theorems.

(** ** Witnesses *)

Lemma tcpRead_exact_witness :
  (tcpRead "hello" (mkReader [] None)
     (mkScript [] [("h"%char, to_bytes "el"); ("l"%char, "o"%char :: newline :: to_bytes "how")])).1.1
  = true.
Proof.
  destruct (tcpRead_exact "hello" (mkReader [] None)
    (mkScript [] [("h"%char, to_bytes "el"); ("l"%char, "o"%char :: newline :: to_bytes "how")]))
    as (b & r' & c' & -> & _ & Hb & _).
  - by intros [? [=]].
  - intros Hin. repeat (apply elem_of_cons in Hin as [Hin|Hin]; [discriminate|]).
    by apply elem_of_nil in Hin.
  - apply Hb. exists (to_bytes "how"). reflexivity.
Defined.

Lemma tcpWrite_exact_witness :
  sc_out (tcpWrite "yellow" (mkWriter [] None) (mkScript [] [])).2 = to_bytes "yellow" ++ [newline].
Proof.
  destruct (tcpWrite_exact "yellow" (mkWriter [] None) (mkScript [] [])
    (tcpWrite "yellow" (mkWriter [] None) (mkScript [] [])).1.2
    (tcpWrite "yellow" (mkWriter [] None) (mkScript [] [])).2 eq_refl) as [H _];
    [reflexivity|exact H].
Defined.

Lemma bee_conversation_succeeds_witness :
  ∃ steps c t', @newExpectSteps simple_regexp (bee_expect "yellow" "can.* complain")
                = Returned steps ∧
    @expect toy_libs simple_regexp bee_conn _ (mkBeeConn [] 0) steps toy_telem
      = (Returned (true, c), t').
Proof.
  destruct (@bee_conversation_succeeds toy_libs simple_regexp "yellow" "can.* complain" _ _ toy_telem
    eq_refl eq_refl eq_refl eq_refl) as (steps & c & t' & H1 & H2 & _).
  exists steps, c, t'. split; [exact H1|exact H2].
Defined.

(** A random generator: half the bound, and no shuffling. *)
Lemma half_draw_range (i : nat) (n : Z) : (0 < n → 0 ≤ n / 2 < n)%Z.
Proof. intros Hn. split; [apply Z.div_pos; lia|apply Z.div_lt; lia]. Qed.

(** With a delay of a microsecond whenever the clock is looked at. *)
Lemma timeWaster_stops_on_time_witness :
  ∃ s', timeWaster (λ _ n, n / 2)%Z (λ _ l, l) (λ _, 1000%N) 12 100000000 "timeWaster"
          (mkTW (Some "bunny/egress") 0 0 0 0 [])
        = (Returned tt, s') ∧ (100000000 ≤ tw_now s' ≤ 100000000 + tw_late s')%Z.
Proof.
  destruct (timeWaster_stops_on_time (λ _ n, n / 2)%Z (λ _ l, l) half_draw_range (λ _ _, reflexivity _)
    (λ _, 1000%N) 100000000%Z (mkTW (Some "bunny/egress") 0 0 0 0 [])) as (s' & Hs & _ & _ & Hr & Hge).
  - by eexists.
  - unfold int64_max. cbn. lia.
  - exists s'. split; [exact Hs|]. cbn [tw_now tw_late] in Hr. split; [apply Hge; reflexivity|lia].
Defined.
