(* ===== verification/BeeServers.v ===== *)
(** * bee/main.go: the servers and [main]

    [main] sets up the tracer and starts four endpoints, each with a goroutine
    that serves it; the goroutines are data of the state, and a request or a
    connection is a call on the state they are in.  [Listen] says which
    addresses cannot be bound.  The second part puts the probes of bunny and
    bee together: the HTTP and the gRPC client and the network between the two
    programs are parameters, with what their documentation promises for
    exchanges that are over before the deadline. *)

From S2P Require Import Prelude GoStd GoMath ServeMux Config Metrics Expect Probes Bee.
From Stdlib Require Import Ascii String.

Local Open Scope Z_scope.

(** ** The libraries *)

(** The health service of [grpc-go]. *)
Class HealthLib := {
  health_server : Type;
  health_NewServer : health_server;
  SetServingStatus : string → Z → health_server → health_server;
  health_Check : health_server → string → error + Z }.

(** A status that is set on a new server is the one that is answered. *)
Class HealthLaws `{HealthLib} :=
  Check_set : ∀ service status,
    health_Check (SetServingStatus service status health_NewServer) service = inr status.

(** The instrumentation of HTTP handlers. *)
Class HTTPInstrumentation := {
  otelhttp_NewHandler : ∀ {A}, string → go tw_state A → go tw_state A;
  otelhttp_WithRouteTag : ∀ {A}, string → go tw_state A → go tw_state A }.

(** Spans that are recorded, in some time. *)
Definition record_spans (late : nat → N) (es : list span_event) (ticks : nat) (s : tw_state) : tw_state :=
  Nat.iter ticks (delayed late) (add_spans es s).

(** The handler runs unchanged, between calls on spans of the wrapper's own. *)
Definition transparent (late : nat → N) (wrap : ∀ {A}, string → go tw_state A → go tw_state A) : Prop :=
  ∀ A name (h : go tw_state A) s, ∃ before after i j,
    wrap name h s = (let '(r, s') := h (record_spans late before i s) in
                     (r, record_spans late after j s')) ∧
    ∀ es, nested es → nested (before ++ es ++ after).

Class HTTPInstrumentationLaws `{HTTPInstrumentation} (late : nat → N) := {
  NewHandler_transparent : transparent late (@otelhttp_NewHandler _);
  WithRouteTag_transparent : transparent late (@otelhttp_WithRouteTag _) }.

(** ** State *)

Inductive BeeHandler := HelloHandler | HealthzHandler.

Section bee.
Context `{HealthLib} `{HTTPInstrumentation} `{UnicodeTables}.
Context (draw : nat → Z → Z) (shuffle : nat → list Z → list Z) (late : nat → N).
Context (trigReduce : float64 → Z * float64).

Inductive bee_goroutine :=
| ServeGRPC (address : string) (healthServer : health_server)
| ServeHealth
| ServeHello
| AcceptLoop (listener : option string).

(** The variables of the package, and the goroutines that were started. *)
Record BeeState := mkBee {
  bee_vars : tw_state;
  httpServerForHealth : option (http_Server BeeHandler);
  httpServerForHello : option (http_Server BeeHandler);
  bee_goroutines : list bee_goroutine }.

Definition init_bee (now : Z) : BeeState := mkBee (mkTW None now 0 0 0 []) None None [].

Definition set_tracer (name : string) (b : BeeState) : BeeState :=
  let v := bee_vars b in
  mkBee (mkTW (Some name) (tw_now v) (tw_late v) (tw_ticks v) (tw_draws v) (tw_spans v))
    (httpServerForHealth b) (httpServerForHello b) (bee_goroutines b).
Definition set_health_server (srv : http_Server BeeHandler) (b : BeeState) : BeeState :=
  mkBee (bee_vars b) (Some srv) (httpServerForHello b) (bee_goroutines b).
Definition set_hello_server (srv : http_Server BeeHandler) (b : BeeState) : BeeState :=
  mkBee (bee_vars b) (httpServerForHealth b) (Some srv) (bee_goroutines b).
Definition spawn (g : bee_goroutine) : go BeeState unit :=
  modify (λ b, mkBee (bee_vars b) (httpServerForHealth b) (httpServerForHello b)
                 (bee_goroutines b ++ [g])).

(** ** Starting *)

(** The error of [net.Listen] for an address. *)
Context (Listen : string → option error).

Definition startGRPCEndpoint : go BeeState unit :=
  let address := "localhost:" +:+ Sprint_int 3936 in
  match Listen address with
  | Some _ => mret tt
  | None =>
      let healthServer := SetServingStatus "health" HealthCheckResponse_SERVING health_NewServer in
      spawn (ServeGRPC address healthServer)
  end.

Definition startHTTPEndpointForHealth : go BeeState unit :=
  mux ← of_outcome (mux_Handle "/healthz" HealthzHandler []);
  modify (set_health_server (mkServer (":" +:+ Sprint_int 2624) 0 0 0 0 0 mux)) ;;
  spawn ServeHealth.

Definition startHTTPEndpointForHello : go BeeState unit :=
  mux ← of_outcome (mux_Handle "/hello" HelloHandler []);
  modify (set_hello_server (mkServer (":" +:+ Sprint_int 6560) 0 0 0 0 0 mux)) ;;
  spawn ServeHello.

(** An error of [Listen] is only logged, and the listener is nil. *)
Definition startTCPEndpoint : go BeeState unit :=
  let address := ":5248" in
  spawn (AcceptLoop (match Listen address with Some _ => None | None => Some address end)).

(** [main] up to the wait for a signal; [false] when it returns before, without
    an exporter. *)
Definition bee_main (exporter_err : option error) : go BeeState bool :=
  match exporter_err with
  | Some _ => mret false
  | None =>
      modify (set_tracer "bunny/egress") ;;
      startGRPCEndpoint ;;
      startHTTPEndpointForHealth ;;
      startHTTPEndpointForHello ;;
      startTCPEndpoint ;;
      mret true
  end.

(** ** Serving *)

(** One turn of the accept loop; a connection that is returned is handed to a
    new goroutine.  [Accept] on a nil listener panics. *)
Definition accept_turn {C} (listener : option string) (accepted : error + C)
  : go BeeState (option C) :=
  _ ← deref listener;
  match accepted with
  | inl _ => mret None
  | inr connection => mret (Some connection)
  end.

Definition on_vars {A} (m : go tw_state A) : go BeeState A := λ b,
  let '(r, v) := m (bee_vars b) in
  (r, mkBee v (httpServerForHealth b) (httpServerForHello b) (bee_goroutines b)).

(** The answer of a mux: that of the handler, a redirection, or 404. *)
Definition serve_mux (run : string → BeeHandler → go tw_state Response)
    (mux : ServeMux BeeHandler) (path : string) : go tw_state (Response + routing BeeHandler) :=
  match mux_route mux path with
  | Routed pattern h => r ← run pattern h; mret (inl r)
  | other => mret (inr other)
  end.

Definition handler_func (h : BeeHandler) : go tw_state Response :=
  match h with
  | HelloHandler => mret helloEndpoint
  | HealthzHandler => healthEndpoint draw shuffle late trigReduce
  end.

(** A request to the server for health: its handlers are instrumented. *)
Definition request_health (path : string) : go BeeState (option (Response + routing BeeHandler)) :=
  srv ← gets httpServerForHealth;
  srv ← deref srv;
  match Listen (Addr srv) with
  | Some _ => mret None
  | None =>
      r ← on_vars (otelhttp_NewHandler "/"
            (serve_mux (λ pattern h, otelhttp_WithRouteTag pattern (handler_func h))
               (server_Handler srv) path));
      mret (Some r)
  end.

Definition request_hello (path : string) : go BeeState (option (Response + routing BeeHandler)) :=
  srv ← gets httpServerForHello;
  srv ← deref srv;
  match Listen (Addr srv) with
  | Some _ => mret None
  | None =>
      r ← on_vars (serve_mux (λ _ h, handler_func h) (server_Handler srv) path);
      mret (Some r)
  end.

(** What can happen to a bee whose [main] waits for a signal: requests,
    connections, and time passing. *)
Inductive bee_step : BeeState → BeeState → Prop :=
| step_health path b : bee_step b (request_health path b).2
| step_hello path b : bee_step b (request_hello path b).2
| step_connection {C} `{Conn C} SetDeadline (c : C) b :
    bee_step b (on_vars (handleTCPConnection late SetDeadline c) b).2
| step_time d b : 0 ≤ d → bee_step b (on_vars (modify (advance d)) b).2.

(** The states of a bee that was started at [now]. *)
Definition bee_running (now : Z) (b : BeeState) : Prop :=
  ∃ b0, bee_main None (init_bee now) = (Returned true, b0) ∧ rtc bee_step b0 b.

(** ** The network between a probe and bee *)

(** A [GET] from an address of bee, with redirections followed within the
    given number of requests: the status, or [None] when nothing listens. *)
Fixpoint bee_get (requests : nat) (address path : string) : go BeeState (option Z) :=
  match requests with
  | O => mret None
  | S requests' =>
      health ← gets httpServerForHealth;
      hello ← gets httpServerForHello;
      answer ← (if decide (Addr <$> health = Some address) then request_health path
                else if decide (Addr <$> hello = Some address) then request_hello path
                else mret None);
      match answer with
      | None => mret None
      | Some (inl r) => mret (Some (status r))
      | Some (inr (Redirected path')) => bee_get requests' address path'
      | Some (inr _) => mret (Some 404)
      end
  end.

(** The address and the path of a URL on the local host. *)
Definition local_url (url : string) : option (string * string) :=
  let host := "http://localhost" in
  if String.prefix host url then
    let rest := String.substring (String.length host) (String.length url - String.length host) url in
    let i := Z.to_nat (strings_Index rest "/") in
    Some (String.substring 0 i rest, String.substring i (String.length rest - i) rest)
  else None.

(** The health server behind an address, if one serves there. *)
Fixpoint find_grpc (target : string) (gs : list bee_goroutine) : option health_server :=
  match gs with
  | [] => None
  | ServeGRPC address h :: gs' => if decide (address = target) then Some h else find_grpc target gs'
  | _ :: gs' => find_grpc target gs'
  end.

(** An accept loop listens at an address. *)
Definition accepts (target : string) (gs : list bee_goroutine) : bool :=
  existsb (λ g, match g with
                | AcceptLoop (Some address) => bool_decide ("localhost" +:+ address = target)
                | _ => false
                end) gs.

(** What the clients of a probe answer: the HTTP client, connecting with gRPC
    and asking the health service over that connection, and TCP connections. *)
Record Network := mkNetwork {
  net_Do : Z → http_Client → string → gmap string (list string) → option error * option Z;
  net_grpc_Dial : Z → Dialer → string → option error;
  net_grpc_Check : string → Z → option string → option error * option Z;
  net_Dial : Dialer → string → error + bee_conn;
  net_SetDeadline : Z → bee_conn → bee_conn }.

(** The clients reach a bee: an exchange that is over before the deadline of
    its context, and within the timeout of its client or dialer, gives what
    the server answered.  An HTTP request that is sent at [sent] is answered
    when bee has answered and the network has taken [transit]; connecting
    takes [connect], and the other exchanges are over at [over]. *)
Record reaches (sent transit connect over : Z) (b : BeeState) (n : Network) : Prop := {
  Do_answered deadline client url headers address path code b' :
    local_url url = Some (address, path) →
    bee_get 10 address path b = (Returned (Some code), b') →
    tw_now (bee_vars b') + transit ≤ deadline →
    tw_now (bee_vars b') + transit ≤ sent + client_Timeout client →
    net_Do n deadline client url headers = (None, Some code);
  grpc_connected deadline dialer target h :
    find_grpc target (bee_goroutines b) = Some h → over ≤ deadline →
    net_grpc_Dial n deadline dialer target = None;
  grpc_answered deadline target service h st :
    find_grpc target (bee_goroutines b) = Some h → over ≤ deadline →
    health_Check h (default "" service) = inr st →
    net_grpc_Check n target deadline service = (None, Some st);
  tcp_connected dialer target :
    accepts target (bee_goroutines b) = true → connect ≤ dialer_Timeout dialer →
    net_Dial n dialer target = inr (mkBeeConn [] 0);
  tcp_in_time deadline c : over ≤ deadline → net_SetDeadline n deadline c = c }.

End bee.

(** ** Lemmas: handlers keep what they find *)

(** A handler adds nothing but nested spans, whatever it is asked. *)
Definition keeps {A} (m : go tw_state A) : Prop :=
  ∀ s, is_Some (tw_tracer s) → traced s (m s).2.

(** A handler returns a value that depends on nothing but a time at which it
    looked at the clock, at most the delays after its start, and spends no
    more than [d] besides the delays. *)
Definition answers {A} (m : go tw_state A) (f : Z → A) (d : Z) : Prop := ∀ s,
  is_Some (tw_tracer s) → ∃ seen s', m s = (Returned (f seen), s') ∧ traced s s' ∧ took d s s' ∧
    tw_now s ≤ seen ≤ tw_now s + (tw_late s' - tw_late s).

Lemma record_spans_spec late es i s :
  let s' := record_spans late es i s in
  tw_tracer s' = tw_tracer s ∧ tw_spans s' = tw_spans s ++ es ∧ took 0 s s'.
Proof.
  induction i as [|i (Ht & Hs & Hn)]; [split_and!; [done..|]; unfold took, took_at; cbn; lia|].
  split; [done|]. split; [done|]. apply (took_trans 0 0 _ _ _ Hn). apply delayed_took.
Qed.

Lemma record_spans_traced late before after i j s s' :
  (∀ es, nested es → nested (before ++ es ++ after)) →
  traced (record_spans late before i s) s' → traced s (record_spans late after j s').
Proof.
  intros Hn [Ht (es & E & N)]. destruct (record_spans_spec late before i s) as (T1 & E1 & _).
  destruct (record_spans_spec late after j s') as (T2 & E2 & _). split; [congruence|].
  exists (before ++ es ++ after). split; [|by apply Hn]. by rewrite E2, E, E1, <-!app_assoc.
Qed.

Lemma transparent_keeps late (wrap : ∀ {A}, string → go tw_state A → go tw_state A) {A} name
    (h : go tw_state A) :
  transparent late (@wrap) → keeps h → keeps (wrap name h).
Proof.
  intros Hw Hh s Htr. destruct (Hw A name h s) as (before & after & i & j & -> & Hn).
  destruct (record_spans_spec late before i s) as (T1 & _). rewrite <-T1 in Htr.
  specialize (Hh _ Htr). destruct (h _) as [r s']. by eapply record_spans_traced.
Qed.

(** A handler that answers does so when it is wrapped. *)
Lemma transparent_answers late (wrap : ∀ {A}, string → go tw_state A → go tw_state A) {A} name
    (h : go tw_state A) f d :
  transparent late (@wrap) → answers h f d → answers (wrap name h) f d.
Proof.
  intros Hw Hh s Htr. destruct (Hw A name h s) as (before & after & i & j & -> & Hn).
  destruct (record_spans_spec late before i s) as (T1 & _ & N1). rewrite <-T1 in Htr.
  destruct (Hh _ Htr) as (seen & s1 & -> & Ht & N2 & Hs).
  destruct (record_spans_spec late after j s1) as (_ & _ & N3).
  exists seen, (record_spans late after j s1). split; [done|].
  split; [by eapply record_spans_traced|]. unfold took, took_at in *. lia.
Qed.

Lemma answers_bind_ret {A B} (m : go tw_state A) (g : A → B) f d :
  answers m f d → answers (x ← m; mret (g x)) (λ seen, g (f seen)) d.
Proof.
  intros Hm s Htr. destruct (Hm s Htr) as (seen & s' & Hs & ?). exists seen, s'.
  unfold mbind, go_bind. by rewrite Hs.
Qed.

Lemma keeps_ret {A} (a : A) : keeps (mret a).
Proof. intros s _. apply traced_refl. Qed.

Lemma keeps_bind_ret {A B} (m : go tw_state A) (f : A → B) :
  keeps m → keeps (x ← m; mret (f x)).
Proof.
  intros Hm s Htr. specialize (Hm s Htr). unfold mbind, go_bind. by destruct (m s) as [[] ?].
Qed.

Lemma traced_in_span name es s s1 :
  tw_tracer s1 = tw_tracer s → tw_spans s1 = tw_spans s ++ SpanStarted name :: es → nested es →
  traced s (add_spans [SpanEnded name] s1).
Proof.
  intros Ht E N. split; [done|]. exists (SpanStarted name :: es ++ [SpanEnded name]).
  split; [|by apply nested_in_span]. cbn. by rewrite E, <-app_assoc.
Qed.

Lemma handleTCPConnection_keeps {C} `{Conn C} late SetDeadline (c : C) :
  keeps (handleTCPConnection late SetDeadline c).
Proof.
  intros s [tr Htr]. unfold handleTCPConnection, time_Now, in_span, deferred, gets, modify, mbind, go_bind.
  rewrite Htr. cbn [deref mret go_ret]. destruct (bee_conversation _) as [ok c'].
  cbn [snd fst]. set (st := if ok then _ else _).
  apply (traced_in_span _ [st; ConnectionClosed]); [done| |].
  - cbn. by rewrite <-!app_assoc.
  - intros stack. subst st. by destruct ok.
Qed.

Section bee_theorems.
Context (late : nat → N) `{HealthLaws} `{!HTTPInstrumentation} `{!HTTPInstrumentationLaws late} `{UnicodeTables}.
Context (draw : nat → Z → Z) (shuffle : nat → list Z → list Z) (trigReduce : float64 → Z * float64).
(** What [math/rand] documents. *)
Hypothesis draw_range : ∀ i n, 0 < n → 0 ≤ draw i n < n.
Hypothesis shuffle_permutes : ∀ i l, shuffle i l ≡ₚ l.
Context (Listen : string → option error).

#[local] Abbreviation request_health := (request_health draw shuffle late trigReduce Listen).
#[local] Abbreviation request_hello := (request_hello draw shuffle late trigReduce Listen).
#[local] Abbreviation bee_running := (bee_running draw shuffle late trigReduce Listen).

Definition health_mux : ServeMux BeeHandler := [mkRoute "/healthz" [literal "healthz"] HealthzHandler].
Definition hello_mux : ServeMux BeeHandler := [mkRoute "/hello" [literal "hello"] HelloHandler].

(** The state [main] waits in, but for the clock and the spans. *)
Record serving (b : BeeState) : Prop := {
  serving_tracer : is_Some (tw_tracer (bee_vars b));
  serving_health : httpServerForHealth b = Some (mkServer ":2624" 0 0 0 0 0 health_mux);
  serving_hello : httpServerForHello b = Some (mkServer ":6560" 0 0 0 0 0 hello_mux);
  serving_goroutines : bee_goroutines b =
    (match Listen "localhost:3936" with
     | Some _ => []
     | None => [ServeGRPC "localhost:3936"
                  (SetServingStatus "health" HealthCheckResponse_SERVING health_NewServer)]
     end) ++ [ServeHealth; ServeHello;
              AcceptLoop (match Listen ":5248" with Some _ => None | None => Some ":5248" end)] }.

Lemma bee_main_serving now : ∃ b, bee_main Listen None (init_bee now) = (Returned true, b) ∧ serving b.
Proof.
  unfold bee_main, startGRPCEndpoint. change ("localhost:" +:+ Sprint_int 3936) with "localhost:3936".
  destruct (Listen "localhost:3936") eqn:E; (eexists; split; [reflexivity|]);
    (split; [by eexists|done..|by rewrite E]).
Qed.

Lemma handler_func_keeps h : keeps (handler_func draw shuffle late trigReduce h).
Proof.
  destruct h; [apply keeps_ret|]. intros s Htr. cbn [handler_func].
  by destruct (healthEndpoint_run draw shuffle draw_range shuffle_permutes late trigReduce s Htr)
    as (r & s' & -> & _ & _ & Ht & _).
Qed.

Lemma serve_mux_keeps run mux path :
  (∀ pattern h, keeps (run pattern h)) → keeps (serve_mux run mux path).
Proof.
  intros Hr. unfold serve_mux.
  destruct (mux_route mux path); [apply keeps_bind_ret, Hr|apply keeps_ret..].
Qed.

Lemma on_vars_serving {A} (m : go tw_state A) b : keeps m → serving b → serving (on_vars m b).2.
Proof.
  intros Hm [Ht Hhealth Hhello Hgs]. unfold on_vars. specialize (Hm _ Ht).
  destruct (m (bee_vars b)) as [r v]. split; [|done..]. cbn in *. by rewrite (traced_tracer _ _ Hm).
Qed.

Lemma on_vars_ret_serving {A B} (m : go tw_state A) (f : A → B) b :
  keeps m → serving b → serving (mbind (M := go BeeState) (λ x, mret (f x)) (on_vars m) b).2.
Proof.
  intros Hm Hb. pose proof (on_vars_serving m b Hm Hb). unfold mbind, go_bind.
  by destruct (on_vars m b) as [[] ?].
Qed.

Lemma request_health_serving path b : serving b → serving (request_health path b).2.
Proof.
  intros Hb. unfold request_health, gets. unfold mbind at 1 2, go_bind at 1 2.
  rewrite (serving_health b Hb). cbn [deref mret go_ret Addr server_Handler].
  destruct (Listen ":2624"); [done|]. apply on_vars_ret_serving; [|done].
  apply (transparent_keeps late); [apply NewHandler_transparent|]. apply serve_mux_keeps. intros pattern h.
  apply (transparent_keeps late); [apply WithRouteTag_transparent|apply handler_func_keeps].
Qed.

Lemma request_hello_serving path b : serving b → serving (request_hello path b).2.
Proof.
  intros Hb. unfold request_hello, gets. unfold mbind at 1 2, go_bind at 1 2.
  rewrite (serving_hello b Hb). cbn [deref mret go_ret Addr server_Handler].
  destruct (Listen ":6560"); [done|]. apply on_vars_ret_serving; [|done].
  apply serve_mux_keeps. intros pattern h. apply handler_func_keeps.
Qed.

Lemma running_serving now b : bee_running now b → serving b.
Proof.
  intros (b0 & Hm & Hr). destruct (bee_main_serving now) as (b1 & Hm' & Hb).
  rewrite Hm' in Hm. injection Hm as <-. clear Hm'. revert Hb.
  induction Hr as [|b1 b2 b3 Hs _ IH]; [done|]. intros Hb. apply IH. destruct Hs.
  - by apply request_health_serving.
  - by apply request_hello_serving.
  - apply on_vars_serving; [apply handleTCPConnection_keeps|done].
  - by destruct Hb.
Qed.

(** The answer to [GET /healthz]. *)
Definition health_response (now : Z) : Response :=
  if wave_at_zero (time_Unix now) then mkResponse (Some 408) (line "unhealthy")
  else mkResponse (Some 200) (line "healthy").

Lemma healthEndpoint_answers :
  answers (handler_func draw shuffle late trigReduce HealthzHandler) health_response Second.
Proof.
  intros s Htr. cbn [handler_func].
  destruct (healthEndpoint_run draw shuffle draw_range shuffle_permutes late trigReduce s Htr)
    as (r & s' & -> & T1 & T2 & Ht & ->).
  exists (seen_at late s), s'. split_and!; [done..| |]; unfold seen_at, took, took_at in *; cbn in *; lia.
Qed.

Lemma request_healthz b :
  Listen ":2624" = None → serving b →
  ∃ seen b', request_health "/healthz" b = (Returned (Some (inl (health_response seen))), b') ∧
    traced (bee_vars b) (bee_vars b') ∧ took Second (bee_vars b) (bee_vars b') ∧
    tw_now (bee_vars b) ≤ seen ≤ tw_now (bee_vars b) + (tw_late (bee_vars b') - tw_late (bee_vars b)).
Proof.
  intros Hl Hb. unfold request_health, gets. unfold mbind at 1 2, go_bind at 1 2.
  rewrite (serving_health b Hb). cbn [deref mret go_ret Addr server_Handler]. rewrite Hl.
  unfold serve_mux. change (mux_route health_mux "/healthz") with (Routed "/healthz" HealthzHandler).
  cbv iota beta. pose proof (transparent_answers late (@otelhttp_NewHandler _) "/" _ _ _
    NewHandler_transparent (answers_bind_ret _ (inl (B := routing BeeHandler)) _ _
      (transparent_answers late (@otelhttp_WithRouteTag _) "/healthz" _ _ _
         WithRouteTag_transparent healthEndpoint_answers))) as Ha.
  destruct (Ha _ (serving_tracer b Hb)) as (seen & v' & Hv & Ht & Hn & Hs). exists seen.
  eexists. unfold mbind at 1, go_bind at 1. unfold on_vars. rewrite Hv. split; [reflexivity|]. done.
Qed.

(** ** Theorems *)

(** C19: bee's health endpoint always answers, and spends at most a second on
    it.  In every state of a bee that was started, whatever it was asked
    before and however late its sleeps return, [GET /healthz] is answered 408
    exactly if the time at which it looked at the clock, which is the time of
    the request but for delays, is in the one second out of a hundred in which
    the sine wave, as computed in float64, is at zero, and 200 in all the
    others; besides the delays no more than a second goes by; every span that
    was started is ended, and bee goes on running. *)
Theorem bee_health_bounds start b :
  Listen ":2624" = None → bee_running start b →
  let now := tw_now (bee_vars b) in
  ∃ r b' seen, request_health "/healthz" b = (Returned (Some (inl r)), b') ∧
    let lateness := tw_late (bee_vars b') - tw_late (bee_vars b) in
    now ≤ seen ≤ now + lateness ∧ now ≤ tw_now (bee_vars b') ≤ now + Second + lateness ∧
    status r = (if wave_at_zero (time_Unix seen) then 408 else 200) ∧
    traced (bee_vars b) (bee_vars b') ∧ bee_running start b'.
Proof.
  intros Hl Hb now.
  destruct (request_healthz b Hl (running_serving _ _ Hb)) as (seen & b' & Hr & Ht & Hn & Hs).
  exists (health_response seen), b', seen. split; [done|]. unfold took, took_at in Hn.
  do 2 (split; [lia|]). split; [unfold health_response; by destruct (wave_at_zero _)|].
  split; [done|]. destruct Hb as (b0 & Hm & Hsteps). exists b0. split; [done|].
  eapply rtc_r; [exact Hsteps|]. replace b' with (request_health "/healthz" b).2 by (by rewrite Hr).
  constructor.
Qed.

(** C38: when bee cannot listen on its TCP port it crashes.  The error of
    [Listen] is only logged; [main] goes on to wait for a signal, and the
    accept loop it started calls [Accept] on a nil listener at its first turn,
    whatever [Accept] would answer. *)
Theorem bee_tcp_listen_error_panics {C} start e (accepted : error + C) :
  Listen ":5248" = Some e →
  ∃ b listener, bee_main Listen None (init_bee start) = (Returned true, b) ∧
    AcceptLoop listener ∈ bee_goroutines b ∧
    (accept_turn listener accepted b).1 = Panicked NilDereference.
Proof.
  intros He. destruct (bee_main_serving start) as (b & Hm & Hb). exists b, None. split; [done|].
  split; [|done]. rewrite (serving_goroutines b Hb), He.
  apply elem_of_app. right. do 2 right. left.
Qed.

(** *** Bunny's probes against bee *)

Context `{MetricLibs} `{Regexp}.

(** The sample configurations of the probes. *)
Definition sample_http headers : HTTPGetActionConfig :=
  mkHTTPGetActionConfig (Some "localhost") headers 2624 "healthz" None.
Definition sample_grpc : GRPCActionConfig := mkGRPCActionConfig 3936 (Some "health").
Definition sample_tcp greeting answer : TCPSocketActionConfig :=
  mkTCPSocketActionConfig 5248 (Some "localhost") (Some (bee_expect greeting answer)).

(** The network between a run of a probe and a bee. *)
Section against_bee.
Context (sent transit connect over : Z) (b : BeeState) (n : Network).
Hypothesis bee_reached : reaches draw shuffle late trigReduce Listen sent transit connect over b n.
Hypothesis bee_serves : serving b.

Lemma bee_get_healthz requests :
  Listen ":2624" = None → (0 < requests)%nat →
  ∃ seen b', request_health "/healthz" b = (Returned (Some (inl (health_response seen))), b') ∧
    bee_get draw shuffle late trigReduce Listen requests ":2624" "/healthz" b
    = (Returned (Some (status (health_response seen))), b') ∧
    took Second (bee_vars b) (bee_vars b') ∧
    tw_now (bee_vars b) ≤ seen ≤ tw_now (bee_vars b) + (tw_late (bee_vars b') - tw_late (bee_vars b)).
Proof.
  intros Hl Hn. destruct requests as [|requests]; [lia|].
  destruct (request_healthz b Hl bee_serves) as (seen & b' & Hr & _ & Ht & Hs).
  exists seen, b'. split; [done|]. split; [|done]. cbn [bee_get]. unfold gets.
  unfold mbind at 1 2 3, go_bind at 1 2 3.
  rewrite (serving_health b bee_serves), (serving_hello b bee_serves), decide_True by done. by rewrite Hr.
Qed.

Lemma http_probe_against_bee tr name m timeout headers now0 now1 now2 t :
  Listen ":2624" = None → now0 ≤ sent →
  ∃ http r b' seen, newHTTPGetAction (Some (sample_http headers)) timeout = Some http ∧
    request_health "/healthz" b = (Returned (Some (inl r)), b') ∧
    let lateness := tw_late (bee_vars b') - tw_late (bee_vars b) in
    status r = (if wave_at_zero (time_Unix seen) then 408 else 200) ∧
    tw_now (bee_vars b) ≤ seen ≤ tw_now (bee_vars b) + lateness ∧
    (tw_now (bee_vars b) + Second + lateness + transit ≤ now0 + timeout →
     ∃ t', HTTPGetAction_act (Some tr) http name m (λ _, None) (net_Do n) now0 now1 now2 t
             = (Returned tt, t') ∧
       let ok := status r =? 200 in
       calls t' = calls t ++ run_calls "http-probe" name m [] ok now1 now2
                    (ok_status ok "probe failed - http response not ok: 408") []).
Proof.
  intros Hl Hsent.
  set (hs := foldl (λ m hc, <[header_Name hc := header_Value hc]> m) ∅ headers : gmap string (list string)).
  set (http := mkHTTPGetAction hs "http://localhost:2624/healthz"
                 (mkClient timeout true true true newDialer) timeout).
  destruct (bee_get_healthz 10 Hl ltac:(lia)) as (seen & b' & Hr & Hget & Ht & Hs).
  exists http, (health_response seen), b', seen. split; [reflexivity|]. split; [done|].
  split; [unfold health_response; by destruct (wave_at_zero _)|]. split; [done|]. intros Hin.
  unfold took, took_at in Ht.
  destruct (HTTPGetAction_act_run tr http name m (λ _, None) (net_Do n) now0 now1 now2 t None
    (Some (status (health_response seen))) eq_refl) as (t' & Hact & Hcalls).
  - eapply Do_answered; [exact bee_reached|reflexivity|exact Hget|..]; unfold time_Add; cbn; lia.
  - done.
  - exists t'. split; [exact Hact|]. rewrite Hcalls. unfold health_response. by destruct (wave_at_zero _).
Qed.

Lemma grpc_probe_against_bee tr name m timeout now0 now1 now2 t :
  Listen "localhost:3936" = None → over ≤ now0 + timeout →
  ∃ grpc t', newGRPCAction (Some sample_grpc) timeout = Some grpc ∧
    GRPCAction_act (Some tr) grpc name m (net_grpc_Dial n) (net_grpc_Check n "localhost:3936")
      now0 now1 now2 t = (Returned tt, t') ∧
    calls t' = calls t ++ run_calls "grpc-probe" name m [] true now1 now2
                 (ok_status true "") [ConnClose].
Proof.
  intros Hl Hover. eexists. destruct (GRPCAction_act_run tr (mkGRPCAction 3936 (Some "health") timeout)
    name m (net_grpc_Dial n) (net_grpc_Check n "localhost:3936") now0 now1 now2 t) as (t' & Hact & Hcalls).
  exists t'. split; [reflexivity|]. split; [exact Hact|]. rewrite Hcalls.
  cbn [grpcaction_port grpcaction_service grpcaction_timeout]. unfold time_Add.
  change (JoinHostPort "localhost" (Sprint_int 3936)) with "localhost:3936".
  assert (find_grpc "localhost:3936" (bee_goroutines b) = Some
    (SetServingStatus "health" HealthCheckResponse_SERVING health_NewServer)) as Hf.
  { by rewrite (serving_goroutines b bee_serves), Hl. }
  rewrite (grpc_connected _ _ _ _ _ _ _ _ _ _ _ bee_reached _ _ _ _ Hf Hover).
  rewrite (grpc_answered _ _ _ _ _ _ _ _ _ _ _ bee_reached _ _ (Some "health") _ _ Hf
    Hover (Check_set _ _)).
  by rewrite bool_decide_eq_true_2.
Qed.

Lemma tcp_probe_against_bee tr name m timeout greeting answer re1 re2 now0 now1 now2 now3 t :
  Listen ":5248" = None → over ≤ now0 + timeout → connect ≤ time_Sub (now0 + timeout) now2 →
  regexp_Compile greeting = inr re1 → regexp_Compile answer = inr re2 →
  MatchString re1 (to_bytes "yellow") = true →
  MatchString re2 (to_bytes "can't complain") = true →
  ∃ tcp t', newTCPSocketAction (Some (sample_tcp greeting answer)) timeout = Returned (Some tcp) ∧
    TCPSocketAction_act (Some tr) tcp name m (net_Dial n) (net_SetDeadline n) now0 now1 now2 now3 t
      = (Returned tt, t') ∧
    calls t' = calls t ++ run_calls "tcp-socket-probe" name m
                 (step_event <$> bee_steps re1 re2) true now1 now3 (ok_status true "") [ConnClose].
Proof.
  intros Hl Hover Hconn R1 R2 M1 M2.
  set (a := mkTCPSocketAction "localhost" 5248 (bee_steps re1 re2) timeout).
  exists a. set (t1 := add_calls ([SpanStart "tcp-socket-probe";
    SpanSetAttribute "bunny-probe-name" name] ++ attempt_calls m) t).
  destruct (bee_expect_run re1 re2 t1 M1 M2) as (c & t2 & He & _).
  destruct (expect_run (mkBeeConn [] 0) (bee_steps re1 re2) t1) as (ok & c' & k & He' & Hall).
  rewrite He in He'. injection He' as <- <- Et2. rewrite (Hall eq_refl) in Et2.
  destruct (TCPSocketAction_act_connected tr a name m (net_Dial n) (net_SetDeadline n)
    now0 now1 now2 now3 t (mkBeeConn [] 0) true c (step_event <$> bee_steps re1 re2))
    as (t' & Hact & Hcalls); [done| | |].
  - apply (tcp_connected _ _ _ _ _ _ _ _ _ _ _ bee_reached); [|done]. unfold accepts.
    rewrite (serving_goroutines b bee_serves), Hl, existsb_app. cbn [existsb]. by rewrite orb_true_r.
  - rewrite (tcp_in_time _ _ _ _ _ _ _ _ _ _ _ bee_reached) by done. fold t1. rewrite <-Et2. exact He.
  - exists t'. split; [|by split]. unfold newTCPSocketAction.
    change (default [] _) with (bee_expect greeting answer).
    by rewrite (bee_expect_steps _ _ _ _ R1 R2).
Qed.

End against_bee.

(** C18: the sample probes pass against bee.  Whatever the clients and the
    network do, as long as they keep what they document: in every state of a
    bee that was started with its addresses free, a run of the gRPC probe and
    one of the TCP probe of the sample configuration, built by bunny from that
    configuration, count a success and set the status OK if their exchanges
    are over before the deadline of the run.  When the deadline leaves a
    second for bee besides its delays and the network, a run of the HTTP probe
    does so exactly if bee answers 200, which it does in all but one second
    out of a hundred; it counts no success when bee answers 408. *)
Theorem sample_probes_pass tr name m start b n sent transit connect over timeout headers
    greeting answer re1 re2 now0 now1 now2 now3 t :
  (∀ address, Listen address = None) → bee_running start b →
  reaches draw shuffle late trigReduce Listen sent transit connect over b n →
  now0 ≤ sent → over ≤ now0 + timeout → connect ≤ time_Sub (now0 + timeout) now2 →
  regexp_Compile greeting = inr re1 → regexp_Compile answer = inr re2 →
  MatchString re1 (to_bytes "yellow") = true →
  MatchString re2 (to_bytes "can't complain") = true →
  ∃ http grpc tcp t2 t3 r b' seen,
    newHTTPGetAction (Some (sample_http headers)) timeout = Some http ∧
    newGRPCAction (Some sample_grpc) timeout = Some grpc ∧
    newTCPSocketAction (Some (sample_tcp greeting answer)) timeout = Returned (Some tcp) ∧
    request_health "/healthz" b = (Returned (Some (inl r)), b') ∧
    let lateness := tw_late (bee_vars b') - tw_late (bee_vars b) in
    status r = (if wave_at_zero (time_Unix seen) then 408 else 200) ∧
    tw_now (bee_vars b) ≤ seen ≤ tw_now (bee_vars b) + lateness ∧
    (tw_now (bee_vars b) + Second + lateness + transit ≤ now0 + timeout →
     ∃ t1, HTTPGetAction_act (Some tr) http name m (λ _, None) (net_Do n) now0 now1 now2 t
             = (Returned tt, t1) ∧
       let ok := status r =? 200 in
       calls t1 = calls t ++ run_calls "http-probe" name m [] ok now1 now2
                    (ok_status ok "probe failed - http response not ok: 408") []) ∧
    GRPCAction_act (Some tr) grpc name m (net_grpc_Dial n) (net_grpc_Check n "localhost:3936")
      now0 now1 now2 t = (Returned tt, t2) ∧
    calls t2 = calls t ++ run_calls "grpc-probe" name m [] true now1 now2
                 (ok_status true "") [ConnClose] ∧
    TCPSocketAction_act (Some tr) tcp name m (net_Dial n) (net_SetDeadline n) now0 now1 now2 now3 t
      = (Returned tt, t3) ∧
    calls t3 = calls t ++ run_calls "tcp-socket-probe" name m
                 (step_event <$> bee_steps re1 re2) true now1 now3 (ok_status true "") [ConnClose].
Proof.
  intros Hl Hb%running_serving Hn Hsent Hover Hconn R1 R2 M1 M2.
  destruct (http_probe_against_bee _ _ _ _ b n Hn Hb tr name m timeout headers now0 now1 now2 t)
    as (h & r & b' & seen & ? & ? & ? & ? & ?); [done..|].
  destruct (grpc_probe_against_bee _ _ _ _ b n Hn Hb tr name m timeout now0 now1 now2 t)
    as (g & t2 & ? & ? & ?); [done..|].
  destruct (tcp_probe_against_bee _ _ _ _ b n Hn Hb tr name m timeout greeting answer re1 re2
    now0 now1 now2 now3 t) as (tc & t3 & ? & ? & ?); [done..|].
  by exists h, g, tc, t2, t3, r, b', seen.
Qed.

End bee_theorems.

(** ** Instances and witnesses *)

(** The statuses in a map. *)
#[local] Instance map_health : HealthLib := {|
  health_server := gmap string Z;
  health_NewServer := {[ "" := HealthCheckResponse_SERVING ]};
  SetServingStatus service st m := <[service := st]> m;
  health_Check m service :=
    match m !! service with Some st => inr st | None => inl (ExternalError "unknown service") end |}.

#[local] Existing Instance ascii_tables.

#[local] Instance map_health_laws : HealthLaws.
Proof. intros service st. cbn. by rewrite lookup_insert_eq. Defined.

(** A span around every handler, and nothing for the route. *)
#[local] Instance span_instrumentation : HTTPInstrumentation := {|
  otelhttp_NewHandler A name h s :=
    let '(r, s') := h (add_spans [SpanStarted name] s) in (r, add_spans [SpanEnded name] s');
  otelhttp_WithRouteTag A name h s := h s |}.

#[local] Instance span_instrumentation_laws late : HTTPInstrumentationLaws late.
Proof.
  split.
  - intros A name h s. exists [SpanStarted name], [SpanEnded name], 0%nat, 0%nat. split; [done|].
    intros es. apply nested_in_span.
  - intros A name h s. exists [], [], 0%nat, 0%nat. unfold record_spans, add_spans. cbn. split.
    + destruct s as [??????]. cbn. rewrite app_nil_r. destruct (h _) as [r [??????]]. cbn.
      by rewrite app_nil_r.
    + intros es. by rewrite app_nil_r.
Defined.

Definition half (i : nat) (n : Z) : Z := n / 2.
Definition keep_order (i : nat) (l : list Z) : list Z := l.
Definition no_reduction (x : float64) : Z * float64 := (0, x).
Definition free (address : string) : option error := None.

Definition taken (address : string) : option error :=
  if String.eqb address ":5248" then Some (ExternalError "in use") else None.

Lemma half_range i n : 0 < n → 0 ≤ half i n < n.
Proof. apply (half_draw_range i). Qed.

(** A microsecond goes by whenever the clock is looked at. *)
Definition microsecond (i : nat) : N := 1000.

(** Bees that were started in a second in which the wave is at zero, and in
    another one. *)
Definition bee_at (now : Z) : BeeState := (bee_main free None (init_bee now)).2.

Lemma sample_bee now : bee_running half keep_order microsecond no_reduction free now (bee_at now).
Proof. eexists. split; [reflexivity|apply rtc_refl]. Qed.

Lemma bee_health_bounds_witness :
  ∃ r b', request_health half keep_order microsecond no_reduction free "/healthz"
            (bee_at (1700000075 * Second)) = (Returned (Some (inl r)), b') ∧
    tw_now (bee_vars b') ≤ 1700000076 * Second + tw_late (bee_vars b').
Proof.
  destruct (bee_health_bounds microsecond half keep_order no_reduction half_range
    (λ _ _, reflexivity _) free _ _ eq_refl (sample_bee (1700000075 * Second)))
    as (r & b' & seen & Hr & _ & Hn & _).
  exists r, b'. split; [exact Hr|]. destruct Hn as [_ Hn].
  change (tw_now (bee_vars (bee_at _))) with (1700000075 * Second) in Hn.
  change (tw_late (bee_vars (bee_at _))) with 0 in Hn. unfold Second in *. lia.
Defined.

Lemma bee_tcp_listen_error_panics_witness :
  ∃ b listener,
    bee_main taken None (init_bee 0)
      = (Returned true, b) ∧
    (accept_turn listener (inr tt : error + unit) b).1 = Panicked NilDereference.
Proof.
  destruct (bee_tcp_listen_error_panics
    taken 0
    (ExternalError "in use") (inr tt : error + unit) eq_refl) as (b & l & Hm & _ & Hp).
  exists b, l. split; [exact Hm|exact Hp].
Defined.

(** A network that keeps what it documents, for any bee: exchanges that are not
    over in time fail. *)
Definition bee_network (sent transit connect over : Z) (b : BeeState) : Network :=
  let in_time (done : bool) {A} (a : A) (e : A) := if done then a else e in
  let late := (Some DeadlineExceeded, None) in
  mkNetwork
    (λ deadline client url headers,
      match local_url url with
      | None => (Some (ExternalError "no such host"), None)
      | Some (address, path) =>
          match bee_get half keep_order microsecond no_reduction free 10 address path b with
          | (Returned (Some code), b') =>
              let got := tw_now (bee_vars b') + transit in
              in_time ((got <=? deadline) && (got <=? sent + client_Timeout client)) (None, Some code) late
          | _ => (Some EOF, None)
          end
      end)
    (λ deadline dialer target,
      match find_grpc target (bee_goroutines b) with
      | Some _ => in_time (over <=? deadline) None (Some DeadlineExceeded)
      | None => Some DeadlineExceeded
      end)
    (λ target deadline service,
      match find_grpc target (bee_goroutines b) with
      | Some h => in_time (over <=? deadline)
                    (match health_Check h (default "" service) with
                     | inl e => (Some e, None) | inr st => (None, Some st) end) late
      | None => late
      end)
    (λ dialer target,
      if accepts target (bee_goroutines b) && (connect <=? dialer_Timeout dialer)
      then inr (mkBeeConn [] 0) else inl DeadlineExceeded)
    (λ deadline c, if over <=? deadline then c else mkBeeConn [] 1000).

Lemma bee_network_reaches sent transit connect over b :
  reaches half keep_order microsecond no_reduction free sent transit connect over b
    (bee_network sent transit connect over b).
Proof.
  split; cbn [net_Do net_grpc_Dial net_grpc_Check net_Dial net_SetDeadline bee_network].
  - intros deadline client url headers address path code b' -> -> Hd Hc. cbv zeta.
    by rewrite (proj2 (Z.leb_le _ _) Hd), (proj2 (Z.leb_le _ _) Hc).
  - intros deadline dialer target h -> Ho. by rewrite (proj2 (Z.leb_le _ _) Ho).
  - intros deadline target service h st -> Ho ->. by rewrite (proj2 (Z.leb_le _ _) Ho).
  - intros dialer target -> Hc. by rewrite (proj2 (Z.leb_le _ _) Hc).
  - intros deadline c Ho. by rewrite (proj2 (Z.leb_le _ _) Ho).
Qed.

(** The run of the HTTP probe starts with the bee, which is given two seconds. *)
Lemma sample_probes_pass_witness :
  let start := 1700000000 * Second in
  let n := bee_network start 1000 1000 (start + 5000) (bee_at start) in
  ∃ http t1, newHTTPGetAction (Some (sample_http [])) (2 * Second) = Some http ∧
    @HTTPGetAction_act toy_libs (Some "bunny/egress") http "delta" measure_ars (λ _, None) (net_Do n)
      start start start toy_telem = (Returned tt, t1).
Proof.
  cbv zeta. set (start := 1700000000 * Second).
  destruct (@sample_probes_pass microsecond map_health map_health_laws span_instrumentation
    (span_instrumentation_laws microsecond) ascii_tables half keep_order no_reduction half_range
    (λ _ _, reflexivity _) free toy_libs simple_regexp "bunny/egress" "delta" measure_ars start
    (bee_at start) (bee_network start 1000 1000 (start + 5000) (bee_at start)) start 1000 1000 (start + 5000)
    (2 * Second) [] "yellow" "can.* complain" _ _ start start start start toy_telem (λ _, eq_refl)
    (sample_bee start) (bee_network_reaches _ _ _ _ _) (Z.le_refl _)
    ltac:(unfold Second; lia) ltac:(by apply Z.leb_le; vm_compute)
    eq_refl eq_refl eq_refl eq_refl)
    as (h & g & tcp & t2 & t3 & r & b' & seen & Hh & _ & _ & Hr & _ & _ & Hhttp & _).
  destruct Hhttp as (t1 & Hact & _).
  - replace b' with (request_health half keep_order microsecond no_reduction free "/healthz"
      (bee_at start)).2 by (by rewrite Hr).
    apply Z.leb_le. vm_compute. reflexivity.
  - exists h, t1. split; [exact Hh|exact Hact].
Defined.
